(* ===== verification/_CoqProject ===== *)
-Q . S2P
Prelude.v
Arith.v
Decode.v
Hart.v
Pmp.v
InsnsIM.v
InsnsB.v
Alu.v
Bitperm.v
InsnsK.v
Crypto.v
CacheSim.v
CacheModel.v
Devices.v
Clint.v
Plic.v
Mmu.v
MmuTlb.v
Memory.v
MmuWalk.v
MmuFrame.v
InsnsA.v
Zicfiss.v
InsnsC.v
WellFormed.v
Zcmp.v
Opcodes.v
DebugModule.v
DebugProps.v
DebugBus.v
DebugAbstract.v
Jtag.v
Csr.v
Status.v
Trap.v
TrapSpec.v
TrapProps.v
Interrupt.v
XRet.v
HartProps.v
