(* ===== verification/Prelude.v ===== *)
(** * A verification library for the Spike RISC-V simulator

    Spike executes RISC-V programs one instruction at a time.  A hart
    ([processor_t]) fetches through the MMU ([mmu_t]), runs the body of the
    instruction (a file of [src/riscv/insns/], expanded in the template of
    [insn_template.cc]), and takes traps and interrupts; the MMU translates
    addresses, checks physical memory protection, keeps a software TLB, tells
    the memory tracers and the timing caches of each access, and reaches memory
    and devices over the bus of [devices.cc]; the interrupt controllers drive the
    interrupt-pending bits of the harts.  A debugger comes in beside them: JTAG
    pins clock the TAP controller [jtag_dtm_t], which scans reads and writes into the
    debug module [debug_module_t]; that one halts harts and assembles small
    programs which the halted hart fetches from it over the bus.  The library
    models this core and proves it correct against specifications written in the
    terms of the architecture.

    ** How the model is written

    Integers of C are [Z] in the range of their type, and every conversion that
    may wrap is written out with [wrap] and [swrap] (this file).  An instruction
    body, an MMU operation and a trap are functions in the monad [Hart.M]: state
    passing, where a C++ exception is a value [inl t] and leaves the state as it
    was reached.  Code outside the modelled files enters as a record or class
    that the definitions take as an argument: [Mmu.platform] (the physical
    address space of [simif_t], tracers, timing caches, trigger module),
    [Devices.abstract_device], [Csr.csr_world] (where the trap registers live,
    and the MMU to flush), [Csr.hart_cfg] (the configuration at reset),
    [DebugModule.simif] (the harts and the memory port behind the debug module).
    The debug module and the TAP are functions in the monad [DebugModule.D], state
    passing where [None] stands for an index out of an array, a failed assertion
    or an exception of [at].  Loops
    with a bound are recursive on it; the others take fuel, and a theorem says
    that the fuel is enough: the scan of [Arith.cto] gets the width of the
    type, the page loops of [Devices.mem_load] and [mem_store] the length of the
    access (each round consumes a byte at least), the chain of miss handlers of
    [CacheSim.access] the number of caches (a handler has a smaller index than
    its client), the walk of [Mmu.walk_loop] the number of levels of the mode.

    ** Files, the code they model, and what they prove

    - This file: integers at their width, bits, lists; notations of scope
      [cint_scope] ([x +! y] is 64-bit addition and so on); shared tactics.
    - [Arith.v]: [arith.h].  Products, saturation, bit counts, rotations and the
      crossbar permutation compute what their names say, on every operand.
    - [Decode.v]: [decode.h].  Immediates of all formats are read back from the
      scattered bits; field macros; the Zcmp lists and frames.
    - [Hart.v]: [decode_macros.h], [insn_template.cc], [trap.h] and the part of
      [processor.h] an instruction sees.  [InsnsIM.v], [InsnsB.v], [InsnsK.v],
      [InsnsA.v], [InsnsC.v], [Zicfiss.v]: one definition per file of
      [src/riscv/insns/] for I, M, Zicond, Zimop, Zicfilp, Zba, Zbb, Zbc, Zbs,
      Zbk*, Zkn*, Zks*, loads and stores, A, Zabha, Zacas, Zalasr, hypervisor
      accesses, cache blocks, Zca, Zcb, Zcmop, Zclsd, Zcmp, Zicfiss.
    - [Alu.v], [Bitperm.v], [Crypto.v]: the computational instructions refine an
      abstract ALU, name their result bits, and compose into AES, SHA-512 and
      SM4; [InsnsC.v]: a compressed instruction is the instruction it
      abbreviates; [WellFormed.v]: canonical registers are an invariant of all
      bodies, with the frame logic of [MmuFrame.v] for the memory operations.
    - [Pmp.v]: the PMP registers of [csrs.cc] and the two checks of [mmu.cc].
      The check is the rule of the manual with the Smepmp table, a locked entry
      stays, a page accepted for the TLB has one answer for all its accesses.
    - [Mmu.v]: [mmu.h], [mmu.cc].  [MmuWalk.v]: the page walk is exact.
      [MmuTlb.v]: with translation off the TLB is transparent.  [Memory.v]: the
      accesses refine a flat byte memory with one reservation.
    - [Csr.v]: the status, trap, delegation and interrupt registers of
      [csrs.cc]; [Status.v]: these registers bit by bit.  [Trap.v]:
      [take_trap], [take_interrupt], [set_privilege] and [enter_debug_mode] of
      [processor.cc] and the privileged instructions.  [TrapSpec.v]: what a
      trap does, per level, and that [take_trap] does it; [TrapProps.v]: the
      invariant of the hart; [Interrupt.v]: the choice of the interrupt;
      [XRet.v]: returns undo traps; [HartProps.v] collects the theorems.
    - [CacheSim.v]: [cachesim.cc], the caches of the memory tracers;
      [CacheModel.v]: [cache_model.cc], [cache_hierarchy.cc], the timing caches.
    - [Devices.v]: the bus, memory and ROM; [Clint.v]: [clint.cc]; [Plic.v]:
      [plic.cc].  Memory refines an array, the bus routes to the right device,
      and the interrupt lines equal what the registers say, in every sequence of
      accesses and events.
    - [Zcmp.v]: a pop restores what the push of the same list saved.
    - [Opcodes.v]: the encoders of [opcodes.h]; the words decode to their operands.
      [DebugModule.v]: [debug_module.cc], every operation.  [DebugProps.v]: from
      the constructor no sequence of operations leaves an array or fails an
      assertion, for a configuration [config_ok] (a program buffer of at most 16
      words, hart identifiers below 1024).  [DebugAbstract.v]: the program of an
      abstract command, run on a 64-bit hart by [debug_run] with fuel 12 (it has
      at most eleven words and no loop), moves the register between hart and
      data words and changes nothing else but scratch registers.  [DebugBus.v]:
      a system bus read completes after twenty run-test cycles.
    - [Jtag.v]: [jtag_dtm.cc].  Five clocks with TMS high reset the TAP; the scan of
      a DMI word performs exactly that read or write, and the next one returns the answer.

    ** What is not modelled

    The vector unit and its instructions, floating point and [softfloat],
    [fdt] (vendored), the trigger module, the CSRs other than those of [Pmp.v]
    and [Csr.v] and the instructions that access them by number, the text of
    logs, of the disassembler and of the device tree, and everything whose
    substance is input and output of the host: [fesvr], sockets (also
    [remote_bitbang.cc], which turns characters into calls of [set_pins]), command
    lines, configuration files, the event loop of [sim.cc].  The harts that execute
    an abstract command are the small machine [DebugAbstract.debug_hart], not
    [Hart.v], because the CSR instructions it needs reach CSRs by number.  The instruction
    cache of the MMU is a memo of the fetch and is left out, as are big-endian
    targets.  The theorems about the TLB and the flat memory are for execution
    with translation off: with translation on, a page table that is edited
    without a fence is rightly not seen by the TLB. *)

From Stdlib Require Export ZArith Lia Btauto.
From stdpp Require Export base numbers list option.

#[global] Open Scope Z_scope.

(** ** Machine integers

    A C value of an unsigned [w]-bit type is a [Z] in [[0, 2^w)]; a value of a
    signed type is a [Z] in [[-2^(w-1), 2^(w-1))].  Conversions are the only
    places where wrap-around happens, exactly as in the source. *)

(** Conversion to an unsigned [w]-bit type. *)
Definition wrap (w z : Z) : Z := z mod 2 ^ w.

(** Conversion to a signed two's complement [w]-bit type. *)
Definition swrap (w z : Z) : Z := (z + 2 ^ (w - 1)) mod 2 ^ w - 2 ^ (w - 1).

Declare Scope cint_scope.
Delimit Scope cint_scope with C.
Abbreviation u8 := (wrap 8) (only parsing).
Abbreviation u16 := (wrap 16) (only parsing).
Abbreviation u32 := (wrap 32) (only parsing).
Abbreviation u64 := (wrap 64) (only parsing).
Abbreviation s8 := (swrap 8) (only parsing).
Abbreviation s16 := (swrap 16) (only parsing).
Abbreviation s32 := (swrap 32) (only parsing).
Abbreviation s64 := (swrap 64) (only parsing).

(** C arithmetic on [uint64_t]. *)
Notation "a +! b" := (wrap 64 (a + b)) (at level 50, left associativity) : cint_scope.
Notation "a -! b" := (wrap 64 (a - b)) (at level 50, left associativity) : cint_scope.
Notation "a *! b" := (wrap 64 (a * b)) (at level 40, left associativity) : cint_scope.
Notation "a <<! n" := (wrap 64 (Z.shiftl a n)) (at level 51, left associativity) : cint_scope.
Notation "a >>! n" := (Z.shiftr a n) (at level 51, left associativity) : cint_scope.
Notation "a &! b" := (Z.land a b) (at level 52, left associativity) : cint_scope.
Notation "a |! b" := (Z.lor a b) (at level 54, left associativity) : cint_scope.
Notation "a ^! b" := (Z.lxor a b) (at level 53, left associativity) : cint_scope.
Notation "~! a" := (wrap 64 (Z.lnot a)) (at level 30, right associativity) : cint_scope.

(** C's integer value of a truth value, and truth value of an integer. *)
Abbreviation b2z := Z.b2z (only parsing).
Definition z2b (z : Z) : bool := negb (z =? 0).

Section wrap_lemmas.
Context (w : Z) (Hw : 0 <= w).

Lemma wrap_range z : 0 <= wrap w z < 2 ^ w.
Proof using Hw. unfold wrap. apply Z.mod_pos_bound. lia. Qed.

Lemma wrap_small z : 0 <= z < 2 ^ w -> wrap w z = z.
Proof using. intros. unfold wrap. by apply Z.mod_small. Qed.

Lemma wrap_wrap z : wrap w (wrap w z) = wrap w z.
Proof using Hw. apply wrap_small, wrap_range. Qed.

Lemma wrap_testbit z i : 0 <= i -> Z.testbit (wrap w z) i = (i <? w) && Z.testbit z i.
Proof using Hw.
  intros Hi. unfold wrap. destruct (Z.ltb_spec i w).
  - rewrite Z.mod_pow2_bits_low; auto with lia.
  - rewrite Z.mod_pow2_bits_high; auto with lia.
Qed.

Lemma wrap_add_l a b : wrap w (wrap w a + b) = wrap w (a + b).
Proof using. unfold wrap. apply Zplus_mod_idemp_l. Qed.
Lemma wrap_add_r a b : wrap w (a + wrap w b) = wrap w (a + b).
Proof using. unfold wrap. apply Zplus_mod_idemp_r. Qed.
Lemma wrap_sub_l a b : wrap w (wrap w a - b) = wrap w (a - b).
Proof using. unfold wrap. apply Zminus_mod_idemp_l. Qed.
Lemma wrap_sub_r a b : wrap w (a - wrap w b) = wrap w (a - b).
Proof using. unfold wrap. apply Zminus_mod_idemp_r. Qed.
Lemma wrap_mul_l a b : wrap w (wrap w a * b) = wrap w (a * b).
Proof using. unfold wrap. apply Zmult_mod_idemp_l. Qed.
Lemma wrap_mul_r a b : wrap w (a * wrap w b) = wrap w (a * b).
Proof using. unfold wrap. apply Zmult_mod_idemp_r. Qed.
End wrap_lemmas.

(** A value below [2^w] has no bit at or above [w]. *)
Lemma testbit_high w x i : 0 <= x < 2 ^ w -> w <= i -> Z.testbit x i = false.
Proof.
  intros Hx Hi. destruct (Z.ltb_spec w 0).
  - rewrite Z.pow_neg_r in Hx by lia. lia.
  - rewrite <- (Z.mod_small x (2 ^ w)) by lia. apply Z.mod_pow2_bits_high. lia.
Qed.

Section swrap_lemmas.
Context (w : Z) (Hw : 0 < w).

Lemma pow2_split : 2 ^ w = 2 * 2 ^ (w - 1).
Proof using Hw. rewrite <- Z.pow_succ_r by lia. f_equal. lia. Qed.

Lemma swrap_range z : - 2 ^ (w - 1) <= swrap w z < 2 ^ (w - 1).
Proof using Hw.
  unfold swrap. pose proof pow2_split.
  pose proof (Z.mod_pos_bound (z + 2 ^ (w - 1)) (2 ^ w)). lia.
Qed.

Lemma swrap_small z : - 2 ^ (w - 1) <= z < 2 ^ (w - 1) -> swrap w z = z.
Proof using Hw.
  intros. unfold swrap. pose proof pow2_split. rewrite Z.mod_small; lia.
Qed.

(** The signed reading of a representative in the unsigned range. *)
Lemma swrap_unsigned z : 0 <= z < 2 ^ w ->
  swrap w z = if z <? 2 ^ (w - 1) then z else z - 2 ^ w.
Proof using Hw.
  intros. pose proof pow2_split. unfold swrap. destruct (Z.ltb_spec z (2 ^ (w - 1))).
  - rewrite Z.mod_small; lia.
  - rewrite <- (Z.mod_unique (z + 2 ^ (w - 1)) (2 ^ w) 1 (z + 2 ^ (w - 1) - 2 ^ w)); lia.
Qed.

Lemma wrap_swrap z : wrap w (swrap w z) = wrap w z.
Proof using Hw.
  unfold swrap. fold (wrap w (z + 2 ^ (w - 1))).
  rewrite wrap_sub_l. f_equal. lia.
Qed.

Lemma swrap_wrap z : swrap w (wrap w z) = swrap w z.
Proof using Hw. unfold swrap, wrap. by rewrite Zplus_mod_idemp_l. Qed.

Lemma swrap_swrap z : swrap w (swrap w z) = swrap w z.
Proof using Hw. apply swrap_small, swrap_range. Qed.

(** Signed values are equal when they agree modulo [2^w]. *)
Lemma swrap_inj a b : - 2 ^ (w - 1) <= b < 2 ^ (w - 1) ->
  wrap w a = wrap w b -> swrap w a = b.
Proof using Hw.
  intros Hb Hab. rewrite <- (swrap_wrap a), Hab, swrap_wrap. by apply swrap_small.
Qed.

Lemma swrap_testbit z i : 0 <= i ->
  Z.testbit (swrap w z) i = Z.testbit z (Z.min i (w - 1)).
Proof using Hw.
  intros Hi. pose proof pow2_split as Hp.
  pose proof (wrap_range w ltac:(lia) z) as Hr.
  assert (Hlow : forall j, 0 <= j < w -> Z.testbit z j = Z.testbit (wrap w z) j).
  { intros j Hj. rewrite wrap_testbit by lia. by replace (j <? w) with true by lia. }
  rewrite <- (swrap_wrap z), swrap_unsigned by done. rewrite Hlow by lia.
  destruct (Z.ltb_spec (wrap w z) (2 ^ (w - 1))) as [Hpos|Hneg].
  - destruct (Z.ltb_spec i (w - 1)); [by rewrite Z.min_l by lia|].
    rewrite Z.min_r by lia.
    by rewrite !(testbit_high (w - 1)) by lia.
  - replace (wrap w z - 2 ^ w) with (Z.lnot (2 ^ w - 1 - wrap w z))
      by (unfold Z.lnot; lia).
    rewrite Z.lnot_spec by lia.
    destruct (Z.ltb_spec i (w - 1)).
    + rewrite Z.min_l by lia.
      replace (2 ^ w - 1 - wrap w z) with (Z.lnot (wrap w z - 2 ^ w))
        by (unfold Z.lnot; lia).
      rewrite Z.lnot_spec, negb_involutive by lia.
      rewrite <- (Z.mod_pow2_bits_low (wrap w z - 2 ^ w) w i) by lia.
      replace (wrap w z - 2 ^ w) with (wrap w z + (-1) * 2 ^ w) by lia.
      by rewrite Z_mod_plus_full, Z.mod_pow2_bits_low by lia.
    + rewrite Z.min_r by lia. rewrite (testbit_high (w - 1)) by lia. simpl.
      symmetry. apply Z.testbit_true; [lia|].
      by rewrite <- (Z.div_unique (wrap w z) (2 ^ (w - 1)) 1 (wrap w z - 2 ^ (w - 1))) by lia.
Qed.
End swrap_lemmas.

(** ** Bitwise reasoning *)

Lemma lnot_spec' a i : 0 <= i -> Z.testbit (Z.lnot a) i = negb (Z.testbit a i).
Proof. apply Z.lnot_spec. Qed.

Lemma shiftr_range n a k : 0 <= k -> 0 <= a < 2 ^ n -> 0 <= Z.shiftr a k < 2 ^ n.
Proof.
  intros Hk Ha. rewrite Z.shiftr_div_pow2 by lia.
  pose proof (Z.pow_pos_nonneg 2 k). split; [apply Z.div_pos; lia|].
  apply Z.div_lt_upper_bound; nia.
Qed.

(** A number all of whose bits at or above [n] are clear is below [2^n]. *)
Lemma range_of_bits n a : 0 <= n ->
  (forall i, n <= i -> Z.testbit a i = false) -> 0 <= a < 2 ^ n.
Proof.
  intros Hn H.
  assert (E : wrap n a = a).
  { apply Z.bits_inj'. intros i Hi. rewrite wrap_testbit by done.
    destruct (Z.ltb_spec i n); [done|]. by rewrite H by done. }
  rewrite <- E. by apply wrap_range.
Qed.

Lemma land_range n a b : 0 <= n -> 0 <= b < 2 ^ n -> 0 <= Z.land a b < 2 ^ n.
Proof.
  intros Hn Hb. apply range_of_bits; [done|]. intros i Hi.
  by rewrite Z.land_spec, (testbit_high n b), andb_false_r.
Qed.

Lemma lor_range n a b : 0 <= n -> 0 <= a < 2 ^ n -> 0 <= b < 2 ^ n -> 0 <= Z.lor a b < 2 ^ n.
Proof.
  intros Hn Ha Hb. apply range_of_bits; [done|]. intros i Hi.
  by rewrite Z.lor_spec, (testbit_high n a), (testbit_high n b).
Qed.

Lemma lxor_range n a b : 0 <= n -> 0 <= a < 2 ^ n -> 0 <= b < 2 ^ n -> 0 <= Z.lxor a b < 2 ^ n.
Proof.
  intros Hn Ha Hb. apply range_of_bits; [done|]. intros i Hi.
  by rewrite Z.lxor_spec, (testbit_high n a), (testbit_high n b).
Qed.

(** The sign of a converted value is its top bit. *)
(** Testing one bit with a mask. *)
Lemma land_pow2 x m : 0 <= m -> z2b (Z.land x (2 ^ m)) = Z.testbit x m.
Proof.
  intros Hm. unfold z2b. destruct (Z.eqb_spec (Z.land x (2 ^ m)) 0) as [E|E]; simpl.
  - assert (Z.testbit (Z.land x (2 ^ m)) m = false) as Hb by (rewrite E; apply Z.bits_0).
    rewrite Z.land_spec, Z.pow2_bits_true, andb_true_r in Hb by lia. done.
  - symmetry. destruct (Z.testbit x m) eqn:Hx; [done|]. destruct E. apply Z.bits_inj'.
    intros i Hi. rewrite Z.land_spec, Z.bits_0, Z.pow2_bits_eqb by lia.
    destruct (Z.eqb_spec m i) as [<-|]; [by rewrite Hx|apply andb_false_r].
Qed.

Lemma swrap_neg_bit w z : 0 < w -> (swrap w z <? 0) = Z.testbit z (w - 1).
Proof.
  intros Hw. pose proof (swrap_testbit w Hw z (w - 1) ltac:(lia)) as H.
  rewrite Z.min_r in H by lia. rewrite <- H. pose proof (swrap_range w Hw z) as Hr.
  destruct (Z.ltb_spec (swrap w z) 0) as [Hn|Hp].
  - assert (E : Z.lnot (Z.lnot (swrap w z)) = swrap w z) by apply Z.lnot_involutive.
    rewrite <- E, Z.lnot_spec by lia. rewrite (testbit_high (w - 1)); [done| |lia].
    unfold Z.lnot. lia.
  - symmetry. apply (testbit_high (w - 1)); lia.
Qed.

Lemma disjoint_lor_add a b : Z.land a b = 0 -> Z.lor a b = a + b.
Proof. intros H. pose proof (Z.add_lor_land a b). lia. Qed.

(** Joining a high part and a low part of [n] bits. *)
Lemma lor_shiftl_add n h l : 0 <= n -> 0 <= l < 2 ^ n -> Z.lor (Z.shiftl h n) l = h * 2 ^ n + l.
Proof.
  intros Hn Hl. rewrite disjoint_lor_add; [by rewrite Z.shiftl_mul_pow2|].
  apply Z.bits_inj'. intros i Hi. rewrite Z.land_spec, Z.bits_0, Z.shiftl_spec by done.
  destruct (Z.ltb_spec i n).
  - by rewrite Z.testbit_neg_r by lia.
  - by rewrite (testbit_high n l), andb_false_r by lia.
Qed.

Create Rewrite HintDb zbits.
#[export] Hint Rewrite Z.land_spec Z.lor_spec Z.lxor_spec Z.bits_0 : zbits.
#[export] Hint Rewrite Z.lnot_spec Z.shiftr_spec Z.shiftl_spec wrap_testbit swrap_testbit
  Z.ones_spec_low Z.ones_spec_high Z.testbit_neg_r using lia : zbits.

(** [zbits] proves an equation between bit expressions pointwise. *)
Ltac zbits_split :=
  match goal with
  | |- context [?a <? ?b] => destruct (Z.ltb_spec a b); try lia
  | |- context [Z.min ?a ?b] => destruct (Z.min_spec a b) as [[? ->]|[? ->]]; try lia
  | |- context [Z.testbit _ (?i - ?n)] =>
      match goal with
      | _ : n <= i |- _ => fail 1
      | _ : i < n |- _ => fail 1
      | _ => destruct (Z.lt_ge_cases i n)
      end
  end.
Ltac zbits :=
  apply Z.bits_inj'; let i := fresh "i" in let Hi := fresh "Hi" in intros i Hi;
  repeat (autorewrite with zbits; try zbits_split);
  autorewrite with zbits; simpl; try reflexivity; try btauto; try lia.

(** Sums over an initial segment, used to state what counting loops compute. *)
Fixpoint zsum (n : nat) (f : Z -> Z) : Z :=
  match n with
  | O => 0
  | S n' => zsum n' f + f (Z.of_nat n')
  end.

Lemma zsum_ext n f g : (forall i, 0 <= i < Z.of_nat n -> f i = g i) -> zsum n f = zsum n g.
Proof.
  induction n as [|n IH]; simpl; intros H; [done|].
  rewrite IH by (intros; apply H; lia). rewrite H by lia. done.
Qed.

Lemma zsum_add n f g : zsum n (fun i => f i + g i) = zsum n f + zsum n g.
Proof. induction n as [|n IH]; simpl; [done|]. rewrite IH. lia. Qed.

Lemma zsum_shift n f : zsum (S n) f = f 0 + zsum n (fun i => f (i + 1)).
Proof.
  induction n as [|n IH]; [cbn [zsum]; change (Z.of_nat 0) with 0; lia|].
  change (zsum (S (S n)) f) with (zsum (S n) f + f (Z.of_nat (S n))). rewrite IH.
  cbn [zsum]. replace (Z.of_nat (S n)) with (Z.of_nat n + 1) by lia. lia.
Qed.

Lemma zsum_bounds n f lo hi : (forall i, 0 <= i < Z.of_nat n -> lo <= f i <= hi) ->
  Z.of_nat n * lo <= zsum n f <= Z.of_nat n * hi.
Proof.
  induction n as [|n IH]; [simpl; lia|]. intros H. cbn [zsum].
  specialize (IH ltac:(intros; apply H; lia)). specialize (H (Z.of_nat n) ltac:(lia)). nia.
Qed.

Lemma zsum_zero n f : (forall i, 0 <= i < Z.of_nat n -> f i = 0) -> zsum n f = 0.
Proof.
  induction n as [|n IH]; intros H; [done|]. cbn [zsum]. rewrite IH by (intros; apply H; lia).
  rewrite H; lia.
Qed.
