(* ===== verification/Arith.v ===== *)
(** * Integer arithmetic helpers: [src/riscv/arith.h]

    Every helper the instruction semantics call: the widening multiplications
    built from 32-bit limbs, saturating arithmetic, bit-field extraction,
    population count, leading and trailing zero counts, the crossbar
    permutation and rotations.  Arguments of type [uint64_t] are [Z] in
    [[0, 2^64)]; [assert] failures are [None]. *)

From S2P Require Import Prelude.
Local Open Scope cint_scope.

Definition UINT64_MAX : Z := 2 ^ 64 - 1.
Definition INT64_MIN : Z := - 2 ^ 63.

Definition mulhu (a b : Z) : Z :=
  let a0 := u32 a in let a1 := a >>! 32 in
  let b0 := u32 b in let b1 := b >>! 32 in
  let t := a1 *! b0 +! ((a0 *! b0) >>! 32) in
  let y1 := u32 t in
  let y2 := u32 (t >>! 32) in
  let t := a0 *! b1 +! y1 in
  let t := a1 *! b1 +! y2 +! (t >>! 32) in
  let y2 := u32 t in
  let y3 := u32 (t >>! 32) in
  (y3 <<! 32) |! y2.

(** [a < 0 ? -a : a] as the [uint64_t] argument of [mulhu]. *)
Definition mulh (a b : Z) : Z :=
  let negate := xorb (a <? 0) (b <? 0) in
  let res := mulhu (u64 (if a <? 0 then - a else a)) (u64 (if b <? 0 then - b else b)) in
  s64 (if negate then ~! res +! b2z (u64 a *! u64 b =? 0) else res).

Definition mulhsu (a b : Z) : Z :=
  let negate := a <? 0 in
  let res := mulhu (u64 (if a <? 0 then - a else a)) b in
  s64 (if negate then ~! res +! b2z (u64 a *! b =? 0) else res).

(** The saturating operations are templates over a signed type [T] of [w] bits
    and its unsigned companion [UT]; they return the result and [sat]. *)
Definition sat_add (w x y : Z) : Z * bool :=
  let ux := wrap w x in
  let uy := wrap w y in
  let res := wrap w (ux + uy) in
  let sh := w - 1 in
  let ux := wrap w ((ux >>! sh) + (Z.shiftl 1 sh - 1)) in
  if 0 <=? swrap w ((ux ^! uy) |! Z.lnot (uy ^! res))
  then (swrap w ux, true)
  else (swrap w res, false).

Definition sat_add3 (w x y z : Z) : Z * bool :=
  let '(a, b) := if ((y ^! z) &! (x ^! z)) <? 0 then (z, y) else (y, z) in
  let '(res, sat1) := sat_add w x a in
  let '(res, sat2) := sat_add w res b in
  (res, sat1 || sat2).

Definition sat_sub (w x y : Z) : Z * bool :=
  let ux := wrap w x in
  let uy := wrap w y in
  let res := wrap w (ux - uy) in
  let sh := w - 1 in
  let ux := wrap w ((ux >>! sh) + (Z.shiftl 1 sh - 1)) in
  if swrap w ((ux ^! uy) &! (ux ^! res)) <? 0
  then (swrap w ux, true)
  else (swrap w res, false).

Definition sat_addu (w x y : Z) : Z * bool :=
  let res := wrap w (x + y) in
  let sat := res <? x in
  (wrap w (res |! - b2z (res <? x)), sat).

Definition sat_subu (w x y : Z) : Z * bool :=
  let res := wrap w (x - y) in
  let sat := negb (res <=? x) in
  (wrap w (res &! - b2z (res <=? x)), sat).

Definition extract64 (val pos len : Z) : option Z :=
  if (0 <=? pos) && (0 <? len) && (len <=? 64 - pos)
  then Some ((val >>! pos) &! ((~! 0) >>! (64 - len)))
  else None.

Definition make_mask64 (pos len : Z) : option Z :=
  if (0 <=? pos) && (0 <? len) && (pos <? 64) && (len <=? 64)
  then Some ((UINT64_MAX >>! (64 - len)) <<! pos)
  else None.

Definition popcount (val : Z) : Z :=
  let val := (val &! 0x5555555555555555) +! ((val >>!  1) &! 0x5555555555555555) in
  let val := (val &! 0x3333333333333333) +! ((val >>!  2) &! 0x3333333333333333) in
  let val := (val &! 0x0f0f0f0f0f0f0f0f) +! ((val >>!  4) &! 0x0f0f0f0f0f0f0f0f) in
  let val := (val &! 0x00ff00ff00ff00ff) +! ((val >>!  8) &! 0x00ff00ff00ff00ff) in
  let val := (val &! 0x0000ffff0000ffff) +! ((val >>! 16) &! 0x0000ffff0000ffff) in
  let val := (val &! 0x00000000ffffffff) +! ((val >>! 32) &! 0x00000000ffffffff) in
  s32 val.

(** One binary-search step of [ctz] and [clz]: [if (test) res += n, val = shifted]. *)
Definition ctz_step (n : Z) (s : Z * Z) : Z * Z :=
  let '(res, val) := s in
  if val <<! (64 - n) =? 0 then (res + n, val >>! n) else (res, val).

Definition ctz (val : Z) : Z :=
  if val =? 0 then 0 else
  let s := ctz_step 32 (0, val) in
  let s := ctz_step 16 s in
  let s := ctz_step 8 s in
  let s := ctz_step 4 s in
  let s := ctz_step 2 s in
  let s := ctz_step 1 s in
  fst s.

Definition clz_step (n : Z) (s : Z * Z) : Z * Z :=
  let '(res, val) := s in
  if val >>! (64 - n) =? 0 then (res + n, val <<! n) else (res, val).

Definition clz (val : Z) : Z :=
  if val =? 0 then 0 else
  let s := clz_step 32 (0, val) in
  let s := clz_step 16 s in
  let s := clz_step 8 s in
  let s := clz_step 4 s in
  let s := clz_step 2 s in
  let s := clz_step 1 s in
  fst s.

(** [while ((val & 1) == 1) val >>= 1, res++]; [None] is out of fuel. *)
Fixpoint cto_loop (fuel : nat) (val res : Z) : option Z :=
  match fuel with
  | O => None
  | S fuel => if val &! 1 =? 1 then cto_loop fuel (val >>! 1) (res + 1) else Some res
  end.
Definition cto (val : Z) : option Z := cto_loop 65 val 0.

Definition log2 (val : Z) : Z := if val =? 0 then 0 else 63 - clz val.

(** [for (i = 0; i < len; i += sz)] of [xperm], counted by [k]: [i = k * sz]. *)
Fixpoint xperm_loop (fuel : nat) (rs1 rs2 sz_log2 sz mask len i r : Z) : Z :=
  match fuel with
  | O => r
  | S fuel =>
      if i <? len then
        let pos := ((rs2 >>! i) &! mask) <<! sz_log2 in
        let r := if pos <? len then r |! (((rs1 >>! pos) &! mask) <<! i) else r in
        xperm_loop fuel rs1 rs2 sz_log2 sz mask len (i + sz) r
      else r
  end.

Definition xperm (rs1 rs2 sz_log2 len : Z) : Z :=
  let sz := 1 <<! sz_log2 in
  let mask := (1 <<! sz) -! 1 in
  xperm_loop 64 rs1 rs2 sz_log2 sz mask len 0 0.

Definition rotate_right (w x shiftamt : Z) : Z :=
  let mask := w - 1 in
  let rshift := shiftamt &! mask in
  let lshift := (u64 (- rshift)) &! mask in
  wrap w (Z.shiftl x lshift) |! (x >>! rshift).

Definition rotate_left (w x shiftamt : Z) : Z :=
  let mask := w - 1 in
  let lshift := shiftamt &! mask in
  let rshift := (u64 (- lshift)) &! mask in
  wrap w (Z.shiftl x lshift) |! (x >>! rshift).

(** ** Widening multiplication *)

Lemma limb_split a : a = Z.shiftr a 32 * 2 ^ 32 + wrap 32 a.
Proof. rewrite Z.shiftr_div_pow2 by lia. unfold wrap. pose proof (Z.div_mod a (2 ^ 32)). lia. Qed.

Lemma limb_hi_range a : 0 <= a < 2 ^ 64 -> 0 <= Z.shiftr a 32 < 2 ^ 32.
Proof.
  intros. rewrite Z.shiftr_div_pow2 by lia.
  split; [apply Z.div_pos; lia | apply Z.div_lt_upper_bound; lia].
Qed.

Lemma limb_join t : 0 <= t < 2 ^ 64 ->
  Z.lor (wrap 64 (Z.shiftl (wrap 32 (Z.shiftr t 32)) 32)) (wrap 32 t) = t.
Proof.
  intros Ht. pose proof (limb_hi_range t Ht). pose proof (wrap_range 32 ltac:(lia) t).
  rewrite (wrap_small 32 (Z.shiftr t 32)) by lia.
  rewrite wrap_small by (rewrite Z.shiftl_mul_pow2 by lia; lia).
  rewrite lor_shiftl_add by lia. by rewrite <- limb_split.
Qed.

Lemma limb_mul_add x y c :
  0 <= x < 2 ^ 32 -> 0 <= y < 2 ^ 32 -> 0 <= c < 2 ^ 32 -> 0 <= x * y + c < 2 ^ 64.
Proof. nia. Qed.

Lemma limb_mul_add2 x y c d : 0 <= x < 2 ^ 32 -> 0 <= y < 2 ^ 32 ->
  0 <= c < 2 ^ 32 -> 0 <= d < 2 ^ 32 -> 0 <= x * y + c + d < 2 ^ 64.
Proof. nia. Qed.

(** The limb-based [mulhu] is the high half of the exact product. *)
Lemma mulhu_high a b : 0 <= a < 2 ^ 64 -> 0 <= b < 2 ^ 64 -> mulhu a b = a * b / 2 ^ 64.
Proof.
  intros Ha Hb. unfold mulhu.
  pose proof (limb_split a) as Ea. pose proof (limb_split b) as Eb.
  pose proof (limb_hi_range a Ha) as Ha1. pose proof (limb_hi_range b Hb) as Hb1.
  pose proof (wrap_range 32 ltac:(lia) a) as Ha0. pose proof (wrap_range 32 ltac:(lia) b) as Hb0.
  set (a1 := Z.shiftr a 32) in *. set (b1 := Z.shiftr b 32) in *.
  set (a0 := wrap 32 a) in *. set (b0 := wrap 32 b) in *.
  pose proof (limb_mul_add a0 b0 0 Ha0 Hb0 ltac:(lia)) as Hp. rewrite Z.add_0_r in Hp.
  rewrite (wrap_small 64 (a0 * b0)) by done.
  pose proof (limb_split (a0 * b0)) as Ep. pose proof (limb_hi_range _ Hp) as Hp1.
  pose proof (wrap_range 32 ltac:(lia) (a0 * b0)) as Hp0.
  set (p1 := Z.shiftr (a0 * b0) 32) in *. set (p0 := wrap 32 (a0 * b0)) in *.
  rewrite (wrap_small 64 (a1 * b0)) by (pose proof (limb_mul_add a1 b0 0 Ha1 Hb0); lia).
  pose proof (limb_mul_add a1 b0 p1 Ha1 Hb0 Hp1) as Ht1.
  rewrite (wrap_small 64 (a1 * b0 + p1)) by done.
  pose proof (limb_split (a1 * b0 + p1)) as Et1. pose proof (limb_hi_range _ Ht1) as Hy2.
  pose proof (wrap_range 32 ltac:(lia) (a1 * b0 + p1)) as Hy1.
  rewrite (wrap_small 32 (Z.shiftr (a1 * b0 + p1) 32)) by done.
  set (y2 := Z.shiftr (a1 * b0 + p1) 32) in *. set (y1 := wrap 32 (a1 * b0 + p1)) in *.
  rewrite (wrap_small 64 (a0 * b1)) by (pose proof (limb_mul_add a0 b1 0 Ha0 Hb1); lia).
  pose proof (limb_mul_add a0 b1 y1 Ha0 Hb1 Hy1) as Ht2.
  rewrite (wrap_small 64 (a0 * b1 + y1)) by done.
  pose proof (limb_split (a0 * b1 + y1)) as Et2. pose proof (limb_hi_range _ Ht2) as Hq.
  pose proof (wrap_range 32 ltac:(lia) (a0 * b1 + y1)) as Hr.
  set (q := Z.shiftr (a0 * b1 + y1) 32) in *. set (r := wrap 32 (a0 * b1 + y1)) in *.
  rewrite (wrap_small 64 (a1 * b1)) by (pose proof (limb_mul_add a1 b1 0 Ha1 Hb1); lia).
  rewrite (wrap_small 64 (a1 * b1 + y2)) by (pose proof (limb_mul_add a1 b1 y2 Ha1 Hb1); lia).
  pose proof (limb_mul_add2 a1 b1 y2 q Ha1 Hb1 Hy2 Hq) as Ht3.
  rewrite (wrap_small 64 (a1 * b1 + y2 + q)) by done.
  rewrite limb_join by done.
  apply (Z.div_unique _ _ _ (r * 2 ^ 32 + p0)); [lia|]. rewrite Ea, Eb. nia.
Qed.

Lemma mulhu_range a b : 0 <= a < 2 ^ 64 -> 0 <= b < 2 ^ 64 -> 0 <= mulhu a b < 2 ^ 64.
Proof.
  intros. rewrite mulhu_high by done. split; [apply Z.div_pos; lia|].
  apply Z.div_lt_upper_bound; nia.
Qed.

(** The negation step shared by [mulh] and [mulhsu]: turning the high half of a
    magnitude product into the high half of its negation. *)
Lemma neg_high p : 0 <= p < 2 ^ 127 ->
  s64 (wrap 64 (wrap 64 (Z.lnot (p / 2 ^ 64)) + b2z (wrap 64 (- p) =? 0))) = - p / 2 ^ 64.
Proof.
  intros Hp. rewrite wrap_add_l, swrap_wrap by lia.
  pose proof (Z.div_mod p (2 ^ 64) ltac:(lia)) as E.
  pose proof (Z.mod_pos_bound p (2 ^ 64) ltac:(lia)) as Hr.
  assert (Hq : 0 <= p / 2 ^ 64 < 2 ^ 63) by
    (split; [apply Z.div_pos; lia | apply Z.div_lt_upper_bound; lia]).
  unfold Z.lnot, wrap. destruct (Z.eqb_spec (- p mod 2 ^ 64) 0) as [Hz|Hz]; cbn [Z.b2z].
  - apply Z.mod_divide in Hz; [|lia]. destruct Hz as [k Hk].
    rewrite swrap_small by lia. rewrite Hk, Z.div_mul by lia.
    assert (p / 2 ^ 64 = - k); [|lia]. replace p with ((- k) * 2 ^ 64) by lia.
    by rewrite Z.div_mul.
  - assert (p mod 2 ^ 64 <> 0).
    { intros H0. apply Hz. rewrite Z.mod_opp_l_z; lia. }
    rewrite swrap_small by lia.
    apply (Z.div_unique _ _ _ (2 ^ 64 - p mod 2 ^ 64)); lia.
Qed.

Lemma wrap_mul_congr a b a' b' :
  wrap 64 (a * b) = wrap 64 (a' * b') -> wrap 64 (wrap 64 a * wrap 64 b) = wrap 64 (a' * b').
Proof. intros <-. by rewrite wrap_mul_l, wrap_mul_r. Qed.

Lemma mulh_high a b : - 2 ^ 63 <= a < 2 ^ 63 -> - 2 ^ 63 <= b < 2 ^ 63 ->
  mulh a b = a * b / 2 ^ 64.
Proof.
  intros Ha Hb. unfold mulh.
  assert (Ha' : 0 <= (if a <? 0 then - a else a) <= 2 ^ 63) by (destruct (Z.ltb_spec a 0); lia).
  assert (Hb' : 0 <= (if b <? 0 then - b else b) <= 2 ^ 63) by (destruct (Z.ltb_spec b 0); lia).
  rewrite (wrap_small 64 (if a <? 0 then _ else _)), (wrap_small 64 (if b <? 0 then _ else _)) by lia.
  rewrite mulhu_high by lia.
  destruct (Z.ltb_spec a 0), (Z.ltb_spec b 0); cbn [xorb];
    rewrite ?(wrap_mul_congr a b a b) by done.
  - rewrite swrap_small; [f_equal; lia| |].
    all: replace (- a * - b) with (a * b) by ring.
    all: assert (0 <= a * b / 2 ^ 64 < 2 ^ 63); [|lia].
    all: split; [apply Z.div_pos; nia | apply Z.div_lt_upper_bound; nia].
  - replace (a * b) with (- (- a * b)) by ring. apply neg_high. nia.
  - replace (a * b) with (- (a * - b)) by ring. apply neg_high. nia.
  - rewrite swrap_small; [done| |].
    all: assert (0 <= a * b / 2 ^ 64 < 2 ^ 63); [|lia].
    all: split; [apply Z.div_pos; nia | apply Z.div_lt_upper_bound; nia].
Qed.

Lemma mulhsu_high a b : - 2 ^ 63 <= a < 2 ^ 63 -> 0 <= b < 2 ^ 64 ->
  mulhsu a b = a * b / 2 ^ 64.
Proof.
  intros Ha Hb. unfold mulhsu.
  assert (Ha' : 0 <= (if a <? 0 then - a else a) <= 2 ^ 63) by (destruct (Z.ltb_spec a 0); lia).
  rewrite !(wrap_small 64 (if a <? 0 then _ else _)) by lia. rewrite mulhu_high by lia.
  destruct (Z.ltb_spec a 0).
  - rewrite wrap_mul_l. replace (a * b) with (- (- a * b)) by ring. apply neg_high. nia.
  - rewrite swrap_small; [done| |].
    all: assert (0 <= a * b / 2 ^ 64 < 2 ^ 63); [|lia].
    all: split; [apply Z.div_pos; nia | apply Z.div_lt_upper_bound; nia].
Qed.

(** ** Saturating arithmetic *)

(** The nearest value of a signed [w]-bit type, and whether a value fits it. *)
Definition clamp (w z : Z) : Z := Z.max (- 2 ^ (w - 1)) (Z.min (2 ^ (w - 1) - 1) z).
Definition fits (w z : Z) : bool := (- 2 ^ (w - 1) <=? z) && (z <? 2 ^ (w - 1)).
Definition signed (w z : Z) : Prop := - 2 ^ (w - 1) <= z < 2 ^ (w - 1).

Section saturation.
Context (w : Z) (Hw : 0 < w).

Lemma sign_bit x : signed w x -> Z.testbit (wrap w x) (w - 1) = (x <? 0).
Proof using Hw.
  intros Hx. rewrite <- swrap_neg_bit by done. by rewrite swrap_wrap, swrap_small.
Qed.

(** [(ux >> sh) + ((1 << sh) - 1)] is the saturated value on [x]'s side. *)
Lemma overflow_value x : signed w x ->
  wrap w (Z.shiftr (wrap w x) (w - 1) + (Z.shiftl 1 (w - 1) - 1)) =
  if x <? 0 then 2 ^ (w - 1) else 2 ^ (w - 1) - 1.
Proof using Hw.
  intros Hx. red in Hx. rewrite Z.shiftl_1_l, Z.shiftr_div_pow2 by lia.
  pose proof (pow2_split w Hw) as Hp. pose proof (Z.pow_pos_nonneg 2 (w - 1)).
  destruct (Z.ltb_spec x 0).
  - rewrite <- (Z.div_unique (wrap w x) (2 ^ (w - 1)) 1 (x + 2 ^ (w - 1))).
    + rewrite wrap_small by lia. lia.
    + lia.
    + unfold wrap. rewrite <- (Z.mod_unique x (2 ^ w) (-1) (x + 2 ^ w)) by lia. lia.
  - rewrite (wrap_small w x), Z.div_small by lia. rewrite wrap_small by lia. lia.
Qed.

Lemma overflow_signed x : signed w x ->
  swrap w (if x <? 0 then 2 ^ (w - 1) else 2 ^ (w - 1) - 1) =
    (if x <? 0 then - 2 ^ (w - 1) else 2 ^ (w - 1) - 1) /\
  Z.testbit (if x <? 0 then 2 ^ (w - 1) else 2 ^ (w - 1) - 1) (w - 1) = (x <? 0).
Proof using Hw.
  intros Hx. pose proof (pow2_split w Hw). pose proof (Z.pow_pos_nonneg 2 (w - 1)).
  assert (E : swrap w (if x <? 0 then 2 ^ (w - 1) else 2 ^ (w - 1) - 1) =
    (if x <? 0 then - 2 ^ (w - 1) else 2 ^ (w - 1) - 1)).
  { destruct (x <? 0); [rewrite swrap_unsigned by lia|rewrite swrap_small by lia; done].
    rewrite Z.ltb_irrefl. lia. }
  split; [done|]. rewrite <- swrap_neg_bit by done. rewrite E. destruct (x <? 0); lia.
Qed.

(** What the wrapped sum is, in the three ranges the exact sum can be in. *)
Lemma swrap_near z : - 2 ^ w <= z < 2 ^ w ->
  swrap w z = if z <? - 2 ^ (w - 1) then z + 2 ^ w
              else if z <? 2 ^ (w - 1) then z else z - 2 ^ w.
Proof using Hw.
  intros Hz. pose proof (pow2_split w Hw) as Hp.
  destruct (Z.ltb_spec z (- 2 ^ (w - 1))); [|destruct (Z.ltb_spec z (2 ^ (w - 1)))].
  - apply swrap_inj; [done|lia|]. unfold wrap.
    replace (z + 2 ^ w) with (z + 1 * 2 ^ w) by lia. by rewrite Z_mod_plus_full.
  - by apply swrap_small.
  - apply swrap_inj; [done|lia|]. unfold wrap.
    replace (z - 2 ^ w) with (z + (-1) * 2 ^ w) by lia. by rewrite Z_mod_plus_full.
Qed.

Lemma sat_add_clamp x y : signed w x -> signed w y ->
  sat_add w x y = (clamp w (x + y), negb (fits w (x + y))).
Proof using Hw.
  intros Hx Hy. unfold sat_add. rewrite overflow_value by done.
  destruct (overflow_signed x Hx) as [Es Eb]. rewrite Es.
  rewrite wrap_add_l, wrap_add_r.
  assert (Ec : (0 <=? swrap w (Z.lor (Z.lxor (if x <? 0 then 2 ^ (w - 1) else 2 ^ (w - 1) - 1)
      (wrap w y)) (Z.lnot (Z.lxor (wrap w y) (wrap w (x + y)))))) =
    Bool.eqb (x <? 0) (y <? 0) && xorb (y <? 0) (swrap w (x + y) <? 0)).
  { rewrite Z.leb_antisym, swrap_neg_bit by done.
    rewrite Z.lor_spec, Z.lnot_spec, !Z.lxor_spec by lia. rewrite Eb, sign_bit by done.
    rewrite <- (swrap_neg_bit w (wrap w (x + y))), swrap_wrap by done.
    by destruct (x <? 0), (y <? 0), (swrap w (x + y) <? 0). }
  rewrite Ec, swrap_wrap by done. clear Ec Es Eb. unfold clamp, fits, signed in *.
  pose proof (pow2_split w Hw). rewrite swrap_near by lia.
  destruct (Z.ltb_spec x 0), (Z.ltb_spec y 0);
    destruct (Z.ltb_spec (x + y) (- 2 ^ (w - 1))); try lia;
    destruct (Z.ltb_spec (x + y) (2 ^ (w - 1))); try lia;
    match goal with |- context [?t <? 0] => destruct (Z.ltb_spec t 0); try lia end;
    simpl; f_equal; lia.
Qed.

Lemma sat_sub_clamp x y : signed w x -> signed w y ->
  sat_sub w x y = (clamp w (x - y), negb (fits w (x - y))).
Proof using Hw.
  intros Hx Hy. unfold sat_sub. rewrite overflow_value by done.
  destruct (overflow_signed x Hx) as [Es Eb]. rewrite Es.
  rewrite wrap_sub_l, wrap_sub_r.
  rewrite swrap_neg_bit, Z.land_spec, !Z.lxor_spec by done.
  rewrite Eb, sign_bit by done.
  rewrite <- (swrap_neg_bit w (wrap w (x - y))), swrap_wrap by done.
  clear Es Eb. unfold clamp, fits, signed in *.
  pose proof (pow2_split w Hw). rewrite swrap_near by lia.
  destruct (Z.ltb_spec x 0), (Z.ltb_spec y 0);
    destruct (Z.ltb_spec (x - y) (- 2 ^ (w - 1))); try lia;
    destruct (Z.ltb_spec (x - y) (2 ^ (w - 1))); try lia;
    match goal with |- context [?t <? 0] => destruct (Z.ltb_spec t 0); try lia end;
    simpl; f_equal; lia.
Qed.

(** The operand swap of the three-operand form makes intermediate saturation
    harmless: the result is the clamp of the exact three-operand sum. *)
Lemma sat_add3_clamp x y z : signed w x -> signed w y -> signed w z ->
  sat_add3 w x y z = (clamp w (x + y + z), negb (fits w (x + y + z))).
Proof using Hw.
  intros Hx Hy Hz. unfold sat_add3.
  assert (Hs : forall a, signed w a -> (a <? 0) = Z.testbit a (w - 1)).
  { intros a Ha. rewrite <- swrap_neg_bit by done. by rewrite swrap_small by done. }
  assert (Hneg : (Z.land (Z.lxor y z) (Z.lxor x z) <? 0) =
    xorb (y <? 0) (z <? 0) && xorb (x <? 0) (z <? 0)).
  { assert (Hlz : forall a b, (Z.lxor a b <? 0) = xorb (a <? 0) (b <? 0)).
    { intros a b. pose proof (Z.lxor_nonneg a b).
      destruct (Z.ltb_spec (Z.lxor a b) 0), (Z.ltb_spec a 0), (Z.ltb_spec b 0); simpl; lia. }
    rewrite <- !Hlz. pose proof (Z.land_nonneg (Z.lxor y z) (Z.lxor x z)).
    destruct (Z.ltb_spec (Z.land (Z.lxor y z) (Z.lxor x z)) 0),
      (Z.ltb_spec (Z.lxor y z) 0), (Z.ltb_spec (Z.lxor x z) 0); simpl; lia. }
  rewrite Hneg. clear Hneg Hs. pose proof (pow2_split w Hw).
  pose proof (Z.pow_pos_nonneg 2 (w - 1)).
  destruct (xorb (y <? 0) (z <? 0) && xorb (x <? 0) (z <? 0)) eqn:E; cbv beta iota zeta.
  all: rewrite sat_add_clamp by done; rewrite sat_add_clamp;
    [|unfold clamp, signed; lia|done].
  all: unfold clamp, fits, signed in *;
    destruct (Z.ltb_spec x 0), (Z.ltb_spec y 0), (Z.ltb_spec z 0); simpl in E; try discriminate;
    f_equal; lia.
Qed.

Lemma neg_b2z_land (b : bool) a : Z.land a (- b2z b) = if b then a else 0.
Proof using. destruct b; cbn [Z.b2z]; [apply Z.land_m1_r|apply Z.land_0_r]. Qed.
Lemma neg_b2z_lor (b : bool) a : Z.lor a (- b2z b) = if b then -1 else a.
Proof using. destruct b; cbn [Z.b2z]; [apply Z.lor_m1_r|apply Z.lor_0_r]. Qed.

Lemma wrap_m1 : wrap w (-1) = 2 ^ w - 1.
Proof using Hw.
  unfold wrap. pose proof (Z.pow_pos_nonneg 2 w).
  symmetry. apply (Z.mod_unique _ _ (-1)); lia.
Qed.

Lemma sat_addu_clamp x y : 0 <= x < 2 ^ w -> 0 <= y < 2 ^ w ->
  sat_addu w x y = (Z.min (2 ^ w - 1) (x + y), 2 ^ w <=? x + y).
Proof using Hw.
  intros Hx Hy. unfold sat_addu. rewrite neg_b2z_lor.
  destruct (Z.leb_spec (2 ^ w) (x + y)).
  - assert (E : wrap w (x + y) = x + y - 2 ^ w).
    { unfold wrap. symmetry. apply (Z.mod_unique _ _ 1); lia. }
    rewrite E. destruct (Z.ltb_spec (x + y - 2 ^ w) x); [|lia].
    rewrite wrap_m1. f_equal. lia.
  - rewrite (wrap_small w (x + y)) by lia. destruct (Z.ltb_spec (x + y) x); [lia|].
    rewrite wrap_small by lia. f_equal. lia.
Qed.

Lemma sat_subu_clamp x y : 0 <= x < 2 ^ w -> 0 <= y < 2 ^ w ->
  sat_subu w x y = (Z.max 0 (x - y), x <? y).
Proof using Hw.
  intros Hx Hy. unfold sat_subu. rewrite neg_b2z_land.
  destruct (Z.ltb_spec x y).
  - assert (E : wrap w (x - y) = x - y + 2 ^ w).
    { unfold wrap. symmetry. apply (Z.mod_unique _ _ (-1)); lia. }
    rewrite E. destruct (Z.leb_spec (x - y + 2 ^ w) x); [lia|].
    rewrite wrap_small by lia. f_equal. lia.
  - rewrite (wrap_small w (x - y)) by lia. destruct (Z.leb_spec (x - y) x); [|lia].
    rewrite wrap_small by lia. f_equal. lia.
Qed.
End saturation.

(** ** Population count

    Each line of [popcount] adds neighbouring [w]-bit digits into [2w]-bit
    digits; the sum of the digits is the invariant. *)

Fixpoint swar_mask (w : Z) (n : nat) : Z :=
  match n with
  | O => 0
  | S n => swar_mask w n * 2 ^ (2 * w) + Z.ones w
  end.

Definition swar (w : Z) (n : nat) (v : Z) : Z :=
  Z.land v (swar_mask w n) + Z.land (Z.shiftr v w) (swar_mask w n).

(** Sum of the [n] low digits of [v] in base [2^w]. *)
Fixpoint digit_sum (w : Z) (n : nat) (v : Z) : Z :=
  match n with
  | O => 0
  | S n => v mod 2 ^ w + digit_sum w n (v / 2 ^ w)
  end.

Lemma land_mask_step v m k w : 0 <= w <= k ->
  Z.land v (m * 2 ^ k + Z.ones w) = Z.land (v / 2 ^ k) m * 2 ^ k + v mod 2 ^ w.
Proof.
  intros Hw. assert (Ho : 0 <= Z.ones w < 2 ^ k).
  { rewrite Z.ones_equiv. pose proof (Z.pow_pos_nonneg 2 w).
    pose proof (Z.pow_le_mono_r 2 w k). lia. }
  rewrite <- (lor_shiftl_add k m) by lia. rewrite <- Z.land_ones by lia.
  rewrite <- (lor_shiftl_add k).
  - rewrite <- Z.shiftr_div_pow2 by lia. apply Z.bits_inj'. intros i Hi.
    rewrite Z.land_spec, !Z.lor_spec, !Z.shiftl_spec, !Z.land_spec by lia.
    destruct (Z.lt_ge_cases i k).
    + by rewrite !(Z.testbit_neg_r _ (i - k)) by lia.
    + rewrite Z.shiftr_spec, (Z.ones_spec_high w i) by lia.
      replace (i - k + k) with i by lia. btauto.
  - lia.
  - by apply land_range; lia.
Qed.

Section swar.
Context (w : Z) (Hw : 0 < w).

Lemma pow_2w : 2 ^ (2 * w) = 2 ^ w * 2 ^ w.
Proof using Hw. rewrite <- Z.pow_add_r by lia. f_equal. lia. Qed.

Lemma swar_S n v :
  swar w (S n) v = swar w n (v / 2 ^ (2 * w)) * 2 ^ (2 * w) + (v mod 2 ^ w + v / 2 ^ w mod 2 ^ w).
Proof using Hw.
  unfold swar. cbn [swar_mask]. rewrite !land_mask_step by lia.
  rewrite !Z.shiftr_div_pow2 by lia. rewrite !Z.div_div by (try apply Z.pow_nonzero; lia).
  rewrite (Z.mul_comm (2 ^ w) (2 ^ (2 * w))). lia.
Qed.

Lemma swar_low v : 0 <= v mod 2 ^ w + v / 2 ^ w mod 2 ^ w < 2 ^ (2 * w).
Proof using Hw.
  pose proof (Z.mod_pos_bound v (2 ^ w)). pose proof (Z.mod_pos_bound (v / 2 ^ w) (2 ^ w)).
  pose proof (Z.pow_pos_nonneg 2 w). rewrite pow_2w.
  assert (2 <= 2 ^ w) by (change 2 with (2 ^ 1) at 1; apply Z.pow_le_mono_r; lia). nia.
Qed.

Lemma swar_bound n v : 0 <= swar w n v < 2 ^ (2 * w * Z.of_nat n).
Proof using Hw.
  revert v. induction n as [|n IH]; intros v.
  - unfold swar. cbn [swar_mask]. rewrite !Z.land_0_r. simpl. rewrite Z.mul_0_r. lia.
  - rewrite swar_S. specialize (IH (v / 2 ^ (2 * w))). pose proof (swar_low v).
    replace (2 * w * Z.of_nat (S n)) with (2 * w * Z.of_nat n + 2 * w) by lia.
    rewrite Z.pow_add_r by lia. nia.
Qed.

Lemma digit_sum_swar n v : digit_sum (2 * w) n (swar w n v) = digit_sum w (n + n) v.
Proof using Hw.
  revert v. induction n as [|n IH]; intros v; [done|].
  replace (S n + S n)%nat with (S (S (n + n))) by lia. cbn [digit_sum].
  rewrite Z.div_div by (try apply Z.pow_nonzero; lia).
  replace (2 ^ w * 2 ^ w) with (2 ^ (2 * w)) by apply pow_2w.
  rewrite <- IH, swar_S. pose proof (swar_low v) as Hl.
  set (l := v mod 2 ^ w + v / 2 ^ w mod 2 ^ w) in *. set (h := swar w n _).
  replace (h * 2 ^ (2 * w) + l) with (l + h * 2 ^ (2 * w)) by lia.
  rewrite Z_mod_plus_full, Z_div_plus_full by (apply Z.pow_nonzero; lia).
  rewrite Z.mod_small, Z.div_small by lia. unfold l. rewrite Z.add_0_l. lia.
Qed.
End swar.

Lemma digit_sum_bits n v : digit_sum 1 n v = zsum n (fun i => b2z (Z.testbit v i)).
Proof.
  revert v. induction n as [|n IH]; intros v; [done|].
  rewrite zsum_shift. cbn [digit_sum]. rewrite IH. f_equal.
  - rewrite Z.bit0_mod. by rewrite Z.pow_1_r.
  - apply zsum_ext. intros i Hi. by rewrite <- Z.shiftr_div_pow2, Z.shiftr_spec by lia.
Qed.

Lemma popcount_bits val : 0 <= val < 2 ^ 64 ->
  popcount val = zsum 64 (fun i => b2z (Z.testbit val i)).
Proof.
  intros Hv. unfold popcount.
  change 0x5555555555555555 with (swar_mask 1 32). change 0x3333333333333333 with (swar_mask 2 16).
  change 0x0f0f0f0f0f0f0f0f with (swar_mask 4 8). change 0x00ff00ff00ff00ff with (swar_mask 8 4).
  change 0x0000ffff0000ffff with (swar_mask 16 2).
  change 0x00000000ffffffff with (swar_mask 32 1).
  rewrite (wrap_small 64 (_ + Z.land _ (swar_mask 1 32))) by apply (swar_bound 1 ltac:(lia) 32 val).
  fold (swar 1 32 val). set (v1 := swar 1 32 val).
  rewrite (wrap_small 64 (_ + Z.land _ (swar_mask 2 16))) by apply (swar_bound 2 ltac:(lia) 16 v1).
  fold (swar 2 16 v1). set (v2 := swar 2 16 v1).
  rewrite (wrap_small 64 (_ + Z.land _ (swar_mask 4 8))) by apply (swar_bound 4 ltac:(lia) 8 v2).
  fold (swar 4 8 v2). set (v3 := swar 4 8 v2).
  rewrite (wrap_small 64 (_ + Z.land _ (swar_mask 8 4))) by apply (swar_bound 8 ltac:(lia) 4 v3).
  fold (swar 8 4 v3). set (v4 := swar 8 4 v3).
  rewrite (wrap_small 64 (_ + Z.land _ (swar_mask 16 2))) by apply (swar_bound 16 ltac:(lia) 2 v4).
  fold (swar 16 2 v4). set (v5 := swar 16 2 v4).
  rewrite (wrap_small 64 (_ + Z.land _ (swar_mask 32 1))) by apply (swar_bound 32 ltac:(lia) 1 v5).
  fold (swar 32 1 v5).
  assert (E : swar 32 1 v5 = zsum 64 (fun i => b2z (Z.testbit val i))).
  { rewrite <- digit_sum_bits. change 64%nat with (32 + 32)%nat.
    rewrite <- (digit_sum_swar 1 ltac:(lia) 32). change 32%nat with (16 + 16)%nat at 1.
    rewrite <- (digit_sum_swar 2 ltac:(lia) 16). change 16%nat with (8 + 8)%nat at 1.
    rewrite <- (digit_sum_swar 4 ltac:(lia) 8). change 8%nat with (4 + 4)%nat at 1.
    rewrite <- (digit_sum_swar 8 ltac:(lia) 4). change 4%nat with (2 + 2)%nat at 1.
    rewrite <- (digit_sum_swar 16 ltac:(lia) 2). change 2%nat with (1 + 1)%nat at 1.
    rewrite <- (digit_sum_swar 32 ltac:(lia) 1). cbn [digit_sum].
    rewrite Z.mod_small by apply (swar_bound 32 ltac:(lia) 1 v5). by rewrite Z.add_0_r. }
  rewrite E, swrap_small; [done|lia|].
  pose proof (zsum_bounds 64 (fun i => b2z (Z.testbit val i)) 0 1) as Hb. cbv beta in Hb.
  specialize (Hb ltac:(intros i _; destruct (Z.testbit val i); simpl; lia)). lia.
Qed.

(** ** Counting zeros and ones *)

Lemma low_bits_zero v n : 0 <= n <= 64 ->
  (wrap 64 (Z.shiftl v (64 - n)) =? 0) = (v mod 2 ^ n =? 0).
Proof.
  intros Hn. rewrite Z.shiftl_mul_pow2 by lia. unfold wrap.
  replace (2 ^ 64) with (2 ^ n * 2 ^ (64 - n)) by (rewrite <- Z.pow_add_r by lia; f_equal; lia).
  rewrite Z.mul_mod_distr_r by (apply Z.pow_nonzero; lia).
  pose proof (Z.pow_pos_nonneg 2 (64 - n)).
  destruct (Z.eqb_spec (v mod 2 ^ n) 0); destruct (Z.eqb_spec (v mod 2 ^ n * 2 ^ (64 - n)) 0); nia.
Qed.

(** Runs the six halving steps of a binary search over bit widths: [lem] takes
    an invariant at width [n + n] to the one at width [n]. *)
Ltac halving lem H n :=
  let B := fresh "B" in
  match type of H with ?P _ ?s => match P with ?I ?val => change (I val (n + n) s) in H end end;
  apply lem in H as [H B]; [|lia|lia].
Ltac halvings lem H n1 n2 n3 n4 n5 n6 :=
  halving lem H n1; halving lem H n2; halving lem H n3;
  halving lem H n4; halving lem H n5; halving lem H n6; cbn [fst] in *.

(** [s] has shifted out [fst s] zero bits of [val] and its low [m] bits are not all zero. *)
Definition ctz_inv (val m : Z) (s : Z * Z) : Prop :=
  0 <= fst s /\ snd s * 2 ^ fst s = val /\ snd s mod 2 ^ m <> 0.

Lemma ctz_step_inv val n s : 0 < n -> n + n <= 64 ->
  ctz_inv val (n + n) s -> ctz_inv val n (ctz_step n s) /\
  fst s <= fst (ctz_step n s) <= fst s + n.
Proof.
  intros Hn Hn' (Hr & Hv & Hm). destruct s as [res v]. cbn [fst snd] in *.
  unfold ctz_step. rewrite low_bits_zero by lia.
  destruct (Z.eqb_spec (v mod 2 ^ n) 0) as [E|E]; unfold ctz_inv; cbn [fst snd]; [|split; [done|lia]].
  pose proof (Z.div_mod v (2 ^ n) ltac:(apply Z.pow_nonzero; lia)) as Ed.
  rewrite Z.shiftr_div_pow2 by lia. repeat split; [lia| | |lia|lia].
  - rewrite Z.pow_add_r by lia. rewrite <- Hv. rewrite Ed at 2. rewrite E. ring.
  - rewrite Z.pow_add_r, Z.rem_mul_r, E in Hm by (try apply Z.pow_pos_nonneg; lia). nia.
Qed.

Lemma ctz_zeros val : 0 < val < 2 ^ 64 ->
  0 <= ctz val < 64 /\ val mod 2 ^ ctz val = 0 /\ Z.testbit val (ctz val) = true.
Proof.
  intros Hv. unfold ctz. destruct (Z.eqb_spec val 0) as [|_]; [lia|].
  assert (H0 : ctz_inv val (32 + 32) (0, val)).
  { split_and!; cbn [fst snd]; [lia|lia|]. change (32 + 32) with 64. rewrite Z.mod_small; lia. }
  halvings ctz_step_inv H0 32 16 8 4 2 1.
  match type of H0 with _ _ _ ?s => set (s6 := s) in * end.
  destruct H0 as (Hr & Hval & Hodd). cbn zeta.
  split; [lia|]. rewrite <- Hval. split; [by apply Z.mod_mul, Z.pow_nonzero; lia|].
  rewrite Z.mul_pow2_bits, Z.sub_diag by lia. rewrite Z.bit0_odd.
  rewrite Z.pow_1_r, Zmod_odd in Hodd. by destruct (Z.odd (snd s6)).
Qed.

(** [s] has shifted [val] left by [fst s] and has a bit among its top [m]. *)
Definition clz_inv (val m : Z) (s : Z * Z) : Prop :=
  0 <= fst s /\ snd s = val * 2 ^ fst s /\ 2 ^ (64 - m) <= snd s < 2 ^ 64.

Lemma clz_step_inv val n s : 0 < n -> n + n <= 64 ->
  clz_inv val (n + n) s -> clz_inv val n (clz_step n s) /\
  fst s <= fst (clz_step n s) <= fst s + n.
Proof.
  intros Hn Hn' (Hr & Hv & Hm). destruct s as [res v]. cbn [fst snd] in *.
  unfold clz_step. rewrite Z.shiftr_div_pow2 by lia.
  assert (Hp : 2 ^ 64 = 2 ^ (64 - n) * 2 ^ n) by (rewrite <- Z.pow_add_r by lia; f_equal; lia).
  assert (Hq : 2 ^ (64 - n) = 2 ^ (64 - (n + n)) * 2 ^ n)
    by (rewrite <- Z.pow_add_r by lia; f_equal; lia).
  pose proof (Z.pow_pos_nonneg 2 n). pose proof (Z.pow_pos_nonneg 2 (64 - (n + n))).
  pose proof (Z.pow_pos_nonneg 2 (64 - n)).
  destruct (Z.eqb_spec (v / 2 ^ (64 - n)) 0) as [E|E]; unfold clz_inv; cbn [fst snd].
  - apply Z.div_small_iff in E; [|lia].
    rewrite Z.shiftl_mul_pow2, wrap_small by nia. repeat split; try nia.
    rewrite Z.pow_add_r, Hv by lia. ring.
  - assert (1 <= v / 2 ^ (64 - n)) by (pose proof (Z.div_pos v (2 ^ (64 - n))); lia).
    pose proof (Z.mul_div_le v (2 ^ (64 - n))). repeat split; try lia; nia.
Qed.

Lemma clz_zeros val : 0 < val < 2 ^ 64 ->
  0 <= clz val < 64 /\ 2 ^ (63 - clz val) <= val < 2 ^ (64 - clz val).
Proof.
  intros Hv. unfold clz. destruct (Z.eqb_spec val 0) as [|_]; [lia|].
  assert (H0 : clz_inv val (32 + 32) (0, val)) by (split_and!; cbn [fst snd]; change (32 + 32) with 64; lia).
  halvings clz_step_inv H0 32 16 8 4 2 1.
  match type of H0 with _ _ _ ?s => set (s6 := s) in * end.
  destruct H0 as (Hr & Hval & Htop). cbn zeta.
  assert (Hle : 0 <= fst s6 <= 63) by lia. split; [lia|].
  change (64 - 1) with 63 in Htop. rewrite Hval in Htop. clear - Hle Htop.
  set (k := fst s6) in *. pose proof (Z.pow_pos_nonneg 2 k).
  assert (2 ^ 63 = 2 ^ (63 - k) * 2 ^ k) by (rewrite <- Z.pow_add_r by lia; f_equal; lia).
  assert (2 ^ 64 = 2 ^ (64 - k) * 2 ^ k) by (rewrite <- Z.pow_add_r by lia; f_equal; lia).
  nia.
Qed.

Lemma log2_floor val : 0 < val < 2 ^ 64 -> log2 val = Z.log2 val.
Proof.
  intros Hv. unfold log2. destruct (Z.eqb_spec val 0) as [|_]; [lia|].
  destruct (clz_zeros val Hv) as [Hk Hb]. symmetry. apply Z.log2_unique; [lia|].
  by replace (Z.succ (63 - clz val)) with (64 - clz val) by lia.
Qed.

(** The loop of [cto] ends: a 64-bit value runs out of ones after 64 shifts. *)
Lemma cto_loop_ones fuel val res : 0 <= val < 2 ^ (Z.of_nat fuel) ->
  exists k, cto_loop (S fuel) val res = Some (res + k) /\ 0 <= k <= Z.of_nat fuel /\
    Z.testbit val k = false /\ forall i, 0 <= i < k -> Z.testbit val i = true.
Proof.
  revert val res. induction fuel as [|fuel IH]; intros val res Hv.
  - simpl in Hv. assert (val = 0) as -> by lia. exists 0. simpl. rewrite Z.add_0_r.
    split_and!; [done|lia|lia|done|lia].
  - change (cto_loop (S (S fuel)) val res) with
      (if Z.land val 1 =? 1 then cto_loop (S fuel) (Z.shiftr val 1) (res + 1) else Some res).
    change 1 with (Z.ones 1) at 1. rewrite Z.land_ones, Z.pow_1_r, <- Z.bit0_mod by lia.
    destruct (Z.testbit val 0) eqn:E; cbn [Z.b2z Z.eqb].
    + destruct (IH (Z.shiftr val 1) (res + 1)) as (k & Hk & Hr & Hf & Ht).
      { rewrite Z.shiftr_div_pow2, Z.pow_1_r by lia.
        replace (Z.of_nat (S fuel)) with (Z.of_nat fuel + 1) in Hv by lia.
        rewrite Z.pow_add_r in Hv by lia.
        split; [apply Z.div_pos; lia | apply Z.div_lt_upper_bound; lia]. }
      exists (k + 1). rewrite Hk. split_and!; [f_equal; lia|lia|lia| |].
      * by rewrite Z.shiftr_spec in Hf by lia.
      * intros i Hi. destruct (Z.eq_dec i 0) as [->|]; [done|].
        specialize (Ht (i - 1) ltac:(lia)). rewrite Z.shiftr_spec in Ht by lia.
        by replace (i - 1 + 1) with i in Ht by lia.
    + exists 0. rewrite Z.add_0_r. split_and!; [done|lia|lia|done|lia].
Qed.

(** ** Rotations *)

Section rotate.
(** The template's [T] is an unsigned type of [w = 2^k] bits, at most 64. *)
Context (k : Z) (Hk : 0 <= k <= 6).
Let w := 2 ^ k.

Lemma rot_width : 1 <= w <= 64.
Proof using Hk.
  split; [apply (Z.pow_le_mono_r 2 0); lia|].
  change 64 with (2 ^ 6). apply Z.pow_le_mono_r; lia.
Qed.

Lemma rot_amount s : Z.land s (w - 1) = s mod w.
Proof using Hk.
  unfold w. rewrite Z.sub_1_r, <- Z.ones_equiv. by rewrite Z.land_ones by lia.
Qed.

(** The complementary amount: both are computed modulo the width. *)
Lemma rot_complement r : 0 <= r < w ->
  Z.land (wrap 64 (- r)) (w - 1) = if r =? 0 then 0 else w - r.
Proof using Hk.
  intros Hr. rewrite rot_amount. unfold wrap.
  assert (E : (- r) mod 2 ^ 64 mod w = (- r) mod w).
  { unfold w. apply Z.mod_mod_divide. exists (2 ^ (64 - k)).
    rewrite <- Z.pow_add_r by lia. f_equal. lia. }
  rewrite E. destruct (Z.eqb_spec r 0) as [->|].
  - apply Z.mod_0_l. lia.
  - symmetry. apply (Z.mod_unique _ _ (-1)); lia.
Qed.

Lemma rotate_right_bits x s i : 0 <= x < 2 ^ w -> 0 <= s -> 0 <= i < w ->
  Z.testbit (rotate_right w x s) i = Z.testbit x ((i + s) mod w).
Proof using Hk.
  intros Hx Hs Hi. unfold rotate_right. pose proof rot_width.
  rewrite (rot_amount s). pose proof (Z.mod_pos_bound s w ltac:(lia)) as Hr.
  rewrite rot_complement by done.
  replace ((i + s) mod w) with ((i + s mod w) mod w) by (by rewrite Zplus_mod_idemp_r).
  set (r := s mod w) in *. clearbody r.
  rewrite Z.lor_spec, wrap_testbit, Z.shiftl_spec, Z.shiftr_spec by lia.
  replace (i <? w) with true by lia. cbn [andb].
  destruct (Z.eqb_spec r 0) as [->|].
  - rewrite Z.sub_0_r, Z.add_0_r, orb_diag, Z.mod_small by lia. done.
  - destruct (Z.lt_ge_cases (i + r) w).
    + rewrite Z.testbit_neg_r, Z.mod_small by lia. done.
    + rewrite (testbit_high w x (i + r)), orb_false_r by lia. f_equal.
      apply (Z.mod_unique _ _ 1); lia.
Qed.

Lemma rotate_left_bits x s i : 0 <= x < 2 ^ w -> 0 <= s -> 0 <= i < w ->
  Z.testbit (rotate_left w x s) i = Z.testbit x ((i - s) mod w).
Proof using Hk.
  intros Hx Hs Hi. unfold rotate_left. pose proof rot_width.
  rewrite (rot_amount s). pose proof (Z.mod_pos_bound s w ltac:(lia)) as Hr.
  rewrite rot_complement by done.
  replace ((i - s) mod w) with ((i - s mod w) mod w) by (by rewrite Zminus_mod_idemp_r).
  set (r := s mod w) in *. clearbody r.
  rewrite Z.lor_spec, wrap_testbit, Z.shiftl_spec, Z.shiftr_spec by lia.
  replace (i <? w) with true by lia. cbn [andb].
  destruct (Z.eqb_spec r 0) as [->|].
  - rewrite Z.add_0_r, Z.sub_0_r, orb_diag, Z.mod_small by lia. done.
  - destruct (Z.lt_ge_cases i r).
    + rewrite Z.testbit_neg_r by lia. cbn [orb]. f_equal.
      apply (Z.mod_unique _ _ (-1)); lia.
    + rewrite (testbit_high w x (i + (w - r))), orb_false_r by lia. f_equal.
      by rewrite Z.mod_small by lia.
Qed.

Lemma rotate_range x s : 0 <= x < 2 ^ w ->
  0 <= rotate_right w x s < 2 ^ w /\ 0 <= rotate_left w x s < 2 ^ w.
Proof using Hk.
  intros Hx. pose proof rot_width. unfold rotate_right, rotate_left.
  split; apply lor_range; try lia; try (apply wrap_range; lia);
    apply shiftr_range; try lia; rewrite rot_amount; apply Z.mod_pos_bound; lia.
Qed.

(** Rotating left undoes rotating right by the same amount, and conversely. *)
Lemma rotate_inverse x s : 0 <= x < 2 ^ w -> 0 <= s ->
  rotate_left w (rotate_right w x s) s = x /\ rotate_right w (rotate_left w x s) s = x.
Proof using Hk.
  intros Hx Hs. pose proof rot_width. destruct (rotate_range x s Hx) as [Hr Hl].
  split; apply Z.bits_inj'; intros i Hi; destruct (Z.lt_ge_cases i w).
  - pose proof (Z.mod_pos_bound (i - s) w ltac:(lia)).
    rewrite rotate_left_bits, rotate_right_bits by lia. f_equal.
    rewrite Zplus_mod_idemp_l. replace (i - s + s) with i by lia. by apply Z.mod_small.
  - pose proof (rotate_range _ s Hr). rewrite !(testbit_high w) by lia. done.
  - pose proof (Z.mod_pos_bound (i + s) w ltac:(lia)).
    rewrite rotate_right_bits, rotate_left_bits by lia. f_equal.
    rewrite Zminus_mod_idemp_l. replace (i + s - s) with i by lia. by apply Z.mod_small.
  - pose proof (rotate_range _ s Hl). rewrite !(testbit_high w) by lia. done.
Qed.
End rotate.

(** ** Crossbar permutation *)

(** Field [k] of [xperm]: the field of [rs1] selected by field [k] of [rs2],
    zero when the index is out of the register. *)
Definition xperm_field (rs1 rs2 sz len k : Z) : Z :=
  let pos := (rs2 / 2 ^ (k * sz)) mod 2 ^ sz * sz in
  if pos <? len then (rs1 / 2 ^ pos) mod 2 ^ sz else 0.

Lemma xperm_field_range rs1 rs2 sz len k : 0 <= sz ->
  0 <= xperm_field rs1 rs2 sz len k < 2 ^ sz.
Proof. intros. unfold xperm_field. case_match; [apply Z.mod_pos_bound|]; lia. Qed.

Section xperm.
Context (rs1 rs2 sz_log2 len : Z).
Hypothesis (Hsz : 0 <= sz_log2 <= 3) (Hlen : 0 <= len <= 64) (Hdiv : (2 ^ sz_log2 | len)).
Let sz := 2 ^ sz_log2.
Let mask := Z.ones sz.

Lemma xperm_sz : 1 <= sz <= 8.
Proof using Hsz.
  split; [apply (Z.pow_le_mono_r 2 0); lia|].
  change 8 with (2 ^ 3). apply Z.pow_le_mono_r; lia.
Qed.

Lemma xperm_select i : 0 <= i -> i mod sz = 0 ->
  let pos := wrap 64 (Z.shiftl (Z.land (Z.shiftr rs2 i) mask) sz_log2) in
  (if pos <? len then Z.land (Z.shiftr rs1 pos) mask else 0) = xperm_field rs1 rs2 sz len (i / sz).
Proof using Hsz Hlen.
  intros Hi Hm. cbv zeta. pose proof xperm_sz. unfold xperm_field, mask.
  rewrite Z.land_ones, Z.shiftr_div_pow2, Z.shiftl_mul_pow2 by lia.
  pose proof (Z.mod_pos_bound (rs2 / 2 ^ i) (2 ^ sz)) as Hb.
  assert (2 ^ sz <= 2 ^ 8) by (apply Z.pow_le_mono_r; lia).
  pose proof (Z.pow_pos_nonneg 2 sz). fold sz.
  rewrite wrap_small by nia.
  replace (i / sz * sz) with i by (pose proof (Z.div_mod i sz); lia).
  destruct (Z.ltb_spec ((rs2 / 2 ^ i) mod 2 ^ sz * sz) len); [|done].
  rewrite Z.land_ones, Z.shiftr_div_pow2 by nia. done.
Qed.

(** Loop invariant: fields below [i] are done, bits from [i] on are clear. *)
Lemma xperm_loop_fields fuel i r k :
  0 <= i -> i mod sz = 0 -> len <= i + Z.of_nat fuel * sz -> 0 <= r < 2 ^ i -> i <= 64 ->
  0 <= k -> (k + 1) * sz <= len ->
  let r' := xperm_loop fuel rs1 rs2 sz_log2 sz mask len i r in
  (r' / 2 ^ (k * sz)) mod 2 ^ sz =
    if k * sz <? i then (r / 2 ^ (k * sz)) mod 2 ^ sz else xperm_field rs1 rs2 sz len k.
Proof using Hsz Hlen Hdiv.
  revert i r. pose proof xperm_sz as Hz.
  induction fuel as [|fuel IH]; intros i r Hi Hm Hf Hr Hi64 Hk Hk1; cbn [xperm_loop].
  - by replace (k * sz <? i) with true by lia.
  - destruct (Z.ltb_spec i len) as [Hil|Hil]; [|by replace (k * sz <? i) with true by lia].
    pose proof (xperm_select i Hi Hm) as Hsel. cbv zeta in Hsel.
    set (pos := wrap 64 (Z.shiftl (Z.land (Z.shiftr rs2 i) mask) sz_log2)) in *.
    assert (Hfd : 0 <= xperm_field rs1 rs2 sz len (i / sz) < 2 ^ sz).
    { apply xperm_field_range. lia. }
    assert (Hroom : i + sz <= 64).
    { destruct Hdiv as [q Hq]. fold sz in Hq. apply Z.div_exact in Hm; [|lia].
      assert (i / sz < q) by nia. nia. }
    assert (Er : (if pos <? len then Z.lor r (wrap 64 (Z.shiftl (Z.land (Z.shiftr rs1 pos) mask) i))
                  else r) = xperm_field rs1 rs2 sz len (i / sz) * 2 ^ i + r).
    { rewrite <- Hsel. destruct (pos <? len); [|lia]. rewrite <- lor_shiftl_add by lia.
      rewrite Z.lor_comm. f_equal. rewrite Hsel. apply wrap_small.
      rewrite Z.shiftl_mul_pow2 by lia. pose proof (Z.pow_pos_nonneg 2 i).
      assert (2 ^ (i + sz) <= 2 ^ 64) by (apply Z.pow_le_mono_r; lia).
      rewrite Z.pow_add_r in * by lia. nia. }
    rewrite Er. assert (Hp : 2 ^ (i + sz) = 2 ^ i * 2 ^ sz) by (apply Z.pow_add_r; lia).
    pose proof (Z.pow_pos_nonneg 2 i).
    rewrite IH; [| lia | by rewrite <- (Z.mul_1_l sz) at 1; rewrite Z_mod_plus_full
      | lia | nia | lia | lia | lia].
    apply Z.div_exact in Hm; [|lia].
    destruct (Z.ltb_spec (k * sz) i) as [Hki|Hki].
    + replace (k * sz <? i + sz) with true by lia.
      assert (k < i / sz) by (apply (Z.mul_lt_mono_pos_r sz); lia).
      assert (Hks : k * sz + sz <= i) by nia.
      replace (2 ^ i) with (2 ^ (i - (k * sz + sz)) * 2 ^ sz * 2 ^ (k * sz))
        by (rewrite <- !Z.pow_add_r by lia; f_equal; lia).
      rewrite !Z.mul_assoc, Z.div_add_l by (apply Z.pow_nonzero; lia).
      rewrite Z.add_comm. by rewrite Z_mod_plus_full.
    + destruct (Z.ltb_spec (k * sz) (i + sz)); [|done].
      assert (i / sz <= k < i / sz + 1) by
        (split; [apply (Z.mul_le_mono_pos_r _ _ sz)|apply (Z.mul_lt_mono_pos_r sz)]; lia).
      assert (k = i / sz) as -> by lia. replace (i / sz * sz) with i by lia.
      rewrite Z.div_add_l, (Z.div_small r), Z.add_0_r by lia. by apply Z.mod_small.
Qed.

Lemma xperm_fields k : 0 <= k -> (k + 1) * sz <= len ->
  (xperm rs1 rs2 sz_log2 len / 2 ^ (k * sz)) mod 2 ^ sz = xperm_field rs1 rs2 sz len k.
Proof using Hsz Hlen Hdiv.
  intros Hk Hk1. pose proof xperm_sz. unfold xperm.
  assert (2 ^ sz <= 2 ^ 8) by (apply Z.pow_le_mono_r; lia). pose proof (Z.pow_pos_nonneg 2 sz).
  assert (E1 : wrap 64 (Z.shiftl 1 sz_log2) = sz)
    by (rewrite Z.shiftl_1_l; apply wrap_small; fold sz; lia).
  assert (E2 : wrap 64 (wrap 64 (Z.shiftl 1 sz) - 1) = mask).
  { rewrite Z.shiftl_1_l, (wrap_small 64 (2 ^ sz)) by lia. rewrite wrap_small by lia.
    unfold mask. rewrite Z.ones_equiv. lia. }
  cbv zeta. rewrite E1, E2. pose proof (xperm_loop_fields 64 0 0 k) as Hl. cbv zeta in Hl.
  rewrite Hl; [by replace (k * sz <? 0) with false by nia
    |lia|by apply Z.mod_0_l; lia|lia|simpl; lia|lia|lia|lia].
Qed.
End xperm.

(** ** Bit fields *)

Lemma extract64_field val pos len : 0 <= pos -> 0 < len -> pos + len <= 64 ->
  extract64 val pos len = Some ((val / 2 ^ pos) mod 2 ^ len).
Proof.
  intros. unfold extract64.
  replace ((0 <=? pos) && (0 <? len) && (len <=? 64 - pos)) with true by lia. f_equal.
  change (wrap 64 (Z.lnot 0)) with (Z.ones 64).
  rewrite (Z.shiftr_div_pow2 (Z.ones 64)), Z.ones_div_pow2 by lia.
  replace (64 - (64 - len)) with len by lia. by rewrite Z.land_ones, Z.shiftr_div_pow2 by lia.
Qed.

Lemma make_mask64_bits pos len i : 0 <= pos -> 0 < len -> pos + len <= 64 -> 0 <= i ->
  (fun m => Z.testbit m i) <$> make_mask64 pos len = Some ((pos <=? i) && (i <? pos + len)).
Proof.
  intros. unfold make_mask64.
  replace ((0 <=? pos) && (0 <? len) && (pos <? 64) && (len <=? 64)) with true by lia.
  simpl. f_equal. unfold UINT64_MAX. change (2 ^ 64 - 1) with (Z.ones 64).
  rewrite (Z.shiftr_div_pow2 _ (64 - len)), Z.ones_div_pow2 by lia.
  replace (64 - (64 - len)) with len by lia. rewrite wrap_testbit, Z.shiftl_spec by lia.
  destruct (Z.leb_spec pos i).
  - destruct (Z.ltb_spec i (pos + len)).
    + rewrite Z.ones_spec_low by lia. by replace (i <? 64) with true by lia.
    + rewrite Z.ones_spec_high by lia. by rewrite andb_false_r.
  - rewrite Z.testbit_neg_r by lia. by rewrite andb_false_r.
Qed.

(** ** Properties *)

(** C26: the multiplications built from 32-bit limbs ([mulhu]) and from it by
    sign correction ([mulh], [mulhsu]) return the high 64 bits of the exact
    128-bit product, for every pair of operands of the type. *)
Theorem mul_high_exact a b :
  (0 <= a < 2 ^ 64 -> 0 <= b < 2 ^ 64 -> mulhu a b = a * b / 2 ^ 64) /\
  (- 2 ^ 63 <= a < 2 ^ 63 -> - 2 ^ 63 <= b < 2 ^ 63 -> mulh a b = a * b / 2 ^ 64) /\
  (- 2 ^ 63 <= a < 2 ^ 63 -> 0 <= b < 2 ^ 64 -> mulhsu a b = a * b / 2 ^ 64).
Proof. split_and!; intros; [by apply mulhu_high|by apply mulh_high|by apply mulhsu_high]. Qed.

(** The extreme operands of each multiplication. *)
Lemma mul_high_exact_witness :
  mulhu (2 ^ 64 - 1) (2 ^ 64 - 1) = 2 ^ 64 - 2 /\ mulh (- 2 ^ 63) (- 2 ^ 63) = 2 ^ 62 /\
  mulhsu (- 2 ^ 63) (2 ^ 64 - 1) = - 2 ^ 63.
Proof.
  split_and!.
  - rewrite (proj1 (mul_high_exact (2 ^ 64 - 1) (2 ^ 64 - 1))); [reflexivity|lia|lia].
  - rewrite (proj1 (proj2 (mul_high_exact (- 2 ^ 63) (- 2 ^ 63)))); [reflexivity|lia|lia].
  - rewrite (proj2 (proj2 (mul_high_exact (- 2 ^ 63) (2 ^ 64 - 1)))); [reflexivity|lia|lia].
Defined.

(** C27: on every signed width the branch-free saturating operations compute the
    exact result clamped to the type, and report saturation exactly when the
    exact result does not fit; the three-operand addition is exact too, with no
    loss from saturating in the middle. *)
Theorem signed_saturation_exact w x y z : 0 < w -> signed w x -> signed w y -> signed w z ->
  sat_add w x y = (clamp w (x + y), negb (fits w (x + y))) /\
  sat_sub w x y = (clamp w (x - y), negb (fits w (x - y))) /\
  sat_add3 w x y z = (clamp w (x + y + z), negb (fits w (x + y + z))).
Proof.
  intros. split_and!; [by apply sat_add_clamp|by apply sat_sub_clamp|by apply sat_add3_clamp].
Qed.

Lemma signed_saturation_exact_witness :
  sat_add 8 100 100 = (127, true) /\ sat_add3 8 100 100 (-100) = (100, false).
Proof.
  destruct (signed_saturation_exact 8 100 100 (-100)) as (H1 & _ & H3);
    [lia|unfold signed; lia|unfold signed; lia|unfold signed; lia|].
  rewrite H1, H3. split; reflexivity.
Defined.

(** C28: the bit-counting routines agree with the bits of their argument:
    [popcount] counts the set bits, [ctz] and [clz] locate the lowest and the
    highest one, [log2] is the integer logarithm, and the loop of [cto]
    terminates and returns the length of the run of ones at the bottom. *)
Theorem bit_counts_exact val : 0 < val < 2 ^ 64 ->
  popcount val = zsum 64 (fun i => b2z (Z.testbit val i)) /\
  (0 <= ctz val < 64 /\ val mod 2 ^ ctz val = 0 /\ Z.testbit val (ctz val) = true) /\
  (0 <= clz val < 64 /\ 2 ^ (63 - clz val) <= val < 2 ^ (64 - clz val)) /\
  log2 val = Z.log2 val /\
  exists k, cto val = Some k /\ 0 <= k <= 64 /\ Z.testbit val k = false /\
    forall i, 0 <= i < k -> Z.testbit val i = true.
Proof.
  intros Hv. split_and!; try by apply ctz_zeros.
  - apply popcount_bits. lia.
  - by apply clz_zeros.
  - by apply clz_zeros.
  - by apply clz_zeros.
  - by apply clz_zeros.
  - by apply log2_floor.
  - destruct (cto_loop_ones 64 val 0) as (k & Hk & ?); [simpl; lia|]. by exists k.
Qed.

Lemma bit_counts_exact_witness :
  popcount 0xF0F0 = 8 /\ ctz 0xF0F0 = 4 /\ clz 0xF0F0 = 48 /\ Z.testbit 0xF0F0 (ctz 0xF0F0) = true.
Proof.
  destruct (bit_counts_exact 0xF0F0 ltac:(lia)) as (H1 & (_ & _ & H2) & _).
  rewrite H1. split_and!; [reflexivity|reflexivity|reflexivity|exact H2].
Defined.

(** On the unsigned widths 8 to 64, [rotate_right] and [rotate_left] move
    bit [i] from position [i + s] respectively [i - s] modulo the width, for any
    amount, and undo each other; every [sz]-bit field of [xperm] is the field of
    the first operand selected by the second, or zero for an index past the end. *)
Theorem rotate_xperm_exact k x s i : 0 <= k <= 6 -> 0 <= x < 2 ^ 2 ^ k -> 0 <= s -> 0 <= i < 2 ^ k ->
  Z.testbit (rotate_right (2 ^ k) x s) i = Z.testbit x ((i + s) mod 2 ^ k) /\
  Z.testbit (rotate_left (2 ^ k) x s) i = Z.testbit x ((i - s) mod 2 ^ k) /\
  rotate_left (2 ^ k) (rotate_right (2 ^ k) x s) s = x /\
  (forall rs1 rs2 sz_log2 len j, 0 <= sz_log2 <= 3 -> 0 <= len <= 64 -> (2 ^ sz_log2 | len) ->
    0 <= j -> (j + 1) * 2 ^ sz_log2 <= len ->
    (xperm rs1 rs2 sz_log2 len / 2 ^ (j * 2 ^ sz_log2)) mod 2 ^ 2 ^ sz_log2 =
      xperm_field rs1 rs2 (2 ^ sz_log2) len j).
Proof.
  intros. split_and!.
  - by apply rotate_right_bits.
  - by apply rotate_left_bits.
  - by apply rotate_inverse.
  - intros. by apply xperm_fields.
Qed.

Lemma rotate_xperm_exact_witness :
  rotate_left (2 ^ 5) (rotate_right (2 ^ 5) 0x12345678 8) 8 = 0x12345678 /\
  (xperm 0x76543210 0x01234567 2 32 / 2 ^ (0 * 2 ^ 2)) mod 2 ^ 2 ^ 2 = 7.
Proof.
  destruct (rotate_xperm_exact 5 0x12345678 8 0) as (_ & _ & H & Hx); try lia.
  split; [exact H|]. rewrite Hx; [reflexivity|lia|lia|by exists 8|lia|simpl; lia].
Defined.
