(* ===== verification/Decode.v ===== *)
(** * Instruction decoding and register files: [src/riscv/decode.h]

    Class [insn_t] (field and immediate extraction from the instruction bits),
    the Zcmp register list helpers, [regfile_t], and the [get_field]/[set_field]
    macros used on every CSR.  The bits of an instruction are a [Z] in
    [[0, 2^64)]; immediates of type [int64_t] are signed, those of type
    [uint64_t] unsigned. *)

From S2P Require Import Prelude.
Local Open Scope cint_scope.

Definition NXPR : nat := 32.
Definition X_RA : Z := 1.
Definition X_SP : Z := 2.
Definition X_T0 : Z := 5.
Definition X_S0 : Z := 8.
Definition X_A0 : Z := 10.
Definition X_A1 : Z := 11.
Definition X_Sn : Z := 16.

Definition insn_length (x : Z) : Z :=
  if (x &! 0x03) <? 0x03 then 2 else
  if (x &! 0x1f) <? 0x1f then 4 else
  if (x &! 0x3f) <? 0x3f then 6 else 8.

Definition Sn (n : Z) : Z := if n <? 2 then X_S0 + n else X_Sn + n.

(** ** Class [insn_t] *)

Definition insn_x (b lo len : Z) : Z := (b >>! lo) &! ((1 <<! len) -! 1).
Definition insn_xs (b lo len : Z) : Z :=
  u64 (s64 (Z.shiftl (s64 b) (64 - lo - len)) >>! (64 - len)).
Definition insn_imm_sign (b : Z) : Z := insn_xs b 31 1.

Section insn_t.
Context (b : Z).
Local Abbreviation x := (insn_x b).
Local Abbreviation xs := (insn_xs b).

Definition insn_i_imm : Z := s64 (xs 20 12).
Definition insn_shamt : Z := s64 (x 20 6).
Definition insn_s_imm : Z := s64 (x 7 5 +! (xs 25 7 <<! 5)).
Definition insn_sb_imm : Z :=
  s64 ((x 8 4 <<! 1) +! (x 25 6 <<! 5) +! (x 7 1 <<! 11) +! (insn_imm_sign b <<! 12)).
Definition insn_u_imm : Z := s64 (xs 12 20 <<! 12).
Definition insn_uj_imm : Z :=
  s64 ((x 21 10 <<! 1) +! (x 20 1 <<! 11) +! (x 12 8 <<! 12) +! (insn_imm_sign b <<! 20)).
Definition insn_rd : Z := x 7 5.
Definition insn_rs1 : Z := x 15 5.
Definition insn_rs2 : Z := x 20 5.
Definition insn_rs3 : Z := x 27 5.
Definition insn_rm : Z := x 12 3.
Definition insn_csr : Z := x 20 12.
Definition insn_iorw : Z := x 20 8.
Definition insn_bs : Z := x 30 2.
Definition insn_rcon : Z := x 20 4.

Definition rvc_imm : Z := s64 (x 2 5 +! (xs 12 1 <<! 5)).
Definition rvc_zimm : Z := s64 (x 2 5 +! (x 12 1 <<! 5)).
Definition rvc_addi4spn_imm : Z :=
  s64 ((x 6 1 <<! 2) +! (x 5 1 <<! 3) +! (x 11 2 <<! 4) +! (x 7 4 <<! 6)).
Definition rvc_addi16sp_imm : Z :=
  s64 ((x 6 1 <<! 4) +! (x 2 1 <<! 5) +! (x 5 1 <<! 6) +! (x 3 2 <<! 7) +! (xs 12 1 <<! 9)).
Definition rvc_lwsp_imm : Z := s64 ((x 4 3 <<! 2) +! (x 12 1 <<! 5) +! (x 2 2 <<! 6)).
Definition rvc_ldsp_imm : Z := s64 ((x 5 2 <<! 3) +! (x 12 1 <<! 5) +! (x 2 3 <<! 6)).
Definition rvc_swsp_imm : Z := s64 ((x 9 4 <<! 2) +! (x 7 2 <<! 6)).
Definition rvc_sdsp_imm : Z := s64 ((x 10 3 <<! 3) +! (x 7 3 <<! 6)).
Definition rvc_lw_imm : Z := s64 ((x 6 1 <<! 2) +! (x 10 3 <<! 3) +! (x 5 1 <<! 6)).
Definition rvc_ld_imm : Z := s64 ((x 10 3 <<! 3) +! (x 5 2 <<! 6)).
Definition rvc_j_imm : Z :=
  s64 ((x 3 3 <<! 1) +! (x 11 1 <<! 4) +! (x 2 1 <<! 5) +! (x 7 1 <<! 6) +! (x 6 1 <<! 7) +!
       (x 9 2 <<! 8) +! (x 8 1 <<! 10) +! (xs 12 1 <<! 11)).
Definition rvc_b_imm : Z :=
  s64 ((x 3 2 <<! 1) +! (x 10 2 <<! 3) +! (x 2 1 <<! 5) +! (x 5 2 <<! 6) +! (xs 12 1 <<! 8)).
Definition rvc_simm3 : Z := s64 (x 10 3).
Definition rvc_rd : Z := insn_rd.
Definition rvc_rs1 : Z := insn_rd.
Definition rvc_rs2 : Z := x 2 5.
Definition rvc_rs1s : Z := 8 +! x 7 3.
Definition rvc_rs2s : Z := 8 +! x 2 3.
Definition rvc_lbimm : Z := (x 5 1 <<! 1) +! x 6 1.
Definition rvc_lhimm : Z := x 5 1 <<! 1.
Definition rvc_r1sc : Z := x 7 3.
Definition rvc_r2sc : Z := x 2 3.
Definition rvc_rlist : Z := x 4 4.
Definition rvc_spimm : Z := x 2 2 <<! 4.
Definition rvc_index : Z := x 2 8.

(** [for (reg_t i = 5; i <= rlist; i++) mask |= 1U << Sn(i - 5);] *)
Definition zcmp_regmask : Z :=
  let rlist := rvc_rlist in
  let mask := if 4 <=? rlist then 0 |! u32 (Z.shiftl 1 X_RA) else 0 in
  let mask := fold_left (fun mask i => mask |! u32 (Z.shiftl 1 (Sn (i - 5))))
                (seqZ 5 (rlist - 4)) mask in
  if rlist =? 15 then mask |! u32 (Z.shiftl 1 (Sn 11)) else mask.

(** The [switch] falls through from [case 15] down to [case 4]: an arm runs
    when the list is at least its largest label. *)
Definition zcmp_stack_adjustment (xlen : Z) : Z :=
  let r := rvc_rlist in
  let base := if (15 <=? r) then 16 else 0 in
  let base := if (14 <=? r) && (xlen =? 64) then base +! 16 else base in
  let base := if (12 <=? r) then base +! 16 else base in
  let base := if (10 <=? r) && (xlen =? 64) then base +! 16 else base in
  let base := if (8 <=? r) then base +! 16 else base in
  let base := if (6 <=? r) && (xlen =? 64) then base +! 16 else base in
  let base := if (4 <=? r) then base +! 16 else base in
  base +! rvc_spimm.
End insn_t.

(** ** Class [regfile_t] *)

(** [data[i] = value] on an array in range; indices come from 5-bit fields. *)
Definition regfile_write (zero_reg : bool) (i value : Z) (data : list Z) : list Z :=
  if negb zero_reg || negb (i =? 0) then <[Z.to_nat i := value]> data else data.
Definition regfile_get (data : list Z) (i : Z) : Z := nth (Z.to_nat i) data 0.
Definition regfile_reset (n : nat) : list Z := replicate n 0.

(** ** Field macros *)

Definition get_field (reg mask : Z) : Z := (reg &! mask) / (mask &! ~! (mask <<! 1)).
Definition set_field (reg mask val : Z) : Z :=
  (reg &! ~! mask) |! ((val *! (mask &! ~! (mask <<! 1))) &! mask).

(** ** Bits of the fields *)

Lemma insn_x_testbit b lo len i : 0 <= lo -> 0 <= len < 64 -> 0 <= i ->
  Z.testbit (insn_x b lo len) i = (i <? len) && Z.testbit b (i + lo).
Proof.
  intros. unfold insn_x. rewrite Z.shiftl_1_l, (wrap_small 64 (2 ^ len)).
  2: { pose proof (Z.pow_pos_nonneg 2 len). pose proof (Z.pow_lt_mono_r 2 len 64). lia. }
  rewrite wrap_small.
  2: { pose proof (Z.pow_pos_nonneg 2 len). pose proof (Z.pow_lt_mono_r 2 len 64). lia. }
  rewrite Z.sub_1_r, <- Z.ones_equiv, Z.land_spec, Z.shiftr_spec by lia.
  destruct (Z.ltb_spec i len).
  - rewrite Z.ones_spec_low by lia. by rewrite andb_true_r.
  - rewrite Z.ones_spec_high by lia. by rewrite andb_false_r.
Qed.

Lemma insn_x_range b lo len : 0 <= lo -> 0 <= len < 64 -> 0 <= insn_x b lo len < 2 ^ len.
Proof.
  intros. apply range_of_bits; [lia|]. intros i Hi. rewrite insn_x_testbit by lia.
  by replace (i <? len) with false by lia.
Qed.

Lemma insn_xs_testbit b lo len i : 0 <= lo -> 0 < len -> lo + len <= 64 -> 0 <= i ->
  Z.testbit (insn_xs b lo len) i = (i <? 64) && Z.testbit b (lo + Z.min i (len - 1)).
Proof.
  intros. unfold insn_xs. rewrite wrap_testbit, Z.shiftr_spec, swrap_testbit by lia.
  rewrite Z.shiftl_spec, swrap_testbit by lia.
  destruct (Z.ltb_spec i 64); [|done]. do 2 f_equal. lia.
Qed.

(** Adding a field above the bits already assembled is a disjunction. *)
Lemma imm_join l h k : 0 <= k <= 64 -> 0 <= l < 2 ^ k ->
  wrap 64 (l + wrap 64 (Z.shiftl h k)) = Z.lor l (wrap 64 (Z.shiftl h k)).
Proof.
  intros Hk Hl. assert (E : Z.land l (wrap 64 (Z.shiftl h k)) = 0).
  { apply Z.bits_inj'. intros i Hi.
    rewrite Z.land_spec, Z.bits_0, wrap_testbit, Z.shiftl_spec by lia.
    destruct (Z.ltb_spec i k).
    - by rewrite (Z.testbit_neg_r h), !andb_false_r by lia.
    - by rewrite (testbit_high k l). }
  rewrite <- disjoint_lor_add by done. apply wrap_small.
  pose proof (Z.pow_le_mono_r 2 k 64). apply lor_range; [lia|lia|by apply wrap_range].
Qed.

Lemma field_range b lo len k n : 0 <= lo -> 0 <= len < 64 -> 0 <= k -> k + len <= n <= 64 ->
  0 <= wrap 64 (Z.shiftl (insn_x b lo len) k) < 2 ^ n.
Proof.
  intros. apply range_of_bits; [lia|]. intros i Hi.
  rewrite wrap_testbit, Z.shiftl_spec, insn_x_testbit by lia.
  replace (i - k <? len) with false by lia. by rewrite andb_false_r.
Qed.

Lemma field0_range b lo len n : 0 <= lo -> 0 <= len < 64 -> len <= n ->
  0 <= insn_x b lo len < 2 ^ n.
Proof.
  intros. pose proof (insn_x_range b lo len). pose proof (Z.pow_le_mono_r 2 len n). lia.
Qed.

Ltac imm_range := repeat apply lor_range;
  first [ lia | apply field_range; lia | apply field0_range; lia ].

(** Turns the sum of shifted fields of an immediate into a disjunction. *)
Ltac imm_lor :=
  repeat match goal with
  | |- context [wrap 64 (?l + wrap 64 (Z.shiftl ?h ?k))] =>
      lazymatch l with
      | context [wrap 64 (_ + _)] => fail
      | _ => rewrite (imm_join l h k) by imm_range
      end
  end.

(** A value whose bits repeat from [n - 1] on is in the signed [n]-bit range. *)
Lemma signed_of_bits n z : 0 < n ->
  (forall i, n - 1 <= i -> Z.testbit z i = Z.testbit z (n - 1)) ->
  - 2 ^ (n - 1) <= z < 2 ^ (n - 1).
Proof.
  intros Hn H. assert (E : swrap n z = z).
  { apply Z.bits_inj'. intros i Hi. rewrite swrap_testbit by lia.
    destruct (Z.le_ge_cases (n - 1) i).
    - by rewrite Z.min_r, (H i) by lia.
    - by rewrite Z.min_l by lia. }
  rewrite <- E. by apply swrap_range.
Qed.

Lemma signed_bits_eq n a c : 0 < n -> - 2 ^ (n - 1) <= a < 2 ^ (n - 1) ->
  - 2 ^ (n - 1) <= c < 2 ^ (n - 1) ->
  (forall i, 0 <= i < n -> Z.testbit a i = Z.testbit c i) -> a = c.
Proof.
  intros Hn Ha Hc H. rewrite <- (swrap_small n Hn a), <- (swrap_small n Hn c) by done.
  apply Z.bits_inj'. intros i Hi. rewrite !swrap_testbit by lia. apply H. lia.
Qed.

(** ** Immediate formats

    The instruction formats of the ISA manual as tables: an immediate of
    [fmt_width] bits, signed or not, whose bits [dst .. dst + len - 1] are the
    instruction bits [src .. src + len - 1]. *)
Inductive imm_format :=
  | FmtI | FmtS | FmtB | FmtU | FmtJ
  | FmtCI | FmtCIshamt | FmtCADDI4SPN | FmtCADDI16SP | FmtCLWSP | FmtCLDSP | FmtCSWSP
  | FmtCSDSP | FmtCLW | FmtCLD | FmtCJ | FmtCB | FmtCLB | FmtCLH.

Record imm_layout := Layout {
  fmt_signed : bool;
  fmt_width : Z;
  fmt_fields : list (Z * Z * Z) (* (src, len, dst) *)
}.

Definition fmt_layout (f : imm_format) : imm_layout :=
  match f with
  | FmtI => Layout true 12 [(20, 12, 0)]
  | FmtS => Layout true 12 [(7, 5, 0); (25, 7, 5)]
  | FmtB => Layout true 13 [(8, 4, 1); (25, 6, 5); (7, 1, 11); (31, 1, 12)]
  | FmtU => Layout true 32 [(12, 20, 12)]
  | FmtJ => Layout true 21 [(21, 10, 1); (20, 1, 11); (12, 8, 12); (31, 1, 20)]
  | FmtCI => Layout true 6 [(2, 5, 0); (12, 1, 5)]
  | FmtCIshamt => Layout false 6 [(2, 5, 0); (12, 1, 5)]
  | FmtCADDI4SPN => Layout false 10 [(6, 1, 2); (5, 1, 3); (11, 2, 4); (7, 4, 6)]
  | FmtCADDI16SP => Layout true 10 [(6, 1, 4); (2, 1, 5); (5, 1, 6); (3, 2, 7); (12, 1, 9)]
  | FmtCLWSP => Layout false 8 [(4, 3, 2); (12, 1, 5); (2, 2, 6)]
  | FmtCLDSP => Layout false 9 [(5, 2, 3); (12, 1, 5); (2, 3, 6)]
  | FmtCSWSP => Layout false 8 [(9, 4, 2); (7, 2, 6)]
  | FmtCSDSP => Layout false 9 [(10, 3, 3); (7, 3, 6)]
  | FmtCLW => Layout false 7 [(6, 1, 2); (10, 3, 3); (5, 1, 6)]
  | FmtCLD => Layout false 8 [(10, 3, 3); (5, 2, 6)]
  | FmtCJ => Layout true 12 [(3, 3, 1); (11, 1, 4); (2, 1, 5); (7, 1, 6); (6, 1, 7);
                             (9, 2, 8); (8, 1, 10); (12, 1, 11)]
  | FmtCB => Layout true 9 [(3, 2, 1); (10, 2, 3); (2, 1, 5); (5, 2, 6); (12, 1, 8)]
  | FmtCLB => Layout false 2 [(6, 1, 0); (5, 1, 1)]
  | FmtCLH => Layout false 2 [(5, 1, 1)]
  end.

Definition fmt_decode (f : imm_format) : Z -> Z :=
  match f with
  | FmtI => insn_i_imm | FmtS => insn_s_imm | FmtB => insn_sb_imm
  | FmtU => insn_u_imm | FmtJ => insn_uj_imm
  | FmtCI => rvc_imm | FmtCIshamt => rvc_zimm
  | FmtCADDI4SPN => rvc_addi4spn_imm | FmtCADDI16SP => rvc_addi16sp_imm
  | FmtCLWSP => rvc_lwsp_imm | FmtCLDSP => rvc_ldsp_imm
  | FmtCSWSP => rvc_swsp_imm | FmtCSDSP => rvc_sdsp_imm
  | FmtCLW => rvc_lw_imm | FmtCLD => rvc_ld_imm
  | FmtCJ => rvc_j_imm | FmtCB => rvc_b_imm
  | FmtCLB => rvc_lbimm | FmtCLH => rvc_lhimm
  end.

(** The assembler's side: scatter an immediate into the instruction word. *)
Definition fmt_encode (f : imm_format) (v : Z) : Z :=
  foldr (fun '(src, len, dst) acc =>
    Z.lor (Z.shiftl (Z.land (Z.shiftr v dst) (Z.ones len)) src) acc) 0 (fmt_fields (fmt_layout f)).
Definition fmt_mask (f : imm_format) : Z :=
  foldr (fun '(src, len, _) acc => Z.lor (Z.shiftl (Z.ones len) src) acc) 0
    (fmt_fields (fmt_layout f)).
Definition fmt_value_mask (f : imm_format) : Z :=
  foldr (fun '(_, len, dst) acc => Z.lor (Z.shiftl (Z.ones len) dst) acc) 0
    (fmt_fields (fmt_layout f)).

(** The immediates a format can express: in range, with the implicit low bits zero. *)
Definition fmt_ok (f : imm_format) (v : Z) : Prop :=
  let n := fmt_width (fmt_layout f) in
  (if fmt_signed (fmt_layout f) then - 2 ^ (n - 1) <= v < 2 ^ (n - 1) else 0 <= v < 2 ^ n) /\
  forall i, 0 <= i < n -> Z.testbit (fmt_value_mask f) i = false -> Z.testbit v i = false.

(** ** Decoding inverts encoding *)

Lemma other_bit w m p : 0 <= p -> Z.land w m = 0 -> Z.testbit m p = true -> Z.testbit w p = false.
Proof.
  intros Hp H Hm. assert (E : Z.testbit (Z.land w m) p = false) by (rewrite H; apply Z.bits_0).
  by rewrite Z.land_spec, Hm, andb_true_r in E.
Qed.

Create Rewrite HintDb fbits.
#[export] Hint Rewrite Z.lor_spec Z.land_spec Z.bits_0 : fbits.
#[export] Hint Rewrite swrap_testbit wrap_testbit insn_x_testbit insn_xs_testbit
  Z.shiftl_spec Z.shiftr_spec Z.testbit_neg_r using lia : fbits.

(** Evaluates the closed bit positions and comparisons left by the bit rewriting. *)
Ltac closed_step :=
  match goal with
  | |- context [Z.testbit ?a (Z.add ?p ?q)] =>
      let e := eval vm_compute in (Z.add p q) in progress change (Z.add p q) with e
  | |- context [Z.testbit ?a (Z.sub ?p ?q)] =>
      let e := eval vm_compute in (Z.sub p q) in progress change (Z.sub p q) with e
  | |- context [Z.testbit ?a (Z.min ?p ?q)] =>
      let e := eval vm_compute in (Z.min p q) in progress change (Z.min p q) with e
  | |- context [?p <? ?q] =>
      let e := eval vm_compute in (p <? q) in
      match e with true => idtac | false => idtac end; change (p <? q) with e
  | |- context [Z.testbit (Z.ones ?n) ?p] =>
      let e := eval vm_compute in (Z.testbit (Z.ones n) p) in
      match e with true => idtac | false => idtac end; change (Z.testbit (Z.ones n) p) with e
  end.
Ltac fbits :=
  repeat (progress (autorewrite with fbits; repeat closed_step;
    rewrite ?andb_false_l, ?andb_false_r, ?andb_true_l, ?andb_true_r,
            ?orb_false_l, ?orb_false_r)).

Ltac unfold_imm :=
  cbv [fmt_decode insn_i_imm insn_s_imm insn_sb_imm insn_u_imm insn_uj_imm rvc_imm rvc_zimm
    rvc_addi4spn_imm rvc_addi16sp_imm rvc_lwsp_imm rvc_ldsp_imm rvc_swsp_imm rvc_sdsp_imm
    rvc_lw_imm rvc_ld_imm rvc_j_imm rvc_b_imm rvc_lbimm rvc_lhimm insn_imm_sign];
  rewrite ?(Z.add_comm (wrap 64 (Z.shiftl (insn_x _ 5 1) 1)) (insn_x _ 6 1));
  imm_lor.

(** Runs [tac] on each of the concrete positions below [n]. *)
Ltac each_bit i n tac :=
  lazymatch n with
  | O => lia
  | S ?m => destruct (Z.eq_dec i (Z.of_nat m)) as [->|];
      [let e := eval vm_compute in (Z.of_nat m) in change (Z.of_nat m) with e; tac | each_bit i m tac]
  end.

Lemma fmt_decode_bit f w v i : fmt_ok f v -> Z.land w (fmt_mask f) = 0 ->
  0 <= i < fmt_width (fmt_layout f) ->
  Z.testbit (fmt_decode f (Z.lor w (fmt_encode f v))) i = Z.testbit v i.
Proof.
  intros [_ Hz] Hw Hi.
  assert (Ho : forall p, 0 <= p -> Z.testbit (fmt_mask f) p = true ->
    Z.testbit (Z.lor w (fmt_encode f v)) p = Z.testbit (fmt_encode f v) p).
  { intros p Hp Hm. by rewrite Z.lor_spec, (other_bit _ _ _ Hp Hw Hm). }
  set (b := Z.lor w (fmt_encode f v)) in *. clearbody b. clear Hw w.
  destruct f; cbn [fmt_layout fmt_width] in Hi; unfold_imm.
  all: let n := match type of Hi with _ <= _ < ?n => eval vm_compute in (Z.to_nat n) end in
    each_bit i n ltac:(fbits; first
      [ symmetry; apply Hz; [simpl; lia|reflexivity]
      | rewrite Ho by (first [lia | reflexivity]);
        cbv [fmt_encode fmt_layout fmt_fields foldr]; fbits; reflexivity ]).
Qed.

(** Bits at or above the sign position repeat the sign. *)
Lemma fmt_decode_sign f b i : fmt_signed (fmt_layout f) = true ->
  fmt_width (fmt_layout f) - 1 <= i ->
  Z.testbit (fmt_decode f b) i = Z.testbit (fmt_decode f b) (fmt_width (fmt_layout f) - 1).
Proof.
  intros Hs Hi. destruct f; try discriminate; cbn [fmt_layout fmt_width] in *; unfold_imm.
  all: rewrite (fun z => swrap_testbit 64 ltac:(lia) z i) by lia; destruct (Z.min_spec i (64 - 1)) as [[? ->]|[_ ->]];
    [|fbits; reflexivity].
  all: rewrite swrap_testbit by lia; autorewrite with fbits;
    repeat match goal with |- context [?p <? ?q] =>
      first [replace (p <? q) with true by lia | replace (p <? q) with false by lia] end;
    repeat match goal with |- context [Z.min ?p ?q] =>
      first [rewrite (Z.min_r p q) by lia | rewrite (Z.min_l p q) by lia] end;
    cbn [andb orb]; repeat closed_step; reflexivity.
Qed.

Lemma fmt_decode_high f b i : fmt_signed (fmt_layout f) = false ->
  fmt_width (fmt_layout f) <= i -> Z.testbit (fmt_decode f b) i = false.
Proof.
  intros Hs Hi. destruct f; try discriminate; cbn [fmt_layout fmt_width] in *; unfold_imm.
  all: rewrite ?(fun z => swrap_testbit 64 ltac:(lia) z i) by lia; try (destruct (Z.min_spec i (64 - 1)) as [[? ->]|[_ ->]];
    [|fbits; reflexivity]).
  all: autorewrite with fbits;
    repeat match goal with |- context [?p <? ?q] =>
      first [replace (p <? q) with false by lia] end;
    cbn [andb orb]; rewrite ?andb_false_r; reflexivity.
Qed.

Lemma fmt_decode_range f b :
  let n := fmt_width (fmt_layout f) in
  if fmt_signed (fmt_layout f) then - 2 ^ (n - 1) <= fmt_decode f b < 2 ^ (n - 1)
  else 0 <= fmt_decode f b < 2 ^ n.
Proof.
  cbv zeta. destruct (fmt_signed (fmt_layout f)) eqn:Hs.
  - apply signed_of_bits; [by destruct f|]. intros i Hi. by apply fmt_decode_sign.
  - apply range_of_bits; [by destruct f|]. intros i Hi. by apply fmt_decode_high.
Qed.

Lemma fmt_decode_encode f w v : fmt_ok f v -> Z.land w (fmt_mask f) = 0 ->
  fmt_decode f (Z.lor w (fmt_encode f v)) = v.
Proof.
  intros Hv Hw. pose proof (fmt_decode_range f (Z.lor w (fmt_encode f v))) as Hr. cbv zeta in Hr.
  pose proof (proj1 Hv) as Hvr. pose proof (fmt_decode_bit f w v) as Hbit.
  set (n := fmt_width (fmt_layout f)) in *. assert (Hn : 0 < n) by (by destruct f).
  destruct (fmt_signed (fmt_layout f)).
  - apply (signed_bits_eq n); [done|done|done|]. intros i Hi. by apply Hbit.
  - apply Z.bits_inj'. intros i Hi. destruct (Z.lt_ge_cases i n); [by apply Hbit|].
    by rewrite !(testbit_high n) by lia.
Qed.
(** ** CSR fields *)

Section field.
(** A field of [len] bits at [pos], given by its mask as in [encoding.h]. *)
Context (pos len : Z) (Hp : 0 <= pos) (Hl : 0 < len) (Hpl : pos + len <= 64).
Let mask := Z.shiftl (Z.ones len) pos.

Lemma field_mask_testbit i : 0 <= i -> Z.testbit mask i = (pos <=? i) && (i <? pos + len).
Proof using Hp Hl.
  intros Hi. unfold mask. rewrite Z.shiftl_spec by done.
  destruct (Z.leb_spec pos i), (Z.ltb_spec i (pos + len)); cbn [andb].
  - apply Z.ones_spec_low. lia.
  - apply Z.ones_spec_high. lia.
  - by apply Z.testbit_neg_r; lia.
  - by apply Z.testbit_neg_r; lia.
Qed.

(** [mask & ~(mask << 1)] isolates the lowest bit of the field. *)
Lemma field_lsb : Z.land mask (wrap 64 (Z.lnot (wrap 64 (Z.shiftl mask 1)))) = 2 ^ pos.
Proof using Hp Hl Hpl.
  apply Z.bits_inj'. intros i Hi.
  rewrite Z.land_spec, wrap_testbit, Z.lnot_spec, wrap_testbit, Z.shiftl_spec by lia.
  rewrite field_mask_testbit, Z.pow2_bits_eqb by lia.
  destruct (Z.eqb_spec pos i) as [<-|].
  - replace (pos <=? pos) with true by lia. replace (pos <? pos + len) with true by lia.
    replace (pos <? 64) with true by lia. cbn [andb].
    destruct (Z.eq_dec pos 0) as [->|]; [by rewrite Z.testbit_neg_r by lia|].
    rewrite field_mask_testbit by lia. by replace (pos <=? pos - 1) with false by lia.
  - destruct (Z.leb_spec pos i); [|done]. destruct (Z.ltb_spec i (pos + len)); [|done].
    rewrite field_mask_testbit by lia. replace (i <? 64) with true by lia.
    replace (pos <=? i - 1) with true by lia. by replace (i - 1 <? pos + len) with true by lia.
Qed.

Lemma get_field_bits reg : get_field reg mask = (reg / 2 ^ pos) mod 2 ^ len.
Proof using Hp Hl Hpl.
  unfold get_field. rewrite field_lsb. unfold mask.
  rewrite <- Z.shiftr_div_pow2, Z.shiftr_land, Z.shiftr_shiftl_l, Z.sub_diag by lia.
  by rewrite Z.shiftl_0_r, Z.land_ones, Z.shiftr_div_pow2 by lia.
Qed.

Lemma set_field_testbit reg val i : 0 <= i < 64 ->
  Z.testbit (set_field reg mask val) i =
    if (pos <=? i) && (i <? pos + len) then Z.testbit val (i - pos) else Z.testbit reg i.
Proof using Hp Hl Hpl.
  intros Hi. unfold set_field. rewrite field_lsb.
  rewrite Z.lor_spec, !Z.land_spec, !wrap_testbit, Z.lnot_spec by lia.
  rewrite field_mask_testbit, Z.mul_pow2_bits by lia. replace (i <? 64) with true by lia.
  destruct ((pos <=? i) && (i <? pos + len)); cbn [negb andb];
    rewrite ?andb_true_r, ?andb_false_r, ?orb_false_r; done.
Qed.

Lemma set_field_range reg val : 0 <= reg < 2 ^ 64 -> 0 <= set_field reg mask val < 2 ^ 64.
Proof using Hp Hl Hpl.
  intros Hr. apply range_of_bits; [lia|]. intros i Hi. unfold set_field.
  rewrite Z.lor_spec, !Z.land_spec, !wrap_testbit by lia.
  rewrite (testbit_high 64 reg) by lia. by replace (i <? 64) with false by lia.
Qed.

Lemma get_set_field reg val : 0 <= reg < 2 ^ 64 ->
  get_field (set_field reg mask val) mask = val mod 2 ^ len.
Proof using Hp Hl Hpl.
  intros Hr. rewrite get_field_bits. apply Z.bits_inj'. intros i Hi.
  rewrite <- Z.shiftr_div_pow2 by lia. destruct (Z.lt_ge_cases i len).
  - rewrite !Z.mod_pow2_bits_low, Z.shiftr_spec, set_field_testbit by lia.
    replace ((pos <=? i + pos) && (i + pos <? pos + len)) with true by lia. f_equal. lia.
  - by rewrite !Z.mod_pow2_bits_high by lia.
Qed.
End field.

(** ** Register file *)

Lemma regfile_get_write zr i j v (d : list Z) : (Z.to_nat i < length d)%nat -> 0 <= i -> 0 <= j ->
  regfile_get (regfile_write zr i v d) j =
    if (i =? j) && (negb zr || negb (i =? 0)) then v else regfile_get d j.
Proof.
  intros Hd Hi Hj. unfold regfile_get, regfile_write.
  destruct (negb zr || negb (i =? 0)); [|by rewrite andb_false_r]. rewrite andb_true_r.
  destruct (Z.eqb_spec i j) as [->|Hne].
  - apply (nth_lookup_Some _ _ _ v). by apply list_lookup_insert_eq.
  - rewrite !nth_lookup. by rewrite list_lookup_insert_ne by lia.
Qed.

Lemma regfile_write_length zr i v d : length (regfile_write zr i v d) = length d.
Proof. unfold regfile_write. case_match; [apply length_insert|done]. Qed.

(** ** Zcmp register lists *)

(** The register list of the Zcmp specification: [ra], then [s0 .. s_k]; value
    15 selects all of [s0 .. s11]. *)
Definition zcmp_regs (rlist : Z) : list Z :=
  if rlist <? 4 then []
  else X_RA :: (Sn <$> seqZ 0 (if rlist =? 15 then 12 else rlist - 4)).

(** Everything the Zcmp helpers read of the instruction is the list field and
    the extra adjustment: reduce to the word holding only the list field. *)
Definition rlist_word (r : Z) : Z := Z.shiftl r 4.

Definition zcmp_frame_check (xlen r : Z) : bool :=
  let n := Z.of_nat (length (zcmp_regs r)) in
  let base := zcmp_stack_adjustment (rlist_word r) xlen in
  (rvc_rlist (rlist_word r) =? r) && (rvc_spimm (rlist_word r) =? 0) &&
  (base mod 16 =? 0) && (n * (xlen / 8) <=? base) && (base <? n * (xlen / 8) + 16) &&
  (base <? 2 ^ 63) &&
  forallb (fun i => Bool.eqb (Z.testbit (zcmp_regmask (rlist_word r)) i)
                             (bool_decide (i ∈ zcmp_regs r))) (seqZ 0 32).

Lemma zcmp_frame_checked xlen b : xlen = 32 \/ xlen = 64 ->
  zcmp_frame_check xlen (rvc_rlist b) = true.
Proof.
  intros Hx. assert (Hr : rvc_rlist b ∈ seqZ 0 16).
  { apply elem_of_seqZ. unfold rvc_rlist. pose proof (insn_x_range b 4 4). lia. }
  assert (Hall : forallb (zcmp_frame_check xlen) (seqZ 0 16) = true)
    by (destruct Hx as [->| ->]; vm_compute; reflexivity).
  rewrite forallb_forall in Hall. apply Hall. by apply list_elem_of_In.
Qed.

Lemma zcmp_frame b xlen : xlen = 32 \/ xlen = 64 ->
  let n := Z.of_nat (length (zcmp_regs (rvc_rlist b))) in
  let base := zcmp_stack_adjustment b xlen - rvc_spimm b in
  (forall i, 0 <= i < 32 ->
    Z.testbit (zcmp_regmask b) i = bool_decide (i ∈ zcmp_regs (rvc_rlist b))) /\
  base mod 16 = 0 /\ n * (xlen / 8) <= base < n * (xlen / 8) + 16.
Proof.
  intros Hx n base. pose proof (zcmp_frame_checked xlen b Hx) as Hc. unfold zcmp_frame_check in Hc.
  rewrite !andb_true_iff in Hc. destruct Hc as [[[[[[Hr Hs] Hb] Hl] Hu] H63] Hm].
  assert (Hsp : 0 <= rvc_spimm b < 2 ^ 6) by (unfold rvc_spimm; apply field_range; lia).
  assert (Em : zcmp_regmask b = zcmp_regmask (rlist_word (rvc_rlist b))).
  { unfold zcmp_regmask. by replace (rvc_rlist (rlist_word (rvc_rlist b))) with (rvc_rlist b) by lia. }
  assert (Eb : base = zcmp_stack_adjustment (rlist_word (rvc_rlist b)) xlen).
  { unfold base. unfold zcmp_stack_adjustment in *.
    replace (rvc_rlist (rlist_word (rvc_rlist b))) with (rvc_rlist b) in * by lia.
    replace (rvc_spimm (rlist_word (rvc_rlist b))) with 0 in * by lia.
    cbv zeta in *.
    match goal with |- wrap 64 (?t + _) - _ = _ => set (base0 := t) in * end.
    rewrite Z.add_0_r in *. assert (0 <= base0 < 2 ^ 64).
    { unfold base0. repeat (match goal with |- context [if ?c then _ else _] =>
        destruct c end); try (apply wrap_range); lia. }
    rewrite (wrap_small 64 base0) in * by done. rewrite wrap_small by lia. lia. }
  rewrite Em, Eb. split_and!; [|lia|unfold n; lia|unfold n; lia].
  intros i Hi. rewrite forallb_forall in Hm. apply eqb_prop, Hm, list_elem_of_In, elem_of_seqZ. lia.
Qed.

(** ** Properties *)

(** C29: Every immediate extractor of [insn_t] and of the compressed formats
    inverts the bit scattering of its format in the ISA manual: whatever the
    opcode and register bits [w] are, an expressible immediate [v] placed in the
    word is read back exactly; and whatever the word is, the extracted value is
    in the signed or unsigned range of the format. *)
Theorem immediate_roundtrip f w v b : fmt_ok f v -> Z.land w (fmt_mask f) = 0 ->
  fmt_decode f (Z.lor w (fmt_encode f v)) = v /\
  (let n := fmt_width (fmt_layout f) in
   if fmt_signed (fmt_layout f) then - 2 ^ (n - 1) <= fmt_decode f b < 2 ^ (n - 1)
   else 0 <= fmt_decode f b < 2 ^ n).
Proof. intros Hv Hw. split; [by apply fmt_decode_encode|apply fmt_decode_range]. Qed.

(** Branch offset -4096 in the word of [beq x0, x0], read back by the B format. *)
Lemma immediate_roundtrip_witness :
  fmt_decode FmtB (Z.lor 0x63 (fmt_encode FmtB (-4096))) = -4096.
Proof.
  refine (proj1 (immediate_roundtrip FmtB 0x63 (-4096) 0 _ _)); [|reflexivity].
  split; [split; [discriminate|reflexivity]|]. intros i Hi Hm.
  destruct (Z.eq_dec i 12) as [->|]; [discriminate Hm|].
  by rewrite <- (Z.mod_pow2_bits_low (-4096) 12 i), Z.bits_0 by (simpl in Hi; lia).
Defined.

(** The CSR field macros: [set_field] changes exactly the bits of the
    field, keeps the register in 64 bits, [get_field] reads the field as a
    number, and reading what was written gives the value cut to the width of
    the field. *)
Theorem csr_field_laws pos len reg val : 0 <= pos -> 0 < len -> pos + len <= 64 ->
  0 <= reg < 2 ^ 64 ->
  let mask := Z.shiftl (Z.ones len) pos in
  get_field reg mask = (reg / 2 ^ pos) mod 2 ^ len /\
  get_field (set_field reg mask val) mask = val mod 2 ^ len /\
  0 <= set_field reg mask val < 2 ^ 64 /\
  (forall i, 0 <= i < 64 ->
    Z.testbit (set_field reg mask val) i =
      if (pos <=? i) && (i <? pos + len) then Z.testbit val (i - pos) else Z.testbit reg i).
Proof.
  intros Hp Hl Hpl Hr mask. split_and!.
  - by apply get_field_bits.
  - by apply get_set_field.
  - by apply set_field_range.
  - by apply set_field_range.
  - by apply set_field_testbit.
Qed.

(** [MSTATUS_MPP] is bits 11 and 12. *)
Lemma csr_field_laws_witness :
  get_field (set_field 0xffff 0x1800 5) 0x1800 = 5 mod 2 ^ 2.
Proof.
  refine (proj1 (proj2 (csr_field_laws 11 2 0xffff 5 _ _ _ _)));
    try split; try discriminate; reflexivity.
Defined.

(** C30: The Zcmp helpers agree with the register lists of the specification:
    the mask has exactly the registers of the list (ra, then the saved
    registers in order, with the jump from s10 to s11 for list 15), and the
    stack adjustment without the extra blocks is the 16-byte aligned size that
    holds all of them, and no more than that. *)
Theorem zcmp_frame_exact b xlen : xlen = 32 \/ xlen = 64 ->
  let n := Z.of_nat (length (zcmp_regs (rvc_rlist b))) in
  let base := zcmp_stack_adjustment b xlen - rvc_spimm b in
  (forall i, 0 <= i < 32 ->
    Z.testbit (zcmp_regmask b) i = bool_decide (i ∈ zcmp_regs (rvc_rlist b))) /\
  base mod 16 = 0 /\ n * (xlen / 8) <= base < n * (xlen / 8) + 16.
Proof. apply zcmp_frame. Qed.

Lemma zcmp_frame_exact_witness :
  (zcmp_stack_adjustment 0xb8f2 64 - rvc_spimm 0xb8f2) mod 16 = 0.
Proof. exact (proj1 (proj2 (zcmp_frame_exact 0xb8f2 64 (or_intror eq_refl)))). Defined.
