(* ===== verification/Hart.v ===== *)
(** * Hart state and the instruction macros: [src/riscv/decode_macros.h]

    The architectural state an instruction body reads and writes, the monad the
    bodies are written in (state passing where a C++ exception or an early
    [return] leaves the state as it was reached), the register, privilege and
    control-flow macros, and the instruction template of [insn_template.cc].

    [xlen] and [rve] are the two compile-time constants the template is
    instantiated with.  Writing the commit log ([DECODE_MACRO_USAGE_LOGGED]) is
    not modelled: it has no architectural effect. *)

From S2P Require Import Prelude Arith Decode.
Local Open Scope cint_scope.

(** ** Traps: [trap.h] *)

Definition CAUSE_MISALIGNED_FETCH : Z := 0x0.
Definition CAUSE_FETCH_ACCESS : Z := 0x1.
Definition CAUSE_ILLEGAL_INSTRUCTION : Z := 0x2.
Definition CAUSE_BREAKPOINT : Z := 0x3.
Definition CAUSE_MISALIGNED_LOAD : Z := 0x4.
Definition CAUSE_LOAD_ACCESS : Z := 0x5.
Definition CAUSE_MISALIGNED_STORE : Z := 0x6.
Definition CAUSE_STORE_ACCESS : Z := 0x7.
Definition CAUSE_USER_ECALL : Z := 0x8.
Definition CAUSE_SUPERVISOR_ECALL : Z := 0x9.
Definition CAUSE_VIRTUAL_SUPERVISOR_ECALL : Z := 0xa.
Definition CAUSE_MACHINE_ECALL : Z := 0xb.
Definition CAUSE_FETCH_PAGE_FAULT : Z := 0xc.
Definition CAUSE_LOAD_PAGE_FAULT : Z := 0xd.
Definition CAUSE_STORE_PAGE_FAULT : Z := 0xf.
Definition CAUSE_DOUBLE_TRAP : Z := 0x10.
Definition CAUSE_SOFTWARE_CHECK_FAULT : Z := 0x12.
Definition CAUSE_HARDWARE_ERROR_FAULT : Z := 0x13.
Definition CAUSE_FETCH_GUEST_PAGE_FAULT : Z := 0x14.
Definition CAUSE_LOAD_GUEST_PAGE_FAULT : Z := 0x15.
Definition CAUSE_VIRTUAL_INSTRUCTION : Z := 0x16.
Definition CAUSE_STORE_GUEST_PAGE_FAULT : Z := 0x17.

(** Classes [trap_t], [insn_trap_t], [mem_trap_t], [trap_debug_mode] and
    [wait_for_interrupt_t]; a call of [abort()], which ends the simulator, leaves a
    body the same way. *)
Inductive trap :=
  | plain_trap (which : Z)
  | insn_trap (which : Z) (gva : bool) (tval : Z)
  | mem_trap (which : Z) (gva : bool) (tval tval2 tinst : Z)
  | trap_debug_mode
  | trigger_matched (operation address action : Z) (gva : bool)
  | wait_for_interrupt
  | simulator_abort.

Definition trap_cause (t : trap) : Z :=
  match t with
  | plain_trap w | insn_trap w _ _ | mem_trap w _ _ _ _ => w
  | trap_debug_mode | trigger_matched _ _ _ _ | wait_for_interrupt | simulator_abort => -1
  end.
Definition trap_has_gva (t : trap) : bool :=
  match t with insn_trap _ g _ | mem_trap _ g _ _ _ => g | _ => false end.
Definition trap_tval (t : trap) : Z :=
  match t with insn_trap _ _ v | mem_trap _ _ v _ _ => v | _ => 0 end.
Definition trap_tval2 (t : trap) : Z := match t with mem_trap _ _ _ v _ => v | _ => 0 end.
Definition trap_tinst (t : trap) : Z := match t with mem_trap _ _ _ _ v => v | _ => 0 end.

Definition trap_illegal_instruction (tval : Z) := insn_trap CAUSE_ILLEGAL_INSTRUCTION false tval.
Definition trap_virtual_instruction (tval : Z) := insn_trap CAUSE_VIRTUAL_INSTRUCTION false tval.
Definition trap_software_check (tval : Z) := insn_trap CAUSE_SOFTWARE_CHECK_FAULT false tval.
Definition trap_breakpoint (gva : bool) (tval : Z) := insn_trap CAUSE_BREAKPOINT gva tval.
Definition trap_instruction_address_misaligned := mem_trap CAUSE_MISALIGNED_FETCH.
Definition trap_instruction_access_fault := mem_trap CAUSE_FETCH_ACCESS.
Definition trap_load_address_misaligned := mem_trap CAUSE_MISALIGNED_LOAD.
Definition trap_store_address_misaligned := mem_trap CAUSE_MISALIGNED_STORE.
Definition trap_load_access_fault := mem_trap CAUSE_LOAD_ACCESS.
Definition trap_store_access_fault := mem_trap CAUSE_STORE_ACCESS.
Definition trap_instruction_page_fault := mem_trap CAUSE_FETCH_PAGE_FAULT.
Definition trap_load_page_fault := mem_trap CAUSE_LOAD_PAGE_FAULT.
Definition trap_store_page_fault := mem_trap CAUSE_STORE_PAGE_FAULT.
Definition trap_instruction_guest_page_fault := mem_trap CAUSE_FETCH_GUEST_PAGE_FAULT true.
Definition trap_load_guest_page_fault := mem_trap CAUSE_LOAD_GUEST_PAGE_FAULT true.
Definition trap_store_guest_page_fault := mem_trap CAUSE_STORE_GUEST_PAGE_FAULT true.

(** ** Extensions: [isa_extension_t] and the single-letter extensions *)
Inductive extension :=
  | EXT_A | EXT_E | EXT_H | EXT_M | EXT_S | EXT_U
  | EXT_ZBA | EXT_ZBB | EXT_ZBC | EXT_ZBS | EXT_ZBKB | EXT_ZBKC | EXT_ZBKX
  | EXT_ZCA | EXT_ZCB | EXT_ZCMLSD | EXT_ZCMP | EXT_ZCMT
  | EXT_ZKND | EXT_ZKNE | EXT_ZKNH | EXT_ZKSED | EXT_ZKSH | EXT_ZMMUL
  | EXT_ZICOND | EXT_ZILSD | EXT_ZALASR | EXT_ZABHA | EXT_ZACAS
  | EXT_ZICBOM | EXT_ZICBOZ | EXT_ZIMOP | EXT_ZCMOP | EXT_ZICFILP | EXT_ZICFISS | EXT_SVNAPOT
  | EXT_F | EXT_ZFINX | EXT_SMDBLTRP | EXT_SSDBLTRP | EXT_SMRNMI | EXT_SSCOFPMF | EXT_SSTC | EXT_SVINVAL
  | EXT_SMNPM | EXT_SSNPM | EXT_SVADU | EXT_SVPBMT | EXT_SMSTATEEN | EXT_ZICNTR.

#[global] Instance extension_eq_dec : EqDecision extension.
Proof. solve_decision. Defined.

Definition PRV_U : Z := 0.
Definition PRV_S : Z := 1.
Definition PRV_M : Z := 3.

Definition PC_SERIALIZE_BEFORE : Z := 3.
Definition PC_SERIALIZE_AFTER : Z := 5.
Definition invalid_pc (pc : Z) : bool := Z.odd pc.

(** ** State: the part of [state_t] the modelled instructions use

    [npc] is the local variable of the instruction function, [spc] is
    [STATE.pc]; [world] is what the MMU reaches (memory, TLB, reservation). *)
Record dcsr_bits := DcsrBits {
  ebreakm : bool; ebreaks : bool; ebreaku : bool; ebreakvs : bool; ebreakvu : bool
}.

Record state (W : Type) := State {
  XPR : list Z;
  npc : Z;
  spc : Z;
  prv : Z;
  virt : bool;
  elp : bool;
  debug_mode : bool;
  dcsr : dcsr_bits;
  menvcfg : Z;
  senvcfg : Z;
  henvcfg : Z;
  mseccfg : Z;
  extension_enabled : extension -> bool;
  world : W
}.
Arguments State {W}. Arguments XPR {W}. Arguments npc {W}. Arguments spc {W}.
Arguments prv {W}. Arguments virt {W}. Arguments elp {W}. Arguments debug_mode {W}.
Arguments dcsr {W}. Arguments menvcfg {W}. Arguments senvcfg {W}.
Arguments henvcfg {W}. Arguments mseccfg {W}. Arguments extension_enabled {W}.
Arguments world {W}.

Definition with_XPR {W} (r : list Z) (s : state W) : state W :=
  State r (npc s) (spc s) (prv s) (virt s) (elp s) (debug_mode s) (dcsr s)
    (menvcfg s) (senvcfg s) (henvcfg s) (mseccfg s) (extension_enabled s) (world s).
Definition with_npc {W} (p : Z) (s : state W) : state W :=
  State (XPR s) p (spc s) (prv s) (virt s) (elp s) (debug_mode s) (dcsr s)
    (menvcfg s) (senvcfg s) (henvcfg s) (mseccfg s) (extension_enabled s) (world s).
Definition with_spc {W} (p : Z) (s : state W) : state W :=
  State (XPR s) (npc s) p (prv s) (virt s) (elp s) (debug_mode s) (dcsr s)
    (menvcfg s) (senvcfg s) (henvcfg s) (mseccfg s) (extension_enabled s) (world s).
Definition with_elp {W} (e : bool) (s : state W) : state W :=
  State (XPR s) (npc s) (spc s) (prv s) (virt s) e (debug_mode s) (dcsr s)
    (menvcfg s) (senvcfg s) (henvcfg s) (mseccfg s) (extension_enabled s) (world s).
Definition with_world {W} (w : W) (s : state W) : state W :=
  State (XPR s) (npc s) (spc s) (prv s) (virt s) (elp s) (debug_mode s) (dcsr s)
    (menvcfg s) (senvcfg s) (henvcfg s) (mseccfg s) (extension_enabled s) w.

(** ** The environment of an instruction function

    [xlen] and [rve] select the variant of the template, [insn] and [pc] are
    the arguments of the instruction function. *)
Class env := Env { xlen : Z; rve : bool; insn : Z; pc : Z }.

(** ** The monad of instruction bodies *)
Definition M (W A : Type) : Type := state W -> (trap + A) * state W.

#[global] Instance M_ret W : MRet (M W) := fun A a s => (inr a, s).
#[global] Instance M_bind W : MBind (M W) := fun A B k m s =>
  match m s with
  | (inl t, s') => (inl t, s')
  | (inr a, s') => k a s'
  end.
Definition throw {W A} (t : trap) : M W A := fun s => (inl t, s).
Definition gets {W A} (f : state W -> A) : M W A := fun s => (inr (f s), s).
Definition modify {W} (f : state W -> state W) : M W unit := fun s => (inr tt, f s).
Definition when {W} (c : bool) (m : M W unit) : M W unit := if c then m else mret tt.

(** ** Width macros *)
Definition sext (x pos : Z) : Z := s64 (Z.shiftl (s64 x) (64 - pos)) >>! (64 - pos).
Definition zext (x pos : Z) : Z := (x <<! (64 - pos)) >>! (64 - pos).
Definition sext32 (x : Z) : Z := s64 (s32 x).
Definition zext32 (x : Z) : Z := u64 (u32 x).

Lemma sext_swrap x pos : 0 < pos <= 64 -> sext x pos = swrap pos x.
Proof.
  intros Hp. unfold sext. apply Z.bits_inj'. intros i Hi.
  rewrite Z.shiftr_spec, !swrap_testbit, Z.shiftl_spec, swrap_testbit by lia.
  f_equal. lia.
Qed.

Lemma zext_wrap x pos : 0 < pos <= 64 -> zext x pos = wrap pos x.
Proof.
  intros Hp. unfold zext. apply Z.bits_inj'. intros i Hi.
  rewrite Z.shiftr_spec, !wrap_testbit, Z.shiftl_spec by lia.
  replace (i + (64 - pos) - (64 - pos)) with i by lia.
  destruct (Z.ltb_spec i pos), (Z.ltb_spec (i + (64 - pos)) 64); lia || done.
Qed.

Lemma sext32_swrap x : sext32 x = swrap 32 x.
Proof. unfold sext32. pose proof (swrap_range 32 ltac:(lia) x). apply swrap_small; lia. Qed.

Lemma zext32_wrap x : zext32 x = wrap 32 x.
Proof. unfold zext32. pose proof (wrap_range 32 ltac:(lia) x). apply wrap_small; lia. Qed.

Section macros.
Context {W : Type} {E : env}.
Local Abbreviation M := (M W).

Definition sext_xlen (x : Z) : Z := sext x xlen.
Definition zext_xlen (x : Z) : Z := zext x xlen.

(** ** Requirements *)
Definition require (c : bool) : M unit :=
  if c then mret tt else throw (trap_illegal_instruction insn).
Definition require_rv64 : M unit := require (xlen =? 64).
Definition require_rv32 : M unit := require (xlen =? 32).
Definition ext_enabled (e : extension) : M bool := gets (fun s => extension_enabled s e).
Definition require_extension (e : extension) : M unit :=
  c ← ext_enabled e; require c.
Definition require_either_extension (a b : extension) : M unit :=
  ca ← ext_enabled a; cb ← ext_enabled b; require (ca || cb).

Definition require_privilege (p : Z) : M unit := c ← gets (fun s => p <=? prv s); require c.
Definition require_novirt : M unit :=
  v ← gets virt; if (v : bool) then throw (trap_virtual_instruction insn) else mret tt.
Definition is_aligned (val pos : Z) : bool := if pos =? 0 then true else (val &! (pos - 1)) =? 0.
Definition require_align (val pos : Z) : M unit := require (is_aligned val pos).
(** The field is one of [menvcfg], [senvcfg] and [henvcfg], at the same place in each. *)
Definition require_envcfg (field : Z) : M unit := fun s =>
  let off r := get_field r field =? 0 in
  if (negb (prv s =? PRV_M) && off (menvcfg s)) || ((prv s =? PRV_U) && negb (virt s) && off (senvcfg s))
  then throw (trap_illegal_instruction insn) s
  else if virt s && (off (henvcfg s) || ((prv s =? PRV_U) && off (senvcfg s)))
  then throw (trap_virtual_instruction insn) s
  else (inr tt, s).
Definition require_zcmp_pushpop : M unit :=
  require_extension EXT_ZCMP;;
  require (4 <=? rvc_rlist insn);;
  e ← ext_enabled EXT_E;
  if (e : bool) then require (rvc_rlist insn <=? 6) else mret tt.

(** [CHECK_REG] is empty in the I variants and [require(reg < 16)] in the E ones. *)
Definition CHECK_REG (reg : Z) : M unit :=
  if rve then require (reg <? 16) else mret tt.
Definition READ_REG (reg : Z) : M Z :=
  CHECK_REG reg;; gets (fun s => regfile_get (XPR s) reg).
Definition WRITE_REG (reg : Z) (value : M Z) : M unit :=
  CHECK_REG reg;;
  v ← value;
  modify (fun s => with_XPR (regfile_write true reg (u64 v) (XPR s)) s).

Definition RD : M Z := READ_REG (insn_rd insn).
Definition RS1 : M Z := READ_REG (insn_rs1 insn).
Definition RS2 : M Z := READ_REG (insn_rs2 insn).
Definition WRITE_RD (value : M Z) : M unit := WRITE_REG (insn_rd insn) value.
Definition CHECK_RD : M unit := CHECK_REG (insn_rd insn).

(** The value is evaluated before the registers are written. *)
Definition WRITE_REG_PAIR (reg : Z) (value : M Z) : M unit :=
  when (negb (reg =? 0)) (
    require (reg mod 2 =? 0);;
    v ← value;
    let val := u64 v in
    WRITE_REG reg (mret (sext32 val));;
    WRITE_REG (reg + 1) (mret (s64 val >>! 32))).
Definition READ_REG_PAIR (reg : Z) : M Z :=
  require (reg mod 2 =? 0);;
  if reg =? 0 then mret 0 else
  hi ← READ_REG (reg + 1); lo ← READ_REG reg;
  mret ((hi <<! 32) +! zext32 lo).
Definition RS2_PAIR : M Z := READ_REG_PAIR (insn_rs2 insn).
Definition WRITE_RD_PAIR (value : M Z) : M unit := WRITE_REG_PAIR (insn_rd insn) value.

(** ** Compressed register macros *)
Definition WRITE_RVC_RS1S (value : M Z) : M unit := WRITE_REG (rvc_rs1s insn) value.
Definition WRITE_RVC_RS2S (value : M Z) : M unit := WRITE_REG (rvc_rs2s insn) value.
Definition RVC_RS1 : M Z := READ_REG (rvc_rs1 insn).
Definition RVC_RS2 : M Z := READ_REG (rvc_rs2 insn).
Definition RVC_RS1S : M Z := READ_REG (rvc_rs1s insn).
Definition RVC_RS2S : M Z := READ_REG (rvc_rs2s insn).
Definition RVC_SP : M Z := READ_REG X_SP.
Definition RVC_RS2_PAIR : M Z := READ_REG_PAIR (rvc_rs2 insn).
Definition RVC_RS2S_PAIR : M Z := READ_REG_PAIR (rvc_rs2s insn).
Definition WRITE_RVC_RS2S_PAIR (value : M Z) : M unit := WRITE_REG_PAIR (rvc_rs2s insn) value.
Definition RVC_R1S : Z := Sn (rvc_r1sc insn).
Definition RVC_R2S : Z := Sn (rvc_r2sc insn).

(** ** Control flow *)
Definition SHAMT : Z := insn_i_imm insn &! 0x3F.
Definition BRANCH_TARGET : Z := pc +! insn_sb_imm insn.
Definition JUMP_TARGET : Z := pc +! insn_uj_imm insn.

Definition pc_alignment_mask (s : state W) : Z :=
  ~! (if extension_enabled s EXT_ZCA then 0 else 2).
Definition check_pc_alignment (pc : Z) : M unit := fun s =>
  if z2b (pc &! ~! pc_alignment_mask s)
  then throw (trap_instruction_address_misaligned (virt s) pc 0 0) s
  else (inr tt, s).
Definition set_pc (x : Z) : M unit :=
  check_pc_alignment x;; modify (with_npc (u64 (sext_xlen x))).
Definition set_pc_and_serialize (x : Z) : M unit := fun s =>
  let __npc := x &! pc_alignment_mask s in
  (inr tt, with_spc __npc (with_npc PC_SERIALIZE_AFTER s)).
Definition serialize : M unit := x ← gets npc; set_pc_and_serialize x.

(** ** Landing pads *)
Definition MENVCFG_LPE : Z := 0x4.
Definition MSECCFG_MLPE : Z := 0x400.
Definition LANDING_PAD_FAULT : Z := 2.
Definition ZICFILP_xLPE (s : state W) (v : bool) (p : Z) : bool :=
  if extension_enabled s EXT_ZICFILP then
    let mLPE := get_field (menvcfg s) MENVCFG_LPE in
    let sLPE := get_field (senvcfg s) MENVCFG_LPE in
    let hLPE := get_field (henvcfg s) MENVCFG_LPE in
    let msecLPE := get_field (mseccfg s) MSECCFG_MLPE in
    z2b (if p =? PRV_U then (if extension_enabled s EXT_S then sLPE else mLPE)
         else if p =? PRV_S then (if v then hLPE else mLPE)
         else msecLPE)
  else false.
Definition ZICFILP_IS_LP_EXPECTED (reg_num : Z) : bool :=
  negb (reg_num =? 1) && negb (reg_num =? 5) && negb (reg_num =? 7).
(** The tail shared by [jalr.h], [c_jalr.h] and [c_jr.h]. *)
Definition expect_landing_pad (rs1 : Z) : M unit :=
  lpe ← gets (fun s => ZICFILP_xLPE s (virt s) (prv s));
  when lpe (modify (with_elp (ZICFILP_IS_LP_EXPECTED rs1));; serialize).
Definition software_check (x : bool) (tval : Z) : M unit :=
  if x then mret tt else throw (trap_software_check tval).

(** ** The instruction template: [insn_template.cc] *)
Definition insn_function (opcode : Z) (body : M unit) : M Z :=
  modify (with_npc (u64 (sext_xlen (pc +! insn_length opcode))));;
  body;;
  gets npc.
End macros.

(** ** Canonical registers and the well-formedness invariant

    A register holds the sign extension of an [xlen]-bit value; on RV32 its
    upper half repeats bit 31. *)
Definition canon (xlen x : Z) : Prop := u64 (swrap xlen x) = x.

Record wf_state {W} (xlen : Z) (s : state W) : Prop := {
  wf_length : length (XPR s) = NXPR;
  wf_zero : regfile_get (XPR s) 0 = 0;
  wf_canon : Forall (canon xlen) (XPR s);
  wf_npc : canon xlen (npc s)
}.

(** [yields xlen m Q]: from a well-formed state [m] reaches a well-formed state,
    also when it throws, and a result it returns satisfies [Q]. *)
Definition yields {W A} (xlen : Z) (m : M W A) (Q : A -> Prop) : Prop :=
  forall s, wf_state xlen s ->
    wf_state xlen (snd (m s)) /\ forall a, fst (m s) = inr a -> Q a.

Create HintDb hart.

Section canon_lemmas.
Context (w : Z) (Hw : w = 32 \/ w = 64).

Lemma width_bounds : 0 < w <= 64.
Proof using Hw. destruct Hw; lia. Qed.

Lemma canon_range x : canon w x -> 0 <= x < 2 ^ 64.
Proof using. unfold canon. intros <-. by apply wrap_range. Qed.

Lemma canon_sext x : canon w (u64 (swrap w x)).
Proof using Hw.
  unfold canon. pose proof width_bounds. f_equal. apply Z.bits_inj'. intros i Hi.
  rewrite !swrap_testbit, wrap_testbit, swrap_testbit by lia.
  replace (Z.min i (w - 1) <? 64) with true by lia. simpl. f_equal. lia.
Qed.

(** Two values with the same low [w] bits have the same sign extension. *)
Lemma canon_testbit x : canon w x <->
  0 <= x < 2 ^ 64 /\ forall i, w - 1 <= i < 64 -> Z.testbit x i = Z.testbit x (w - 1).
Proof using Hw.
  pose proof width_bounds. split.
  - intros Hc. split; [by apply canon_range|]. intros i Hi. unfold canon in Hc.
    rewrite <- Hc, !wrap_testbit, !swrap_testbit by lia.
    replace (i <? 64) with true by lia. replace (w - 1 <? 64) with true by lia. simpl.
    f_equal. lia.
  - intros [Hr Hi]. unfold canon. apply Z.bits_inj'. intros i Hi0.
    rewrite wrap_testbit, swrap_testbit by lia. destruct (Z.ltb_spec i 64) as [H64|H64]; simpl.
    + destruct (Z.min_spec i (w - 1)) as [[? ->]|[? ->]]; [done|]. symmetry. apply Hi. lia.
    + symmetry. by apply (testbit_high 64).
Qed.

Lemma canon_bool b : canon w (u64 (b2z b)).
Proof using Hw. destruct b, Hw as [-> | ->]; reflexivity. Qed.

(** The signed 32-bit values are canonical for either width. *)
Lemma canon_signed32 x : - 2 ^ 31 <= x < 2 ^ 31 -> canon w (u64 x).
Proof using Hw.
  intros Hb. apply canon_testbit. split; [by apply wrap_range|]. intros i Hi.
  pose proof width_bounds. rewrite !wrap_testbit by lia.
  replace (i <? 64) with true by lia. replace (w - 1 <? 64) with true by lia. simpl.
  rewrite <- (swrap_small 32 ltac:(lia) x), !swrap_testbit by lia.
  f_equal. destruct Hw; lia.
Qed.

Lemma canon_land a b : canon w a -> canon w b -> canon w (Z.land a b).
Proof using Hw.
  rewrite !canon_testbit. intros [Ha Ia] [Hb Ib]. split; [apply land_range; lia|].
  intros i Hi. rewrite !Z.land_spec, Ia, Ib by done. done.
Qed.
Lemma canon_lor a b : canon w a -> canon w b -> canon w (Z.lor a b).
Proof using Hw.
  rewrite !canon_testbit. intros [Ha Ia] [Hb Ib]. split; [apply lor_range; lia|].
  intros i Hi. rewrite !Z.lor_spec, Ia, Ib by done. done.
Qed.
Lemma canon_lxor a b : canon w a -> canon w b -> canon w (Z.lxor a b).
Proof using Hw.
  rewrite !canon_testbit. intros [Ha Ia] [Hb Ib]. split; [apply lxor_range; lia|].
  intros i Hi. rewrite !Z.lxor_spec, Ia, Ib by done. done.
Qed.
Lemma canon_lnot a : canon w a -> canon w (u64 (Z.lnot a)).
Proof using Hw.
  pose proof width_bounds.
  rewrite !canon_testbit. intros [Ha Ia]. split; [by apply wrap_range|].
  intros i Hi. rewrite !wrap_testbit, !lnot_spec', Ia by lia.
  replace (i <? 64) with true by lia. by replace (w - 1 <? 64) with true by lia.
Qed.
Lemma canon_u64 a : canon w a -> canon w (u64 a).
Proof using. intros Ha. rewrite wrap_small; [done|]. by apply canon_range. Qed.
Lemma canon_swrap_u64 n x : 0 < n <= w -> canon w (u64 (swrap n x)).
Proof using Hw.
  intros Hn. apply canon_testbit. pose proof width_bounds. split; [by apply wrap_range|].
  intros i Hi. rewrite !wrap_testbit, !swrap_testbit by lia.
  replace (i <? 64) with true by lia. replace (w - 1 <? 64) with true by lia. simpl.
  f_equal. lia.
Qed.
Lemma canon_zero : canon w 0.
Proof using Hw. destruct Hw as [-> | ->]; reflexivity. Qed.
End canon_lemmas.

Lemma canon_sext_xlen {E : env} (Hx : xlen = 32 \/ xlen = 64) x : canon xlen (u64 (sext_xlen x)).
Proof.
  unfold sext_xlen. rewrite sext_swrap by lia. by apply canon_sext.
Qed.

(** ** Reasoning about bodies *)

Section yields_lemmas.
Context {W : Type} {E : env} (Hx : xlen = 32 \/ xlen = 64).

Lemma yields_ret {A} (a : A) (Q : A -> Prop) : Q a -> yields (W:=W) xlen (mret a) Q.
Proof using. intros H s Hs. split; [done|]. simpl. intros ? [= <-]. done. Qed.

Lemma yields_bind {A B} (m : M W A) (k : A -> M W B) R Q :
  yields xlen m R -> (forall a, R a -> yields xlen (k a) Q) -> yields xlen (m ≫= k) Q.
Proof using.
  intros Hm Hk s Hs. destruct (Hm s Hs) as [Hw Hr].
  unfold mbind, M_bind. destruct (m s) as [[t|a] s2]; simpl in *; [by split|].
  apply Hk; auto.
Qed.

Lemma yields_throw {A} t (Q : A -> Prop) : yields (W:=W) xlen (throw t) Q.
Proof using. intros s Hs. split; [done|]. simpl. discriminate. Qed.

Lemma yields_gets {A} (f : state W -> A) (Q : A -> Prop) :
  (forall s, wf_state xlen s -> Q (f s)) -> yields xlen (gets f) Q.
Proof using. intros H s Hs. split; [done|]. simpl. intros ? [= <-]. auto. Qed.

Lemma yields_modify (f : state W -> state W) (Q : unit -> Prop) :
  (forall s, wf_state xlen s -> wf_state xlen (f s)) -> Q tt -> yields xlen (modify f) Q.
Proof using. intros H HQ s Hs. split; [by apply H|]. simpl. by intros [] _. Qed.

Lemma yields_weaken {A} (m : M W A) R (Q : A -> Prop) :
  yields xlen m R -> (forall a, R a -> Q a) -> yields xlen m Q.
Proof using. intros H HQ s Hs. destruct (H s Hs). split; auto. Qed.

Lemma yields_if {A} (c : bool) (m n : M W A) Q :
  yields xlen m Q -> yields xlen n Q -> yields xlen (if c then m else n) Q.
Proof using. by destruct c. Qed.

Lemma yields_when (c : bool) (m : M W unit) :
  yields xlen m (fun _ => True) -> yields xlen (when c m) (fun _ => True).
Proof using. intros. apply yields_if; [done|by apply yields_ret]. Qed.

Lemma yields_require c : yields (W:=W) xlen (require c) (fun _ => c = true).
Proof using. destruct c; [by apply yields_ret|apply yields_throw]. Qed.

Lemma yields_CHECK_REG r : yields (W:=W) xlen (CHECK_REG r) (fun _ => True).
Proof using.
  unfold CHECK_REG. apply yields_if; [|by apply yields_ret].
  eapply yields_weaken; [apply yields_require|done].
Qed.

Lemma yields_ext e : yields (W:=W) xlen (ext_enabled e) (fun _ => True).
Proof using. by apply yields_gets. Qed.

Lemma yields_require_extension e :
  yields (W:=W) xlen (require_extension e) (fun _ => True).
Proof using.
  eapply yields_bind; [apply yields_ext|]. intros. eapply yields_weaken; [apply yields_require|done].
Qed.
Lemma yields_require_either a b :
  yields (W:=W) xlen (require_either_extension a b) (fun _ => True).
Proof using.
  eapply yields_bind; [apply yields_ext|]. intros. eapply yields_bind; [apply yields_ext|].
  intros. eapply yields_weaken; [apply yields_require|done].
Qed.

Lemma wf_get (s : state W) r : wf_state xlen s -> canon xlen (regfile_get (XPR s) r).
Proof using Hx.
  intros Hs. unfold regfile_get. destruct (nth_in_or_default (Z.to_nat r) (XPR s) 0) as [Hi| ->].
  - by eapply List.Forall_forall, Hi; apply (wf_canon xlen s Hs).
  - by apply canon_zero.
Qed.

Lemma yields_READ_REG r : yields (W:=W) xlen (READ_REG r) (canon xlen).
Proof using Hx.
  eapply yields_bind; [apply yields_CHECK_REG|]. intros. apply yields_gets. intros. by apply wf_get.
Qed.

Lemma wf_write_reg (s : state W) r v : 0 <= r -> canon xlen (u64 v) -> wf_state xlen s ->
  wf_state xlen (with_XPR (regfile_write true r (u64 v) (XPR s)) s).
Proof using.
  intros Hr Hv [Hl Hz Hc Hn]. constructor; simpl; [by rewrite regfile_write_length| |..|done].
  - unfold regfile_write. simpl. destruct (Z.eqb_spec r 0); [done|]. simpl.
    unfold regfile_get. rewrite nth_lookup, list_lookup_insert_ne by lia.
    by rewrite <- nth_lookup.
  - unfold regfile_write. simpl. destruct (Z.eqb_spec r 0); [done|]. simpl. by apply Forall_insert.
Qed.

Lemma yields_WRITE_REG r (m : M W Z) : 0 <= r ->
  yields xlen m (fun v => canon xlen (u64 v)) ->
  yields xlen (WRITE_REG r m) (fun _ => True).
Proof using.
  intros Hr Hm. eapply yields_bind; [apply yields_CHECK_REG|]. intros [] _.
  eapply yields_bind; [apply Hm|]. intros v Hv. apply yields_modify; [|done].
  intros s Hs. by apply wf_write_reg.
Qed.

Lemma wf_with_npc (s : state W) p : canon xlen p -> wf_state xlen s -> wf_state xlen (with_npc p s).
Proof using. intros ? [???]. by constructor. Qed.

Lemma yields_set_pc x : yields (W:=W) xlen (set_pc x) (fun _ => True).
Proof using Hx.
  eapply (yields_bind _ _ (fun _ => True)).
  - intros s Hs. unfold check_pc_alignment. case_match; simpl; split; by eauto.
  - intros [] _. apply yields_modify; [|done]. intros s Hs. apply wf_with_npc; [|done].
    by apply canon_sext_xlen.
Qed.

Lemma yields_serialize : yields (W:=W) xlen serialize (fun _ => True).
Proof using Hx.
  eapply yields_bind; [by apply (yields_gets _ (fun _ => True))|]. intros a _ s [????]. simpl.
  split; [|by intros [] _]. constructor; try done. simpl.
  destruct Hx as [-> | ->]; reflexivity.
Qed.

Lemma yields_landing_pad r : yields (W:=W) xlen (expect_landing_pad r) (fun _ => True).
Proof using Hx.
  eapply yields_bind; [by apply (yields_gets _ (fun _ => True))|]. intros a _.
  apply yields_when. eapply yields_bind; [|intros; apply yields_serialize].
  apply (yields_modify _ (fun _ => True)); [|done]. intros s [????]. by constructor.
Qed.
End yields_lemmas.

Lemma insn_x_nonneg b lo len : 0 <= insn_x b lo len.
Proof.
  unfold insn_x. apply Z.land_nonneg. right. by apply wrap_range.
Qed.

#[export] Hint Resolve yields_require yields_CHECK_REG yields_ext yields_require_extension
  yields_require_either yields_READ_REG yields_set_pc yields_serialize yields_landing_pad
  yields_throw insn_x_nonneg : hart.
#[export] Hint Resolve canon_sext_xlen canon_bool canon_land canon_lor canon_lxor canon_lnot
  canon_u64 canon_zero : hart.
