(* ===== verification/Pmp.v ===== *)
(** * Physical memory protection: [src/riscv/csrs.cc], [src/riscv/mmu.cc]

    The PMP address and configuration registers with their write rules
    ([pmpaddr_csr_t], [pmpcfg_csr_t], the PMP part of [mseccfg_csr_t]), the
    matching and permission logic, and the two checks of the MMU: [pmp_ok],
    applied to every translated access, and [pmp_homogeneous], which decides
    whether a page may enter the TLB.  The regions are characterised as address
    intervals, and the checks as statements about the bytes of the access. *)

From S2P Require Import Prelude Arith Decode Hart.
Local Open Scope cint_scope.

(** ** Data *)

Inductive access_type := LOAD | STORE | FETCH.
#[global] Instance access_type_eq_dec : EqDecision access_type.
Proof. solve_decision. Defined.
Definition is_load (t : access_type) : bool := match t with LOAD => true | _ => false end.
Definition is_store (t : access_type) : bool := match t with STORE => true | _ => false end.
Definition is_fetch (t : access_type) : bool := match t with FETCH => true | _ => false end.

Definition PMP_R : Z := 0x01.
Definition PMP_W : Z := 0x02.
Definition PMP_X : Z := 0x04.
Definition PMP_A : Z := 0x18.
Definition PMP_L : Z := 0x80.
Definition PMP_SHIFT : Z := 2.
Definition PMP_TOR : Z := 0x08.
Definition PMP_NA4 : Z := 0x10.
Definition PMP_NAPOT : Z := 0x18.
Definition MSECCFG_MML : Z := 0x1.
Definition MSECCFG_MMWP : Z := 0x2.
Definition MSECCFG_RLB : Z := 0x4.
Definition MSECCFG_USEED : Z := 0x100.
Definition MSECCFG_SSEED : Z := 0x200.
Definition MSECCFG_PMM : Z := 0x300000000.
Definition MAX_PADDR_BITS : Z := 64.
Definition max_pmp : Z := 64.

Record pmpaddr_csr_t := Pmpaddr { val : Z; cfg : Z }.

(** The registers and the two configuration values [n_pmp] and
    [lg_pmp_granularity] of [processor_t]. *)
Record pmp_unit := PmpUnit {
  pmpaddr : list pmpaddr_csr_t;
  n_pmp : Z;
  lg_pmp_granularity : Z
}.

Definition entry (P : pmp_unit) (i : Z) : pmpaddr_csr_t :=
  nth (Z.to_nat i) (pmpaddr P) (Pmpaddr 0 0).
Definition set_entry (P : pmp_unit) (i : Z) (e : pmpaddr_csr_t) : pmp_unit :=
  PmpUnit (<[Z.to_nat i := e]> (pmpaddr P)) (n_pmp P) (lg_pmp_granularity P).

(** ** Matching *)

Definition pmp_tor_mask (P : pmp_unit) : Z := u64 (- (1 <<! (lg_pmp_granularity P - PMP_SHIFT))).

Definition tor_paddr (P : pmp_unit) (e : pmpaddr_csr_t) : Z :=
  (val e &! pmp_tor_mask P) <<! PMP_SHIFT.

Definition tor_base_paddr (P : pmp_unit) (i : Z) : Z :=
  if i =? 0 then 0 else tor_paddr P (entry P (i - 1)).

Definition napot_mask (P : pmp_unit) (e : pmpaddr_csr_t) : Z :=
  let is_na4 := (cfg e &! PMP_A) =? PMP_NA4 in
  let mask := ((val e <<! 1) |! b2z (negb is_na4)) |! ~! (pmp_tor_mask P) in
  (~! (mask &! ~! (mask +! 1))) <<! PMP_SHIFT.

Definition match4 (P : pmp_unit) (i addr : Z) : bool :=
  let e := entry P i in
  if (cfg e &! PMP_A) =? 0 then false
  else if (cfg e &! PMP_A) =? PMP_TOR
  then (tor_base_paddr P i <=? addr) && (addr <? tor_paddr P e)
  else ((addr ^! tor_paddr P e) &! napot_mask P e) =? 0.

(** [None] is the call of [abort]. *)
Definition subset_match (P : pmp_unit) (i addr len : Z) : option bool :=
  if z2b ((addr |! len) &! (len -! 1)) then None else
  let e := entry P i in
  let base := tor_base_paddr P i in
  let tor := tor_paddr P e in
  if (cfg e &! PMP_A) =? 0 then Some false else
  let is_tor := (cfg e &! PMP_A) =? PMP_TOR in
  let begins_after_lower := base <=? addr in
  let begins_after_upper := tor <=? addr in
  let ends_before_lower := (addr &! u64 (- len)) <? (base &! u64 (- len)) in
  let ends_before_upper := (addr &! u64 (- len)) <? (tor &! u64 (- len)) in
  let tor_homogeneous := ends_before_lower || begins_after_upper ||
    (begins_after_lower && ends_before_upper) in
  let mask_homogeneous := z2b (~! (napot_mask P e <<! 1) &! len) in
  let napot_homogeneous := mask_homogeneous || negb ((addr ^! tor) / len =? 0) in
  Some (negb (if is_tor then tor_homogeneous else napot_homogeneous)).

Definition get_mml (mseccfg : Z) : bool := z2b (mseccfg &! MSECCFG_MML).
Definition get_mmwp (mseccfg : Z) : bool := z2b (mseccfg &! MSECCFG_MMWP).
Definition get_rlb (mseccfg : Z) : bool := z2b (mseccfg &! MSECCFG_RLB).

Definition access_ok (mseccfg : Z) (e : pmpaddr_csr_t) (type : access_type) (mode : Z)
    (hlvx : bool) : bool :=
  let cfgx := z2b (cfg e &! PMP_X) in
  let cfgw := z2b (cfg e &! PMP_W) in
  let cfgr := z2b (cfg e &! PMP_R) in
  let cfgl := z2b (cfg e &! PMP_L) in
  let prvm := mode =? PRV_M in
  let typer := is_load type in
  let typex := is_fetch type in
  let typew := is_store type in
  let normal_rwx := (typer && cfgr && (negb hlvx || cfgx)) || (typew && cfgw) || (typex && cfgx) in
  if get_mml mseccfg then
    if cfgx && cfgw && cfgr && cfgl then typer && negb hlvx
    else
      let mml_shared_region := negb cfgr && cfgw in
      let mml_chk_normal := eqb prvm cfgl && normal_rwx in
      let mml_chk_shared :=
        (negb cfgl && cfgx && ((typer && negb hlvx) || typew)) ||
        (negb cfgl && negb cfgx && ((typer && negb hlvx) || (typew && prvm))) ||
        (cfgl && typex) ||
        (cfgl && typer && cfgx && prvm) in
      if mml_shared_region then mml_chk_shared else mml_chk_normal
  else
    let m_bypass := prvm && negb cfgl in
    m_bypass || normal_rwx.

(** ** The checks of the MMU *)

(** The offsets of the inner loop: one per started 4-byte sector. *)
Definition sector_offsets (len : Z) : list Z :=
  map (fun k => k * 2 ^ PMP_SHIFT) (seqZ 0 ((len + 2 ^ PMP_SHIFT - 1) / 2 ^ PMP_SHIFT)).

(** The loop over the entries from [i], [n] of them. *)
Fixpoint pmp_check_entries (P : pmp_unit) (mseccfg : Z) (n : nat) (i addr len : Z)
    (type : access_type) (mode : Z) (hlvx : bool) : option bool :=
  match n with
  | O => None
  | S n =>
    let matches := map (fun offset => match4 P i (addr +! offset)) (sector_offsets len) in
    let any_match := existsb id matches in
    let all_match := forallb id matches in
    if any_match then
      if negb all_match then Some false
      else Some (access_ok mseccfg (entry P i) type mode hlvx)
    else pmp_check_entries P mseccfg n (i + 1) addr len type mode hlvx
  end.

Definition pmp_ok (P : pmp_unit) (mseccfg addr len : Z) (type : access_type) (mode : Z)
    (hlvx : bool) : bool :=
  if n_pmp P =? 0 then true else
  match pmp_check_entries P mseccfg (Z.to_nat (n_pmp P)) 0 addr len type mode hlvx with
  | Some b => b
  | None =>
    (mode =? PRV_M) && negb (get_mmwp mseccfg) &&
    (negb (get_mml mseccfg) || (is_load type || is_store type))
  end.

Fixpoint pmp_homogeneous_entries (P : pmp_unit) (n : nat) (i addr len : Z) : option bool :=
  match n with
  | O => Some true
  | S n =>
    match subset_match P i addr len with
    | None => None
    | Some true => Some false
    | Some false => pmp_homogeneous_entries P n (i + 1) addr len
    end
  end.

Definition pmp_homogeneous (P : pmp_unit) (addr len : Z) : option bool :=
  if z2b ((addr |! len) &! (len -! 1)) then None
  else pmp_homogeneous_entries P (Z.to_nat (n_pmp P)) 0 addr len.

(** ** Reading and writing the registers

    A write returns whether it took effect; the TLB flush that follows it is in
    the file of the MMU. *)

Definition pmpaddr_read (P : pmp_unit) (i : Z) : Z :=
  let e := entry P i in
  if PMP_NAPOT <=? (cfg e &! PMP_A) then val e |! (~! (pmp_tor_mask P) >>! 1)
  else val e &! pmp_tor_mask P.

Definition is_locked (e : pmpaddr_csr_t) : bool := z2b (cfg e &! PMP_L).

Definition next_locked_and_tor (P : pmp_unit) (mseccfg pmpidx : Z) : bool :=
  if max_pmp <=? pmpidx + 1 then false else
  let lock_bypass := get_rlb mseccfg in
  let next_locked := negb lock_bypass && is_locked (entry P (pmpidx + 1)) in
  let next_tor := (cfg (entry P (pmpidx + 1)) &! PMP_A) =? PMP_TOR in
  next_locked && next_tor.

Definition pmpaddr_write (P : pmp_unit) (mseccfg pmpidx v : Z) : bool * pmp_unit :=
  if n_pmp P =? 0 then (false, P) else
  let lock_bypass := get_rlb mseccfg in
  let locked := negb lock_bypass && is_locked (entry P pmpidx) in
  if (pmpidx <? n_pmp P) && negb locked && negb (next_locked_and_tor P mseccfg pmpidx) then
    (true, set_entry P pmpidx
       (Pmpaddr (v &! ((1 <<! (MAX_PADDR_BITS - PMP_SHIFT)) -! 1)) (cfg (entry P pmpidx))))
  else (false, P).

(** The register [pmpcfgN] with [i0 = 4 * N]. *)
Definition pmpcfg_read (P : pmp_unit) (xlen i0 : Z) : Z :=
  fold_left (fun res i =>
      if i <? max_pmp then res |! (cfg (entry P i) <<! (8 * (i - i0))) else res)
    (seqZ i0 (xlen / 8)) 0.

(** The byte that one iteration of [pmpcfg_csr_t::unlogged_write] forms. *)
Definition pmpcfg_byte (P : pmp_unit) (mseccfg v shift : Z) : Z :=
  let cfg := u8 ((v >>! shift) &! (PMP_R |! PMP_W |! PMP_X |! PMP_A |! PMP_L)) in
  let cfg := if negb (get_mml mseccfg)
             then u8 (cfg &! (Z.lnot PMP_W |! (if z2b (cfg &! PMP_R) then PMP_W else 0)))
             else cfg in
  if negb (lg_pmp_granularity P =? PMP_SHIFT) && ((cfg &! PMP_A) =? PMP_NA4)
  then cfg |! PMP_NAPOT else cfg.

Definition pmpcfg_accepts (mseccfg cfg : Z) : bool :=
  let cfgx := z2b (cfg &! PMP_X) in
  let cfgw := z2b (cfg &! PMP_W) in
  let cfgr := z2b (cfg &! PMP_R) in
  get_rlb mseccfg ||
  negb (get_mml mseccfg && (z2b (cfg &! PMP_L) && negb (cfgx && cfgw && cfgr) &&
        (cfgx || (cfgw && negb cfgr)))).

Definition pmpcfg_write_one (mseccfg i0 v : Z) (r : bool * pmp_unit) (i : Z) : bool * pmp_unit :=
  let P := snd r in
  if i <? n_pmp P then
    let locked := is_locked (entry P i) in
    if get_rlb mseccfg || negb locked then
      let c := pmpcfg_byte P mseccfg v (8 * (i - i0)) in
      if pmpcfg_accepts mseccfg c then (true, set_entry P i (Pmpaddr (val (entry P i)) c))
      else (true, P)
    else (true, P)
  else r.

Definition pmpcfg_write (P : pmp_unit) (mseccfg xlen i0 v : Z) : bool * pmp_unit :=
  if n_pmp P =? 0 then (false, P)
  else fold_left (pmpcfg_write_one mseccfg i0 v) (seqZ i0 (xlen / 8)) (false, P).

(** Which of the extensions [mseccfg_csr_t::unlogged_write] tests are on. *)
Record mseccfg_exts := MseccfgExts { ext_zkr : bool; ext_zicfilp : bool; ext_smmpm : bool }.

Definition mseccfg_write (X : mseccfg_exts) (P : pmp_unit) (mseccfg v : Z) : bool * Z :=
  if n_pmp P =? 0 then (false, mseccfg) else
  let pmplock_recorded := existsb is_locked (take (Z.to_nat (n_pmp P)) (pmpaddr P)) in
  let new_val := mseccfg in
  let new_val := if negb (pmplock_recorded && negb (get_rlb mseccfg))
    then (new_val &! ~! MSECCFG_RLB) |! (v &! MSECCFG_RLB) else new_val in
  let new_val := new_val |! (v &! MSECCFG_MMWP) in
  let new_val := new_val |! (v &! MSECCFG_MML) in
  let new_val := if ext_zkr X
    then let mask := MSECCFG_USEED |! MSECCFG_SSEED in (new_val &! ~! mask) |! (v &! mask)
    else new_val in
  let new_val := if ext_zicfilp X
    then (new_val &! ~! MSECCFG_MLPE) |! (v &! MSECCFG_MLPE) else new_val in
  let new_val := if ext_smmpm X
    then let pmm := get_field v MSECCFG_PMM in
         set_field new_val MSECCFG_PMM (if negb (pmm =? 1) then pmm else 0)
    else new_val in
  (true, new_val).

(** [processor_t::set_pmp_num] and [set_pmp_granularity]; [None] is [abort]. *)
Definition set_pmp_num (P : pmp_unit) (n : Z) : option pmp_unit :=
  if max_pmp <? n then None
  else Some (PmpUnit (pmpaddr P) n (lg_pmp_granularity P)).

Definition set_pmp_granularity (P : pmp_unit) (gran : Z) : option pmp_unit :=
  let min := u64 (Z.shiftl 1 PMP_SHIFT) in
  if (gran <? min) || negb ((gran &! (gran -! 1)) =? 0) then None
  else Some (PmpUnit (pmpaddr P) (n_pmp P) (ctz gran)).

(** ** Regions: the specification of matching *)

(** The number of one bits below the lowest zero bit. *)
Fixpoint trailing_ones (fuel : nat) (m : Z) : Z :=
  match fuel with
  | O => 0
  | S fuel => if Z.odd m then 1 + trailing_ones fuel (m / 2) else 0
  end.

(** In units of 4 bytes. *)
Definition granule (P : pmp_unit) : Z := 2 ^ (lg_pmp_granularity P - 2).

(** A NAPOT region [y..y01..1] with [k] ones has [2^(k+3)] bytes; a coarser
    granularity forces low ones. *)
Definition napot_lg (P : pmp_unit) (e : pmpaddr_csr_t) : Z :=
  if Z.land (cfg e) PMP_A =? PMP_NA4 then 2
  else 3 + trailing_ones 62 (Z.lor (val e) ((granule P - 1) / 2)).

Definition tor_bound (P : pmp_unit) (e : pmpaddr_csr_t) : Z := 4 * (val e / granule P * granule P).

(** The half-open interval of the addresses entry [i] matches. *)
Definition region (P : pmp_unit) (i : Z) : Z * Z :=
  let e := entry P i in
  if Z.land (cfg e) PMP_A =? 0 then (0, 0)
  else if Z.land (cfg e) PMP_A =? PMP_TOR
  then (if i =? 0 then 0 else tor_bound P (entry P (i - 1)), tor_bound P e)
  else let s := 2 ^ napot_lg P e in (4 * val e / s * s, 4 * val e / s * s + s).

Definition touches (r : Z * Z) (addr len : Z) : bool :=
  (fst r <? snd r) && (addr <? snd r) && (fst r <? addr + len).
Definition covers (r : Z * Z) (addr len : Z) : bool :=
  (fst r <=? addr) && (addr + len <=? snd r).

Definition no_match_ok (mseccfg : Z) (type : access_type) (mode : Z) : bool :=
  (mode =? PRV_M) && negb (get_mmwp mseccfg) &&
  (negb (get_mml mseccfg) || is_load type || is_store type).

(** The permissions (read, write, execute) an entry grants: without [MML] its
    R, W and X bits, with machine mode held only to locked entries; with [MML]
    the sixteen rows of the Smepmp truth table, indexed by L, R, W and X. *)
Definition rights : Type := bool * bool * bool.
Definition nothing : rights := (false, false, false).

Definition smepmp_row (l r w x machine : bool) : rights :=
  match l, r, w, x with
  | false, false, true, false => (true, machine, false)   (* data, read-only for S and U *)
  | false, false, true, true => (true, true, false)       (* shared data *)
  | true, false, true, false => (false, false, true)      (* shared code *)
  | true, false, true, true => (machine, false, true)     (* shared code, readable by M *)
  | true, true, true, true => (true, false, false)        (* shared read-only data *)
  | _, _, _, _ => if eqb l machine then (r, w, x) else nothing
  end.

Definition granted (mseccfg : Z) (e : pmpaddr_csr_t) (mode : Z) : rights :=
  let l := z2b (Z.land (cfg e) PMP_L) in
  let r := z2b (Z.land (cfg e) PMP_R) in
  let w := z2b (Z.land (cfg e) PMP_W) in
  let x := z2b (Z.land (cfg e) PMP_X) in
  let machine := mode =? PRV_M in
  if get_mml mseccfg then smepmp_row l r w x machine
  else if machine && negb l then (true, true, true) else (r, w, x).

(** HLVX loads need both read and execute permission. *)
Definition allows (g : rights) (type : access_type) (hlvx : bool) : bool :=
  let '(r, w, x) := g in
  match type with
  | LOAD => r && (negb hlvx || x)
  | STORE => w
  | FETCH => x
  end.

(** The rule of the manual: the first entry that matches any byte of the access
    decides, and it must match all of them. *)
Definition pmp_spec (P : pmp_unit) (mseccfg addr len : Z) (type : access_type) (mode : Z)
    (hlvx : bool) : bool :=
  match List.find (fun i => touches (region P i) addr len) (seqZ 0 (n_pmp P)) with
  | Some i => covers (region P i) addr len && allows (granted mseccfg (entry P i) mode) type hlvx
  | None => no_match_ok mseccfg type mode
  end.

Definition wf_entry (lg : Z) (e : pmpaddr_csr_t) : Prop :=
  0 <= val e < 2 ^ 62 /\ 0 <= cfg e < 2 ^ 8 /\ (Z.land (cfg e) PMP_A = PMP_NA4 -> lg = 2).

Record wf_pmp (P : pmp_unit) : Prop := {
  wf_pmp_length : length (pmpaddr P) = 64%nat;
  wf_pmp_num : 0 <= n_pmp P <= 64;
  wf_pmp_lg : 2 <= lg_pmp_granularity P <= 63;
  wf_pmp_entries : Forall (wf_entry (lg_pmp_granularity P)) (pmpaddr P)
}.

(** ** Lemmas on masks *)

Lemma land_neg_pow2 k x : 0 <= k <= 64 -> 0 <= x < 2 ^ 64 ->
  Z.land x (u64 (- 2 ^ k)) = x / 2 ^ k * 2 ^ k.
Proof.
  intros Hk Hx. rewrite <- Z.shiftr_div_pow2, <- Z.shiftl_mul_pow2 by lia.
  apply Z.bits_inj'. intros i Hi.
  replace (- 2 ^ k) with (Z.lnot (Z.ones k)) by (rewrite Z.ones_equiv; unfold Z.lnot; lia).
  rewrite Z.land_spec, wrap_testbit, lnot_spec', Z.shiftl_spec, Z.testbit_ones_nonneg by lia.
  destruct (Z.ltb_spec i k).
  - rewrite (Z.testbit_neg_r _ (i - k)) by lia. simpl. by rewrite !andb_false_r.
  - rewrite Z.shiftr_spec by lia. replace (i - k + k) with i by lia. simpl.
    destruct (Z.ltb_spec i 64); [by rewrite !andb_true_r|].
    simpl. rewrite andb_false_r. symmetry. by apply (testbit_high 64).
Qed.

Lemma lxor_block_eq k a b : 0 <= k -> (Z.lxor a b / 2 ^ k =? 0) = (a / 2 ^ k =? b / 2 ^ k).
Proof.
  intros Hk. rewrite <- !Z.shiftr_div_pow2, Z.shiftr_lxor by lia.
  apply eq_true_iff_eq. rewrite !Z.eqb_eq. apply Z.lxor_eq_0_iff.
Qed.

Lemma trailing_ones_spec fuel m : 0 <= m < 2 ^ Z.of_nat fuel ->
  exists h, 0 <= h /\ 0 <= trailing_ones fuel m <= Z.of_nat fuel /\
    m = h * 2 ^ (trailing_ones fuel m + 1) + (2 ^ trailing_ones fuel m - 1).
Proof.
  revert m. induction fuel as [|f IH]; intros m Hm; cbn [trailing_ones].
  - exists 0. simpl in Hm. change (Z.of_nat 0) with 0. lia.
  - rewrite Nat2Z.inj_succ, Z.pow_succ_r in Hm by lia.
    pose proof (Z.div_mod m 2 ltac:(lia)) as Hd. pose proof (Zodd_mod m) as Ho.
    pose proof (Z.mod_pos_bound m 2 ltac:(lia)).
    destruct (Z.odd m).
    + assert (m mod 2 = 1) by (symmetry in Ho; by apply Z.eqb_eq in Ho).
      destruct (IH (m / 2)) as (h & Hh & Ht & E); [lia|]. set (t := trailing_ones f (m / 2)) in *.
      exists h. split; [done|]. split; [lia|].
      replace (1 + t + 1) with (Z.succ (t + 1)) by lia. replace (1 + t) with (Z.succ t) by lia.
      rewrite !Z.pow_succ_r by lia. lia.
    + assert (m mod 2 = 0).
      { destruct (Z.eq_dec (m mod 2) 1) as [E|]; [|lia]. rewrite E in Ho. discriminate. }
      exists (m / 2). split; [lia|]. split; [lia|]. change (2 ^ (0 + 1)) with 2. change (2 ^ 0) with 1. lia.
Qed.

(** The trick of [napot_mask]: a number and the complement of its successor share
    the trailing ones. *)
Lemma trailing_mask h t : 0 <= h -> 0 <= t <= 63 -> h * 2 ^ (t + 1) + (2 ^ t - 1) < 2 ^ 63 ->
  let m := h * 2 ^ (t + 1) + (2 ^ t - 1) in
  Z.land m (u64 (Z.lnot (u64 (m + 1)))) = Z.ones t.
Proof.
  intros Hh Ht Hm m. assert (0 < 2 ^ t) by lia. assert (0 < 2 ^ (t + 1)) by lia.
  assert (2 ^ 63 < 2 ^ 64) by lia. assert (0 <= h * 2 ^ (t + 1)) by nia.
  rewrite (wrap_small 64 (m + 1)) by lia.
  assert (E1 : m = Z.lor (Z.shiftl h (t + 1)) (Z.ones t)).
  { rewrite lor_shiftl_add; [rewrite Z.ones_equiv; lia|lia|]. rewrite Z.ones_equiv.
    rewrite Z.pow_add_r by lia. lia. }
  assert (E2 : m + 1 = Z.lor (Z.shiftl h (t + 1)) (2 ^ t)).
  { rewrite lor_shiftl_add; [lia|lia|]. rewrite Z.pow_add_r by lia. lia. }
  rewrite E2, E1. apply Z.bits_inj'. intros i Hi.
  rewrite Z.land_spec, wrap_testbit, lnot_spec', !Z.lor_spec, Z.shiftl_spec, Z.pow2_bits_eqb,
    Z.testbit_ones_nonneg by lia.
  destruct (Z.ltb_spec i t), (Z.eqb_spec t i); try lia; try (rewrite (Z.testbit_neg_r h) by lia); simpl.
  - by replace (i <? 64) with true by lia.
  - rewrite orb_false_r. destruct (Z.testbit h (i - (t + 1))); [simpl; by rewrite andb_false_r|done].
Qed.

(** ** Matching is membership in the region *)

Section matching.
Context (P : pmp_unit) (HP : wf_pmp P).

Lemma entry_wf i : wf_entry (lg_pmp_granularity P) (entry P i).
Proof using HP.
  unfold entry. destruct (nth_in_or_default (Z.to_nat i) (pmpaddr P) (Pmpaddr 0 0)) as [Hi| ->].
  - pose proof (wf_pmp_entries P HP) as H. rewrite list.Forall_forall in H. apply H.
    by apply list_elem_of_In.
  - split_and!; simpl; try lia. discriminate.
Qed.

Lemma granule_range : 1 <= granule P <= 2 ^ 61.
Proof using HP.
  destruct HP as [_ _ H _]. unfold granule. split; [|apply Z.pow_le_mono_r; lia].
  assert (0 < 2 ^ (lg_pmp_granularity P - 2)) by (apply Z.pow_pos_nonneg; lia). lia.
Qed.

Lemma tor_mask_eq : pmp_tor_mask P = u64 (- granule P).
Proof using HP.
  pose proof granule_range as Hg. unfold pmp_tor_mask, PMP_SHIFT. rewrite Z.shiftl_1_l.
  fold (granule P). by rewrite (wrap_small 64 (granule P)) by lia.
Qed.

Lemma tor_paddr_eq e : wf_entry (lg_pmp_granularity P) e -> tor_paddr P e = tor_bound P e.
Proof using HP.
  intros (Hv & _ & _). pose proof granule_range as Hg. destruct HP as [_ _ Hl _].
  unfold tor_paddr, tor_bound, PMP_SHIFT. rewrite tor_mask_eq. unfold granule in *.
  rewrite land_neg_pow2 by lia. rewrite Z.shiftl_mul_pow2 by lia. change (2 ^ 2) with 4.
  set (g := 2 ^ (lg_pmp_granularity P - 2)) in *.
  pose proof (Z.mul_div_le (val e) g ltac:(lia)).
  assert (0 <= val e / g) by (apply Z.div_pos; lia).
  rewrite wrap_small by nia. lia.
Qed.

Lemma tor_bound_range e : wf_entry (lg_pmp_granularity P) e ->
  0 <= tor_bound P e < 2 ^ 64 /\ exists q, tor_bound P e = 4 * q.
Proof using HP.
  intros (Hv & _ & _). pose proof granule_range as Hg. unfold tor_bound.
  pose proof (Z.mul_div_le (val e) (granule P) ltac:(lia)).
  assert (0 <= val e / granule P) by (apply Z.div_pos; lia).
  split; [nia|]. by eexists.
Qed.

Lemma not_tor_mask : ~! (pmp_tor_mask P) = granule P - 1.
Proof using HP.
  pose proof granule_range as Hg. rewrite tor_mask_eq. unfold wrap, Z.lnot.
  rewrite <- (Z.mod_unique (- granule P) (2 ^ 64) (-1) (2 ^ 64 - granule P)) by lia.
  symmetry. apply (Z.mod_unique _ _ (-1)); lia.
Qed.

(** The mask whose trailing ones give the size of the region. *)
Lemma napot_size e : wf_entry (lg_pmp_granularity P) e ->
  napot_mask P e = u64 (- 2 ^ napot_lg P e) /\ 2 <= napot_lg P e <= 65 /\
  lg_pmp_granularity P <= napot_lg P e.
Proof using HP.
  intros (Hv & Hc & Hna). pose proof granule_range as Hg. destruct HP as [_ _ Hl _].
  assert (Hs : 0 <= Z.shiftl (val e) 1 < 2 ^ 63) by (rewrite Z.shiftl_mul_pow2; lia).
  assert (Hfin : forall t, 0 <= t <= 63 -> ~! (Z.ones t) <<! 2 = u64 (- 2 ^ (t + 2))).
  { intros t Ht. apply Z.bits_inj'. intros i Hi.
    replace (- 2 ^ (t + 2)) with (Z.lnot (Z.ones (t + 2))) by (rewrite Z.ones_equiv; unfold Z.lnot; lia).
    rewrite !wrap_testbit, Z.shiftl_spec, lnot_spec', Z.testbit_ones_nonneg by lia.
    destruct (Z.ltb_spec i 64) as [H64|H64]; [simpl|done].
    destruct (Z.ltb_spec i 2).
    - rewrite (Z.testbit_neg_r _ (i - 2)) by lia. by replace (i <? t + 2) with true by lia.
    - rewrite wrap_testbit, lnot_spec', Z.testbit_ones_nonneg by lia.
      replace (i - 2 <? 64) with true by lia. simpl. f_equal. lia. }
  unfold napot_mask, napot_lg, PMP_SHIFT. rewrite not_tor_mask.
  rewrite (wrap_small 64 (Z.shiftl (val e) 1)) by lia.
  destruct (Z.eqb_spec (Z.land (cfg e) PMP_A) PMP_NA4) as [E|E]; cbn [negb Z.b2z].
  - specialize (Hna E). unfold granule. rewrite Hna in *. change (2 ^ (2 - 2) - 1) with 0.
    rewrite !Z.lor_0_r. split; [|lia].
    pose proof (trailing_mask (val e) 0 ltac:(lia) ltac:(lia)) as Ht. cbv zeta in Ht.
    change (2 ^ (0 + 1)) with 2 in Ht. change (2 ^ 0 - 1) with 0 in Ht.
    rewrite Z.add_0_r in Ht. rewrite Z.shiftl_mul_pow2 in Hs by lia. change (2 ^ 1) with 2 in Hs.
    rewrite (Z.shiftl_mul_pow2 (val e) 1) by lia. change (2 ^ 1) with 2.
    rewrite Ht by lia. exact (Hfin 0 ltac:(lia)).
  - set (v := Z.lor (val e) ((granule P - 1) / 2)).
    assert (Hv2 : 0 <= v < 2 ^ 62).
    { apply lor_range; try lia. split; [apply Z.div_pos; lia|]. apply Z.div_lt_upper_bound; lia. }
    assert (Em : Z.lor (Z.lor (Z.shiftl (val e) 1) 1) (granule P - 1) = v * 2 + 1).
    { apply Z.bits_inj'. intros i Hi. unfold v, granule.
      replace (2 ^ (lg_pmp_granularity P - 2) - 1) with (Z.ones (lg_pmp_granularity P - 2))
        by (rewrite Z.ones_equiv; lia).
      rewrite !Z.lor_spec. rewrite (Z.mul_comm _ 2).
      destruct (Z.eq_dec i 0) as [->|].
      - rewrite Z.testbit_odd_0. rewrite Z.shiftl_spec_low by lia. done.
      - replace i with (Z.succ (i - 1)) by lia.
        rewrite Z.testbit_odd_succ, Z.lor_spec, Z.shiftl_spec by lia.
        replace (Z.succ (i - 1) - 1) with (i - 1) by lia.
        rewrite <- Z.div2_div, Z.div2_spec, Z.shiftr_spec by lia.
        replace (i - 1 + 1) with (Z.succ (i - 1)) by lia.
        rewrite (testbit_high 1 1) by lia. by rewrite orb_false_r. }
    rewrite Em. destruct (trailing_ones_spec 62 v) as (h & Hh & Ht & Ev); [exact Hv2|].
    set (t := trailing_ones 62 v) in *.
    assert (Ev2 : v * 2 + 1 = h * 2 ^ (t + 1 + 1) + (2 ^ (t + 1) - 1)).
    { rewrite (Z.pow_add_r 2 (t + 1) 1), (Z.pow_add_r 2 t 1) by lia.
      rewrite (Z.pow_add_r 2 t 1) in Ev by lia. lia. }
    rewrite Ev2. rewrite (trailing_mask h (t + 1)) by lia.
    replace (3 + t) with (t + 1 + 2) by lia. split; [apply Hfin; lia|]. split; [lia|].
    (* the forced ones *)
    destruct (Z.le_gt_cases (lg_pmp_granularity P) (t + 3)) as [|Hlt]; [lia|exfalso].
    assert (Hbit : Z.testbit v t = true).
    { unfold v. rewrite Z.lor_spec. apply orb_true_iff. right. unfold granule.
      replace (2 ^ (lg_pmp_granularity P - 2) - 1) with (Z.ones (lg_pmp_granularity P - 2))
        by (rewrite Z.ones_equiv; lia).
      rewrite <- Z.div2_div, Z.div2_spec, Z.shiftr_spec, Z.testbit_ones_nonneg by lia. lia. }
    assert (E1 : v = Z.lor (Z.shiftl h (t + 1)) (Z.ones t)).
    { rewrite lor_shiftl_add; [rewrite Z.ones_equiv; lia|lia|]. rewrite Z.ones_equiv.
      rewrite Z.pow_add_r by lia. lia. }
    rewrite E1, Z.lor_spec, Z.shiftl_spec, Z.testbit_ones_nonneg, (Z.testbit_neg_r h) in Hbit by lia.
    simpl in Hbit. lia.
Qed.

Definition inside (r : Z * Z) (a : Z) : bool := (fst r <=? a) && (a <? snd r).

(** The region of a NAPOT entry is one aligned block. *)
Lemma napot_block e a : wf_entry (lg_pmp_granularity P) e -> 0 <= a < 2 ^ 64 ->
  let s := 2 ^ napot_lg P e in
  ((Z.lxor a (tor_paddr P e) &! napot_mask P e) =? 0) =
  inside (4 * val e / s * s, 4 * val e / s * s + s) a.
Proof using HP.
  intros He Ha s. destruct (napot_size e He) as (Em & Hr & Hg).
  destruct (tor_bound_range e He) as [Ht _]. pose proof granule_range as Hgr.
  rewrite (tor_paddr_eq e He).
  assert (Hs : 0 < s) by (unfold s; lia).
  assert (Hx : 0 <= Z.lxor a (tor_bound P e) < 2 ^ 64) by (apply lxor_range; lia).
  assert (Hblock : tor_bound P e / s = 4 * val e / s).
  { unfold tor_bound. destruct He as (Hv & _ & _). destruct HP as [_ _ Hl _].
    assert (Es : exists q, 0 < q /\ s = 4 * granule P * q).
    { exists (2 ^ (napot_lg P e - lg_pmp_granularity P)). split; [lia|]. unfold s, granule.
      change 4 with (2 ^ 2). rewrite <- !Z.pow_add_r by lia. f_equal. lia. }
    destruct Es as (q & Hq & ->).
    rewrite <- !Z.mul_assoc, !Z.div_mul_cancel_l by nia.
    rewrite (Z.mul_comm (val e / granule P)), <- !Z.div_div by lia.
    by rewrite Z.mul_comm, Z.div_mul by lia. }
  rewrite Em. unfold inside. cbn [fst snd].
  pose proof (lxor_block_eq (napot_lg P e) a (tor_bound P e) ltac:(lia)) as Hb. fold s in Hb.
  rewrite Hblock in Hb. set (b := 4 * val e / s) in *.
  assert (Hin : (a / s =? b) = (b * s <=? a) && (a <? b * s + s)).
  { apply eq_true_iff_eq. rewrite andb_true_iff, Z.eqb_eq, Z.leb_le, Z.ltb_lt.
    pose proof (Z.mul_div_le a s Hs). pose proof (Z.mul_succ_div_gt a s Hs). split; [intros <-; lia|].
    intros [H1 H2]. assert (b < a / s + 1) by nia. assert (a / s < b + 1) by nia. lia. }
  rewrite <- Hin, <- Hb. destruct (Z.le_gt_cases (napot_lg P e) 64).
  - rewrite land_neg_pow2 by lia. fold s. apply eq_true_iff_eq. rewrite !Z.eqb_eq. nia.
  - assert (El : napot_lg P e = 65) by lia. unfold s. rewrite El.
    change (u64 (- 2 ^ 65)) with 0. rewrite Z.land_0_r. rewrite Z.div_small by lia. done.
Qed.

Lemma match4_region i a : 0 <= a < 2 ^ 64 -> match4 P i a = inside (region P i) a.
Proof using HP.
  intros Ha. pose proof (entry_wf i) as He. unfold match4, region.
  destruct (Z.eqb_spec (cfg (entry P i) &! PMP_A) 0).
  { unfold inside. simpl. lia. }
  destruct (Z.eqb_spec (cfg (entry P i) &! PMP_A) PMP_TOR).
  - unfold inside, tor_base_paddr. rewrite (tor_paddr_eq _ He). cbn [fst snd].
    destruct (i =? 0); [done|]. by rewrite (tor_paddr_eq _ (entry_wf (i - 1))).
  - exact (napot_block _ a He Ha).
Qed.

Lemma region_aligned i : exists p q, region P i = (4 * p, 4 * q) /\ 0 <= p.
Proof using HP.
  pose proof (entry_wf i) as He. unfold region.
  destruct (Z.land (cfg (entry P i)) PMP_A =? 0); [by exists 0, 0|].
  destruct (Z.land (cfg (entry P i)) PMP_A =? PMP_TOR).
  - destruct (tor_bound_range _ He) as [? [q Eq]].
    destruct (tor_bound_range _ (entry_wf (i - 1))) as [? [p Ep]]. destruct (i =? 0).
    + exists 0, q. rewrite Eq. split; [done|lia].
    + exists p, q. rewrite Eq, Ep. split; [done|lia].
  - destruct (napot_size _ He) as (_ & Hr & _). destruct He as (Hv & _ & _).
    set (lg := napot_lg P (entry P i)) in *.
    assert (Es : 2 ^ lg = 4 * 2 ^ (lg - 2)).
    { change 4 with (2 ^ 2). rewrite <- Z.pow_add_r by lia. f_equal. lia. }
    assert (0 <= 4 * val (entry P i) / 2 ^ lg) by (apply Z.div_pos; lia).
    exists (4 * val (entry P i) / 2 ^ lg * 2 ^ (lg - 2)),
      (4 * val (entry P i) / 2 ^ lg * 2 ^ (lg - 2) + 2 ^ (lg - 2)).
    rewrite Es at 2 4 5. split; [f_equal; lia|nia].
Qed.

Local Ltac dlia := Z.to_euclidean_division_equations; lia.

(** Checking the sector starts of the access is checking all its bytes, when the
    access starts on a sector or stays within one. *)
Definition sector_safe (addr len : Z) : Prop := addr mod 4 = 0 \/ addr mod 4 + len <= 4.

Lemma sectors_any p q addr len : 0 <= addr -> 0 < len -> addr + len <= 2 ^ 64 ->
  sector_safe addr len ->
  existsb id (map (fun o => inside (4 * p, 4 * q) (addr +! o)) (sector_offsets len)) =
  touches (4 * p, 4 * q) addr len.
Proof using.
  intros Ha Hl Hb Hs. apply eq_true_iff_eq. rewrite existsb_exists. unfold touches, inside.
  cbn [fst snd]. split.
  - intros (b & Hin & Hb1). unfold id in Hb1. subst b. apply in_map_iff in Hin as (o & Ho & Hin).
    unfold sector_offsets in Hin. apply in_map_iff in Hin as (k & <- & Hk).
    apply list_elem_of_In, elem_of_seqZ in Hk. unfold PMP_SHIFT in *. change (2 ^ 2) with 4 in *.
    rewrite wrap_small in Ho by dlia. apply andb_true_iff in Ho as [H1 H2].
    apply Z.leb_le in H1. apply Z.ltb_lt in H2.
    rewrite !andb_true_iff, !Z.ltb_lt. dlia.
  - intros Ht. exists true. split; [|done]. apply in_map_iff.
    exists (Z.max 0 (p - addr / 4) * 4). unfold sector_offsets, PMP_SHIFT. change (2 ^ 2) with 4.
    assert (Hk : 0 <= Z.max 0 (p - addr / 4) < (len + 4 - 1) / 4) by (unfold sector_safe in Hs; dlia).
    split.
    + rewrite wrap_small by (unfold sector_safe in Hs; dlia). unfold sector_safe in Hs. dlia.
    + apply in_map_iff. exists (Z.max 0 (p - addr / 4)). split; [done|].
      apply list_elem_of_In, elem_of_seqZ. dlia.
Qed.

Lemma sectors_all p q addr len : 0 <= addr -> 0 < len -> addr + len <= 2 ^ 64 ->
  sector_safe addr len ->
  forallb id (map (fun o => inside (4 * p, 4 * q) (addr +! o)) (sector_offsets len)) =
  covers (4 * p, 4 * q) addr len.
Proof using.
  intros Ha Hl Hb Hs. apply eq_true_iff_eq. rewrite forallb_forall. unfold covers, inside.
  cbn [fst snd]. split.
  - intros Hall.
    assert (Hat : forall k, 0 <= k < (len + 3) / 4 -> 4 * p <= addr + k * 4 < 4 * q).
    { intros k Hk. assert (Hin : id ((4 * p <=? addr +! (k * 4)) && (addr +! (k * 4) <? 4 * q)) = true).
      { apply Hall. apply in_map_iff. exists (k * 4). split; [done|]. unfold sector_offsets, PMP_SHIFT.
        change (2 ^ 2) with 4. apply in_map_iff. exists k. split; [done|].
        apply list_elem_of_In, elem_of_seqZ. dlia. }
      unfold id in Hin. rewrite wrap_small in Hin by dlia. dlia. }
    pose proof (Hat 0 ltac:(dlia)). pose proof (Hat ((len + 3) / 4 - 1) ltac:(dlia)).
    unfold sector_safe in Hs. dlia.
  - intros Hc b Hin. apply in_map_iff in Hin as (o & <- & Hin). unfold sector_offsets in Hin.
    apply in_map_iff in Hin as (k & <- & Hk). apply list_elem_of_In, elem_of_seqZ in Hk.
    unfold PMP_SHIFT, id in *. change (2 ^ 2) with 4 in *. rewrite wrap_small by dlia. dlia.
Qed.

(** ** [pmp_ok] implements the rule of the manual *)

Lemma check_entries_spec mseccfg n i addr len type mode hlvx :
  0 <= i -> 0 <= addr -> 0 < len -> addr + len <= 2 ^ 64 -> sector_safe addr len ->
  pmp_check_entries P mseccfg n i addr len type mode hlvx =
  match List.find (fun i => touches (region P i) addr len) (seqZ i (Z.of_nat n)) with
  | Some j => Some (covers (region P j) addr len && access_ok mseccfg (entry P j) type mode hlvx)
  | None => None
  end.
Proof using HP.
  intros Hi Ha Hl Hb Hs. revert i Hi. induction n as [|n IH]; intros i Hi; [done|].
  cbn [pmp_check_entries]. rewrite (seqZ_cons i) by lia. cbn [List.find].
  replace (Z.pred (Z.of_nat (S n))) with (Z.of_nat n) by lia.
  destruct (region_aligned i) as (p & q & Er & Hp).
  assert (Em : map (fun o => match4 P i (addr +! o)) (sector_offsets len) =
          map (fun o => inside (4 * p, 4 * q) (addr +! o)) (sector_offsets len)).
  { apply map_ext. intros o. rewrite match4_region, Er; [done|]. by apply wrap_range. }
  rewrite Em, sectors_any, sectors_all, Er by done.
  destruct (touches (4 * p, 4 * q) addr len).
  - rewrite Er. by destruct (covers (4 * p, 4 * q) addr len).
  - rewrite IH by lia. by replace (i + 1) with (Z.succ i) by lia.
Qed.

Lemma access_ok_rights mseccfg e type mode hlvx :
  access_ok mseccfg e type mode hlvx = allows (granted mseccfg e mode) type hlvx.
Proof using.
  unfold access_ok, granted. destruct (mode =? PRV_M), (get_mml mseccfg);
    destruct (z2b (cfg e &! PMP_L)), (z2b (cfg e &! PMP_R)), (z2b (cfg e &! PMP_W)),
      (z2b (cfg e &! PMP_X)), type, hlvx; reflexivity.
Qed.

Lemma pmp_ok_spec mseccfg addr len type mode hlvx :
  0 <= addr -> 0 < len -> addr + len <= 2 ^ 64 -> sector_safe addr len -> 0 < n_pmp P ->
  pmp_ok P mseccfg addr len type mode hlvx = pmp_spec P mseccfg addr len type mode hlvx.
Proof using HP.
  intros Ha Hl Hb Hs Hn. unfold pmp_ok, pmp_spec, no_match_ok.
  replace (n_pmp P =? 0) with false by lia.
  rewrite check_entries_spec by done. rewrite Z2Nat.id by lia.
  destruct (List.find _ _); [by rewrite access_ok_rights|]. by rewrite orb_assoc.
Qed.

(** ** Homogeneous pages *)

Definition homogeneous_region (r : Z * Z) (addr len : Z) : Prop :=
  touches r addr len = false \/ covers r addr len = true.

Lemma page_align addr m : 0 <= m <= 63 -> 0 <= addr < 2 ^ 64 ->
  z2b ((addr |! 2 ^ m) &! (2 ^ m -! 1)) = false -> addr mod 2 ^ m = 0.
Proof using.
  intros Hm Ha Hz. assert (0 < 2 ^ m) by lia. assert (2 ^ m <= 2 ^ 63) by (apply Z.pow_le_mono_r; lia).
  rewrite wrap_small in Hz by lia.
  replace (2 ^ m - 1) with (Z.ones m) in Hz by (rewrite Z.ones_equiv; lia).
  rewrite Z.land_ones, <- Z.land_ones, Z.land_lor_distr_l, !Z.land_ones in Hz by lia.
  unfold z2b in Hz. rewrite Z.mod_same, Z.lor_0_r in Hz by lia. lia.
Qed.

Lemma block_cmp a b s : 0 < s -> a mod s = 0 -> (a <? b / s * s) = (a / s <? b / s).
Proof using. intros Hs Ha. pose proof (Z.div_mod a s ltac:(lia)). nia. Qed.

Lemma tor_homogeneous_sound lo hi addr m : 0 <= m <= 63 ->
  0 <= lo < 2 ^ 64 -> 0 <= hi < 2 ^ 64 -> 0 <= addr < 2 ^ 64 -> addr mod 2 ^ m = 0 ->
  ((addr &! u64 (- 2 ^ m)) <? (lo &! u64 (- 2 ^ m))) || (hi <=? addr) ||
    ((lo <=? addr) && ((addr &! u64 (- 2 ^ m)) <? (hi &! u64 (- 2 ^ m)))) = true ->
  homogeneous_region (lo, hi) addr (2 ^ m).
Proof using.
  intros Hm Hlo Hhi Ha Hal Ht. rewrite !land_neg_pow2 in Ht by lia.
  set (s := 2 ^ m) in *. assert (Hs : 0 < s) by (unfold s; lia).
  pose proof (Z.div_mod addr s ltac:(lia)). pose proof (Z.mul_div_le lo s Hs).
  pose proof (Z.mul_div_le hi s Hs).
  assert (Hstep : forall b, addr / s * s < b / s * s -> addr + s <= b / s * s).
  { intros b Hb. assert (addr / s < b / s) by nia. nia. }
  unfold homogeneous_region, touches, covers. cbn [fst snd].
  rewrite !orb_true_iff, andb_true_iff, !Z.ltb_lt, !Z.leb_le in Ht.
  destruct Ht as [[Ht|Ht]|[Ht1 Ht2]].
  - left. pose proof (Hstep lo Ht). lia.
  - left. lia.
  - right. pose proof (Hstep hi Ht2). lia.
Qed.

(** An aligned block of [2^k] bytes against an aligned page of [2^m]. *)
Lemma block_homogeneous k m b addr : 0 <= k -> 0 <= m -> addr mod 2 ^ m = 0 ->
  m <= k \/ addr / 2 ^ m <> b * 2 ^ k / 2 ^ m ->
  homogeneous_region (b * 2 ^ k, b * 2 ^ k + 2 ^ k) addr (2 ^ m).
Proof using.
  intros Hk Hm Hal Hc. unfold homogeneous_region, touches, covers. cbn [fst snd].
  destruct (Z.le_gt_cases m k) as [Hle|Hgt].
  - assert (Es : 2 ^ k = 2 ^ (k - m) * 2 ^ m) by (rewrite <- Z.pow_add_r by lia; f_equal; lia).
    set (s := 2 ^ m) in *. set (q := 2 ^ (k - m)) in *.
    assert (0 < s) by (unfold s; lia). assert (0 < q) by (unfold q; lia).
    assert (exists c, addr = s * c) as [c ->].
    { exists (addr / s). pose proof (Z.div_mod addr s ltac:(lia)). lia. }
    clear Hal Hc. rewrite Es. clearbody s q. clear Es.
    destruct (Z.lt_ge_cases c (b * q)); [left; nia|].
    destruct (Z.lt_ge_cases c (b * q + q)); [right; nia|left; nia].
  - left. destruct Hc as [|Hc]; [lia|].
    assert (Es : 2 ^ m = 2 ^ (m - k) * 2 ^ k) by (rewrite <- Z.pow_add_r by lia; f_equal; lia).
    set (r := 2 ^ k) in *. set (q := 2 ^ (m - k)) in *.
    assert (0 < r) by (unfold r; lia). assert (0 < q) by (unfold q; lia).
    rewrite Es in *. rewrite (Z.div_mul_cancel_r b q r) in Hc by lia.
    assert (0 < q * r) by nia.
    assert (exists c, addr = c * (q * r)) as [c ->].
    { exists (addr / (q * r)). pose proof (Z.div_mod addr (q * r) ltac:(lia)). lia. }
    rewrite Z.div_mul in Hc by lia.
    pose proof (Z.div_mod b q ltac:(lia)). pose proof (Z.mod_pos_bound b q ltac:(lia)).
    set (d := b / q) in *. clearbody q r d. clear Es Hal.
    destruct (Z.lt_ge_cases c d); [nia|]. assert (d + 1 <= c) by lia. nia.
Qed.

Lemma subset_match_sound i addr m : 0 <= m <= 63 -> 0 <= addr < 2 ^ 64 ->
  subset_match P i addr (2 ^ m) = Some false -> homogeneous_region (region P i) addr (2 ^ m).
Proof using HP.
  intros Hm Ha. unfold subset_match.
  destruct (z2b _) eqn:Hz; [discriminate|]. apply page_align in Hz; [|done|done].
  pose proof (entry_wf i) as He. unfold region, tor_base_paddr.
  destruct (Z.eqb_spec (cfg (entry P i) &! PMP_A) 0).
  { intros _. left. unfold touches. simpl. lia. }
  rewrite (tor_paddr_eq _ He), (tor_paddr_eq _ (entry_wf (i - 1))).
  destruct (tor_bound_range _ He) as [Ht _]. destruct (tor_bound_range _ (entry_wf (i - 1))) as [Hb _].
  destruct (Z.eqb_spec (cfg (entry P i) &! PMP_A) PMP_TOR); intros [= Hc]; apply negb_false_iff in Hc.
  - apply tor_homogeneous_sound; try done. destruct (i =? 0); lia.
  - destruct (napot_size _ He) as (Em & Hr & Hg). rewrite Em in Hc.
    set (k := napot_lg P (entry P i)) in *.
    assert (0 < 2 ^ m) by lia. assert (2 ^ m <= 2 ^ 63) by (apply Z.pow_le_mono_r; lia).
    apply block_homogeneous; [lia|lia|done|]. apply orb_true_iff in Hc as [Hc|Hc].
    + left. rewrite land_pow2, wrap_testbit, lnot_spec', wrap_testbit, Z.shiftl_spec in Hc by lia.
      replace (m <? 64) with true in Hc by lia. simpl in Hc.
      destruct (Z.eq_dec m 0); [lia|]. rewrite wrap_testbit in Hc by lia.
      replace (m - 1 <? 64) with true in Hc by lia. simpl in Hc.
      replace (- 2 ^ k) with (Z.lnot (Z.ones k)) in Hc by (rewrite Z.ones_equiv; unfold Z.lnot; lia).
      rewrite lnot_spec', negb_involutive, Z.testbit_ones_nonneg in Hc by lia. lia.
    + destruct (Z.le_gt_cases m k) as [|Hlt]; [by left|right].
      rewrite lxor_block_eq in Hc by lia.
      (* the block and the bound of the entry lie on the same page *)
      assert (E : tor_bound P (entry P i) / 2 ^ m = 4 * val (entry P i) / 2 ^ k * 2 ^ k / 2 ^ m).
      { replace (2 ^ m) with (2 ^ k * 2 ^ (m - k)) by (rewrite <- Z.pow_add_r by lia; f_equal; lia).
        assert (0 < 2 ^ k) by lia. assert (0 < 2 ^ (m - k)) by lia.
        rewrite <- !Z.div_div by lia. rewrite Z.div_mul by lia. f_equal.
        pose proof (napot_block (entry P i) (tor_bound P (entry P i)) He Ht) as Hn. cbv zeta in Hn.
        rewrite (tor_paddr_eq _ He), Z.lxor_nilpotent, Z.land_0_l in Hn. unfold inside in Hn.
        cbn [fst snd] in Hn. fold k in Hn. symmetry in Hn. rewrite Z.eqb_refl in Hn.
        apply andb_true_iff in Hn as [Hb1 Hb2]. apply Z.leb_le in Hb1. apply Z.ltb_lt in Hb2.
        symmetry. apply Z.div_unique with (tor_bound P (entry P i) - 4 * val (entry P i) / 2 ^ k * 2 ^ k);
          [left|]; lia. }
      rewrite <- E. apply negb_true_iff in Hc. apply Z.eqb_neq in Hc. done.
Qed.

Lemma homogeneous_entries_sound m : 0 <= m <= 63 -> forall n i addr, 0 <= addr < 2 ^ 64 ->
  pmp_homogeneous_entries P n i addr (2 ^ m) = Some true ->
  forall j, i <= j < i + Z.of_nat n -> homogeneous_region (region P j) addr (2 ^ m).
Proof using HP.
  intros Hm n. induction n as [|n IH]; intros i addr Ha He j Hj; [lia|].
  cbn [pmp_homogeneous_entries] in He.
  destruct (subset_match P i addr (2 ^ m)) as [[]|] eqn:Es; try discriminate.
  destruct (Z.eq_dec j i) as [->|]; [by apply subset_match_sound|].
  eapply IH; [done|done|lia].
Qed.

(** On a homogeneous page every entry sees all sectors of an access alike. *)
Lemma homogeneous_entries mseccfg m page n i a l type mode hlvx :
  (forall j, i <= j < i + Z.of_nat n -> homogeneous_region (region P j) page (2 ^ m)) ->
  0 <= page -> page + 2 ^ m <= 2 ^ 64 -> 0 < l -> page <= a -> a + l <= page + 2 ^ m ->
  pmp_check_entries P mseccfg n i a l type mode hlvx =
  match List.find (fun i => covers (region P i) page (2 ^ m)) (seqZ i (Z.of_nat n)) with
  | Some j => Some (access_ok mseccfg (entry P j) type mode hlvx)
  | None => None
  end.
Proof using HP.
  intros Hh Hp Hb Hl H1 H2. revert i Hh. induction n as [|n IH]; intros i Hh; [done|].
  cbn [pmp_check_entries]. rewrite (seqZ_cons i) by lia. cbn [List.find].
  replace (Z.pred (Z.of_nat (S n))) with (Z.of_nat n) by lia.
  assert (Em : map (fun o => match4 P i (a +! o)) (sector_offsets l) =
          map (fun _ => covers (region P i) page (2 ^ m)) (sector_offsets l)).
  { apply map_ext_in. intros o Ho. unfold sector_offsets in Ho.
    apply in_map_iff in Ho as (k & <- & Hk). apply list_elem_of_In, elem_of_seqZ in Hk.
    unfold PMP_SHIFT in *. change (2 ^ 2) with 4 in *.
    assert (0 <= k * 4 < l) by dlia. rewrite wrap_small by lia. rewrite match4_region by lia.
    destruct (Hh i ltac:(lia)) as [Ht|Hc]; destruct (region P i) as [lo hi];
      unfold touches, covers, inside in *; cbn [fst snd] in *; lia. }
  rewrite Em. clear Em.
  assert (Hne : exists o os, sector_offsets l = o :: os).
  { unfold sector_offsets, PMP_SHIFT. change (2 ^ 2) with 4.
    rewrite seqZ_cons by dlia. cbn [map]. eauto. }
  destruct Hne as (o & os & ->). destruct (covers (region P i) page (2 ^ m)).
  - cbn [map existsb id orb]. replace (forallb id _) with true; [done|].
    symmetry. apply forallb_forall. intros b [<-|Hin]; [done|].
    apply in_map_iff in Hin as (? & <- & _). done.
  - replace (existsb id _) with false.
    + rewrite IH by (intros j Hj; apply Hh; lia). by replace (i + 1) with (Z.succ i) by lia.
    + symmetry. apply not_true_is_false. intros Ht. apply existsb_exists in Ht as (b & Hin & Hb').
      destruct Hin as [<-|Hin]; [done|]. apply in_map_iff in Hin as (? & <- & _). done.
Qed.

Lemma homogeneous_pmp_ok mseccfg m page a1 l1 a2 l2 type mode hlvx : 0 <= m <= 63 ->
  0 <= page -> page + 2 ^ m <= 2 ^ 64 -> pmp_homogeneous P page (2 ^ m) = Some true ->
  0 < l1 -> page <= a1 -> a1 + l1 <= page + 2 ^ m ->
  0 < l2 -> page <= a2 -> a2 + l2 <= page + 2 ^ m ->
  pmp_ok P mseccfg a1 l1 type mode hlvx = pmp_ok P mseccfg a2 l2 type mode hlvx.
Proof using HP.
  intros Hm Hp Hb Hh L1 H1 H1' L2 H2 H2'. unfold pmp_homogeneous in Hh.
  destruct (z2b _); [discriminate|]. pose proof (wf_pmp_num P HP).
  assert (0 < 2 ^ m) by lia. unfold pmp_ok.
  rewrite !(homogeneous_entries mseccfg m page); try done;
    apply (homogeneous_entries_sound m Hm); done || lia.
Qed.
End matching.

(** ** Register writes *)

Inductive csr_write :=
  | write_pmpaddr (pmpidx v : Z)
  | write_pmpcfg (xlen i0 v : Z)
  | write_mseccfg (v : Z).

Definition apply_write (X : mseccfg_exts) (st : pmp_unit * Z) (w : csr_write) : pmp_unit * Z :=
  match w with
  | write_pmpaddr i v => (snd (pmpaddr_write (fst st) (snd st) i v), snd st)
  | write_pmpcfg xlen i0 v => (snd (pmpcfg_write (fst st) (snd st) xlen i0 v), snd st)
  | write_mseccfg v => (fst st, snd (mseccfg_write X (fst st) (snd st) v))
  end.

Definition valid_write (w : csr_write) : Prop :=
  match w with
  | write_pmpaddr i v => 0 <= i < max_pmp /\ 0 <= v < 2 ^ 64
  | write_pmpcfg xlen i0 v => 0 <= i0 /\ (xlen = 32 \/ xlen = 64) /\ 0 <= v < 2 ^ 64
  | write_mseccfg v => 0 <= v < 2 ^ 64
  end.

Lemma entry_set P i j e : length (pmpaddr P) = 64%nat -> 0 <= i -> 0 <= j ->
  entry (set_entry P i e) j = if (i =? j) && (i <? 64) then e else entry P j.
Proof.
  intros Hl Hi Hj. unfold entry, set_entry. simpl. rewrite !nth_lookup.
  destruct (Z.eqb_spec i j) as [->|].
  - destruct (Z.ltb_spec j 64).
    + by rewrite list_lookup_insert_eq by lia.
    + rewrite list_insert_ge by lia. done.
  - by rewrite list_lookup_insert_ne by lia.
Qed.

Lemma pmpcfg_byte_wf P mseccfg v shift : 0 <= v -> 0 <= shift ->
  let c := pmpcfg_byte P mseccfg v shift in
  0 <= c < 2 ^ 8 /\ (Z.land c PMP_A = PMP_NA4 -> lg_pmp_granularity P = 2).
Proof.
  intros Hv Hs c. unfold c, pmpcfg_byte. set (c0 := u8 _). set (c1 := if negb _ then _ else _).
  assert (H1 : 0 <= c1 < 2 ^ 8) by (unfold c1, c0; destruct (negb _); apply wrap_range; lia).
  destruct (Z.eqb_spec (Z.land c1 PMP_A) PMP_NA4) as [E|E]; [|rewrite andb_false_r; done].
  rewrite andb_true_r. unfold PMP_SHIFT.
  destruct (Z.eqb_spec (lg_pmp_granularity P) 2); cbn [negb]; [done|].
  split; [apply lor_range; unfold PMP_NAPOT; lia|].
  rewrite Z.land_lor_distr_l, E. discriminate.
Qed.

(** What a write may do to entry [i]. *)
Definition entry_kept (mseccfg : Z) (P P' : pmp_unit) : Prop :=
  wf_pmp P' /\ n_pmp P' = n_pmp P /\ lg_pmp_granularity P' = lg_pmp_granularity P /\
  forall i, 0 <= i < 64 -> is_locked (entry P i) = true -> get_rlb mseccfg = false ->
    entry P' i = entry P i /\
    (Z.land (cfg (entry P i)) PMP_A = PMP_TOR -> 0 < i ->
     val (entry P' (i - 1)) = val (entry P (i - 1))).

Lemma entry_kept_refl mseccfg P : wf_pmp P -> entry_kept mseccfg P P.
Proof. done. Qed.

Lemma entry_kept_trans mseccfg P1 P2 P3 :
  entry_kept mseccfg P1 P2 -> entry_kept mseccfg P2 P3 -> entry_kept mseccfg P1 P3.
Proof.
  intros (W2 & N2 & L2 & K2) (W3 & N3 & L3 & K3). split_and!; [done|congruence|congruence|].
  intros i Hi Hl Hr. destruct (K2 i Hi Hl Hr) as [E2 V2]. rewrite <- E2 in Hl.
  destruct (K3 i Hi Hl Hr) as [E3 V3]. split; [congruence|].
  intros Ht Hi0. rewrite V3; [by apply V2| by rewrite E2|done].
Qed.

Lemma set_entry_wf P i e : wf_pmp P -> wf_entry (lg_pmp_granularity P) e -> wf_pmp (set_entry P i e).
Proof.
  intros [Hl Hn Hg He] Hw. constructor; simpl; [by rewrite length_insert|done|done|].
  by apply Forall_insert.
Qed.

Lemma pmpaddr_write_kept P mseccfg j v : wf_pmp P -> 0 <= j < 64 -> 0 <= v < 2 ^ 64 ->
  entry_kept mseccfg P (snd (pmpaddr_write P mseccfg j v)).
Proof.
  intros HP Hj Hv. unfold pmpaddr_write. destruct (n_pmp P =? 0); [by apply entry_kept_refl|].
  destruct ((j <? n_pmp P) && _ && _) eqn:Ec; [|by apply entry_kept_refl].
  apply andb_true_iff in Ec as [Ec Hnext]. apply andb_true_iff in Ec as [_ Hlock].
  change ((1 <<! (MAX_PADDR_BITS - PMP_SHIFT)) -! 1) with (Z.ones 62). cbn [snd].
  destruct (entry_wf P HP j) as (_ & Hc & Hna).
  split_and!; [|done|done|].
  - apply set_entry_wf; [done|]. split; [|by split].
    cbn [val]. rewrite Z.land_ones by lia. by apply Z.mod_pos_bound.
  - intros i Hi Hl Hr. rewrite Hr in Hlock. cbn [negb andb] in Hlock.
    rewrite !entry_set by (apply (wf_pmp_length P HP) || lia).
    assert (j <> i) by (intros ->; rewrite Hl in Hlock; discriminate).
    replace (j =? i) with false by lia. split; [done|]. intros Ht Hi0.
    rewrite entry_set by (apply (wf_pmp_length P HP) || lia).
    destruct (Z.eqb_spec j (i - 1)) as [->|]; [|done]. exfalso.
    unfold next_locked_and_tor, max_pmp in Hnext. rewrite Hr in Hnext.
    replace (i - 1 + 1) with i in Hnext by lia.
    replace (64 <=? i) with false in Hnext by lia. rewrite Hl, Ht in Hnext. discriminate.
Qed.

Lemma pmpcfg_step_kept mseccfg i0 v P b j : wf_pmp P -> 0 <= i0 <= j -> 0 <= v < 2 ^ 64 ->
  entry_kept mseccfg P (snd (pmpcfg_write_one mseccfg i0 v (b, P) j)).
Proof.
  intros HP Hj Hv. unfold pmpcfg_write_one. cbn [snd].
  destruct (Z.ltb_spec j (n_pmp P)); [|by apply entry_kept_refl].
  destruct (get_rlb mseccfg || _) eqn:El; [|by apply entry_kept_refl].
  destruct (pmpcfg_accepts _ _); [|by apply entry_kept_refl]. cbn [snd].
  destruct (pmpcfg_byte_wf P mseccfg v (8 * (j - i0))) as [Hb Hna]; [lia|lia|].
  destruct (entry_wf P HP j) as (Hval & _ & _). pose proof (wf_pmp_num P HP).
  split_and!; [|done|done|].
  - apply set_entry_wf; [done|]. split; [done|by split].
  - intros i Hi Hl Hr. rewrite Hr in El. cbn [orb] in El.
    rewrite entry_set by (apply (wf_pmp_length P HP) || lia).
    assert (j <> i) by (intros ->; rewrite Hl in El; discriminate).
    replace (j =? i) with false by lia. split; [done|]. intros _ Hi0.
    rewrite entry_set by (apply (wf_pmp_length P HP) || lia).
    destruct (Z.eqb_spec j (i - 1)) as [->|]; [|done]. by destruct (i - 1 <? 64).
Qed.

Lemma pmpcfg_write_kept P mseccfg xlen i0 v : wf_pmp P -> 0 <= i0 -> 0 <= v < 2 ^ 64 ->
  entry_kept mseccfg P (snd (pmpcfg_write P mseccfg xlen i0 v)).
Proof.
  intros HP Hi Hv. unfold pmpcfg_write. destruct (n_pmp P =? 0); [by apply entry_kept_refl|].
  assert (Hgen : forall l r, wf_pmp (snd r) -> Forall (fun j => i0 <= j) l ->
    entry_kept mseccfg (snd r) (snd (fold_left (pmpcfg_write_one mseccfg i0 v) l r))).
  { induction l as [|j l IH]; intros [b Q] HQ Hf; simpl; [by apply entry_kept_refl|].
    apply Forall_cons_iff in Hf as [Hj Hf].
    pose proof (pmpcfg_step_kept mseccfg i0 v Q b j HQ ltac:(lia) Hv) as H1.
    eapply entry_kept_trans; [exact H1|]. apply IH; [apply H1|done]. }
  apply (Hgen _ (false, P)); [done|]. apply list.Forall_forall. intros j Hj.
  apply elem_of_seqZ in Hj. lia.
Qed.

Lemma get_rlb_bit mseccfg : get_rlb mseccfg = Z.testbit mseccfg 2.
Proof. exact (land_pow2 mseccfg 2 ltac:(lia)). Qed.
Lemma get_mml_bit mseccfg : get_mml mseccfg = Z.testbit mseccfg 0.
Proof. exact (land_pow2 mseccfg 0 ltac:(lia)). Qed.
Lemma get_mmwp_bit mseccfg : get_mmwp mseccfg = Z.testbit mseccfg 1.
Proof. exact (land_pow2 mseccfg 1 ltac:(lia)). Qed.

Lemma set_pmm_testbit r v j : 0 <= j <= 2 ->
  Z.testbit (set_field r MSECCFG_PMM v) j = Z.testbit r j.
Proof.
  intros Hj. change MSECCFG_PMM with (Z.shiftl (Z.ones 2) 32).
  rewrite (set_field_testbit 32 2) by lia. by replace (32 <=? j) with false by lia.
Qed.

(** The three rule bits: [MML] and [MMWP] are sticky, [RLB] is frozen at 0 once a
    locked entry is recorded. *)
Lemma mseccfg_write_bits X P mseccfg v :
  let new := snd (mseccfg_write X P mseccfg v) in
  (get_mml mseccfg = true -> get_mml new = true) /\
  (get_mmwp mseccfg = true -> get_mmwp new = true) /\
  (existsb is_locked (take (Z.to_nat (n_pmp P)) (pmpaddr P)) = true ->
   get_rlb mseccfg = false -> get_rlb new = false).
Proof.
  unfold mseccfg_write. destruct (n_pmp P =? 0); [done|]. cbv zeta. cbn [snd].
  rewrite !get_mml_bit, !get_mmwp_bit, !get_rlb_bit.
  set (lk := existsb _ _). set (mask := MSECCFG_USEED |! MSECCFG_SSEED).
  assert (Hb : forall j r, 0 <= j <= 2 ->
    Z.testbit (if ext_smmpm X then set_field r MSECCFG_PMM (if negb (get_field v MSECCFG_PMM =? 1)
       then get_field v MSECCFG_PMM else 0) else r) j = Z.testbit r j).
  { intros j r Hj. destruct (ext_smmpm X); [by apply set_pmm_testbit|done]. }
  rewrite !Hb by lia. clear Hb.
  assert (Hc : forall (c : bool) k j r, (k = MSECCFG_MLPE \/ k = mask) -> 0 <= j <= 2 ->
    Z.testbit (if c then (r &! ~! k) |! (v &! k) else r) j = Z.testbit r j).
  { intros c k j r Hk Hj. destruct c; [|done].
    rewrite Z.lor_spec, !Z.land_spec, wrap_testbit, lnot_spec' by lia.
    assert (E : Z.testbit k j = false).
    { assert (j = 0 \/ j = 1 \/ j = 2) as Hj3 by lia.
      destruct Hk as [-> | ->], Hj3 as [-> | [-> | ->]]; reflexivity. }
    rewrite E. replace (j <? 64) with true by lia. cbn [negb andb].
    by rewrite andb_true_r, andb_false_r, orb_false_r. }
  rewrite !Hc by (first [by left|by right|lia]). clear Hc.
  rewrite !Z.lor_spec, !Z.land_spec.
  change (Z.testbit MSECCFG_MMWP 0) with false. change (Z.testbit MSECCFG_MMWP 1) with true.
  change (Z.testbit MSECCFG_MMWP 2) with false. change (Z.testbit MSECCFG_MML 0) with true.
  change (Z.testbit MSECCFG_MML 1) with false. change (Z.testbit MSECCFG_MML 2) with false.
  rewrite !andb_false_r, !andb_true_r, !orb_false_r.
  split_and!.
  - destruct (negb _); [|by intros ->]. rewrite Z.lor_spec, !Z.land_spec. intros ->.
    by change (Z.testbit (~! MSECCFG_RLB) 0) with true.
  - destruct (negb _); [|by intros ->]. rewrite Z.lor_spec, !Z.land_spec. intros ->.
    by change (Z.testbit (~! MSECCFG_RLB) 1) with true.
  - intros Hlk Hr. rewrite Hlk, Hr. done.
Qed.

(** ** The finding on misaligned accesses

    A 4-byte access at 2 modulo 4 touches two sectors, but the loop visits only
    the first: the second may belong to an entry that denies everything. *)
Definition hole_pmp : pmp_unit :=
  PmpUnit ([Pmpaddr 0x20000401 0x10; Pmpaddr 0x3fffffffffffffff 0x1f] ++
           replicate 62 (Pmpaddr 0 0)) 2 2.

Lemma pmp_ok_misaligned_hole :
  pmp_ok hole_pmp 0 0x80001002 4 LOAD 0 false = true /\
  pmp_spec hole_pmp 0 0x80001002 4 LOAD 0 false = false /\
  pmp_ok hole_pmp 0 0x80001004 2 LOAD 0 false = false.
Proof. split_and!; vm_compute; reflexivity. Qed.

Lemma hole_pmp_wf : wf_pmp hole_pmp.
Proof.
  constructor; [reflexivity|simpl; lia|simpl; lia|].
  assert (H : forall e, forallb (fun e => (0 <=? val e) && (val e <? 2 ^ 62) && (0 <=? cfg e) &&
     (cfg e <? 2 ^ 8)) e = true -> Forall (wf_entry 2) e).
  { intros l Hl. apply list.Forall_forall. intros e He. rewrite forallb_forall in Hl.
    specialize (Hl e (proj1 (list_elem_of_In _ _) He)). unfold wf_entry. lia. }
  apply H. vm_compute. reflexivity.
Qed.

(** ** Properties *)

(** C10: The PMP check of the MMU implements the rule of the manual: for an access
    that starts on a 4-byte sector or stays within one, the first entry whose
    region (OFF, TOR, NA4 or NAPOT at the configured granularity) contains a byte
    of the access decides, it must contain all of them and grant the permission
    (its R, W, X and L bits, or with [MML] the Smepmp truth table); without a
    match the default depends on the mode and [mseccfg]; with no entries
    implemented everything is allowed. *)
Theorem pmp_ok_exact P mseccfg addr len type mode hlvx :
  wf_pmp P -> 0 <= addr -> 0 < len -> addr + len <= 2 ^ 64 -> sector_safe addr len ->
  pmp_ok P mseccfg addr len type mode hlvx =
  ((n_pmp P =? 0) || pmp_spec P mseccfg addr len type mode hlvx).
Proof.
  intros HP Ha Hl Hb Hs. destruct (Z.eqb_spec (n_pmp P) 0) as [E|E].
  - unfold pmp_ok. by rewrite E.
  - apply pmp_ok_spec; try done. pose proof (wf_pmp_num P HP). lia.
Qed.

Lemma pmp_ok_exact_witness :
  pmp_ok hole_pmp 0 0x80001004 4 STORE 0 false =
  ((2 =? 0) || pmp_spec hole_pmp 0 0x80001004 4 STORE 0 false).
Proof.
  apply (pmp_ok_exact hole_pmp); [exact hole_pmp_wf|lia|lia|lia|left; reflexivity].
Defined.

(** C24: The TLB may cache a page that [pmp_homogeneous] accepts: all accesses
    within the page, whatever their address and size, get the same answer from
    [pmp_ok] for the same kind of access and mode. *)
Theorem pmp_homogeneous_sound P mseccfg m page a1 l1 a2 l2 type mode hlvx :
  wf_pmp P -> 0 <= m <= 63 -> 0 <= page -> page + 2 ^ m <= 2 ^ 64 ->
  pmp_homogeneous P page (2 ^ m) = Some true ->
  0 < l1 -> page <= a1 -> a1 + l1 <= page + 2 ^ m ->
  0 < l2 -> page <= a2 -> a2 + l2 <= page + 2 ^ m ->
  pmp_ok P mseccfg a1 l1 type mode hlvx = pmp_ok P mseccfg a2 l2 type mode hlvx.
Proof.
  intros. by apply (homogeneous_pmp_ok P H mseccfg m page).
Qed.

Lemma pmp_homogeneous_sound_witness :
  pmp_ok hole_pmp 0 0x80002000 8 STORE 0 false = pmp_ok hole_pmp 0 0x80002ffc 4 STORE 0 false.
Proof.
  apply (pmp_homogeneous_sound hole_pmp 0 12 0x80002000); try lia;
    [exact hole_pmp_wf|vm_compute; reflexivity].
Defined.

(** C11: A locked PMP entry stays: after any sequence of writes to [pmpaddr],
    [pmpcfg] and [mseccfg] registers, started with [mseccfg.RLB] clear, a locked
    implemented entry has its address, its configuration and the region it
    matches (also for TOR, whose base is another register), [RLB] is still clear,
    [MML] and [MMWP] have not been cleared, and the registers are well formed. *)
Theorem pmp_locked_forever X P mseccfg ws i :
  wf_pmp P -> get_rlb mseccfg = false -> 0 <= i < n_pmp P -> is_locked (entry P i) = true ->
  Forall valid_write ws ->
  let '(P', mseccfg') := fold_left (apply_write X) ws (P, mseccfg) in
  wf_pmp P' /\ entry P' i = entry P i /\ region P' i = region P i /\
  get_rlb mseccfg' = false /\ (get_mml mseccfg = true -> get_mml mseccfg' = true) /\
  (get_mmwp mseccfg = true -> get_mmwp mseccfg' = true).
Proof.
  intros HP Hr Hi Hl Hw. revert P mseccfg HP Hr Hi Hl.
  induction Hw as [|w ws Hv _ IH]; intros P sec HP Hr Hi Hl; [done|]. cbn [fold_left].
  pose proof (wf_pmp_num P HP) as Hn.
  assert (Hstep : let st := apply_write X (P, sec) w in
    entry_kept sec P (fst st) /\ get_rlb (snd st) = false /\
    (get_mml sec = true -> get_mml (snd st) = true) /\
    (get_mmwp sec = true -> get_mmwp (snd st) = true)).
  { destruct w as [j v|xlen i0 v|v]; simpl in Hv |- *.
    - split_and!; try done; apply pmpaddr_write_kept; tauto.
    - split_and!; try done; apply pmpcfg_write_kept; tauto.
    - destruct (mseccfg_write_bits X P sec v) as (B0 & B1 & B2). split_and!; try done.
      apply B2; [|done]. apply existsb_exists. exists (entry P i). split; [|done].
      apply list_elem_of_In, list_elem_of_lookup. exists (Z.to_nat i).
      rewrite lookup_take_lt by lia.
      destruct (lookup_lt_is_Some_2 (pmpaddr P) (Z.to_nat i)) as [e He].
      { rewrite (wf_pmp_length P HP). lia. }
      unfold entry. by rewrite He, (nth_lookup_Some _ _ _ _ He). }
  cbv zeta in Hstep. destruct (apply_write X (P, sec) w) as [P1 sec1]. cbn [fst snd] in Hstep.
  destruct Hstep as ((W1 & N1 & L1 & K1) & R1 & M1 & MW1).
  destruct (K1 i ltac:(lia) Hl Hr) as [E1 V1].
  specialize (IH P1 sec1 W1 R1). rewrite N1, E1 in IH. specialize (IH Hi Hl).
  destruct (fold_left _ ws (P1, sec1)) as [P2 sec2].
  destruct IH as (W2 & E2 & Rg2 & R2 & M2 & MW2). split_and!; auto. rewrite Rg2.
  unfold region, napot_lg, tor_bound, granule. rewrite E1, L1.
  destruct (Z.land (cfg (entry P i)) PMP_A =? 0); [done|].
  destruct (Z.eqb_spec (Z.land (cfg (entry P i)) PMP_A) PMP_TOR) as [Et|]; [|done].
  destruct (Z.eqb_spec i 0); [done|]. by rewrite V1 by (done || lia).
Qed.

(** Entry 0 of the example, locked: two attempts to change it. *)
Definition locked_pmp : pmp_unit :=
  PmpUnit (<[0%nat := Pmpaddr 0x20000401 0x90]> (pmpaddr hole_pmp)) 2 2.

Lemma pmp_locked_forever_witness :
  let P' := fst (fold_left (apply_write (MseccfgExts false false false))
    [write_pmpaddr 0 5; write_mseccfg 4; write_pmpcfg 64 0 0x1f1f] (locked_pmp, 0)) in
  entry P' 0 = Pmpaddr 0x20000401 0x90.
Proof.
  pose proof (pmp_locked_forever (MseccfgExts false false false) locked_pmp 0
    [write_pmpaddr 0 5; write_mseccfg 4; write_pmpcfg 64 0 0x1f1f] 0) as H.
  destruct (fold_left _ _ _) as [P' sec']. apply H.
  - constructor; [reflexivity|simpl; lia|simpl; lia|].
    apply Forall_insert; [apply (wf_pmp_entries _ hole_pmp_wf)|]. split_and!; simpl; try lia.
  - reflexivity.
  - simpl. lia.
  - reflexivity.
  - repeat constructor; simpl; unfold max_pmp; lia.
Defined.
