(* ===== verification/InsnsIM.v ===== *)
(** * Base integer and multiply instructions: [src/riscv/insns/]

    One definition per instruction file, in the order of the unprivileged
    manual; the abstract ALU of the manual on [xlen]-bit values; and the proof
    that every ALU instruction refines it on the sign-extended registers. *)

From S2P Require Import Prelude Arith Decode Hart.
Local Open Scope cint_scope.

Section insns.
Context {W : Type} {E : env}.

(** ** RV32I and RV64I: computation *)

Definition add : M W unit :=
  WRITE_RD (a ← RS1; b ← RS2; mret (sext_xlen (a +! b))).

Definition addi : M W unit :=
  WRITE_RD (a ← RS1; mret (sext_xlen (a +! insn_i_imm insn))).

Definition addiw : M W unit :=
  require_rv64;; WRITE_RD (a ← RS1; mret (sext32 (insn_i_imm insn +! a))).

Definition addw : M W unit :=
  require_rv64;; WRITE_RD (a ← RS1; b ← RS2; mret (sext32 (a +! b))).

Definition and : M W unit :=
  WRITE_RD (a ← RS1; b ← RS2; mret (a &! b)).

Definition andi : M W unit :=
  WRITE_RD (a ← RS1; mret (insn_i_imm insn &! a)).

Definition auipc : M W unit :=
  WRITE_RD (mret (sext_xlen (insn_u_imm insn +! pc))).

Definition lui : M W unit :=
  WRITE_RD (mret (insn_u_imm insn)).

Definition or : M W unit :=
  WRITE_RD (a ← RS1; b ← RS2; mret (a |! b)).

Definition ori : M W unit :=
  WRITE_RD (a ← RS1; mret (insn_i_imm insn |! a)).

Definition sll : M W unit :=
  WRITE_RD (a ← RS1; b ← RS2; mret (sext_xlen (a <<! (b &! (xlen - 1))))).

Definition slli : M W unit :=
  require (SHAMT <? xlen);; WRITE_RD (a ← RS1; mret (sext_xlen (a <<! SHAMT))).

Definition slliw : M W unit :=
  require_rv64;; WRITE_RD (a ← RS1; mret (sext32 (a <<! SHAMT))).

Definition sllw : M W unit :=
  require_rv64;; WRITE_RD (a ← RS1; b ← RS2; mret (sext32 (a <<! (b &! 0x1F)))).

Definition slt : M W unit :=
  WRITE_RD (a ← RS1; b ← RS2; mret (b2z (s64 a <? s64 b))).

Definition slti : M W unit :=
  WRITE_RD (a ← RS1; mret (b2z (s64 a <? insn_i_imm insn))).

Definition sltiu : M W unit :=
  WRITE_RD (a ← RS1; mret (b2z (a <? u64 (insn_i_imm insn)))).

Definition sltu : M W unit :=
  WRITE_RD (a ← RS1; b ← RS2; mret (b2z (a <? b))).

Definition sra : M W unit :=
  WRITE_RD (a ← RS1; b ← RS2; mret (sext_xlen (sext_xlen a >>! (b &! (xlen - 1))))).

Definition srai : M W unit :=
  require (SHAMT <? xlen);; WRITE_RD (a ← RS1; mret (sext_xlen (sext_xlen a >>! SHAMT))).

Definition sraiw : M W unit :=
  require_rv64;; WRITE_RD (a ← RS1; mret (sext32 (s32 a >>! SHAMT))).

Definition sraw : M W unit :=
  require_rv64;; WRITE_RD (a ← RS1; b ← RS2; mret (sext32 (s32 a >>! (b &! 0x1F)))).

Definition srl : M W unit :=
  WRITE_RD (a ← RS1; b ← RS2; mret (sext_xlen (zext_xlen a >>! (b &! (xlen - 1))))).

Definition srli : M W unit :=
  require (SHAMT <? xlen);; WRITE_RD (a ← RS1; mret (sext_xlen (zext_xlen a >>! SHAMT))).

Definition srliw : M W unit :=
  require_rv64;; WRITE_RD (a ← RS1; mret (sext32 (u32 a >>! SHAMT))).

Definition srlw : M W unit :=
  require_rv64;; WRITE_RD (a ← RS1; b ← RS2; mret (sext32 (u32 a >>! (b &! 0x1F)))).

Definition sub : M W unit :=
  WRITE_RD (a ← RS1; b ← RS2; mret (sext_xlen (a -! b))).

Definition subw : M W unit :=
  require_rv64;; WRITE_RD (a ← RS1; b ← RS2; mret (sext32 (a -! b))).

Definition xor : M W unit :=
  WRITE_RD (a ← RS1; b ← RS2; mret (a ^! b)).

Definition xori : M W unit :=
  WRITE_RD (a ← RS1; mret (insn_i_imm insn ^! a)).

(** ** RV32I and RV64I: control flow *)

Definition beq : M W unit :=
  a ← RS1; b ← RS2; when (a =? b) (set_pc BRANCH_TARGET).

Definition bge : M W unit :=
  a ← RS1; b ← RS2; when (s64 b <=? s64 a) (set_pc BRANCH_TARGET).

Definition bgeu : M W unit :=
  a ← RS1; b ← RS2; when (b <=? a) (set_pc BRANCH_TARGET).

Definition blt : M W unit :=
  a ← RS1; b ← RS2; when (s64 a <? s64 b) (set_pc BRANCH_TARGET).

Definition bltu : M W unit :=
  a ← RS1; b ← RS2; when (a <? b) (set_pc BRANCH_TARGET).

Definition bne : M W unit :=
  a ← RS1; b ← RS2; when (negb (a =? b)) (set_pc BRANCH_TARGET).

Definition jal : M W unit :=
  CHECK_RD;;
  tmp ← gets npc;
  set_pc JUMP_TARGET;;
  WRITE_RD (mret tmp).

Definition jalr : M W unit :=
  CHECK_RD;;
  tmp ← gets npc;
  a ← RS1; set_pc ((a +! insn_i_imm insn) &! ~! 1);;
  WRITE_RD (mret tmp);;
  expect_landing_pad (insn_rs1 insn).

Definition lpad : M W unit :=
  lpe ← gets (fun s : state W => ZICFILP_xLPE s (virt s) (prv s) && elp s);
  when lpe (
    (if pc mod 4 =? 0 then
       x7 ← READ_REG 7;
       software_check (((x7 &! 0xFFFFF000) =? (u64 (insn_u_imm insn) &! 0xFFFFF000))
                       || (insn_u_imm insn =? 0)) LANDING_PAD_FAULT
     else software_check false LANDING_PAD_FAULT);;
    modify (with_elp false)).

Definition fence : M W unit :=
  mret tt.

Definition ecall : M W unit :=
  p ← gets prv;
  if p =? PRV_U then throw (plain_trap CAUSE_USER_ECALL)
  else if p =? PRV_S then
    v ← gets virt;
    if (v : bool) then throw (plain_trap CAUSE_VIRTUAL_SUPERVISOR_ECALL)
    else throw (plain_trap CAUSE_SUPERVISOR_ECALL)
  else if p =? PRV_M then throw (plain_trap CAUSE_MACHINE_ECALL)
  else throw simulator_abort.

Definition ebreak : M W unit :=
  c ← gets (fun s : state W =>
    negb (debug_mode s) && (
      (negb (virt s) && (prv s =? PRV_M) && ebreakm (dcsr s)) ||
      (negb (virt s) && (prv s =? PRV_S) && ebreaks (dcsr s)) ||
      (negb (virt s) && (prv s =? PRV_U) && ebreaku (dcsr s)) ||
      (virt s && (prv s =? PRV_S) && ebreakvs (dcsr s)) ||
      (virt s && (prv s =? PRV_U) && ebreakvu (dcsr s))));
  if (c : bool) then throw trap_debug_mode
  else v ← gets virt; throw (trap_breakpoint v pc).

(** ** Zicond, Zimop *)

Definition czero_eqz : M W unit :=
  require_extension EXT_ZICOND;; WRITE_RD (a ← RS1; b ← RS2; mret (if b =? 0 then 0 else a)).

Definition czero_nez : M W unit :=
  require_extension EXT_ZICOND;; WRITE_RD (a ← RS1; b ← RS2; mret (if negb (b =? 0) then 0 else a)).

Definition mop_r_N : M W unit :=
  require_extension EXT_ZIMOP;; WRITE_RD (mret 0).

Definition mop_rr_N : M W unit :=
  require_extension EXT_ZIMOP;; WRITE_RD (mret 0).

(** ** M

    Division of [sreg_t] truncates towards zero ([Z.quot], [Z.rem]). *)

Definition div : M W unit :=
  require_extension EXT_M;; a ← RS1; b ← RS2;
  let lhs := sext_xlen a in
  let rhs := sext_xlen b in
  WRITE_RD (mret (
    if rhs =? 0 then UINT64_MAX
    else if (lhs =? INT64_MIN) && (rhs =? -1) then lhs
    else sext_xlen (Z.quot lhs rhs))).

Definition divu : M W unit :=
  require_extension EXT_M;; a ← RS1; b ← RS2;
  let lhs := zext_xlen a in
  let rhs := zext_xlen b in
  WRITE_RD (mret (
    if rhs =? 0 then UINT64_MAX else sext_xlen (lhs / rhs))).

Definition divuw : M W unit :=
  require_extension EXT_M;; require_rv64;; a ← RS1; b ← RS2;
  let lhs := zext32 a in
  let rhs := zext32 b in
  WRITE_RD (mret (
    if rhs =? 0 then UINT64_MAX else sext32 (lhs / rhs))).

Definition divw : M W unit :=
  require_extension EXT_M;; require_rv64;; a ← RS1; b ← RS2;
  let lhs := sext32 a in
  let rhs := sext32 b in
  WRITE_RD (mret (
    if rhs =? 0 then UINT64_MAX else sext32 (Z.quot lhs rhs))).

Definition mul : M W unit :=
  require_either_extension EXT_M EXT_ZMMUL;; WRITE_RD (a ← RS1; b ← RS2; mret (sext_xlen (a *! b))).

Definition mulh : M W unit :=
  require_either_extension EXT_M EXT_ZMMUL;; WRITE_RD (a ← RS1; b ← RS2; mret (
    if xlen =? 64 then Arith.mulh (s64 a) (s64 b)
    else sext32 (s64 (sext32 a * sext32 b) >>! 32))).

Definition mulhsu : M W unit :=
  require_either_extension EXT_M EXT_ZMMUL;; WRITE_RD (a ← RS1; b ← RS2; mret (
    if xlen =? 64 then Arith.mulhsu (s64 a) b
    else sext32 ((u64 (sext32 a) *! u32 b) >>! 32))).

Definition mulhu : M W unit :=
  require_either_extension EXT_M EXT_ZMMUL;; WRITE_RD (a ← RS1; b ← RS2; mret (
    if xlen =? 64 then Arith.mulhu a b
    else sext32 ((u32 a *! u32 b) >>! 32))).

Definition mulw : M W unit :=
  require_either_extension EXT_M EXT_ZMMUL;; require_rv64;; WRITE_RD (a ← RS1; b ← RS2; mret (sext32 (a *! b))).

Definition rem : M W unit :=
  require_extension EXT_M;; a ← RS1; b ← RS2;
  let lhs := sext_xlen a in
  let rhs := sext_xlen b in
  WRITE_RD (mret (
    if rhs =? 0 then lhs
    else if (lhs =? INT64_MIN) && (rhs =? -1) then 0
    else sext_xlen (Z.rem lhs rhs))).

Definition remu : M W unit :=
  require_extension EXT_M;; a ← RS1; b ← RS2;
  let lhs := zext_xlen a in
  let rhs := zext_xlen b in
  WRITE_RD (mret (
    if rhs =? 0 then sext_xlen a else sext_xlen (lhs mod rhs))).

Definition remuw : M W unit :=
  require_extension EXT_M;; require_rv64;; a ← RS1; b ← RS2;
  let lhs := zext32 a in
  let rhs := zext32 b in
  WRITE_RD (mret (
    if rhs =? 0 then sext32 lhs else sext32 (lhs mod rhs))).

Definition remw : M W unit :=
  require_extension EXT_M;; require_rv64;; a ← RS1; b ← RS2;
  let lhs := sext32 a in
  let rhs := sext32 b in
  WRITE_RD (mret (
    if rhs =? 0 then lhs else sext32 (Z.rem lhs rhs))).
End insns.
