(* ===== verification/InsnsB.v ===== *)
(** * Bit manipulation instructions: Zba, Zbb, Zbc, Zbs, Zbkb, Zbkx

    One definition per file of [src/riscv/insns/]; the loops of the source are
    folds over the loop index, a loop with [break] is [first_index]. *)

From S2P Require Import Prelude Arith Decode Hart.
Local Open Scope cint_scope.

(** [for (i = ..; i < ..; i++) if (p(i)) { x = i; break; }], [x] starting as [d]. *)
Fixpoint first_index (n : nat) (i : Z) (p : Z -> bool) (d : Z) : Z :=
  match n with
  | O => d
  | S n' => if p i then i else first_index n' (i + 1) p d
  end.

Section insns.
Context {W : Type} {E : env}.

(** ** Zba *)

Definition add_uw : M W unit :=
  require_rv64;; require_extension EXT_ZBA;; 
  WRITE_RD (a ← RS1; b ← RS2; mret (sext_xlen (zext32 a +! b))).

Definition sh1add : M W unit :=
  require_extension EXT_ZBA;; 
  WRITE_RD (a ← RS1; b ← RS2; mret (sext_xlen ((a <<! 1) +! b))).

Definition sh1add_uw : M W unit :=
  require_rv64;; require_extension EXT_ZBA;; 
  WRITE_RD (a ← RS1; b ← RS2; mret (sext_xlen ((zext32 a <<! 1) +! b))).

Definition sh2add : M W unit :=
  require_extension EXT_ZBA;; 
  WRITE_RD (a ← RS1; b ← RS2; mret (sext_xlen ((a <<! 2) +! b))).

Definition sh2add_uw : M W unit :=
  require_rv64;; require_extension EXT_ZBA;; 
  WRITE_RD (a ← RS1; b ← RS2; mret (sext_xlen ((zext32 a <<! 2) +! b))).

Definition sh3add : M W unit :=
  require_extension EXT_ZBA;; 
  WRITE_RD (a ← RS1; b ← RS2; mret (sext_xlen ((a <<! 3) +! b))).

Definition sh3add_uw : M W unit :=
  require_rv64;; require_extension EXT_ZBA;; 
  WRITE_RD (a ← RS1; b ← RS2; mret (sext_xlen ((zext32 a <<! 3) +! b))).

Definition slli_uw : M W unit :=
  require_rv64;; require_extension EXT_ZBA;; 
  WRITE_RD (a ← RS1; mret (sext_xlen (zext32 a <<! SHAMT))).

(** ** Zbs *)

Definition bclr : M W unit :=
  require_extension EXT_ZBS;; 
  b ← RS2; let shamt := b &! (xlen - 1) in
  WRITE_RD (a ← RS1; mret (sext_xlen (a &! ~! (1 <<! shamt)))).

Definition bclri : M W unit :=
  require_extension EXT_ZBS;; 
  let shamt := SHAMT &! (xlen - 1) in
  WRITE_RD (a ← RS1; mret (sext_xlen (a &! ~! (1 <<! shamt)))).

Definition bext : M W unit :=
  require_extension EXT_ZBS;; 
  b ← RS2; let shamt := b &! (xlen - 1) in
  WRITE_RD (a ← RS1; mret (sext_xlen (1 &! (a >>! shamt)))).

Definition bexti : M W unit :=
  require_extension EXT_ZBS;; 
  let shamt := SHAMT &! (xlen - 1) in
  WRITE_RD (a ← RS1; mret (sext_xlen (1 &! (a >>! shamt)))).

Definition binv : M W unit :=
  require_extension EXT_ZBS;; 
  b ← RS2; let shamt := b &! (xlen - 1) in
  WRITE_RD (a ← RS1; mret (sext_xlen (a ^! (1 <<! shamt)))).

Definition binvi : M W unit :=
  require_extension EXT_ZBS;; 
  let shamt := SHAMT &! (xlen - 1) in
  WRITE_RD (a ← RS1; mret (sext_xlen (a ^! (1 <<! shamt)))).

Definition bset : M W unit :=
  require_extension EXT_ZBS;; 
  b ← RS2; let shamt := b &! (xlen - 1) in
  WRITE_RD (a ← RS1; mret (sext_xlen (a |! (1 <<! shamt)))).

Definition bseti : M W unit :=
  require_extension EXT_ZBS;; 
  let shamt := SHAMT &! (xlen - 1) in
  WRITE_RD (a ← RS1; mret (sext_xlen (a |! (1 <<! shamt)))).

(** ** Zbb and Zbkb: logic, comparison, rotation *)

Definition andn : M W unit :=
  require_either_extension EXT_ZBB EXT_ZBKB;; 
  WRITE_RD (a ← RS1; b ← RS2; mret (a &! ~! b)).

Definition orn : M W unit :=
  require_either_extension EXT_ZBB EXT_ZBKB;; 
  WRITE_RD (a ← RS1; b ← RS2; mret (a |! ~! b)).

Definition xnor : M W unit :=
  require_either_extension EXT_ZBB EXT_ZBKB;; 
  WRITE_RD (a ← RS1; b ← RS2; mret (a ^! ~! b)).

Definition max : M W unit :=
  require_extension EXT_ZBB;; 
  WRITE_RD (a ← RS1; b ← RS2; mret (sext_xlen (if s64 b <? s64 a then a else b))).

Definition maxu : M W unit :=
  require_extension EXT_ZBB;; 
  WRITE_RD (a ← RS1; b ← RS2; mret (sext_xlen (if b <? a then a else b))).

Definition min : M W unit :=
  require_extension EXT_ZBB;; 
  WRITE_RD (a ← RS1; b ← RS2; mret (sext_xlen (if s64 a <? s64 b then a else b))).

Definition minu : M W unit :=
  require_extension EXT_ZBB;; 
  WRITE_RD (a ← RS1; b ← RS2; mret (sext_xlen (if a <? b then a else b))).

Definition sext_b : M W unit :=
  require_extension EXT_ZBB;; 
  WRITE_RD (a ← RS1; mret (s64 (s8 a))).

Definition sext_h : M W unit :=
  require_extension EXT_ZBB;; 
  WRITE_RD (a ← RS1; mret (s64 (s16 a))).

Definition rol : M W unit :=
  require_either_extension EXT_ZBB EXT_ZBKB;; 
  b ← RS2; let shamt := b &! (xlen - 1) in
  let rshamt := (- shamt) &! (xlen - 1) in
  WRITE_RD (a ← RS1; mret (sext_xlen ((a <<! shamt) |! (zext_xlen a >>! rshamt)))).

Definition rolw : M W unit :=
  require_rv64;; require_either_extension EXT_ZBB EXT_ZBKB;; 
  b ← RS2; let shamt := b &! 31 in
  let rshamt := (- shamt) &! 31 in
  WRITE_RD (a ← RS1; mret (sext32 ((a <<! shamt) |! (zext32 a >>! rshamt)))).

Definition ror : M W unit :=
  require_either_extension EXT_ZBB EXT_ZBKB;; 
  b ← RS2; let shamt := b &! (xlen - 1) in
  let rshamt := (- shamt) &! (xlen - 1) in
  WRITE_RD (a ← RS1; mret (sext_xlen ((a <<! rshamt) |! (zext_xlen a >>! shamt)))).

Definition rori : M W unit :=
  require_either_extension EXT_ZBB EXT_ZBKB;; require (SHAMT <? xlen);; 
  let shamt := SHAMT &! (xlen - 1) in
  let rshamt := (- shamt) &! (xlen - 1) in
  WRITE_RD (a ← RS1; mret (sext_xlen ((a <<! rshamt) |! (zext_xlen a >>! shamt)))).

Definition roriw : M W unit :=
  require_rv64;; require_either_extension EXT_ZBB EXT_ZBKB;; require (SHAMT <? 32);; 
  let shamt := SHAMT &! 31 in
  let rshamt := (- shamt) &! 31 in
  WRITE_RD (a ← RS1; mret (sext32 ((a <<! rshamt) |! (zext32 a >>! shamt)))).

Definition rorw : M W unit :=
  require_rv64;; require_either_extension EXT_ZBB EXT_ZBKB;; 
  b ← RS2; let shamt := b &! 31 in
  let rshamt := (- shamt) &! 31 in
  WRITE_RD (a ← RS1; mret (sext32 ((a <<! rshamt) |! (zext32 a >>! shamt)))).

(** ** Zbb: counting *)

Definition clz : M W unit :=
  require_extension EXT_ZBB;; 
  a ← RS1;
  let x := first_index (Z.to_nat xlen) 0 (fun i => z2b (1 &! (a >>! (xlen - i - 1)))) xlen in
  WRITE_RD (mret (sext_xlen x)).

Definition clzw : M W unit :=
  require_rv64;; require_extension EXT_ZBB;; 
  a ← RS1;
  let x := first_index (Z.to_nat 32) 0 (fun i => z2b (1 &! (a >>! (31 - i)))) 32 in
  WRITE_RD (mret (sext32 x)).

Definition ctz : M W unit :=
  require_extension EXT_ZBB;; 
  a ← RS1;
  let x := first_index (Z.to_nat xlen) 0 (fun i => z2b (1 &! (a >>! i))) xlen in
  WRITE_RD (mret (sext_xlen x)).

Definition ctzw : M W unit :=
  require_rv64;; require_extension EXT_ZBB;; 
  a ← RS1;
  let x := first_index (Z.to_nat 32) 0 (fun i => z2b (1 &! (a >>! i))) 32 in
  WRITE_RD (mret (sext32 x)).

Definition cpop : M W unit :=
  require_extension EXT_ZBB;; 
  a ← RS1;
  let x := fold_left (fun x i => if z2b (1 &! (a >>! i)) then x +! 1 else x) (seqZ 0 xlen) 0 in
  WRITE_RD (mret (sext_xlen x)).

Definition cpopw : M W unit :=
  require_rv64;; require_extension EXT_ZBB;; 
  a ← RS1;
  let x := fold_left (fun x i => if z2b (1 &! (a >>! i)) then x +! 1 else x) (seqZ 0 32) 0 in
  WRITE_RD (mret (sext32 x)).

(** ** Zbc and Zbkc *)

Definition clmul : M W unit :=
  require_either_extension EXT_ZBC EXT_ZBKC;; 
  ra ← RS1; rb ← RS2;
  let a := zext_xlen ra in
  let b := zext_xlen rb in
  let x := fold_left (fun x i => if z2b ((b >>! i) &! 1) then x ^! (a <<! i) else x)
             (seqZ 0 xlen) 0 in
  WRITE_RD (mret (sext_xlen x)).

Definition clmulh : M W unit :=
  require_either_extension EXT_ZBC EXT_ZBKC;; 
  ra ← RS1; rb ← RS2;
  let a := zext_xlen ra in
  let b := zext_xlen rb in
  let x := fold_left (fun x i => if z2b ((b >>! i) &! 1) then x ^! (a >>! (xlen - i)) else x)
             (seqZ 1 (xlen - 1)) 0 in
  WRITE_RD (mret (sext_xlen x)).

Definition clmulr : M W unit :=
  require_extension EXT_ZBC;; 
  ra ← RS1; rb ← RS2;
  let a := zext_xlen ra in
  let b := zext_xlen rb in
  let x := fold_left (fun x i => if z2b ((b >>! i) &! 1) then x ^! (a >>! (xlen - i - 1)) else x)
             (seqZ 0 xlen) 0 in
  WRITE_RD (mret (sext_xlen x)).

(** ** Zbkb: packing and permutations *)

Definition pack : M W unit :=
  cb ← ext_enabled EXT_ZBB; ck ← ext_enabled EXT_ZBKB;
  require (((xlen =? 32) && (insn_rs2 insn =? 0) && cb) || ck);;
  a ← RS1; b ← RS2;
  let lo := zext_xlen (a <<! (xlen / 2)) >>! (xlen / 2) in
  let hi := zext_xlen (b <<! (xlen / 2)) in
  WRITE_RD (mret (sext_xlen (lo |! hi))).

Definition packh : M W unit :=
  require_extension EXT_ZBKB;;
  a ← RS1; b ← RS2;
  let lo := zext_xlen (a <<! (xlen - 8)) >>! (xlen - 8) in
  let hi := zext_xlen (b <<! (xlen - 8)) >>! (xlen - 16) in
  WRITE_RD (mret (sext_xlen (lo |! hi))).

Definition packw : M W unit :=
  cb ← ext_enabled EXT_ZBB; ck ← ext_enabled EXT_ZBKB;
  require (((insn_rs2 insn =? 0) && cb) || ck);;
  require_rv64;;
  a ← RS1; b ← RS2;
  let lo := zext32 (a <<! 16) >>! 16 in
  let hi := zext32 (b <<! 16) in
  WRITE_RD (mret (sext32 (lo |! hi))).

(** One stage of [grevi]: exchange the neighbouring groups of [k] bits. *)
Definition grev_stage (shamt k lo hi x : Z) : Z :=
  if z2b (shamt &! k) then ((x &! lo) <<! k) |! ((x &! hi) >>! k) else x.

Definition gorc_stage (shamt k lo hi x : Z) : Z :=
  if z2b (shamt &! k) then x |! (((x &! lo) <<! k) |! ((x &! hi) >>! k)) else x.

Definition grev_all (shamt x : Z) : Z :=
  let x := grev_stage shamt 1 0x5555555555555555 0xAAAAAAAAAAAAAAAA x in
  let x := grev_stage shamt 2 0x3333333333333333 0xCCCCCCCCCCCCCCCC x in
  let x := grev_stage shamt 4 0x0F0F0F0F0F0F0F0F 0xF0F0F0F0F0F0F0F0 x in
  let x := grev_stage shamt 8 0x00FF00FF00FF00FF 0xFF00FF00FF00FF00 x in
  let x := grev_stage shamt 16 0x0000FFFF0000FFFF 0xFFFF0000FFFF0000 x in
  let x := grev_stage shamt 32 0x00000000FFFFFFFF 0xFFFFFFFF00000000 x in
  x.

Definition gorc_all (shamt x : Z) : Z :=
  let x := gorc_stage shamt 1 0x5555555555555555 0xAAAAAAAAAAAAAAAA x in
  let x := gorc_stage shamt 2 0x3333333333333333 0xCCCCCCCCCCCCCCCC x in
  let x := gorc_stage shamt 4 0x0F0F0F0F0F0F0F0F 0xF0F0F0F0F0F0F0F0 x in
  let x := gorc_stage shamt 8 0x00FF00FF00FF00FF 0xFF00FF00FF00FF00 x in
  let x := gorc_stage shamt 16 0x0000FFFF0000FFFF 0xFFFF0000FFFF0000 x in
  let x := gorc_stage shamt 32 0x00000000FFFFFFFF 0xFFFFFFFF00000000 x in
  x.

Definition gorci : M W unit :=
  cb ← ext_enabled EXT_ZBB;
  require ((SHAMT =? 7) && cb);;
  require (SHAMT <? xlen);;
  x ← RS1;
  WRITE_RD (mret (sext_xlen (gorc_all SHAMT x))).

Definition grevi : M W unit :=
  let shamt := SHAMT in
  cb ← ext_enabled EXT_ZBB; ck ← ext_enabled EXT_ZBKB;
  require (((shamt =? xlen - 8) && (cb || ck)) || ((shamt =? 7) && ck));;
  require (shamt <? xlen);;
  x ← RS1;
  WRITE_RD (mret (sext_xlen (grev_all shamt x))).

(** One stage of [shfli] and [unshfli]: the bits of [keep] stay, those of [l] move
    down and those of [r] up by [k]. *)
Definition shuffle_stage (shamt k keep l r x : Z) : Z :=
  if z2b (shamt &! k) then (x &! keep) |! ((x &! l) >>! k) |! ((x &! r) <<! k) else x.

Definition shfl_all (shamt x : Z) : Z :=
  let x := shuffle_stage shamt 16 0xFFFF00000000FFFF 0x0000FFFF00000000 0x00000000FFFF0000 x in
  let x := shuffle_stage shamt 8 0xFF0000FFFF0000FF 0x00FF000000FF0000 0x0000FF000000FF00 x in
  let x := shuffle_stage shamt 4 0xF00FF00FF00FF00F 0x0F000F000F000F00 0x00F000F000F000F0 x in
  let x := shuffle_stage shamt 2 0xC3C3C3C3C3C3C3C3 0x3030303030303030 0x0C0C0C0C0C0C0C0C x in
  let x := shuffle_stage shamt 1 0x9999999999999999 0x4444444444444444 0x2222222222222222 x in
  x.

Definition unshfl_all (shamt x : Z) : Z :=
  let x := shuffle_stage shamt 1 0x9999999999999999 0x4444444444444444 0x2222222222222222 x in
  let x := shuffle_stage shamt 2 0xC3C3C3C3C3C3C3C3 0x3030303030303030 0x0C0C0C0C0C0C0C0C x in
  let x := shuffle_stage shamt 4 0xF00FF00FF00FF00F 0x0F000F000F000F00 0x00F000F000F000F0 x in
  let x := shuffle_stage shamt 8 0xFF0000FFFF0000FF 0x00FF000000FF0000 0x0000FF000000FF00 x in
  let x := shuffle_stage shamt 16 0xFFFF00000000FFFF 0x0000FFFF00000000 0x00000000FFFF0000 x in
  x.

Definition shfli : M W unit :=
  require_rv32;;
  ck ← ext_enabled EXT_ZBKB;
  require ((insn_rs2 insn =? xlen / 2 - 1) && ck);;
  require (SHAMT <? xlen / 2);;
  x ← RS1;
  let shamt := SHAMT &! ((xlen - 1) >>! 1) in
  WRITE_RD (mret (sext_xlen (shfl_all shamt x))).

Definition unshfli : M W unit :=
  require_rv32;;
  ck ← ext_enabled EXT_ZBKB;
  require ((insn_rs2 insn =? xlen / 2 - 1) && ck);;
  require (SHAMT <? xlen / 2);;
  x ← RS1;
  let shamt := SHAMT &! ((xlen - 1) >>! 1) in
  WRITE_RD (mret (sext_xlen (unshfl_all shamt x))).

(** ** Zbkx *)

Definition xperm4 : M W unit :=
  require_extension EXT_ZBKX;; 
  WRITE_RD (a ← RS1; b ← RS2; mret (sext_xlen (xperm a b 2 xlen))).

Definition xperm8 : M W unit :=
  require_extension EXT_ZBKX;; 
  WRITE_RD (a ← RS1; b ← RS2; mret (sext_xlen (xperm a b 3 xlen))).
End insns.
