(* ===== verification/Alu.v ===== *)
(** * The abstract ALU and its refinement

    The register-to-register computation of the unprivileged manual as a
    function on [w]-bit unsigned values, with no sign-extended representation,
    no 64-bit wrap-around and no loops; and the proof that each instruction body
    computes the sign extension of that function.  A word instruction of RV64
    refines the same function at width 32. *)

From S2P Require Import Prelude Arith Decode Hart InsnsIM InsnsB.
Local Open Scope cint_scope.

Inductive alu_op :=
  | AADD | ASUB | ASLL | ASLT | ASLTU | AXOR | ASRL | ASRA | AOR | AAND
  | AMUL | AMULH | AMULHSU | AMULHU | ADIV | ADIVU | AREM | AREMU
  | AANDN | AORN | AXNOR | AMAX | AMAXU | AMIN | AMINU | AROL | AROR
  | ASHADD (k : Z) | ABCLR | ABSET | ABINV | ABEXT
  | ACLMUL | ACLMULH | ACLMULR | ACZEQZ | ACZNEZ | APACK.

(** The carry-less product: the exclusive or of the shifted first factor over
    the bits set in the second. *)
Definition clprod (w a b : Z) : Z :=
  foldr (fun i acc => Z.lxor acc (if Z.testbit b i then Z.shiftl a i else 0)) 0 (seqZ 0 w).

Definition alu_spec (w : Z) (op : alu_op) (a b : Z) : Z :=
  let sa := swrap w a in
  let sb := swrap w b in
  let k := b mod w in
  match op with
  | AADD => wrap w (a + b)
  | ASUB => wrap w (a - b)
  | ASLL => wrap w (a * 2 ^ k)
  | ASLT => b2z (sa <? sb)
  | ASLTU => b2z (a <? b)
  | AXOR => Z.lxor a b
  | ASRL => a / 2 ^ k
  | ASRA => wrap w (sa / 2 ^ k)
  | AOR => Z.lor a b
  | AAND => Z.land a b
  | AMUL => wrap w (a * b)
  | AMULH => wrap w (sa * sb / 2 ^ w)
  | AMULHSU => wrap w (sa * b / 2 ^ w)
  | AMULHU => a * b / 2 ^ w
  | ADIV => wrap w (if b =? 0 then -1 else Z.quot sa sb)
  | ADIVU => if b =? 0 then 2 ^ w - 1 else a / b
  | AREM => wrap w (if b =? 0 then sa else Z.rem sa sb)
  | AREMU => if b =? 0 then a else a mod b
  | AANDN => Z.ldiff a b
  | AORN => Z.lor a (2 ^ w - 1 - b)
  | AXNOR => 2 ^ w - 1 - Z.lxor a b
  | AMAX => wrap w (Z.max sa sb)
  | AMAXU => Z.max a b
  | AMIN => wrap w (Z.min sa sb)
  | AMINU => Z.min a b
  | AROL => (a * 2 ^ k) mod 2 ^ w + a / 2 ^ (w - k)
  | AROR => a / 2 ^ k + (a * 2 ^ (w - k)) mod 2 ^ w
  | ASHADD n => wrap w (a * 2 ^ n + b)
  | ABCLR => Z.clearbit a k
  | ABSET => Z.setbit a k
  | ABINV => Z.lxor a (2 ^ k)
  | ABEXT => b2z (Z.testbit a k)
  | ACLMUL => wrap w (clprod w a b)
  | ACLMULH => clprod w a b / 2 ^ w
  | ACLMULR => wrap w (clprod w a b / 2 ^ (w - 1))
  | ACZEQZ => if b =? 0 then 0 else a
  | ACZNEZ => if b =? 0 then a else 0
  | APACK => a mod 2 ^ (w / 2) + b mod 2 ^ (w / 2) * 2 ^ (w / 2)
  end.

(** ** Values *)

Lemma wrap_wrap_le w v x : 0 <= w <= v -> wrap w (wrap v x) = wrap w x.
Proof.
  intros H. apply Z.bits_inj'. intros i Hi. rewrite !wrap_testbit by lia.
  destruct (Z.ltb_spec i w), (Z.ltb_spec i v); lia || done.
Qed.

Lemma swrap_wrap_le w v x : 0 < w <= v -> swrap w (wrap v x) = swrap w x.
Proof. intros H. by rewrite <- (swrap_wrap w), wrap_wrap_le, swrap_wrap by lia. Qed.

Lemma swrap_congr w x y : 0 < w -> wrap w x = wrap w y -> swrap w x = swrap w y.
Proof. intros Hw H. by rewrite <- (swrap_wrap w Hw x), H, swrap_wrap by lia. Qed.

Lemma wrap_swrap_le w v x : 0 < w <= v -> wrap w (swrap v x) = wrap w x.
Proof. intros H. by rewrite <- (wrap_wrap_le w v), wrap_swrap, wrap_wrap_le by lia. Qed.

Section value.
(** [w] is the width of the operation, [a] and [b] the register values. *)
Context (w : Z) (Hw : w = 32 \/ w = 64).
Local Abbreviation rep z := (u64 (swrap w z)).

Lemma w_bounds : 0 < w <= 64.
Proof using Hw. lia. Qed.

(** A canonical value is determined by its low [w] bits. *)
Lemma rep_intro r R : canon w r -> wrap w r = R -> r = rep R.
Proof using Hw. intros Hc <-. pose proof w_bounds. by rewrite swrap_wrap by lia. Qed.

Lemma rep_swrap x R : wrap w x = wrap w R -> u64 (swrap w x) = rep R.
Proof using Hw. intros H. f_equal. apply swrap_congr; [lia|done]. Qed.

Lemma canon_signed a : canon w a -> s64 a = swrap w a.
Proof using Hw.
  intros Hc. unfold canon in Hc. rewrite <- Hc at 1. rewrite swrap_wrap by lia.
  apply swrap_small; [lia|]. pose proof (swrap_range w ltac:(lia) a).
  pose proof (Z.pow_le_mono_r 2 (w - 1) (64 - 1)). lia.
Qed.

(** The sign extension of RV32 keeps the unsigned order too. *)
Lemma canon_value a : canon w a ->
  a = if wrap w a <? 2 ^ (w - 1) then wrap w a else wrap w a + (2 ^ 64 - 2 ^ w).
Proof using Hw.
  intros Hc. unfold canon in Hc. rewrite <- Hc at 1.
  pose proof (wrap_range w ltac:(lia) a) as Hr.
  rewrite <- (swrap_wrap w ltac:(lia) a), swrap_unsigned by lia. unfold wrap at 1.
  pose proof (pow2_split w ltac:(lia)).
  pose proof (Z.pow_le_mono_r 2 w 64 ltac:(lia) ltac:(lia)).
  destruct (Z.ltb_spec (wrap w a) (2 ^ (w - 1))); [apply Z.mod_small; lia|].
  symmetry. apply (Z.mod_unique _ _ (-1)); lia.
Qed.

Lemma canon_ltb a b : canon w a -> canon w b -> (a <? b) = (wrap w a <? wrap w b).
Proof using Hw.
  intros Ha Hb. pose proof (canon_value a Ha). pose proof (canon_value b Hb).
  pose proof (wrap_range w ltac:(lia) a). pose proof (wrap_range w ltac:(lia) b).
  pose proof (pow2_split w ltac:(lia)).
  pose proof (Z.pow_le_mono_r 2 w 64 ltac:(lia) ltac:(lia)).
  destruct (Z.ltb_spec (wrap w a) (2 ^ (w - 1))), (Z.ltb_spec (wrap w b) (2 ^ (w - 1)));
    destruct (Z.ltb_spec a b), (Z.ltb_spec (wrap w a) (wrap w b)); lia || done.
Qed.

Lemma canon_eq0 b : canon w b -> (b =? 0) = (wrap w b =? 0).
Proof using Hw.
  intros Hb. destruct (Z.eqb_spec b 0) as [->|Hn]; [done|].
  destruct (Z.eqb_spec (wrap w b) 0) as [E|]; [|done]. exfalso. apply Hn.
  rewrite <- Hb. rewrite <- (swrap_wrap w) by lia. rewrite E. by destruct Hw as [-> | ->].
Qed.

Lemma swrap_eq0 b : (swrap w b =? 0) = (wrap w b =? 0).
Proof using Hw.
  rewrite <- (wrap_swrap w) by lia. destruct (Z.eqb_spec (swrap w b) 0) as [->|Hn]; [done|].
  destruct (Z.eqb_spec (wrap w (swrap w b)) 0) as [E|]; [|done]. exfalso. apply Hn.
  rewrite <- (swrap_swrap w), <- (swrap_wrap w), E by lia. by destruct Hw as [-> | ->].
Qed.

(** Masking a shift amount with [w - 1] reduces it modulo [w]. *)
Lemma shift_amount b : Z.land b (w - 1) = wrap w b mod w.
Proof using Hw.
  assert (E : w - 1 = Z.ones (Z.log2 w) /\ 2 ^ Z.log2 w = w) by (by destruct Hw as [-> | ->]).
  destruct E as [E1 E2]. rewrite E1, Z.land_ones, E2 by (apply Z.log2_nonneg).
  unfold wrap. symmetry. apply Z.mod_mod_divide.
  destruct Hw as [-> | ->]; [exists (2 ^ 27)|exists (2 ^ 58)]; reflexivity.
Qed.

Lemma shift_range b : 0 <= wrap w b mod w < w.
Proof using Hw. apply Z.mod_pos_bound. lia. Qed.

(** ** One lemma per operation

    The left-hand side is the value an instruction file hands to [WRITE_RD]. *)

Lemma op_add a b : swrap w (u64 (a + b)) = swrap w (wrap w (wrap w a + wrap w b)).
Proof using Hw.
  rewrite swrap_wrap_le, swrap_wrap by lia. apply swrap_congr; [lia|].
  by rewrite wrap_add_l, wrap_add_r.
Qed.

Lemma op_sub a b : swrap w (u64 (a - b)) = swrap w (wrap w (wrap w a - wrap w b)).
Proof using Hw.
  rewrite swrap_wrap_le, swrap_wrap by lia. apply swrap_congr; [lia|].
  by rewrite wrap_sub_l, wrap_sub_r.
Qed.

Lemma op_mul a b : swrap w (u64 (a * b)) = swrap w (wrap w (wrap w a * wrap w b)).
Proof using Hw.
  rewrite swrap_wrap_le, swrap_wrap by lia. apply swrap_congr; [lia|].
  by rewrite wrap_mul_l, wrap_mul_r.
Qed.

Lemma op_shl a k : 0 <= k -> swrap w (u64 (Z.shiftl a k)) = swrap w (wrap w (wrap w a * 2 ^ k)).
Proof using Hw.
  intros Hk. rewrite swrap_wrap_le, swrap_wrap, Z.shiftl_mul_pow2 by lia.
  apply swrap_congr; [lia|]. by rewrite wrap_mul_l.
Qed.

Lemma op_shr a k : 0 <= k -> Z.shiftr (wrap w a) k = wrap w a / 2 ^ k.
Proof using. apply Z.shiftr_div_pow2. Qed.

Lemma op_sar a k : 0 <= k ->
  swrap w (Z.shiftr (swrap w a) k) = swrap w (wrap w (swrap w (wrap w a) / 2 ^ k)).
Proof using Hw. intros Hk. by rewrite Z.shiftr_div_pow2, !swrap_wrap by lia. Qed.

(** Bitwise results of canonical values are canonical: only the low half is compared. *)
Lemma op_land a b : canon w a -> canon w b -> u64 (Z.land a b) = rep (Z.land (wrap w a) (wrap w b)).
Proof using Hw.
  intros Ha Hb. rewrite (wrap_small 64) by (apply land_range; [lia|by eapply canon_range]).
  apply rep_intro; [by apply canon_land|]. zbits.
Qed.

Lemma op_lor a b : canon w a -> canon w b -> u64 (Z.lor a b) = rep (Z.lor (wrap w a) (wrap w b)).
Proof using Hw.
  intros Ha Hb. rewrite (wrap_small 64) by (apply lor_range; [lia| |]; by eapply canon_range).
  apply rep_intro; [by apply canon_lor|]. zbits.
Qed.

Lemma op_lxor a b : canon w a -> canon w b -> u64 (Z.lxor a b) = rep (Z.lxor (wrap w a) (wrap w b)).
Proof using Hw.
  intros Ha Hb. rewrite (wrap_small 64) by (apply lxor_range; [lia| |]; by eapply canon_range).
  apply rep_intro; [by apply canon_lxor|]. zbits.
Qed.

Lemma wrap_lnot b : wrap w (u64 (Z.lnot b)) = 2 ^ w - 1 - wrap w b.
Proof using Hw.
  rewrite wrap_wrap_le by lia. pose proof (wrap_range w ltac:(lia) b).
  unfold wrap, Z.lnot. pose proof (Z.div_mod b (2 ^ w)). pose proof (Z.pow_pos_nonneg 2 w).
  unfold wrap in *. symmetry. apply (Z.mod_unique _ _ (- (b / 2 ^ w) - 1)); lia.
Qed.

Lemma op_andn a b : canon w a -> canon w b ->
  u64 (Z.land a (u64 (Z.lnot b))) = rep (Z.ldiff (wrap w a) (wrap w b)).
Proof using Hw.
  intros Ha Hb. rewrite op_land by (try done; by apply canon_lnot).
  do 2 f_equal. rewrite wrap_wrap_le by lia. apply Z.bits_inj'. intros i Hi.
  rewrite Z.land_spec, Z.ldiff_spec, !wrap_testbit, Z.lnot_spec by lia.
  destruct (i <? w), (Z.testbit a i); done.
Qed.

Lemma op_orn a b : canon w a -> canon w b ->
  u64 (Z.lor a (u64 (Z.lnot b))) = rep (Z.lor (wrap w a) (2 ^ w - 1 - wrap w b)).
Proof using Hw.
  intros Ha Hb. rewrite op_lor by (try done; by apply canon_lnot). by rewrite wrap_lnot.
Qed.

Lemma op_xnor a b : canon w a -> canon w b ->
  u64 (Z.lxor a (u64 (Z.lnot b))) = rep (2 ^ w - 1 - Z.lxor (wrap w a) (wrap w b)).
Proof using Hw.
  intros Ha Hb. rewrite op_lxor by (try done; by apply canon_lnot). do 2 f_equal.
  rewrite <- (wrap_small w (Z.lxor (wrap w a) (wrap w b))) by
    (apply lxor_range; [lia|by apply wrap_range; lia..]).
  rewrite <- wrap_lnot, !wrap_wrap_le by lia. zbits.
Qed.

Lemma op_bool b : u64 (b2z b) = rep (b2z b).
Proof using Hw. destruct b, Hw as [-> | ->]; reflexivity. Qed.

Lemma op_signed (c : Z -> Z -> bool) a b : canon w a -> canon w b ->
  c (s64 a) (s64 b) = c (swrap w (wrap w a)) (swrap w (wrap w b)).
Proof using Hw. intros Ha Hb. by rewrite !canon_signed, !swrap_wrap by (done || lia). Qed.

Lemma op_slt a b : canon w a -> canon w b ->
  u64 (b2z (s64 a <? s64 b)) = rep (b2z (swrap w (wrap w a) <? swrap w (wrap w b))).
Proof using Hw. intros Ha Hb. by rewrite op_bool, !canon_signed, !swrap_wrap by (done || lia). Qed.

Lemma op_slti a i : canon w a -> - 2 ^ 11 <= i < 2 ^ 11 ->
  u64 (b2z (s64 a <? i)) = rep (b2z (swrap w (wrap w a) <? swrap w (wrap w i))).
Proof using Hw.
  intros Ha Hi. rewrite op_bool, canon_signed, !swrap_wrap by (done || lia).
  pose proof (Z.pow_le_mono_r 2 11 (w - 1)). by rewrite (swrap_small w ltac:(lia) i) by lia.
Qed.

Lemma op_sltu a b : canon w a -> canon w b ->
  u64 (b2z (a <? b)) = rep (b2z (wrap w a <? wrap w b)).
Proof using Hw. intros Ha Hb. by rewrite op_bool, canon_ltb. Qed.

Lemma op_sltiu a i : canon w a -> canon w (u64 i) ->
  u64 (b2z (a <? u64 i)) = rep (b2z (wrap w a <? wrap w i)).
Proof using Hw. intros Ha Hi. by rewrite op_bool, canon_ltb, wrap_wrap_le by (done || lia). Qed.

Lemma op_czero (c : bool) a : canon w a ->
  u64 (if c then 0 else a) = rep (if c then 0 else wrap w a).
Proof using Hw.
  intros Ha. destruct c; [by destruct Hw as [-> | ->]|]. apply rep_intro; [by apply canon_u64|].
  apply wrap_wrap_le. lia.
Qed.

Lemma op_cnez (c : bool) a : canon w a ->
  u64 (if negb c then 0 else a) = rep (if c then wrap w a else 0).
Proof using Hw. intros Ha. rewrite op_czero by done. by destruct c. Qed.

Lemma op_max a b : canon w a -> canon w b ->
  swrap w (if s64 b <? s64 a then a else b) =
  swrap w (wrap w (Z.max (swrap w (wrap w a)) (swrap w (wrap w b)))).
Proof using Hw.
  intros Ha Hb. rewrite !canon_signed, !swrap_wrap by (done || lia).
  destruct (Z.ltb_spec (swrap w b) (swrap w a)).
  - by rewrite Z.max_l, swrap_swrap by lia.
  - by rewrite Z.max_r, swrap_swrap by lia.
Qed.

Lemma op_min a b : canon w a -> canon w b ->
  swrap w (if s64 a <? s64 b then a else b) =
  swrap w (wrap w (Z.min (swrap w (wrap w a)) (swrap w (wrap w b)))).
Proof using Hw.
  intros Ha Hb. rewrite !canon_signed, !swrap_wrap by (done || lia).
  destruct (Z.ltb_spec (swrap w a) (swrap w b)).
  - by rewrite Z.min_l, swrap_swrap by lia.
  - by rewrite Z.min_r, swrap_swrap by lia.
Qed.

Lemma op_maxu a b : canon w a -> canon w b ->
  swrap w (if b <? a then a else b) = swrap w (Z.max (wrap w a) (wrap w b)).
Proof using Hw.
  intros Ha Hb. rewrite canon_ltb by done. destruct (Z.ltb_spec (wrap w b) (wrap w a)).
  - by rewrite Z.max_l, swrap_wrap by lia.
  - by rewrite Z.max_r, swrap_wrap by lia.
Qed.

Lemma op_minu a b : canon w a -> canon w b ->
  swrap w (if a <? b then a else b) = swrap w (Z.min (wrap w a) (wrap w b)).
Proof using Hw.
  intros Ha Hb. rewrite canon_ltb by done. destruct (Z.ltb_spec (wrap w a) (wrap w b)).
  - by rewrite Z.min_l, swrap_wrap by lia.
  - by rewrite Z.min_r, swrap_wrap by lia.
Qed.

(** Division: the quotient of the most negative value by -1 wraps to itself. *)
Lemma op_div a b :
  u64 (if swrap w b =? 0 then UINT64_MAX
       else if (swrap w a =? INT64_MIN) && (swrap w b =? -1) then swrap w a
       else swrap w (Z.quot (swrap w a) (swrap w b))) =
  rep (wrap w (if wrap w b =? 0 then -1
               else Z.quot (swrap w (wrap w a)) (swrap w (wrap w b)))).
Proof using Hw.
  rewrite swrap_eq0, !swrap_wrap by lia. destruct (wrap w b =? 0).
  - by destruct Hw as [-> | ->].
  - destruct ((swrap w a =? INT64_MIN) && (swrap w b =? -1)) eqn:Eo; [|done].
    apply andb_true_iff in Eo. destruct Eo as [Ea Eb]. apply Z.eqb_eq in Ea, Eb.
    rewrite Ea, Eb. unfold INT64_MIN in *. destruct Hw as [-> | ->]; [|reflexivity].
    pose proof (swrap_range 32 ltac:(lia) a). lia.
Qed.

Lemma op_rem a b :
  u64 (if swrap w b =? 0 then swrap w a
       else if (swrap w a =? INT64_MIN) && (swrap w b =? -1) then 0
       else swrap w (Z.rem (swrap w a) (swrap w b))) =
  rep (wrap w (if wrap w b =? 0 then swrap w (wrap w a)
               else Z.rem (swrap w (wrap w a)) (swrap w (wrap w b)))).
Proof using Hw.
  rewrite swrap_eq0, !swrap_wrap by lia. destruct (wrap w b =? 0).
  - by rewrite swrap_swrap by lia.
  - destruct ((swrap w a =? INT64_MIN) && (swrap w b =? -1)) eqn:Eo; [|done].
    apply andb_true_iff in Eo. destruct Eo as [Ea Eb]. apply Z.eqb_eq in Ea, Eb.
    rewrite Ea, Eb. unfold INT64_MIN in *. destruct Hw as [-> | ->]; [|reflexivity].
    pose proof (swrap_range 32 ltac:(lia) a). lia.
Qed.

(** The word forms have no overflow arm: the 64-bit quotient is cut to 32 bits. *)
Lemma op_divw a b :
  u64 (if swrap w b =? 0 then UINT64_MAX else swrap w (Z.quot (swrap w a) (swrap w b))) =
  rep (wrap w (if wrap w b =? 0 then -1
               else Z.quot (swrap w (wrap w a)) (swrap w (wrap w b)))).
Proof using Hw.
  rewrite swrap_eq0, !swrap_wrap by lia. destruct (wrap w b =? 0); [|done].
  by destruct Hw as [-> | ->].
Qed.

Lemma op_remw a b :
  u64 (if swrap w b =? 0 then swrap w a else swrap w (Z.rem (swrap w a) (swrap w b))) =
  rep (wrap w (if wrap w b =? 0 then swrap w (wrap w a)
               else Z.rem (swrap w (wrap w a)) (swrap w (wrap w b)))).
Proof using Hw.
  rewrite swrap_eq0, !swrap_wrap by lia. destruct (wrap w b =? 0); [|done].
  by rewrite swrap_swrap by lia.
Qed.

Lemma op_mulh a b :
  u64 (if w =? 64 then Arith.mulh (s64 a) (s64 b)
       else s32 (Z.shiftr (s64 (s32 a * s32 b)) 32)) =
  rep (wrap w (swrap w (wrap w a) * swrap w (wrap w b) / 2 ^ w)).
Proof using Hw.
  rewrite !swrap_wrap by lia. pose proof (swrap_range w ltac:(lia) a).
  pose proof (swrap_range w ltac:(lia) b). destruct Hw as [-> | ->].
  - change (32 =? 64) with false. cbv iota. change (2 ^ (32 - 1)) with 0x80000000 in *.
    assert (Hp : Z.abs (s32 a * s32 b) <= 0x80000000 * 0x80000000)
      by (rewrite Z.abs_mul; apply Z.mul_le_mono_nonneg; lia).
    rewrite (swrap_small 64 ltac:(lia)) by (change (2 ^ (64 - 1)) with 0x8000000000000000; lia).
    by rewrite Z.shiftr_div_pow2 by lia.
  - rewrite Z.eqb_refl. rewrite mulh_high by lia. by rewrite wrap_swrap by lia.
Qed.

Lemma op_mulhsu a b : 0 <= b < 2 ^ 64 ->
  u64 (if w =? 64 then Arith.mulhsu (s64 a) b
       else s32 (Z.shiftr (u64 (u64 (s32 a) * u32 b)) 32)) =
  rep (wrap w (swrap w (wrap w a) * wrap w b / 2 ^ w)).
Proof using Hw.
  intros Hb. rewrite !swrap_wrap by lia. pose proof (swrap_range w ltac:(lia) a).
  pose proof (wrap_range w ltac:(lia) b). destruct Hw as [-> | ->].
  - change (32 =? 64) with false. cbv iota. f_equal. rewrite wrap_mul_l.
    apply swrap_congr; [lia|]. rewrite <- Z.shiftr_div_pow2 by lia. zbits.
  - rewrite Z.eqb_refl. rewrite (wrap_small 64 b), mulhsu_high by lia. by rewrite wrap_swrap by lia.
Qed.

Lemma op_mulhu a b : 0 <= a < 2 ^ 64 -> 0 <= b < 2 ^ 64 ->
  u64 (if w =? 64 then Arith.mulhu a b else s32 (Z.shiftr (u64 (u32 a * u32 b)) 32)) =
  rep (wrap w a * wrap w b / 2 ^ w).
Proof using Hw.
  intros Ha Hb. pose proof (wrap_range w ltac:(lia) a). pose proof (wrap_range w ltac:(lia) b).
  destruct Hw as [-> | ->].
  - change (32 =? 64) with false. cbv iota. rewrite (wrap_small 64 (u32 a * u32 b)) by nia.
    by rewrite Z.shiftr_div_pow2 by lia.
  - rewrite Z.eqb_refl. rewrite !(wrap_small 64 a), !(wrap_small 64 b), mulhu_high by lia.
    by rewrite wrap_swrap by lia.
Qed.

Lemma op_divu a b :
  u64 (if wrap w b =? 0 then UINT64_MAX else swrap w (wrap w a / wrap w b)) =
  rep (if wrap w b =? 0 then 2 ^ w - 1 else wrap w a / wrap w b).
Proof using Hw. destruct (wrap w b =? 0); [by destruct Hw as [-> | ->]|done]. Qed.

Lemma op_remu a b :
  u64 (if wrap w b =? 0 then swrap w a else swrap w (wrap w a mod wrap w b)) =
  rep (if wrap w b =? 0 then wrap w a else wrap w a mod wrap w b).
Proof using Hw. destruct (wrap w b =? 0); [by rewrite swrap_wrap by lia|done]. Qed.
Lemma op_shadd n a b : 0 <= n ->
  swrap w (u64 (u64 (Z.shiftl a n) + b)) = swrap w (wrap w (wrap w a * 2 ^ n + wrap w b)).
Proof using Hw.
  intros Hn. rewrite swrap_wrap_le, swrap_wrap, Z.shiftl_mul_pow2 by lia.
  apply swrap_congr; [lia|]. rewrite wrap_add_r, <- wrap_add_l, <- (wrap_add_l w (wrap w a * _)).
  by rewrite wrap_wrap_le, wrap_mul_l by lia.
Qed.

Lemma pow2_in_range k : 0 <= k < w -> u64 (Z.shiftl 1 k) = 2 ^ k.
Proof using Hw.
  intros Hk. rewrite Z.shiftl_1_l. apply wrap_small.
  pose proof (Z.pow_lt_mono_r 2 k 64). pose proof (Z.pow_pos_nonneg 2 k). lia.
Qed.

Lemma op_bclr a k : 0 <= k < w ->
  swrap w (Z.land a (u64 (Z.lnot (u64 (Z.shiftl 1 k))))) = swrap w (Z.clearbit (wrap w a) k).
Proof using Hw.
  intros Hk. apply swrap_congr; [lia|]. rewrite pow2_in_range by done.
  apply Z.bits_inj'. intros i Hi. rewrite !wrap_testbit by lia. destruct (Z.ltb_spec i w); [|done].
  rewrite Z.land_spec, wrap_testbit, Z.lnot_spec, Z.pow2_bits_eqb, Z.clearbit_eqb, wrap_testbit by lia.
  replace (i <? 64) with true by lia. by replace (i <? w) with true by lia.
Qed.

Lemma op_bset a k : 0 <= k < w ->
  swrap w (Z.lor a (u64 (Z.shiftl 1 k))) = swrap w (Z.setbit (wrap w a) k).
Proof using Hw.
  intros Hk. apply swrap_congr; [lia|]. rewrite pow2_in_range by done.
  apply Z.bits_inj'. intros i Hi. rewrite !wrap_testbit by lia. destruct (Z.ltb_spec i w); [|done].
  rewrite Z.lor_spec, Z.pow2_bits_eqb, Z.setbit_eqb, wrap_testbit by lia.
  replace (i <? w) with true by lia. apply orb_comm.
Qed.

Lemma op_binv a k : 0 <= k < w ->
  swrap w (Z.lxor a (u64 (Z.shiftl 1 k))) = swrap w (Z.lxor (wrap w a) (2 ^ k)).
Proof using Hw.
  intros Hk. apply swrap_congr; [lia|]. rewrite pow2_in_range by done. zbits.
Qed.

Lemma op_bext a k : 0 <= k < w ->
  swrap w (Z.land 1 (Z.shiftr a k)) = swrap w (b2z (Z.testbit (wrap w a) k)).
Proof using Hw.
  intros Hk. f_equal. rewrite Z.land_comm. change 1 with (Z.ones 1). rewrite Z.land_ones by lia.
  rewrite wrap_testbit by lia. replace (k <? w) with true by lia. simpl.
  rewrite Z.shiftr_div_pow2, <- Z.testbit_spec' by lia. done.
Qed.

(** The complementary amount [-k & (w - 1)]. *)
Lemma rot_shamt k : 0 <= k < w -> Z.land (- k) (w - 1) = if k =? 0 then 0 else w - k.
Proof using Hw.
  intros Hk. assert (E : w - 1 = Z.ones (Z.log2 w) /\ 2 ^ Z.log2 w = w) by (by destruct Hw as [-> | ->]).
  destruct E as [E1 E2]. rewrite E1, Z.land_ones, E2 by (apply Z.log2_nonneg).
  destruct (Z.eqb_spec k 0) as [->|]; [by apply Z.mod_0_l; lia|].
  symmetry. apply (Z.mod_unique _ _ (-1)); lia.
Qed.

Lemma rot_join a k : 0 <= k < w ->
  wrap w (Z.lor (u64 (Z.shiftl a k)) (Z.shiftr (wrap w a) (if k =? 0 then 0 else w - k))) =
  (wrap w a * 2 ^ k) mod 2 ^ w + wrap w a / 2 ^ (w - k).
Proof using Hw.
  intros Hk. pose proof (wrap_range w ltac:(lia) a) as Hr. destruct (Z.eqb_spec k 0) as [->|Hk0].
  - rewrite Z.shiftl_0_r, Z.shiftr_0_r, Z.sub_0_r, Z.pow_0_r, Z.mul_1_r.
    rewrite (Z.div_small (wrap w a)), Z.mod_small, Z.add_0_r by done. zbits.
  - rewrite <- Z.shiftr_div_pow2 by lia. rewrite <- disjoint_lor_add.
    2: { apply Z.bits_inj'. intros i Hi. rewrite Z.land_spec, Z.bits_0. fold (wrap w (wrap w a * 2 ^ k)).
         rewrite wrap_testbit, Z.shiftr_spec, Z.mul_pow2_bits by lia.
         destruct (Z.ltb_spec i k); [by rewrite (Z.testbit_neg_r _ (i - k)), andb_false_r by lia|].
         rewrite (wrap_testbit w ltac:(lia) a (i + (w - k))) by lia.
         replace (i + (w - k) <? w) with false by lia. by rewrite andb_false_l, andb_false_r. }
    fold (wrap w (wrap w a * 2 ^ k)). apply Z.bits_inj'. intros i Hi.
    rewrite wrap_testbit, !Z.lor_spec, !wrap_testbit, Z.shiftl_spec, Z.shiftr_spec, Z.mul_pow2_bits,
      (wrap_testbit w ltac:(lia) a (i + (w - k))) by lia.
    destruct (Z.ltb_spec i w); simpl.
    + replace (i <? 64) with true by lia. simpl. f_equal.
      destruct (Z.ltb_spec i k); [by rewrite !(Z.testbit_neg_r _ (i - k)) by lia|].
      rewrite wrap_testbit by lia. by replace (i - k <? w) with true by lia.
    + by replace (i + (w - k) <? w) with false by lia.
Qed.

Lemma op_rol a k : 0 <= k < w ->
  swrap w (Z.lor (u64 (Z.shiftl a k)) (Z.shiftr (wrap w a) (wrap w (- k) mod w))) =
  swrap w ((wrap w a * 2 ^ k) mod 2 ^ w + wrap w a / 2 ^ (w - k)).
Proof using Hw.
  intros Hk. rewrite <- shift_amount, rot_shamt, <- rot_join, swrap_wrap by (done || lia). done.
Qed.

Lemma op_ror a k : 0 <= k < w ->
  swrap w (Z.lor (u64 (Z.shiftl a (wrap w (- k) mod w))) (Z.shiftr (wrap w a) k)) =
  swrap w (wrap w a / 2 ^ k + (wrap w a * 2 ^ (w - k)) mod 2 ^ w).
Proof using Hw.
  intros Hk. pose proof (wrap_range w ltac:(lia) a) as Hr.
  rewrite <- shift_amount, rot_shamt by done. destruct (Z.eqb_spec k 0) as [->|Hk0].
  - rewrite Z.shiftl_0_r, Z.shiftr_0_r, Z.sub_0_r, Z.pow_0_r, Z.div_1_r.
    rewrite Z.mod_mul, Z.add_0_r by (apply Z.pow_nonzero; lia). apply swrap_congr; [lia|]. zbits.
  - pose proof (rot_join a (w - k) ltac:(lia)) as H. replace (w - k =? 0) with false in H by lia.
    replace (w - (w - k)) with k in H by lia.
    rewrite Z.add_comm, <- H, swrap_wrap by lia. done.
Qed.

Lemma op_pack a b :
  swrap w (Z.lor (Z.shiftr (wrap w (u64 (Z.shiftl a (w / 2)))) (w / 2))
                 (wrap w (u64 (Z.shiftl b (w / 2))))) =
  swrap w (wrap w a mod 2 ^ (w / 2) + wrap w b mod 2 ^ (w / 2) * 2 ^ (w / 2)).
Proof using Hw.
  assert (Eh : w = 2 * (w / 2) /\ 0 < w / 2) by (by destruct Hw as [-> | ->]).
  set (h := w / 2) in *. clearbody h. destruct Eh as [Eh Hh].
  fold (wrap h (wrap w a)). fold (wrap h (wrap w b)).
  rewrite Z.add_comm, <- lor_shiftl_add by (lia || (apply wrap_range; lia)).
  f_equal. apply Z.bits_inj'. intros i Hi.
  rewrite !Z.lor_spec, Z.shiftr_spec, !wrap_testbit, !Z.shiftl_spec by lia.
  replace (i + h - h) with i by lia.
  destruct (Z.ltb_spec i h); simpl.
  - rewrite !(Z.testbit_neg_r _ (i - h)) by lia. rewrite !andb_false_r, orb_false_r. simpl.
    replace (i + h <? w) with true by lia. replace (i + h <? 64) with true by lia.
    by replace (i <? w) with true by lia.
  - replace (i + h <? w) with false by lia. simpl.
    destruct (Z.ltb_spec i w); simpl.
    + rewrite !wrap_testbit by lia. replace (i <? 64) with true by lia.
      replace (i - h <? h) with true by lia. replace (i - h <? w) with true by lia.
      by rewrite orb_false_r.
    + rewrite wrap_testbit by lia. by replace (i - h <? h) with false by lia.
Qed.

(** ** Carry-less multiplication *)

Lemma fold_lxor (g : Z -> Z) l acc :
  fold_left (fun x i => Z.lxor x (g i)) l acc =
  Z.lxor acc (foldr (fun i r => Z.lxor r (g i)) 0 l).
Proof using.
  revert acc. induction l as [|i l IH]; intros acc; simpl; [by rewrite Z.lxor_0_r|].
  rewrite IH, Z.lxor_assoc. f_equal. apply Z.lxor_comm.
Qed.

Lemma foldr_lxor_map (h g g' : Z -> Z) l :
  h 0 = 0 -> (forall x y, h (Z.lxor x y) = Z.lxor (h x) (h y)) ->
  Forall (fun i => h (g i) = h (g' i)) l ->
  h (foldr (fun i r => Z.lxor r (g i)) 0 l) = h (foldr (fun i r => Z.lxor r (g' i)) 0 l).
Proof using. intros H0 Hx. induction 1 as [|i l Hi _ IH]; simpl; [done|]. by rewrite !Hx, Hi, IH. Qed.

Lemma foldr_lxor_hom (h g : Z -> Z) l :
  h 0 = 0 -> (forall x y, h (Z.lxor x y) = Z.lxor (h x) (h y)) ->
  h (foldr (fun i r => Z.lxor r (g i)) 0 l) = foldr (fun i r => Z.lxor r (h (g i))) 0 l.
Proof using. intros H0 Hx. induction l as [|i l IH]; simpl; [done|]. by rewrite Hx, IH. Qed.

Lemma foldr_lxor_ext (g g' : Z -> Z) l : Forall (fun i => g i = g' i) l ->
  foldr (fun i r => Z.lxor r (g i)) 0 l = foldr (fun i r => Z.lxor r (g' i)) 0 l.
Proof using. induction 1 as [|i l Hi _ IH]; simpl; [done|]. by rewrite Hi, IH. Qed.

(** The conditional update of the loops. *)
Lemma fold_clmul (b : Z) (g : Z -> Z) l :
  fold_left (fun x i => if z2b (Z.land (Z.shiftr b i) 1) then Z.lxor x (g i) else x) l 0 =
  foldr (fun i r => Z.lxor r (if z2b (Z.land (Z.shiftr b i) 1) then g i else 0)) 0 l.
Proof using.
  rewrite <- (Z.lxor_0_l (foldr _ _ _)), <- fold_lxor. generalize 0 at 1 3. revert b g.
  induction l as [|i l IH]; intros b g z; [done|]. simpl. rewrite IH.
  destruct (z2b _); [done|]. by rewrite Z.lxor_0_r.
Qed.

Lemma bit_test b i : 0 <= i -> z2b (Z.land (Z.shiftr b i) 1) = Z.testbit b i.
Proof using.
  intros Hi. change 1 with (Z.ones 1). rewrite Z.land_ones, Z.shiftr_div_pow2 by lia.
  change (2 ^ 1) with 2. rewrite <- Z.testbit_spec' by lia. by destruct (Z.testbit b i).
Qed.

Lemma shiftr_lxor_hom n x y : Z.shiftr (Z.lxor x y) n = Z.lxor (Z.shiftr x n) (Z.shiftr y n).
Proof using. apply Z.shiftr_lxor. Qed.

Lemma op_clmul a b :
  wrap w (fold_left (fun x i => if z2b (Z.land (Z.shiftr b i) 1) then Z.lxor x (u64 (Z.shiftl a i)) else x)
    (seqZ 0 w) 0) = wrap w (clprod w a b).
Proof using Hw.
  rewrite fold_clmul. unfold clprod. apply (foldr_lxor_map (wrap w)).
  - apply Z.mod_0_l. apply Z.pow_nonzero; lia.
  - intros x y. zbits.
  - apply list.Forall_forall. intros i Hi%elem_of_seqZ. rewrite bit_test by lia.
    destruct (Z.testbit b i); [|done]. apply wrap_wrap_le. lia.
Qed.

Lemma op_clmulr a b : 0 <= a < 2 ^ w ->
  fold_left (fun x i => if z2b (Z.land (Z.shiftr b i) 1) then Z.lxor x (Z.shiftr a (w - i - 1)) else x)
    (seqZ 0 w) 0 = clprod w a b / 2 ^ (w - 1).
Proof using Hw.
  intros Ha. rewrite fold_clmul, <- Z.shiftr_div_pow2 by lia. unfold clprod.
  rewrite (foldr_lxor_hom (fun x => Z.shiftr x (w - 1))); [|apply Z.shiftr_0_l|intros; apply Z.shiftr_lxor].
  apply foldr_lxor_ext, list.Forall_forall. intros i Hi%elem_of_seqZ. rewrite bit_test by lia.
  destruct (Z.testbit b i); [|by rewrite Z.shiftr_0_l].
  rewrite Z.shiftr_shiftl_r by lia. f_equal. lia.
Qed.

Lemma op_clmulh a b : 0 <= a < 2 ^ w ->
  fold_left (fun x i => if z2b (Z.land (Z.shiftr b i) 1) then Z.lxor x (Z.shiftr a (w - i)) else x)
    (seqZ 1 (w - 1)) 0 = clprod w a b / 2 ^ w.
Proof using Hw.
  intros Ha. rewrite fold_clmul, <- Z.shiftr_div_pow2 by lia. unfold clprod.
  rewrite (seqZ_cons 0 w) by lia. cbn [foldr].
  change (Z.succ 0) with 1. replace (Z.pred w) with (w - 1) by lia.
  assert (E0 : Z.shiftr (if Z.testbit b 0 then Z.shiftl a 0 else 0) w = 0).
  { destruct (Z.testbit b 0); [|apply Z.shiftr_0_l]. rewrite Z.shiftl_0_r, Z.shiftr_div_pow2 by lia.
    by apply Z.div_small. }
  rewrite Z.shiftr_lxor, E0, Z.lxor_0_r.
  rewrite (foldr_lxor_hom (fun x => Z.shiftr x w)); [|apply Z.shiftr_0_l|intros; apply Z.shiftr_lxor].
  apply foldr_lxor_ext, list.Forall_forall. intros i Hi%elem_of_seqZ. rewrite bit_test by lia.
  destruct (Z.testbit b i); [|by rewrite Z.shiftr_0_l].
  rewrite Z.shiftr_shiftl_r by lia. done.
Qed.
End value.

(** ** The instruction table *)

Inductive operand := Reg | Imm.

Record alu_entry (W : Type) := AluEntry {
  ae_op : alu_op;
  ae_width : Z;
  ae_src2 : operand;
  (** what the opcode mask of [encoding.h] already guarantees *)
  ae_enc : bool;
  (** the extensions and widths the body requires *)
  ae_req : state W -> bool;
  ae_body : M W unit
}.
Arguments AluEntry {W}. Arguments ae_op {W}. Arguments ae_width {W}. Arguments ae_src2 {W}.
Arguments ae_enc {W}. Arguments ae_req {W}. Arguments ae_body {W}.

Section table.
Context {W : Type} {E : env}.
Local Abbreviation on e := (fun s : state W => extension_enabled s e).
Local Abbreviation either e f := (fun s : state W => extension_enabled s e || extension_enabled s f).
Local Abbreviation always := (fun _ : state W => true).
Local Abbreviation rv64 := (fun _ : state W => xlen =? 64).
Local Abbreviation rv64_on e := (fun s : state W => (xlen =? 64) && extension_enabled s e).
Local Abbreviation rv64_either e f :=
  (fun s : state W => (xlen =? 64) && (extension_enabled s e || extension_enabled s f)).

Definition shift_ok (n : Z) : bool := SHAMT <? n.

Definition alu_table : list (alu_entry W) := [
  AluEntry AADD xlen Reg true always add;
  AluEntry AADD xlen Imm true always addi;
  AluEntry AADD 32 Imm true rv64 addiw;
  AluEntry AADD 32 Reg true rv64 addw;
  AluEntry AAND xlen Reg true always InsnsIM.and;
  AluEntry AAND xlen Imm true always andi;
  AluEntry AOR xlen Reg true always InsnsIM.or;
  AluEntry AOR xlen Imm true always ori;
  AluEntry AXOR xlen Reg true always xor;
  AluEntry AXOR xlen Imm true always xori;
  AluEntry ASUB xlen Reg true always sub;
  AluEntry ASUB 32 Reg true rv64 subw;
  AluEntry ASLL xlen Reg true always sll;
  AluEntry ASLL xlen Imm true (fun _ => shift_ok xlen) slli;
  AluEntry ASLL 32 Imm (shift_ok 32) rv64 slliw;
  AluEntry ASLL 32 Reg true rv64 sllw;
  AluEntry ASRL xlen Reg true always srl;
  AluEntry ASRL xlen Imm true (fun _ => shift_ok xlen) srli;
  AluEntry ASRL 32 Imm (shift_ok 32) rv64 srliw;
  AluEntry ASRL 32 Reg true rv64 srlw;
  AluEntry ASRA xlen Reg true always sra;
  AluEntry ASRA xlen Imm true (fun _ => shift_ok xlen) srai;
  AluEntry ASRA 32 Imm (shift_ok 32) rv64 sraiw;
  AluEntry ASRA 32 Reg true rv64 sraw;
  AluEntry ASLT xlen Reg true always slt;
  AluEntry ASLT xlen Imm true always slti;
  AluEntry ASLTU xlen Reg true always sltu;
  AluEntry ASLTU xlen Imm true always sltiu;
  AluEntry ACZEQZ xlen Reg true (on EXT_ZICOND) czero_eqz;
  AluEntry ACZNEZ xlen Reg true (on EXT_ZICOND) czero_nez
].

Definition mul_table : list (alu_entry W) := [
  AluEntry AMUL xlen Reg true (either EXT_M EXT_ZMMUL) mul;
  AluEntry AMULH xlen Reg true (either EXT_M EXT_ZMMUL) InsnsIM.mulh;
  AluEntry AMULHSU xlen Reg true (either EXT_M EXT_ZMMUL) InsnsIM.mulhsu;
  AluEntry AMULHU xlen Reg true (either EXT_M EXT_ZMMUL) InsnsIM.mulhu;
  AluEntry AMUL 32 Reg true (rv64_either EXT_M EXT_ZMMUL) mulw;
  AluEntry ADIV xlen Reg true (on EXT_M) div;
  AluEntry ADIVU xlen Reg true (on EXT_M) divu;
  AluEntry AREM xlen Reg true (on EXT_M) rem;
  AluEntry AREMU xlen Reg true (on EXT_M) remu;
  AluEntry ADIV 32 Reg true (rv64_on EXT_M) divw;
  AluEntry ADIVU 32 Reg true (rv64_on EXT_M) divuw;
  AluEntry AREM 32 Reg true (rv64_on EXT_M) remw;
  AluEntry AREMU 32 Reg true (rv64_on EXT_M) remuw
].

Definition bitmanip_table : list (alu_entry W) := [
  AluEntry (ASHADD 1) xlen Reg true (on EXT_ZBA) sh1add;
  AluEntry (ASHADD 2) xlen Reg true (on EXT_ZBA) sh2add;
  AluEntry (ASHADD 3) xlen Reg true (on EXT_ZBA) sh3add;
  AluEntry ABCLR xlen Reg true (on EXT_ZBS) bclr;
  AluEntry ABCLR xlen Imm true (on EXT_ZBS) bclri;
  AluEntry ABEXT xlen Reg true (on EXT_ZBS) bext;
  AluEntry ABEXT xlen Imm true (on EXT_ZBS) bexti;
  AluEntry ABINV xlen Reg true (on EXT_ZBS) binv;
  AluEntry ABINV xlen Imm true (on EXT_ZBS) binvi;
  AluEntry ABSET xlen Reg true (on EXT_ZBS) bset;
  AluEntry ABSET xlen Imm true (on EXT_ZBS) bseti;
  AluEntry AANDN xlen Reg true (either EXT_ZBB EXT_ZBKB) andn;
  AluEntry AORN xlen Reg true (either EXT_ZBB EXT_ZBKB) orn;
  AluEntry AXNOR xlen Reg true (either EXT_ZBB EXT_ZBKB) xnor;
  AluEntry AMAX xlen Reg true (on EXT_ZBB) max;
  AluEntry AMAXU xlen Reg true (on EXT_ZBB) maxu;
  AluEntry AMIN xlen Reg true (on EXT_ZBB) min;
  AluEntry AMINU xlen Reg true (on EXT_ZBB) minu;
  AluEntry AROL xlen Reg true (either EXT_ZBB EXT_ZBKB) rol;
  AluEntry AROL 32 Reg true (rv64_either EXT_ZBB EXT_ZBKB) rolw;
  AluEntry AROR xlen Reg true (either EXT_ZBB EXT_ZBKB) ror;
  AluEntry AROR xlen Imm true
    (fun s => (extension_enabled s EXT_ZBB || extension_enabled s EXT_ZBKB) && shift_ok xlen) rori;
  AluEntry AROR 32 Imm true
    (fun s => (xlen =? 64) && (extension_enabled s EXT_ZBB || extension_enabled s EXT_ZBKB)
              && shift_ok 32) roriw;
  AluEntry AROR 32 Reg true (rv64_either EXT_ZBB EXT_ZBKB) rorw;
  AluEntry ACLMUL xlen Reg true (either EXT_ZBC EXT_ZBKC) clmul;
  AluEntry ACLMULH xlen Reg true (either EXT_ZBC EXT_ZBKC) clmulh;
  AluEntry ACLMULR xlen Reg true (on EXT_ZBC) clmulr;
  AluEntry APACK xlen Reg true (fun s => ((xlen =? 32) && (insn_rs2 insn =? 0) &&
    extension_enabled s EXT_ZBB) || extension_enabled s EXT_ZBKB) pack;
  AluEntry APACK 32 Reg true (fun s => (xlen =? 64) && (((insn_rs2 insn =? 0) &&
    extension_enabled s EXT_ZBB) || extension_enabled s EXT_ZBKB)) packw
].

(** ** What an entry promises

    In a well-formed state the body either raises the illegal-instruction trap
    and changes nothing, or writes to [rd] the sign extension of the abstract
    result on the low bits of the operands and changes nothing else. *)
Definition reg_ok (r : Z) : bool := negb rve || (r <? 16).

Definition alu_operand2 (e : alu_entry W) (s : state W) : Z :=
  match ae_src2 e with Reg => regfile_get (XPR s) (insn_rs2 insn) | Imm => insn_i_imm insn end.

Definition alu_regs_ok (e : alu_entry W) : bool :=
  reg_ok (insn_rd insn) && reg_ok (insn_rs1 insn) &&
  match ae_src2 e with Reg => reg_ok (insn_rs2 insn) | Imm => true end.

Definition alu_result (e : alu_entry W) (s : state W) : Z :=
  let w := ae_width e in
  u64 (swrap w (alu_spec w (ae_op e)
    (wrap w (regfile_get (XPR s) (insn_rs1 insn))) (wrap w (alu_operand2 e s)))).

Definition implements (e : alu_entry W) : Prop :=
  forall s, wf_state xlen s -> ae_enc e = true ->
    ae_body e s =
      if ae_req e s && alu_regs_ok e
      then (inr tt, with_XPR (regfile_write true (insn_rd insn) (alu_result e s) (XPR s)) s)
      else (inl (trap_illegal_instruction insn), s).
End table.

(** ** Evaluating a body *)

Section evaluation.
Context {W : Type} {E : env}.
Local Abbreviation illegal := (trap_illegal_instruction insn).

Lemma bind_eval {A B} (m : M W A) (k : A -> M W B) s :
  (m ≫= k) s = match m s with (inl t, s') => (inl t, s') | (inr a, s') => k a s' end.
Proof using. done. Qed.

Lemma require_eval c (s : state W) :
  require c s = if c then (inr tt, s) else (inl illegal, s).
Proof using. by destruct c. Qed.

Lemma CHECK_REG_eval r (s : state W) :
  CHECK_REG r s = if reg_ok r then (inr tt, s) else (inl illegal, s).
Proof using. unfold CHECK_REG, reg_ok. by destruct rve, (r <? 16). Qed.

Lemma READ_REG_eval r (s : state W) :
  READ_REG r s = if reg_ok r then (inr (regfile_get (XPR s) r), s) else (inl illegal, s).
Proof using. unfold READ_REG. rewrite bind_eval, CHECK_REG_eval. by destruct (reg_ok r). Qed.

Lemma WRITE_REG_eval r (m : M W Z) s :
  WRITE_REG r m s =
    if reg_ok r then
      match m s with
      | (inl t, s') => (inl t, s')
      | (inr v, s') => (inr tt, with_XPR (regfile_write true r (u64 v) (XPR s')) s')
      end
    else (inl illegal, s).
Proof using.
  unfold WRITE_REG. rewrite bind_eval, CHECK_REG_eval. destruct (reg_ok r); [|done].
  rewrite bind_eval. by destruct (m s) as [[]].
Qed.

Lemma ret_eval {A} (a : A) (s : state W) : (mret a : M W A) s = (inr a, s).
Proof using. done. Qed.
Lemma ext_eval e (s : state W) : ext_enabled e s = (inr (extension_enabled s e), s).
Proof using. done. Qed.
End evaluation.

Ltac eval_body :=
  rewrite ?bind_eval, ?require_eval, ?ext_eval, ?CHECK_REG_eval, ?READ_REG_eval, ?WRITE_REG_eval,
    ?ret_eval.

(** Splits on every condition of the specification side, then evaluates the
    body; leaves the value equation of the successful run. *)
Ltac split_conditions :=
  repeat match goal with
  | |- context [reg_ok ?r] => let H := fresh "Hr" in destruct (reg_ok r) eqn:H
  | |- context [extension_enabled ?s ?e] =>
      let H := fresh "Hext" in destruct (extension_enabled s e) eqn:H
  | |- context [insn_rs2 insn =? 0] => let H := fresh "Hc" in destruct (insn_rs2 insn =? 0) eqn:H
  | |- context [SHAMT <? ?n] => let H := fresh "Hc" in destruct (SHAMT <? n) eqn:H
  | |- context [if xlen =? ?n then _ else _] => fail 1
  | |- context [(xlen =? ?n) && _] => let H := fresh "Hc" in destruct (xlen =? n) eqn:H
  end.
Ltac use_conditions :=
  repeat match goal with
  | H : reg_ok _ = _ |- _ => rewrite !H
  | H : extension_enabled _ _ = _ |- _ => rewrite !H
  | H : (SHAMT <? _) = _ |- _ => rewrite !H
  | H : (insn_rs2 insn =? 0) = _ |- _ => rewrite !H
  | H : (xlen =? _) = _ |- _ => rewrite !H
  end.
Ltac alu_run :=
  intros s Hs He; unfold alu_regs_ok, alu_result, alu_operand2 in *;
  cbn [ae_body ae_req ae_op ae_width ae_src2 ae_enc] in *;
  match goal with |- ?f _ _ _ = _ => unfold f end;
  unfold WRITE_RD, RS1, RS2, require_rv64, require_rv32, require_extension,
    require_either_extension, shift_ok in *;
  cbv zeta; split_conditions; cbn [andb orb negb];
  repeat (progress (eval_body; use_conditions; cbn [andb orb negb]));
  try reflexivity.

Section refinement.
Context {W : Type} {E : env} (Hx : xlen = 32 \/ xlen = 64).

Lemma sext_xlen_swrap z : sext_xlen z = swrap xlen z.
Proof using Hx. unfold sext_xlen. apply sext_swrap. lia. Qed.
Lemma zext_xlen_wrap z : zext_xlen z = wrap xlen z.
Proof using Hx. unfold zext_xlen. apply zext_wrap. lia. Qed.

Lemma value_eq (v v' r : Z) (s : state W) : u64 v = u64 v' ->
  (@inr trap unit tt, with_XPR (regfile_write true r (u64 v) (XPR s)) s) =
  (inr tt, with_XPR (regfile_write true r (u64 v') (XPR s)) s).
Proof using. by intros ->. Qed.

Lemma imm_range : - 2 ^ 11 <= insn_i_imm insn < 2 ^ 11.
Proof using. apply (fmt_decode_range FmtI insn). Qed.

Lemma canon_imm : canon xlen (u64 (insn_i_imm insn)).
Proof using Hx. apply canon_signed32; [done|]. pose proof imm_range. lia. Qed.

Lemma land_u64_imm a : 0 <= a < 2 ^ 64 ->
  Z.land (insn_i_imm insn) a = Z.land a (u64 (insn_i_imm insn)).
Proof using.
  intros Ha. apply Z.bits_inj'. intros i Hi. rewrite !Z.land_spec, wrap_testbit by lia.
  destruct (Z.ltb_spec i 64); simpl; [apply andb_comm|].
  by rewrite (testbit_high 64 a), andb_false_r.
Qed.

Lemma u64_lor_imm a : u64 (Z.lor (insn_i_imm insn) a) = u64 (Z.lor a (u64 (insn_i_imm insn))).
Proof using. zbits. Qed.
Lemma u64_lxor_imm a : u64 (Z.lxor (insn_i_imm insn) a) = u64 (Z.lxor a (u64 (insn_i_imm insn))).
Proof using. zbits. Qed.

Lemma shamt_mod : SHAMT = insn_i_imm insn mod 64.
Proof using. unfold SHAMT. change 0x3F with (Z.ones 6). by rewrite Z.land_ones. Qed.

(** The shift amount of an immediate shift that is in range for width [w]. *)
Lemma shamt_width w : w = 32 \/ w = 64 -> (SHAMT <? w) = true ->
  SHAMT = wrap w (insn_i_imm insn) mod w.
Proof using.
  intros Hw Hlt. apply Z.ltb_lt in Hlt. rewrite shamt_mod in *.
  rewrite <- shift_amount by done. destruct Hw as [-> | ->].
  - change (32 - 1) with (Z.ones 5). rewrite Z.land_ones by lia. change (2 ^ 5) with 32.
    rewrite <- (Z.mod_small (insn_i_imm insn mod 64) 32) by (split; [apply Z.mod_pos_bound|]; lia).
    apply Z.mod_mod_divide. by exists 2.
  - change (64 - 1) with (Z.ones 6). by rewrite Z.land_ones.
Qed.

Lemma shamt_land w : w = 32 \/ w = 64 -> Z.land SHAMT (w - 1) = wrap w (insn_i_imm insn) mod w.
Proof using.
  intros Hw. rewrite <- (shift_amount w Hw (insn_i_imm insn)). unfold SHAMT.
  rewrite <- Z.land_assoc. f_equal. by destruct Hw as [-> | ->].
Qed.

(** Bitwise operations with a sign-extended immediate. *)
Lemma op_imm a : 0 <= a < 2 ^ 64 -> canon xlen a ->
  u64 (Z.land (insn_i_imm insn) a) =
    u64 (swrap xlen (Z.land (wrap xlen a) (wrap xlen (insn_i_imm insn)))) /\
  u64 (Z.lor (insn_i_imm insn) a) =
    u64 (swrap xlen (Z.lor (wrap xlen a) (wrap xlen (insn_i_imm insn)))) /\
  u64 (Z.lxor (insn_i_imm insn) a) =
    u64 (swrap xlen (Z.lxor (wrap xlen a) (wrap xlen (insn_i_imm insn)))).
Proof using Hx.
  intros Hr Ha. pose proof canon_imm as Hi.
  rewrite land_u64_imm, u64_lor_imm, u64_lxor_imm by done.
  rewrite (op_land xlen), (op_lor xlen), (op_lxor xlen) by done.
  by rewrite !(wrap_wrap_le xlen 64) by lia.
Qed.

(** ** The entries *)

Ltac alu_norm Hs :=
  try (apply value_eq); cbn [alu_spec];
  pose proof (fun r => wf_get Hx _ r Hs) as Hcan;
  pose proof (fun r => canon_range _ _ (Hcan r)) as Hrange;
  rewrite ?sext_xlen_swrap, ?zext_xlen_wrap, ?sext32_swrap, ?zext32_wrap;
  change 31 with (32 - 1);
  rewrite ?(shamt_land xlen), ?(shamt_land 32) by auto;
  rewrite ?(shamt_width xlen), ?(shamt_width 32) by auto;
  repeat match goal with
  | |- context [Z.land ?b (?w - 1)] => rewrite (shift_amount w) by auto
  | |- context [wrap ?w ?b mod ?w] =>
      lazymatch goal with
      | _ : 0 <= wrap w b mod w < w |- _ => fail
      | _ => pose proof (shift_range w ltac:(auto) b)
      end
  end.
Ltac alu_solve :=
  first [ done
    | f_equal; first
      [ apply op_add; by auto | rewrite Z.add_comm; apply op_add; by auto
      | apply op_sub; by auto | apply op_mul; by auto
      | apply op_shl; lia || by auto | rewrite Z.shiftr_div_pow2 by lia; reflexivity
      | apply op_sar; lia || by auto
      | apply op_shadd; by auto | apply op_bclr; by auto | apply op_bset; by auto
      | apply op_binv; by auto | apply op_bext; by auto | apply op_max; by auto
      | apply op_min; by auto | apply op_maxu; by auto | apply op_minu; by auto
      | apply op_rol; by auto | apply op_ror; by auto | apply op_pack; by auto
      | rewrite ?swrap_wrap by lia; apply swrap_congr; [lia|]; first
          [ rewrite op_clmul by auto; done | rewrite op_clmulr by (auto; apply wrap_range; lia); done
          | rewrite op_clmulh by (auto; apply wrap_range; lia); done ] ]
    | apply op_mulh; by auto | apply op_mulhsu; by auto | apply op_mulhu; by auto
    | apply op_div; by auto | apply op_divw; by auto | apply op_divu; by auto
    | apply op_rem; by auto | apply op_remw; by auto | apply op_remu; by auto
    | rewrite (swrap_wrap 32) by lia; apply op_remu; by auto
    | apply op_andn; by auto | apply op_orn; by auto | apply op_xnor; by auto
    | apply op_land; by auto | apply op_lor; by auto | apply op_lxor; by auto
    | apply op_imm; by auto | apply op_slt; by auto | apply op_sltu; by auto
    | apply op_slti; by auto using imm_range | apply op_sltiu; by auto using canon_imm
    | rewrite (canon_eq0 xlen) by auto; first [apply op_czero; by auto | apply op_cnez; by auto ] ].
Ltac alu_entry :=
  alu_run;
  match goal with Hs : wf_state _ _ |- _ => alu_norm Hs; try (by alu_solve) end.

Lemma alu_table_ok : Forall (implements (W:=W)) alu_table.
Proof using Hx.
  unfold alu_table. repeat (apply Forall_cons_2; [alu_entry|]). by apply Forall_nil_2.
Qed.

Lemma mul_table_ok : Forall (implements (W:=W)) mul_table.
Proof using Hx.
  unfold mul_table. repeat (apply Forall_cons_2; [alu_entry|]). by apply Forall_nil_2.
Qed.

Lemma bitmanip_table_ok : Forall (implements (W:=W)) bitmanip_table.
Proof using Hx.
  unfold bitmanip_table. repeat (apply Forall_cons_2; [alu_entry|]). by apply Forall_nil_2.
Qed.
End refinement.

(** ** Properties *)

(** C23: The base integer and multiply/divide instructions of RV32 and RV64
    refine the abstract ALU: from every well-formed state each body either
    raises the illegal-instruction trap and changes nothing (a missing
    extension or width, a register outside the E register file, a shift amount
    out of range) or writes to [rd] the sign extension of the manual's result
    on the low bits of its operands, and changes nothing else.  Division by
    zero and the overflowing division are part of the specification. *)
Theorem base_alu_refines {W : Type} {E : env} : xlen = 32 \/ xlen = 64 ->
  Forall (implements (W:=W)) (alu_table ++ mul_table).
Proof. intros Hx. apply Forall_app. split; [by apply alu_table_ok|by apply mul_table_ok]. Qed.

(** A state whose registers [a0] and [a1] hold given values. *)
Definition demo_state (a0 a1 : Z) : state unit :=
  State (<[10%nat := a0]> (<[11%nat := a1]> (regfile_reset NXPR))) 0 0 PRV_M false false false
    (DcsrBits false false false false false) 0 0 0 0 (fun _ => true) tt.

Lemma demo_state_wf a0 a1 : canon 64 a0 -> canon 64 a1 -> wf_state 64 (demo_state a0 a1).
Proof.
  intros H0 H1. constructor; [reflexivity|reflexivity| |reflexivity].
  apply Forall_insert; [apply Forall_insert; [|done]|done]. by apply Forall_replicate.
Defined.

(** [div a0, a0, a1] on the most negative value and -1. *)
Lemma base_alu_refines_witness :
  @div unit (Env 64 false 0x02b54533 0) (demo_state (2 ^ 63) (2 ^ 64 - 1)) =
  (inr tt, demo_state (2 ^ 63) (2 ^ 64 - 1)).
Proof.
  pose proof (@base_alu_refines unit (Env 64 false 0x02b54533 0) (or_intror eq_refl)) as H.
  pose proof (Forall_lookup_1 _ _ 35 _ H eq_refl) as Hi. cbv beta in Hi.
  exact (Hi (demo_state (2 ^ 63) (2 ^ 64 - 1)) (demo_state_wf _ _ eq_refl eq_refl) eq_refl).
Defined.


