(* ===== verification/Bitperm.v ===== *)
(** * Counting and bit permutations of Zbb and Zbkb

    The one-operand instructions of [InsnsB] against a specification that names
    each result bit: counts of leading and trailing zeros and of set bits, sign
    extension, byte reversal, bit reversal in bytes, or-combine, zip, unzip. *)

From S2P Require Import Prelude Arith Decode Hart InsnsIM InsnsB Alu.
Local Open Scope cint_scope.

Inductive unary_op :=
  | UCLZ | UCTZ | UCPOP | USEXTB | USEXTH | UREV8 | UBREV8 | UORCB | UZIP | UUNZIP.

(** The [w]-bit number whose bit [i] is [p i]. *)
Definition of_bits (w : Z) (p : Z -> bool) : Z := zsum (Z.to_nat w) (fun i => b2z (p i) * 2 ^ i).

(** The source position of bit [i] of each permutation. *)
Definition rev8_from (w i : Z) : Z := (w / 8 - 1 - i / 8) * 8 + i mod 8.
Definition brev8_from (i : Z) : Z := i / 8 * 8 + 7 - i mod 8.
Definition zip_from (w i : Z) : Z := i / 2 + w / 2 * (i mod 2).
Definition unzip_from (w i : Z) : Z := if i <? w / 2 then 2 * i else 2 * (i - w / 2) + 1.

Definition unary_spec (w : Z) (op : unary_op) (a : Z) : Z :=
  match op with
  | UCLZ => if a =? 0 then w else w - 1 - Z.log2 a
  | UCTZ => if a =? 0 then w else Z.log2 (Z.land a (- a))
  | UCPOP => zsum (Z.to_nat w) (fun i => b2z (Z.testbit a i))
  | USEXTB => wrap w (swrap 8 a)
  | USEXTH => wrap w (swrap 16 a)
  | UREV8 => of_bits w (fun i => Z.testbit a (rev8_from w i))
  | UBREV8 => of_bits w (fun i => Z.testbit a (brev8_from i))
  | UORCB => of_bits w (fun i => negb ((a / 2 ^ (i / 8 * 8)) mod 2 ^ 8 =? 0))
  | UZIP => of_bits w (fun i => Z.testbit a (zip_from w i))
  | UUNZIP => of_bits w (fun i => Z.testbit a (unzip_from w i))
  end.

(** ** Numbers given by their bits *)

Lemma of_bits_S n p : 0 <= n -> of_bits (n + 1) p = of_bits n p + b2z (p n) * 2 ^ n.
Proof.
  intros Hn. unfold of_bits. replace (Z.to_nat (n + 1)) with (S (Z.to_nat n)) by lia.
  cbn [zsum]. by rewrite Z2Nat.id.
Qed.

Lemma of_bits_range w p : 0 <= w -> 0 <= of_bits w p < 2 ^ w.
Proof.
  intros Hw. pattern w. apply natlike_ind; [unfold of_bits; simpl; lia| |done].
  intros n Hn IH. change (Z.succ n) with (n + 1). rewrite of_bits_S, Z.pow_add_r by lia.
  destruct (p n); simpl Z.b2z; lia.
Qed.

Lemma of_bits_testbit w p i : 0 <= w -> 0 <= i -> Z.testbit (of_bits w p) i = (i <? w) && p i.
Proof.
  intros Hw Hi. revert Hw. apply (natlike_ind (fun w => Z.testbit (of_bits w p) i = (i <? w) && p i)).
  - unfold of_bits. simpl. rewrite Z.bits_0. by replace (i <? 0) with false by lia.
  - intros n Hn IH. change (Z.succ n) with (n + 1). rewrite of_bits_S by lia.
    pose proof (of_bits_range n p Hn) as Hr.
    rewrite Z.add_comm, <- lor_shiftl_add, Z.lor_spec, IH, Z.shiftl_spec by lia.
    destruct (Z.ltb_spec i n).
    + rewrite Z.testbit_neg_r by lia. by replace (i <? n + 1) with true by lia.
    + simpl. rewrite orb_false_r. destruct (Z.eq_dec i n) as [->|].
      * rewrite Z.sub_diag, Z.b2z_bit0. by replace (n <? n + 1) with true by lia.
      * replace (i <? n + 1) with false by lia. simpl. destruct (p n); simpl Z.b2z.
        -- apply (testbit_high 1); lia.
        -- apply Z.bits_0.
Qed.

Lemma of_bits_eq w p x : 0 <= w -> (forall i, 0 <= i < w -> Z.testbit x i = p i) ->
  wrap w x = of_bits w p.
Proof.
  intros Hw H. apply Z.bits_inj'. intros i Hi. rewrite wrap_testbit, of_bits_testbit by lia.
  destruct (Z.ltb_spec i w); [|done]. apply H. lia.
Qed.

(** ** Counting loops *)

Lemma first_index_spec n i p d :
  let r := first_index n i p d in
  (r = d /\ forall j, i <= j < i + Z.of_nat n -> p j = false) \/
  (i <= r < i + Z.of_nat n /\ p r = true /\ forall j, i <= j < r -> p j = false).
Proof.
  revert i. induction n as [|n IH]; intros i; cbn [first_index]; [left; split; [done|lia]|].
  destruct (p i) eqn:Hp.
  - right. split_and!; [lia|lia|done|lia].
  - destruct (IH (i + 1)) as [[Hd Hf]|[Hr [Ht Hf]]]; cbv zeta in *.
    + left. split; [done|]. intros j Hj. destruct (Z.eq_dec j i) as [->|]; [done|]. apply Hf. lia.
    + right. split_and!; [lia|lia|done|]. intros j Hj.
      destruct (Z.eq_dec j i) as [->|]; [done|]. apply Hf. lia.
Qed.

Lemma loop_bit a i : 0 <= i -> z2b (Z.land 1 (Z.shiftr a i)) = Z.testbit a i.
Proof. intros Hi. rewrite Z.land_comm. by apply bit_test. Qed.

(** [a & -a] keeps only the lowest set bit. *)
Lemma lowest_bit x k : 0 <= k -> Z.testbit x k = true ->
  (forall j, 0 <= j < k -> Z.testbit x j = false) -> Z.land x (- x) = 2 ^ k.
Proof.
  intros Hk Ht Hf.
  assert (Ez : x mod 2 ^ k = 0).
  { apply Z.bits_inj'. intros i Hi. rewrite Z.bits_0. fold (wrap k x). rewrite wrap_testbit by lia.
    destruct (Z.ltb_spec i k); [by apply Hf|done]. }
  assert (Ex : x = (x / 2 ^ k) * 2 ^ k).
  { pose proof (Z.div_mod x (2 ^ k)). pose proof (Z.pow_pos_nonneg 2 k). lia. }
  set (q := x / 2 ^ k) in *. assert (Hq : Z.odd q = true).
  { rewrite Ex, Z.mul_pow2_bits, Z.sub_diag, Z.bit0_odd in Ht by lia. done. }
  rewrite Ex. apply Z.bits_inj'. intros i Hi.
  rewrite Z.land_spec, <- Z.mul_opp_l, !Z.mul_pow2_bits, Z.pow2_bits_eqb by lia.
  destruct (Z.eqb_spec k i) as [<-|].
  - rewrite Z.sub_diag, !Z.bit0_odd, Z.odd_opp. by rewrite Hq.
  - destruct (Z.lt_ge_cases i k); [by rewrite Z.testbit_neg_r by lia|].
    replace (- q) with (Z.lnot (q - 1)) by (unfold Z.lnot; lia).
    rewrite Z.lnot_spec by lia.
    replace (Z.testbit q (i - k)) with (Z.testbit (q - 1) (i - k)); [by destruct (Z.testbit (q - 1) (i - k))|].
    replace (i - k) with (Z.succ (i - k - 1)) by lia. rewrite Z.odd_spec in Hq.
    destruct Hq as [m Hm]. replace (q - 1) with (2 * m) by lia. rewrite Hm.
    by rewrite Z.testbit_even_succ, Z.testbit_odd_succ by lia.
Qed.

Lemma cpop_loop a n : 0 <= n <= 64 ->
  fold_left (fun x i => if z2b (Z.land 1 (Z.shiftr a i)) then u64 (x + 1) else x) (seqZ 0 n) 0 =
  zsum (Z.to_nat n) (fun i => b2z (Z.testbit a i)) /\
  0 <= zsum (Z.to_nat n) (fun i => b2z (Z.testbit a i)) <= n.
Proof.
  intros Hn. destruct Hn as [Hn0 Hn]. revert Hn. pattern n. apply natlike_ind; [done| |done].
  intros m Hm IH Hle. destruct (IH ltac:(lia)) as [E Hr]. change (Z.succ m) with (m + 1).
  rewrite seqZ_app, fold_left_app, E by lia. replace (Z.to_nat (m + 1)) with (S (Z.to_nat m)) by lia.
  cbn [zsum]. rewrite Z2Nat.id by lia. replace (seqZ (0 + m) 1) with [m] by (cbn; f_equal; lia).
  cbn [fold_left]. rewrite loop_bit by lia.
  destruct (Z.testbit a m); simpl Z.b2z; [|lia]. rewrite wrap_small by lia. lia.
Qed.

Section count.
Context (w : Z) (Hw : w = 32 \/ w = 64) (a : Z).
Let A := wrap w a.

Lemma low_bit i : 0 <= i < w -> Z.testbit a i = Z.testbit A i.
Proof using Hw.
  intros Hi. unfold A. rewrite wrap_testbit by lia. by replace (i <? w) with true by lia.
Qed.

Lemma zero_of_bits : (forall i, 0 <= i < w -> Z.testbit a i = false) -> A = 0.
Proof using Hw.
  intros H. apply Z.bits_inj'. intros i Hi. rewrite Z.bits_0. unfold A.
  rewrite wrap_testbit by lia. destruct (Z.ltb_spec i w); [apply H; lia|done].
Qed.

Lemma op_clz c : c = w ->
  first_index (Z.to_nat w) 0 (fun i => z2b (Z.land 1 (Z.shiftr a (c - i - 1)))) w =
  unary_spec w UCLZ A.
Proof using Hw.
  intros ->. cbn [unary_spec].
  destruct (first_index_spec (Z.to_nat w) 0 (fun i => z2b (Z.land 1 (Z.shiftr a (w - i - 1)))) w)
    as [[-> Hf]|[Hr [Ht Hf]]]; cbv zeta in *.
  - rewrite zero_of_bits; [done|]. intros i Hi. specialize (Hf (w - 1 - i) ltac:(lia)).
    rewrite loop_bit in Hf by lia. rewrite <- Hf. f_equal. lia.
  - set (r := first_index _ _ _ _) in *. rewrite loop_bit, low_bit in Ht by lia.
    destruct (Z.eqb_spec A 0) as [E|HA]; [by rewrite E, Z.bits_0 in Ht|].
    assert (Hl : Z.log2 A = w - r - 1).
    { apply Z.log2_bits_unique; [done|]. intros m Hm. destruct (Z.lt_ge_cases m w).
      - specialize (Hf (w - 1 - m) ltac:(lia)). rewrite loop_bit, low_bit in Hf by lia.
        rewrite <- Hf. f_equal. lia.
      - apply (testbit_high w); [by apply wrap_range; lia|done]. }
    lia.
Qed.

Lemma op_ctz :
  first_index (Z.to_nat w) 0 (fun i => z2b (Z.land 1 (Z.shiftr a i))) w = unary_spec w UCTZ A.
Proof using Hw.
  cbn [unary_spec].
  destruct (first_index_spec (Z.to_nat w) 0 (fun i => z2b (Z.land 1 (Z.shiftr a i))) w)
    as [[-> Hf]|[Hr [Ht Hf]]]; cbv zeta in *.
  - rewrite zero_of_bits; [done|]. intros i Hi. specialize (Hf i ltac:(lia)).
    by rewrite loop_bit in Hf by lia.
  - set (r := first_index _ _ _ _) in *. rewrite loop_bit, low_bit in Ht by lia.
    destruct (Z.eqb_spec A 0) as [E|HA]; [by rewrite E, Z.bits_0 in Ht|].
    rewrite (lowest_bit A r), Z.log2_pow2; [done|lia|lia|done|].
    intros j Hj. specialize (Hf j ltac:(lia)). by rewrite loop_bit, low_bit in Hf by lia.
Qed.

Lemma op_cpop :
  fold_left (fun x i => if z2b (Z.land 1 (Z.shiftr a i)) then u64 (x + 1) else x) (seqZ 0 w) 0 =
  unary_spec w UCPOP A.
Proof using Hw.
  rewrite (proj1 (cpop_loop a w ltac:(lia))). cbn [unary_spec]. apply zsum_ext. intros i Hi.
  f_equal. apply low_bit. lia.
Qed.
End count.

(** ** Permutation stages *)

(** A closed statement about the positions below 64, checked by evaluation. *)
Definition all64 (p : Z -> bool) : bool := forallb p (seqZ 0 64).

Lemma all64_spec p i : all64 p = true -> 0 <= i < 64 -> p i = true.
Proof.
  unfold all64. rewrite forallb_forall. intros H Hi. apply H, list_elem_of_In, elem_of_seqZ. lia.
Qed.

Definition swap_masks_ok (k lo hi : Z) : bool :=
  (0 <? k) && all64 (fun i =>
    if Z.land i k =? 0
    then (Z.lxor i k =? i + k) && ((i <? k) || negb (Z.testbit lo (i - k))) && Z.testbit hi (i + k)
    else (Z.lxor i k =? i - k) && (k <=? i) && Z.testbit lo (i - k) && negb (Z.testbit hi (i + k))).

(** Exchanging neighbouring groups of [k] bits moves bit [i xor k] to bit [i]. *)
Lemma swap_groups k lo hi x i : swap_masks_ok k lo hi = true -> 0 <= i < 64 ->
  Z.testbit (Z.lor (u64 (Z.shiftl (Z.land x lo) k)) (Z.shiftr (Z.land x hi) k)) i =
  Z.testbit x (Z.lxor i k).
Proof.
  unfold swap_masks_ok. rewrite andb_true_iff. intros [Hk H] Hi.
  pose proof (all64_spec _ _ H Hi) as Hc. cbv beta in Hc. apply Z.ltb_lt in Hk.
  rewrite Z.lor_spec, wrap_testbit, Z.shiftl_spec, Z.shiftr_spec, !Z.land_spec by lia.
  replace (i <? 64) with true by lia. simpl.
  destruct (Z.land i k =? 0); rewrite ?andb_true_iff, ?orb_true_iff, ?negb_true_iff in Hc.
  - destruct Hc as [[Hx Hlo] Hhi]. apply Z.eqb_eq in Hx. rewrite Hx, Hhi, andb_true_r.
    destruct Hlo as [Hlo|Hlo]; [|by rewrite Hlo, andb_false_r].
    by rewrite Z.testbit_neg_r by lia.
  - destruct Hc as [[[Hx Hle] Hlo] Hhi]. apply Z.eqb_eq in Hx.
    by rewrite Hx, Hlo, Hhi, andb_true_r, andb_false_r, orb_false_r.
Qed.

Lemma grev_stage_bit sh k lo hi x i : swap_masks_ok k lo hi = true -> 0 <= i < 64 ->
  Z.testbit (grev_stage sh k lo hi x) i =
  Z.testbit x (if z2b (Z.land sh k) then Z.lxor i k else i).
Proof. intros Hm Hi. unfold grev_stage. case_match; [by apply swap_groups|done]. Qed.

Lemma gorc_stage_bit sh k lo hi x i : swap_masks_ok k lo hi = true -> 0 <= i < 64 ->
  Z.testbit (gorc_stage sh k lo hi x) i =
  Z.testbit x i || (z2b (Z.land sh k) && Z.testbit x (Z.lxor i k)).
Proof.
  intros Hm Hi. unfold gorc_stage. case_match; simpl; [|by rewrite orb_false_r].
  by rewrite Z.lor_spec, swap_groups.
Qed.

Definition shuffle_from (k keep l r i : Z) : Z :=
  if Z.testbit keep i then i else if Z.testbit l (i + k) then i + k else i - k.

Definition shuffle_masks_ok (k keep l r : Z) : bool :=
  (0 <? k) && all64 (fun i =>
    let down := Z.testbit l (i + k) in
    let up := (k <=? i) && Z.testbit r (i - k) in
    if Z.testbit keep i then negb down && negb up
    else if down then negb up else up).

Lemma shuffle_stage_bit sh k keep l r x i : shuffle_masks_ok k keep l r = true -> 0 <= i < 64 ->
  Z.testbit (shuffle_stage sh k keep l r x) i =
  Z.testbit x (if z2b (Z.land sh k) then shuffle_from k keep l r i else i).
Proof.
  unfold shuffle_masks_ok. rewrite andb_true_iff. intros [Hk H] Hi. apply Z.ltb_lt in Hk.
  pose proof (all64_spec _ _ H Hi) as Hc. cbv beta zeta in Hc. unfold shuffle_stage, shuffle_from.
  destruct (z2b (Z.land sh k)); [|done].
  rewrite !Z.lor_spec, wrap_testbit, Z.shiftl_spec, Z.shiftr_spec, !Z.land_spec by lia.
  replace (i <? 64) with true by lia. cbn [andb].
  assert (Hr : Z.testbit x (i - k) && Z.testbit r (i - k) =
               Z.testbit x (i - k) && ((k <=? i) && Z.testbit r (i - k))).
  { destruct (Z.leb_spec k i); [done|]. by rewrite Z.testbit_neg_r by lia. }
  rewrite Hr. clear Hr.
  destruct (Z.testbit keep i), (Z.testbit l (i + k)), ((k <=? i) && Z.testbit r (i - k));
    simpl in Hc; try discriminate; rewrite ?andb_true_r, ?andb_false_r, ?orb_false_r; done.
Qed.

(** The bit position [grevi] with amount [sh] reads for result bit [i]. *)
Definition grev_from (sh i : Z) : Z :=
  foldr (fun k i => if z2b (Z.land sh k) then Z.lxor i k else i) i [1; 2; 4; 8; 16; 32].

Lemma lxor_range64 i k : 0 <= i < 64 -> 0 <= k < 64 -> 0 <= Z.lxor i k < 64.
Proof. intros. change 64 with (2 ^ 6) in *. apply lxor_range; lia. Qed.

Lemma grev_all_bit sh x i : 0 <= i < 64 ->
  Z.testbit (grev_all sh x) i = Z.testbit x (grev_from sh i).
Proof.
  intros Hi. unfold grev_all, grev_from. cbv zeta. cbn [foldr].
  rewrite grev_stage_bit by (first [reflexivity|lia]).
  do 5 (rewrite grev_stage_bit; [|reflexivity|
    repeat case_match; repeat apply lxor_range64; lia]).
  done.
Qed.

(** ** The one-operand instructions *)

#[export] Instance existsb_proper {A} (p : A -> bool) : Proper (Permutation ==> eq) (existsb p).
Proof.
  intros l l' H. induction H as [|x l l' _ IH|x y l|l1 l2 l3 _ IH1 _ IH2]; simpl;
    [done|by rewrite IH|by rewrite !orb_assoc, (orb_comm (p y))|by rewrite IH1].
Qed.

(** The positions or-combined by the three low stages are those of the byte. *)
Definition byte_positions (i : Z) : list Z :=
  let s k l := l ++ ((fun j => Z.lxor j k) <$> l) in s 1 (s 2 (s 4 [i])).

Lemma byte_positions_perm i : 0 <= i < 64 ->
  Permutation (byte_positions i) (Z.add (i / 8 * 8) <$> [0; 1; 2; 3; 4; 5; 6; 7]).
Proof.
  intros Hi. eapply bool_decide_eq_true_1. refine (all64_spec (fun i => bool_decide
    (Permutation (byte_positions i) (Z.add (i / 8 * 8) <$> [0; 1; 2; 3; 4; 5; 6; 7]))) i _ Hi).
  vm_compute. reflexivity.
Qed.

Lemma gorc_byte x i : 0 <= i < 64 ->
  Z.testbit (gorc_all 7 x) i =
  existsb (Z.testbit x) (Z.add (i / 8 * 8) <$> [0; 1; 2; 3; 4; 5; 6; 7]).
Proof.
  intros Hi. rewrite <- byte_positions_perm by done. unfold gorc_all. cbv zeta.
  rewrite (gorc_stage_bit 7 32), (gorc_stage_bit 7 16), (gorc_stage_bit 7 8) by (reflexivity || lia).
  change (z2b (Z.land 7 32)) with false. change (z2b (Z.land 7 16)) with false.
  change (z2b (Z.land 7 8)) with false. rewrite !andb_false_l, !orb_false_r.
  rewrite (gorc_stage_bit 7 4) by (reflexivity || lia).
  rewrite !(gorc_stage_bit 7 2) by (reflexivity || lia || (apply lxor_range64; lia)).
  rewrite !(gorc_stage_bit 7 1) by (reflexivity || lia || (repeat apply lxor_range64; lia)).
  change (z2b (Z.land 7 4)) with true. change (z2b (Z.land 7 2)) with true.
  change (z2b (Z.land 7 1)) with true. rewrite !andb_true_l. cbn. btauto.
Qed.

(** A byte is nonzero when one of its bits is set. *)
Lemma byte_nonzero x b : 0 <= b ->
  existsb (Z.testbit x) (Z.add b <$> [0; 1; 2; 3; 4; 5; 6; 7]) =
  negb ((x / 2 ^ b) mod 2 ^ 8 =? 0).
Proof.
  intros Hb. rewrite <- Z.shiftr_div_pow2 by lia. fold (wrap 8 (Z.shiftr x b)).
  set (y := wrap 8 (Z.shiftr x b)).
  assert (Hbit : forall j, 0 <= j < 8 -> Z.testbit x (b + j) = Z.testbit y j).
  { intros j Hj. unfold y. rewrite wrap_testbit, Z.shiftr_spec by lia.
    replace (j <? 8) with true by lia. simpl. f_equal. lia. }
  cbn [fmap list_fmap existsb]. rewrite !Hbit by lia.
  assert (Hy : 0 <= y < 2 ^ 8) by (by apply wrap_range). clearbody y. clear Hbit.
  assert (Hall : forallb (fun y => Bool.eqb
    (existsb (Z.testbit y) [0; 1; 2; 3; 4; 5; 6; 7]) (negb (y =? 0))) (seqZ 0 256) = true)
    by (vm_compute; reflexivity).
  rewrite forallb_forall in Hall. apply eqb_prop, Hall, list_elem_of_In, elem_of_seqZ. lia.
Qed.

Section permutations.
Context (w : Z) (Hw : w = 32 \/ w = 64) (a : Z).

Lemma div8 i : 0 <= i < w -> 0 <= i / 8 < w / 8 /\ 0 <= i mod 8 < 8.
Proof using Hw.
  intros Hi. split; [|by apply Z.mod_pos_bound].
  assert (Ew : w = 8 * (w / 8)) by (by destruct Hw as [-> | ->]).
  split; [apply Z.div_pos; lia|]. apply Z.div_lt_upper_bound; lia.
Qed.

Lemma op_orcb : wrap w (gorc_all 7 a) = unary_spec w UORCB (wrap w a).
Proof using Hw.
  cbn [unary_spec]. apply of_bits_eq; [lia|]. intros i Hi. rewrite gorc_byte by lia.
  destruct (div8 i Hi) as [Hq _]. rewrite byte_nonzero by lia. do 2 f_equal.
  assert (Ew : w = w / 8 * 8) by (by destruct Hw as [-> | ->]).
  rewrite <- !Z.shiftr_div_pow2 by lia. fold (wrap 8 (Z.shiftr a (i / 8 * 8))).
  fold (wrap 8 (Z.shiftr (wrap w a) (i / 8 * 8))).
  apply Z.bits_inj'. intros j Hj. rewrite !wrap_testbit, !Z.shiftr_spec, wrap_testbit by lia.
  destruct (Z.ltb_spec j 8); [|done]. by replace (j + i / 8 * 8 <? w) with true by lia.
Qed.

(** A permutation given by its source positions, all below [w]. *)
Lemma op_permuted x (from : Z -> Z) (g : Z -> Z) :
  (forall i, 0 <= i < 64 -> Z.testbit x i = Z.testbit a (g i)) ->
  (forall i, 0 <= i < w -> g i = from i /\ 0 <= from i < w) ->
  wrap w x = of_bits w (fun i => Z.testbit (wrap w a) (from i)).
Proof using Hw.
  intros Hx Hg. apply of_bits_eq; [lia|]. intros i Hi. rewrite Hx by lia.
  destruct (Hg i Hi) as [-> Hf]. rewrite wrap_testbit by lia.
  by replace (from i <? w) with true by lia.
Qed.
End permutations.

Definition positions_ok (w : Z) (g from : Z -> Z) : bool :=
  forallb (fun i => (g i =? from i) && (0 <=? from i) && (from i <? w)) (seqZ 0 w).

Lemma positions_spec w g from i : positions_ok w g from = true -> 0 <= i < w ->
  g i = from i /\ 0 <= from i < w.
Proof.
  unfold positions_ok. rewrite forallb_forall. intros H Hi.
  specialize (H i ltac:(apply list_elem_of_In, elem_of_seqZ; lia)).
  rewrite !andb_true_iff in H. lia.
Qed.

Lemma op_rev8 w a : w = 32 \/ w = 64 ->
  wrap w (grev_all (w - 8) a) = unary_spec w UREV8 (wrap w a).
Proof.
  intros Hw. cbn [unary_spec]. eapply (op_permuted w Hw a _ (rev8_from w) (grev_from (w - 8))).
  - intros i Hi. by apply grev_all_bit.
  - intros i Hi. apply positions_spec; [|done]. destruct Hw as [-> | ->]; vm_compute; reflexivity.
Qed.

Lemma op_brev8 w a : w = 32 \/ w = 64 ->
  wrap w (grev_all 7 a) = unary_spec w UBREV8 (wrap w a).
Proof.
  intros Hw. cbn [unary_spec]. eapply (op_permuted w Hw a _ brev8_from (grev_from 7)).
  - intros i Hi. by apply grev_all_bit.
  - intros i Hi. apply positions_spec; [|done]. destruct Hw as [-> | ->]; vm_compute; reflexivity.
Qed.

(** zip and unzip, on the 32-bit registers they exist for. *)
Definition zip_stages : list (Z * Z * Z * Z) := [
  (16, 0xFFFF00000000FFFF, 0x0000FFFF00000000, 0x00000000FFFF0000);
  (8, 0xFF0000FFFF0000FF, 0x00FF000000FF0000, 0x0000FF000000FF00);
  (4, 0xF00FF00FF00FF00F, 0x0F000F000F000F00, 0x00F000F000F000F0);
  (2, 0xC3C3C3C3C3C3C3C3, 0x3030303030303030, 0x0C0C0C0C0C0C0C0C);
  (1, 0x9999999999999999, 0x4444444444444444, 0x2222222222222222)].

Definition shuffle_positions (stages : list (Z * Z * Z * Z)) (i : Z) : Z :=
  foldr (fun '(k, keep, l, r) i => if z2b (Z.land 15 k) then shuffle_from k keep l r i else i)
    i stages.

Lemma shuffle_from_range k keep l r i : shuffle_masks_ok k keep l r = true -> 0 <= i < 64 ->
  all64 (fun i => (0 <=? shuffle_from k keep l r i) && (shuffle_from k keep l r i <? 64)) = true ->
  0 <= shuffle_from k keep l r i < 64.
Proof. intros _ Hi H. pose proof (all64_spec _ _ H Hi) as Hc. cbv beta in Hc. lia. Qed.

Ltac shuffle_range :=
  repeat first [ lia | apply shuffle_from_range; [reflexivity| |vm_compute; reflexivity] ].

Lemma shfl_all_bit x i : 0 <= i < 64 ->
  Z.testbit (shfl_all 15 x) i = Z.testbit x (shuffle_positions zip_stages i).
Proof.
  intros Hi. unfold shfl_all. cbv zeta.
  do 5 (rewrite shuffle_stage_bit; [|reflexivity|
    repeat match goal with |- context [z2b (Z.land 15 ?k)] =>
      let e := eval vm_compute in (z2b (Z.land 15 k)) in change (z2b (Z.land 15 k)) with e end;
    cbv iota; shuffle_range]).
  reflexivity.
Qed.

Lemma unshfl_all_bit x i : 0 <= i < 64 ->
  Z.testbit (unshfl_all 15 x) i = Z.testbit x (shuffle_positions (rev zip_stages) i).
Proof.
  intros Hi. unfold unshfl_all. cbv zeta.
  do 5 (rewrite shuffle_stage_bit; [|reflexivity|
    repeat match goal with |- context [z2b (Z.land 15 ?k)] =>
      let e := eval vm_compute in (z2b (Z.land 15 k)) in change (z2b (Z.land 15 k)) with e end;
    cbv iota; shuffle_range]).
  reflexivity.
Qed.

Lemma op_zip a : wrap 32 (shfl_all 15 a) = unary_spec 32 UZIP (wrap 32 a).
Proof.
  cbn [unary_spec]. eapply (op_permuted 32 ltac:(auto) a _ (zip_from 32) (shuffle_positions zip_stages)).
  - intros i Hi. by apply shfl_all_bit.
  - intros i Hi. apply positions_spec; [|done]. vm_compute. reflexivity.
Qed.

Lemma op_unzip a : wrap 32 (unshfl_all 15 a) = unary_spec 32 UUNZIP (wrap 32 a).
Proof.
  cbn [unary_spec]. eapply (op_permuted 32 ltac:(auto) a _ (unzip_from 32) (shuffle_positions (rev zip_stages))).
  - intros i Hi. by apply unshfl_all_bit.
  - intros i Hi. apply positions_spec; [|done]. vm_compute. reflexivity.
Qed.

Lemma first_index_ext n i p q d : (forall j, p j = q j) -> first_index n i p d = first_index n i q d.
Proof. intros H. revert i. induction n as [|n IH]; intros i; simpl; [done|]. by rewrite H, IH. Qed.

Lemma op_clzw a :
  first_index (Z.to_nat 32) 0 (fun i => z2b (Z.land 1 (Z.shiftr a (31 - i)))) 32 =
  unary_spec 32 UCLZ (wrap 32 a).
Proof.
  rewrite <- (op_clz 32 ltac:(auto) a 32) by done. apply first_index_ext. intros j. do 3 f_equal. lia.
Qed.

Lemma op_sextb w a : w = 32 \/ w = 64 -> u64 (s64 (s8 a)) = u64 (swrap w (unary_spec w USEXTB (wrap w a))).
Proof.
  intros Hw. cbn [unary_spec]. rewrite swrap_wrap, swrap_wrap_le by lia. f_equal.
  pose proof (swrap_range 8 ltac:(lia) a) as Hr. change (2 ^ (8 - 1)) with (2 ^ 7) in Hr.
  pose proof (Z.pow_le_mono_r 2 7 (w - 1) ltac:(lia) ltac:(lia)).
  rewrite (swrap_small 64), (swrap_small w) by lia. done.
Qed.

Lemma op_sexth w a : w = 32 \/ w = 64 -> u64 (s64 (s16 a)) = u64 (swrap w (unary_spec w USEXTH (wrap w a))).
Proof.
  intros Hw. cbn [unary_spec]. rewrite swrap_wrap, swrap_wrap_le by lia. f_equal.
  pose proof (swrap_range 16 ltac:(lia) a) as Hr. change (2 ^ (16 - 1)) with (2 ^ 15) in Hr.
  pose proof (Z.pow_le_mono_r 2 15 (w - 1) ltac:(lia) ltac:(lia)).
  rewrite (swrap_small 64), (swrap_small w) by lia. done.
Qed.

(** ** The instruction table *)

Record unary_entry (W : Type) := UnaryEntry {
  ue_op : unary_op;
  ue_width : Z;
  (** the operation field that selects this instruction of the file *)
  ue_enc : bool;
  ue_req : state W -> bool;
  ue_body : M W unit
}.
Arguments UnaryEntry {W}. Arguments ue_op {W}. Arguments ue_width {W}. Arguments ue_enc {W}.
Arguments ue_req {W}. Arguments ue_body {W}.

Section table.
Context {W : Type} {E : env}.
Local Abbreviation zbb := (fun s : state W => extension_enabled s EXT_ZBB).
Local Abbreviation zbb64 := (fun s : state W => (xlen =? 64) && extension_enabled s EXT_ZBB).
Local Abbreviation zbkb := (fun s : state W => extension_enabled s EXT_ZBKB).
Local Abbreviation zbkb32 := (fun s : state W => (xlen =? 32) && extension_enabled s EXT_ZBKB).

Definition unary_table : list (unary_entry W) := [
  UnaryEntry UCLZ xlen true zbb clz;
  UnaryEntry UCLZ 32 true zbb64 clzw;
  UnaryEntry UCTZ xlen true zbb ctz;
  UnaryEntry UCTZ 32 true zbb64 ctzw;
  UnaryEntry UCPOP xlen true zbb cpop;
  UnaryEntry UCPOP 32 true zbb64 cpopw;
  UnaryEntry USEXTB xlen true zbb sext_b;
  UnaryEntry USEXTH xlen true zbb sext_h;
  UnaryEntry UREV8 xlen (SHAMT =? xlen - 8)
    (fun s => extension_enabled s EXT_ZBB || extension_enabled s EXT_ZBKB) grevi;
  UnaryEntry UBREV8 xlen (SHAMT =? 7) zbkb grevi;
  UnaryEntry UORCB xlen (SHAMT =? 7) zbb gorci;
  UnaryEntry UZIP xlen ((SHAMT =? 15) && (insn_rs2 insn =? 15)) zbkb32 shfli;
  UnaryEntry UUNZIP xlen ((SHAMT =? 15) && (insn_rs2 insn =? 15)) zbkb32 unshfli
].

Definition unary_regs_ok : bool := reg_ok (insn_rd insn) && reg_ok (insn_rs1 insn).

Definition unary_result (e : unary_entry W) (s : state W) : Z :=
  let w := ue_width e in
  u64 (swrap w (unary_spec w (ue_op e) (wrap w (regfile_get (XPR s) (insn_rs1 insn))))).

Definition implements_unary (e : unary_entry W) : Prop :=
  forall s, wf_state xlen s -> ue_enc e = true ->
    ue_body e s =
      if ue_req e s && unary_regs_ok
      then (inr tt, with_XPR (regfile_write true (insn_rd insn) (unary_result e s) (XPR s)) s)
      else (inl (trap_illegal_instruction insn), s).
End table.

Ltac unary_run :=
  intros s Hs He; unfold unary_regs_ok, unary_result in *;
  cbn [ue_body ue_req ue_op ue_width ue_enc] in *;
  match goal with |- ?f _ _ _ = _ => unfold f end;
  unfold WRITE_RD, RS1, require_rv64, require_rv32, require_extension in *;
  cbv zeta; split_conditions; cbn [andb orb negb];
  repeat (progress (eval_body; use_conditions; cbn [andb orb negb])); try reflexivity.

Section refinement.
Context {W : Type} {E : env} (Hx : xlen = 32 \/ xlen = 64).

(** The three files with an operation field, evaluated on every branch. *)
Local Abbreviation outcome c v s :=
  (if c && unary_regs_ok
   then (inr tt, with_XPR (regfile_write true (insn_rd insn) (u64 v) (XPR s)) s)
   else (inl (trap_illegal_instruction insn), s)).

Ltac eval_all :=
  unfold WRITE_RD, RS1, require_rv32, unary_regs_ok; cbv zeta;
  repeat (progress eval_body; repeat match goal with
    | |- context [match (if ?c then _ else _) with pair _ _ => _ end] =>
        destruct c eqn:?; cbn [andb orb negb]
    end);
  split_conditions; use_conditions; rewrite ?andb_true_r, ?andb_false_r; try reflexivity.

Lemma grevi_eval (s : state W) :
  grevi s = outcome (((SHAMT =? xlen - 8) &&
      (extension_enabled s EXT_ZBB || extension_enabled s EXT_ZBKB)
    || (SHAMT =? 7) && extension_enabled s EXT_ZBKB) && (SHAMT <? xlen))
    (sext_xlen (grev_all SHAMT (regfile_get (XPR s) (insn_rs1 insn)))) s.
Proof using. unfold grevi. eval_all. Qed.

Lemma gorci_eval (s : state W) :
  gorci s = outcome ((SHAMT =? 7) && extension_enabled s EXT_ZBB && (SHAMT <? xlen))
    (sext_xlen (gorc_all SHAMT (regfile_get (XPR s) (insn_rs1 insn)))) s.
Proof using. unfold gorci. eval_all. Qed.

Lemma shfli_eval (s : state W) :
  shfli s = outcome ((xlen =? 32) && ((insn_rs2 insn =? xlen / 2 - 1) && extension_enabled s EXT_ZBKB)
      && (SHAMT <? xlen / 2))
    (sext_xlen (shfl_all (SHAMT &! ((xlen - 1) >>! 1)) (regfile_get (XPR s) (insn_rs1 insn)))) s.
Proof using. unfold shfli. eval_all. Qed.

Lemma unshfli_eval (s : state W) :
  unshfli s = outcome ((xlen =? 32) && ((insn_rs2 insn =? xlen / 2 - 1) && extension_enabled s EXT_ZBKB)
      && (SHAMT <? xlen / 2))
    (sext_xlen (unshfl_all (SHAMT &! ((xlen - 1) >>! 1)) (regfile_get (XPR s) (insn_rs1 insn)))) s.
Proof using. unfold unshfli. eval_all. Qed.

Lemma outcome_eq (c c' : bool) v v' (s : state W) : c = c' -> (c = true -> u64 v = u64 v') ->
  outcome c v s = outcome c' v' s.
Proof using. intros <- H. destruct c; simpl; [|done]. by rewrite H. Qed.

(** A specification that is a [w]-bit number is its own low part. *)
Lemma of_bits_wrap w p : 0 <= w -> wrap w (of_bits w p) = of_bits w p.
Proof using. intros Hw. by apply wrap_small, of_bits_range. Qed.

(** [15 & 15]: the amount the zip loops see. *)
Lemma zip_amount : (SHAMT =? 15) = true -> xlen = 32 -> SHAMT &! ((xlen - 1) >>! 1) = 15.
Proof using. intros Hs%Z.eqb_eq ->. by rewrite Hs. Qed.

Lemma half_xlen : xlen = 32 /\ xlen / 2 = 16 \/ xlen = 64 /\ xlen / 2 = 32.
Proof using Hx. destruct Hx as [H|H]; rewrite H; auto. Qed.

Ltac permutation_entry eval_lemma :=
  intros s Hs He; cbn [ue_enc ue_body ue_req] in *; unfold unary_result; cbn [ue_width ue_op];
  rewrite eval_lemma; apply outcome_eq;
  [ repeat match goal with |- context [extension_enabled ?s ?e] => destruct (extension_enabled s e) end;
    cbn [andb orb]; clear Hs; pose proof half_xlen; lia
  | intros Hc; rewrite sext_xlen_swrap by done; apply rep_swrap; [done|] ].

Lemma permutation_entries : Forall (implements_unary (W:=W)) [
  UnaryEntry UREV8 xlen (SHAMT =? xlen - 8)
    (fun s => extension_enabled s EXT_ZBB || extension_enabled s EXT_ZBKB) grevi;
  UnaryEntry UBREV8 xlen (SHAMT =? 7) (fun s => extension_enabled s EXT_ZBKB) grevi;
  UnaryEntry UORCB xlen (SHAMT =? 7) (fun s => extension_enabled s EXT_ZBB) gorci;
  UnaryEntry UZIP xlen ((SHAMT =? 15) && (insn_rs2 insn =? 15))
    (fun s => (xlen =? 32) && extension_enabled s EXT_ZBKB) shfli;
  UnaryEntry UUNZIP xlen ((SHAMT =? 15) && (insn_rs2 insn =? 15))
    (fun s => (xlen =? 32) && extension_enabled s EXT_ZBKB) unshfli].
Proof using Hx.
  repeat apply Forall_cons_2; [..|by apply Forall_nil_2].
  - permutation_entry grevi_eval. apply Z.eqb_eq in He. rewrite He, op_rev8 by done.
    symmetry. by apply of_bits_wrap; lia.
  - permutation_entry grevi_eval. apply Z.eqb_eq in He. rewrite He, op_brev8 by done.
    symmetry. by apply of_bits_wrap; lia.
  - permutation_entry gorci_eval. apply Z.eqb_eq in He. rewrite He, op_orcb by done.
    symmetry. by apply of_bits_wrap; lia.
  - permutation_entry shfli_eval. apply andb_true_iff in He. destruct He as [He _].
    rewrite !andb_true_iff in Hc. destruct Hc as [[H32%Z.eqb_eq _] _].
    rewrite zip_amount, H32, op_zip by done.
    symmetry. by apply of_bits_wrap.
  - permutation_entry unshfli_eval. apply andb_true_iff in He. destruct He as [He _].
    rewrite !andb_true_iff in Hc. destruct Hc as [[H32%Z.eqb_eq _] _].
    rewrite zip_amount, H32, op_unzip by done.
    symmetry. by apply of_bits_wrap.
Qed.

Ltac unary_entry :=
  unary_run; try apply value_eq; rewrite ?sext_xlen_swrap, ?sext32_swrap by done;
  first [ by apply op_sextb | by apply op_sexth
    | by rewrite op_clzw | by rewrite op_clz by auto | by rewrite op_ctz by auto
    | by rewrite op_cpop by auto ].

Lemma unary_table_ok : Forall (implements_unary (W:=W)) unary_table.
Proof using Hx.
  unfold unary_table. repeat (apply Forall_cons_2; [unary_entry|]). apply permutation_entries.
Qed.
End refinement.

(** ** Properties *)

(** C32: The counting, sign-extension and permutation instructions of Zbb and
    Zbkb, as the source computes them (scan loops with [break], swap and
    shuffle stages with 64-bit masks), produce exactly the named bits or counts
    of the [xlen]-bit operand, on RV32 and RV64, and trap without effect when
    their extension is off. *)
Theorem unary_refines {W : Type} {E : env} : xlen = 32 \/ xlen = 64 ->
  Forall (implements_unary (W:=W)) unary_table.
Proof. apply unary_table_ok. Qed.

(** [rev8 a0, a0] on RV64. *)
Lemma unary_refines_witness :
  @grevi unit (Env 64 false 0x6b855513 0) (demo_state 0x0102030405060708 0) =
  (inr tt, demo_state 0x0807060504030201 0).
Proof.
  pose proof (@unary_refines unit (Env 64 false 0x6b855513 0) (or_intror eq_refl)) as H.
  pose proof (Forall_lookup_1 _ _ 8 _ H eq_refl) as Hi. cbv beta in Hi.
  exact (Hi (demo_state 0x0102030405060708 0) (demo_state_wf _ _ eq_refl eq_refl) eq_refl).
Defined.
