(* ===== verification/Crypto.v ===== *)
(** * The scalar cryptography instructions compose into their ciphers

    AES: the S-box table against its definition over GF(2^8), [MixColumns] and
    its inverse, the RV64 round instructions and their inverses, the RV32
    byte instructions against whole columns.  SHA-512: the RV32 half
    instructions against the RV64 ones.  SM4: the byte instructions against
    the word functions of the standard. *)

From S2P Require Import Prelude Arith Decode Hart InsnsIM InsnsB Alu InsnsK.
Local Open Scope cint_scope.

(** ** Bytes of a word *)

Lemma BY_testbit x i j : 0 <= i -> 0 <= j -> Z.testbit (BY x i) j = (j <? 8) && Z.testbit x (j + 8 * i).
Proof.
  intros Hi Hj. unfold BY. change 0xFF with (Z.ones 8). rewrite Z.land_ones by lia.
  fold (wrap 8 (Z.shiftr x (8 * i))). by rewrite wrap_testbit, Z.shiftr_spec by lia.
Qed.

Lemma BY_range x i : 0 <= BY x i < 256.
Proof. unfold BY. change 256 with (2 ^ 8). apply land_range; lia. Qed.

(** Words are equal when their bytes are. *)
Lemma bytes_ext n x y : 0 <= n -> 0 <= x < 2 ^ (8 * n) -> 0 <= y < 2 ^ (8 * n) ->
  (forall k, 0 <= k < n -> BY x k = BY y k) -> x = y.
Proof.
  intros Hn Hx Hy H. apply Z.bits_inj'. intros i Hi. destruct (Z.lt_ge_cases i (8 * n)).
  - assert (Hq : 0 <= i / 8 < n) by (split; [apply Z.div_pos; lia|apply Z.div_lt_upper_bound; lia]).
    pose proof (Z.div_mod i 8 ltac:(lia)). pose proof (Z.mod_pos_bound i 8 ltac:(lia)).
    pose proof (f_equal (fun b => Z.testbit b (i mod 8)) (H (i / 8) Hq)) as Hb. cbv beta in Hb.
    rewrite !BY_testbit in Hb by lia. replace (i mod 8 <? 8) with true in Hb by lia. simpl in Hb.
    by replace (i mod 8 + 8 * (i / 8)) with i in Hb by lia.
  - by rewrite !(testbit_high (8 * n)) by lia.
Qed.

(** Bytes of a sum of shifted bytes. *)
Lemma BY_lor x y k : BY (Z.lor x y) k = Z.lor (BY x k) (BY y k).
Proof. unfold BY. by rewrite Z.shiftr_lor, Z.land_lor_distr_l. Qed.

Lemma BY_lxor x y k : 0 <= k -> BY (Z.lxor x y) k = Z.lxor (BY x k) (BY y k).
Proof.
  intros Hk. apply Z.bits_inj'. intros i Hi. rewrite Z.lxor_spec, !BY_testbit, Z.lxor_spec by lia.
  destruct (i <? 8); [done|]. reflexivity.
Qed.

Lemma BY_shifted w b k j : 0 <= b < 256 -> 0 <= k -> 0 <= j -> 8 * (k + 1) <= w ->
  BY (wrap w (Z.shiftl b (8 * j))) k = if k =? j then b else 0.
Proof.
  intros Hb Hk Hj Hw. apply Z.bits_inj'. intros i Hi.
  rewrite BY_testbit, wrap_testbit, Z.shiftl_spec by lia. destruct (Z.ltb_spec i 8); simpl.
  - replace (i + 8 * k <? w) with true by lia. simpl. destruct (Z.eqb_spec k j) as [->|].
    + f_equal. lia.
    + rewrite Z.bits_0. destruct (Z.lt_ge_cases k j); [by rewrite Z.testbit_neg_r by lia|].
      apply (testbit_high 8); lia.
  - symmetry. destruct (k =? j); [|apply Z.bits_0]. apply (testbit_high 8); lia.
Qed.

(** ** Linearity over GF(2) *)

Definition xor_linear (f : Z -> Z) : Prop := forall x y, f (Z.lxor x y) = Z.lxor (f x) (f y).

Lemma bit_mask a k : 0 <= k -> z2b (Z.land a (2 ^ k)) = Z.testbit a k.
Proof.
  intros Hk. unfold z2b. destruct (Z.testbit a k) eqn:E.
  - destruct (Z.eqb_spec (Z.land a (2 ^ k)) 0) as [H|]; [|done].
    pose proof (f_equal (fun z => Z.testbit z k) H) as Hb. cbv beta in Hb.
    by rewrite Z.land_spec, E, Z.pow2_bits_true, Z.bits_0 in Hb by lia.
  - replace (Z.land a (2 ^ k)) with 0; [done|]. symmetry. apply Z.bits_inj'. intros i Hi.
    rewrite Z.land_spec, Z.bits_0, Z.pow2_bits_eqb by lia.
    destruct (Z.eqb_spec k i) as [->|]; [by rewrite E|apply andb_false_r].
Qed.

Lemma AES_XTIME_linear : xor_linear AES_XTIME.
Proof.
  intros x y. unfold AES_XTIME. change 0x80 with (2 ^ 7). rewrite !bit_mask, Z.lxor_spec by lia.
  rewrite Z.shiftl_lxor.
  apply Z.bits_inj'. intros i Hi.
  destruct (Z.testbit x 7), (Z.testbit y 7); cbn [xorb]; rewrite !Z.lxor_spec, ?Z.bits_0; btauto.
Qed.

Lemma land_linear m : xor_linear (fun x => Z.land x m).
Proof. intros x y. zbits. Qed.

Lemma AES_GFMUL_linear b : xor_linear (fun a => AES_GFMUL a b).
Proof.
  intros x y. unfold AES_GFMUL. rewrite <- land_linear. f_equal. rewrite !AES_XTIME_linear.
  apply Z.bits_inj'. intros i Hi.
  destruct (z2b (Z.land b 1)), (z2b (Z.land b 2)), (z2b (Z.land b 4)), (z2b (Z.land b 8));
    rewrite !Z.lxor_spec, ?Z.bits_0; btauto.
Qed.

Lemma AES_GFMUL_range a b : 0 <= AES_GFMUL a b < 256.
Proof. unfold AES_GFMUL. change 256 with (2 ^ 8). apply land_range; lia. Qed.

(** A statement about all bytes, checked by evaluation. *)
Definition all_bytes (p : Z -> bool) : bool := forallb p (seqZ 0 256).

Lemma all_bytes_spec p x : all_bytes p = true -> 0 <= x < 256 -> p x = true.
Proof.
  unfold all_bytes. rewrite forallb_forall. intros H Hx. apply H, list_elem_of_In, elem_of_seqZ. lia.
Qed.

Lemma byte_fun_eq (f g : Z -> Z) x : all_bytes (fun x => f x =? g x) = true -> 0 <= x < 256 -> f x = g x.
Proof. intros H Hx. by apply Z.eqb_eq, (all_bytes_spec _ _ H Hx). Qed.

(** ** The field and the S-box *)

(** Multiplication in GF(2^8) modulo x^8 + x^4 + x^3 + x + 1. *)
Definition gf_double (a : Z) : Z := let d := Z.shiftl a 1 in if Z.testbit d 8 then Z.lxor d 0x11b else d.
Definition gf_mul (a b : Z) : Z :=
  snd (fold_left (fun '(p, acc) i => (gf_double p, if Z.testbit b i then Z.lxor acc p else acc))
        (seqZ 0 8) (a, 0)).
(** The multiplicative inverse, a^254, with 0 sent to 0. *)
Definition gf_square (a : Z) : Z := gf_mul a a.
Definition gf_inverse (a : Z) : Z :=
  let a2 := gf_square a in let a4 := gf_square a2 in let a8 := gf_square a4 in
  let a16 := gf_square a8 in let a32 := gf_square a16 in let a64 := gf_square a32 in
  gf_mul (gf_mul (gf_mul a2 a4) (gf_mul a8 a16)) (gf_mul (gf_mul a32 a64) (gf_square a64)).
Definition rotl8 (b k : Z) : Z := u8 (Z.lor (Z.shiftl b k) (Z.shiftr b (8 - k))).
Definition sbox_spec (a : Z) : Z :=
  let b := gf_inverse a in
  b ^! rotl8 b 1 ^! rotl8 b 2 ^! rotl8 b 3 ^! rotl8 b 4 ^! 0x63.

Lemma sbox_correct a : 0 <= a < 256 ->
  tbl AES_ENC_SBOX a = sbox_spec a /\ tbl AES_DEC_SBOX (tbl AES_ENC_SBOX a) = a /\
  tbl AES_ENC_SBOX (tbl AES_DEC_SBOX a) = a /\
  0 <= tbl AES_ENC_SBOX a < 256 /\ 0 <= tbl AES_DEC_SBOX a < 256.
Proof.
  intros Ha. assert (H : all_bytes (fun a => (tbl AES_ENC_SBOX a =? sbox_spec a) &&
    (tbl AES_DEC_SBOX (tbl AES_ENC_SBOX a) =? a) && (tbl AES_ENC_SBOX (tbl AES_DEC_SBOX a) =? a) &&
    (0 <=? tbl AES_ENC_SBOX a) && (tbl AES_ENC_SBOX a <? 256) &&
    (0 <=? tbl AES_DEC_SBOX a) && (tbl AES_DEC_SBOX a <? 256)) = true)
    by (vm_compute; reflexivity).
  pose proof (all_bytes_spec _ _ H Ha) as Hb. cbv beta in Hb. rewrite !andb_true_iff in Hb. lia.
Qed.

Lemma gfmul_correct a b : 0 <= a < 256 -> 0 <= b < 16 -> AES_GFMUL a b = gf_mul a b.
Proof.
  intros Ha Hb. assert (H : all_bytes (fun a => forallb (fun b => AES_GFMUL a b =? gf_mul a b)
    (seqZ 0 16)) = true) by (vm_compute; reflexivity).
  pose proof (all_bytes_spec _ _ H Ha) as Hc. cbv beta in Hc. rewrite forallb_forall in Hc.
  apply Z.eqb_eq, Hc, list_elem_of_In, elem_of_seqZ. lia.
Qed.

(** ** MixColumns *)

(** The column with the given bytes, lowest first. *)
Definition column (b0 b1 b2 b3 : Z) : Z :=
  Z.lor (Z.lor (Z.lor (u32 (Z.shiftl b3 24)) (u32 (Z.shiftl b2 16))) (u32 (Z.shiftl b1 8)))
        (u32 (Z.shiftl b0 0)).

Lemma column_range b0 b1 b2 b3 : 0 <= column b0 b1 b2 b3 < 2 ^ 32.
Proof. unfold column. repeat apply lor_range; try lia; by apply wrap_range. Qed.

Lemma column_bytes b0 b1 b2 b3 : 0 <= b0 < 256 -> 0 <= b1 < 256 -> 0 <= b2 < 256 -> 0 <= b3 < 256 ->
  BY (column b0 b1 b2 b3) 0 = b0 /\ BY (column b0 b1 b2 b3) 1 = b1 /\
  BY (column b0 b1 b2 b3) 2 = b2 /\ BY (column b0 b1 b2 b3) 3 = b3.
Proof.
  intros H0 H1 H2 H3. unfold column. rewrite !BY_lor.
  change 24 with (8 * 3). change 16 with (8 * 2). change (Z.shiftl b1 8) with (Z.shiftl b1 (8 * 1)).
  change (Z.shiftl b0 0) with (Z.shiftl b0 (8 * 0)).
  rewrite !BY_shifted by lia. simpl. by rewrite ?Z.lor_0_r, ?Z.lor_0_l.
Qed.

Lemma mixbyte_range c i j k l : 0 <= AES_MIXBYTE c i j k l < 256.
Proof.
  unfold AES_MIXBYTE. change 256 with (2 ^ 8).
  repeat apply lxor_range; try lia; apply BY_range || apply AES_GFMUL_range.
Qed.

Lemma invmixbyte_range c i j k l : 0 <= AES_INVMIXBYTE c i j k l < 256.
Proof.
  unfold AES_INVMIXBYTE. change 256 with (2 ^ 8).
  repeat apply lxor_range; try lia; apply AES_GFMUL_range.
Qed.

Lemma mixcolumn_column c :
  AES_MIXCOLUMN c = column (AES_MIXBYTE c 0 1 2 3) (AES_MIXBYTE c 1 2 3 0)
                           (AES_MIXBYTE c 2 3 0 1) (AES_MIXBYTE c 3 0 1 2).
Proof. unfold AES_MIXCOLUMN, column. reflexivity. Qed.
Lemma invmixcolumn_column c :
  AES_INVMIXCOLUMN c = column (AES_INVMIXBYTE c 0 1 2 3) (AES_INVMIXBYTE c 1 2 3 0)
                              (AES_INVMIXBYTE c 2 3 0 1) (AES_INVMIXBYTE c 3 0 1 2).
Proof. unfold AES_INVMIXCOLUMN, column. reflexivity. Qed.

Lemma mixcolumn_bytes c :
  BY (AES_MIXCOLUMN c) 0 = AES_MIXBYTE c 0 1 2 3 /\ BY (AES_MIXCOLUMN c) 1 = AES_MIXBYTE c 1 2 3 0 /\
  BY (AES_MIXCOLUMN c) 2 = AES_MIXBYTE c 2 3 0 1 /\ BY (AES_MIXCOLUMN c) 3 = AES_MIXBYTE c 3 0 1 2.
Proof. rewrite mixcolumn_column. apply column_bytes; apply mixbyte_range. Qed.
Lemma invmixcolumn_bytes c :
  BY (AES_INVMIXCOLUMN c) 0 = AES_INVMIXBYTE c 0 1 2 3 /\
  BY (AES_INVMIXCOLUMN c) 1 = AES_INVMIXBYTE c 1 2 3 0 /\
  BY (AES_INVMIXCOLUMN c) 2 = AES_INVMIXBYTE c 2 3 0 1 /\
  BY (AES_INVMIXCOLUMN c) 3 = AES_INVMIXBYTE c 3 0 1 2.
Proof. rewrite invmixcolumn_column. apply column_bytes; apply invmixbyte_range. Qed.

(** The product of the two circulant matrices: the contribution of the input
    byte at distance [d] to an output byte. *)
Definition circulant {A} (d : Z) (c0 c1 c2 c3 : A) (f : A -> A -> A -> A -> Z) : Z :=
  match d with
  | 0 => f c0 c3 c2 c1
  | 1 => f c1 c0 c3 c2
  | 2 => f c2 c1 c0 c3
  | _ => f c3 c2 c1 c0
  end.
Definition inv_of_mix (d x : Z) : Z :=
  circulant d (AES_GFMUL x 2) (AES_GFMUL x 3) x x (fun m0 m1 m2 m3 =>
    AES_GFMUL m3 0x9 ^! AES_GFMUL m2 0xd ^! AES_GFMUL m1 0xb ^! AES_GFMUL m0 0xe).
Definition mix_of_inv (d x : Z) : Z :=
  circulant d (AES_GFMUL x 0xe) (AES_GFMUL x 0xb) (AES_GFMUL x 0xd) (AES_GFMUL x 0x9)
    (fun m0 m1 m2 m3 => m3 ^! m2 ^! AES_GFMUL m1 3 ^! AES_GFMUL m0 2).

Lemma circulants_inverse d x : 0 <= d < 4 -> 0 <= x < 256 ->
  inv_of_mix d x = (if d =? 0 then x else 0) /\ mix_of_inv d x = (if d =? 0 then x else 0).
Proof.
  intros Hd Hx. assert (H : forallb (fun d => all_bytes (fun x =>
    (inv_of_mix d x =? (if d =? 0 then x else 0)) && (mix_of_inv d x =? (if d =? 0 then x else 0))))
    (seqZ 0 4) = true) by (vm_compute; reflexivity).
  rewrite forallb_forall in H. specialize (H d ltac:(apply list_elem_of_In, elem_of_seqZ; lia)).
  pose proof (all_bytes_spec _ _ H Hx) as Hb. cbv beta in Hb. rewrite andb_true_iff in Hb. lia.
Qed.

Lemma gfmul_lxor k x y : AES_GFMUL (Z.lxor x y) k = Z.lxor (AES_GFMUL x k) (AES_GFMUL y k).
Proof. apply AES_GFMUL_linear. Qed.

Ltac generalize_products :=
  repeat match goal with |- context [AES_GFMUL ?a ?b] => generalize (AES_GFMUL a b) end.

Lemma inv_of_mix_bytes b0 b1 b2 b3 :
  let m0 := b3 ^! b2 ^! AES_GFMUL b1 3 ^! AES_GFMUL b0 2 in
  let m1 := b0 ^! b3 ^! AES_GFMUL b2 3 ^! AES_GFMUL b1 2 in
  let m2 := b1 ^! b0 ^! AES_GFMUL b3 3 ^! AES_GFMUL b2 2 in
  let m3 := b2 ^! b1 ^! AES_GFMUL b0 3 ^! AES_GFMUL b3 2 in
  0 <= b0 < 256 -> 0 <= b1 < 256 -> 0 <= b2 < 256 -> 0 <= b3 < 256 ->
  AES_GFMUL m3 0x9 ^! AES_GFMUL m2 0xd ^! AES_GFMUL m1 0xb ^! AES_GFMUL m0 0xe = b0.
Proof.
  intros m0 m1 m2 m3 H0 H1 H2 H3. unfold m0, m1, m2, m3.
  transitivity (inv_of_mix 0 b0 ^! inv_of_mix 1 b1 ^! inv_of_mix 2 b2 ^! inv_of_mix 3 b3).
  - cbv beta iota delta [inv_of_mix circulant]. rewrite !gfmul_lxor. generalize_products.
    intros. apply Z.bits_inj'. intros i Hi. rewrite !Z.lxor_spec. btauto.
  - rewrite !(fun d x Hd Hx => proj1 (circulants_inverse d x Hd Hx)) by lia.
    cbv beta iota delta [Z.eqb Pos.eqb]. by rewrite !Z.lxor_0_r.
Qed.

Lemma mix_of_inv_bytes b0 b1 b2 b3 :
  let m0 := AES_GFMUL b3 0x9 ^! AES_GFMUL b2 0xd ^! AES_GFMUL b1 0xb ^! AES_GFMUL b0 0xe in
  let m1 := AES_GFMUL b0 0x9 ^! AES_GFMUL b3 0xd ^! AES_GFMUL b2 0xb ^! AES_GFMUL b1 0xe in
  let m2 := AES_GFMUL b1 0x9 ^! AES_GFMUL b0 0xd ^! AES_GFMUL b3 0xb ^! AES_GFMUL b2 0xe in
  let m3 := AES_GFMUL b2 0x9 ^! AES_GFMUL b1 0xd ^! AES_GFMUL b0 0xb ^! AES_GFMUL b3 0xe in
  0 <= b0 < 256 -> 0 <= b1 < 256 -> 0 <= b2 < 256 -> 0 <= b3 < 256 ->
  m3 ^! m2 ^! AES_GFMUL m1 3 ^! AES_GFMUL m0 2 = b0.
Proof.
  intros m0 m1 m2 m3 H0 H1 H2 H3. unfold m0, m1, m2, m3.
  transitivity (mix_of_inv 0 b0 ^! mix_of_inv 1 b1 ^! mix_of_inv 2 b2 ^! mix_of_inv 3 b3).
  - cbv beta iota delta [mix_of_inv circulant]. rewrite !gfmul_lxor. generalize_products.
    intros. apply Z.bits_inj'. intros i Hi. rewrite !Z.lxor_spec. btauto.
  - rewrite !(fun d x Hd Hx => proj2 (circulants_inverse d x Hd Hx)) by lia.
    cbv beta iota delta [Z.eqb Pos.eqb]. by rewrite !Z.lxor_0_r.
Qed.

Lemma index4 k : 0 <= k < 4 -> k = 0 \/ k = 1 \/ k = 2 \/ k = 3.
Proof. lia. Qed.

Lemma four_nonneg : 0 <= 4.
Proof. lia. Qed.
Lemma mix_range c : 0 <= AES_MIXCOLUMN c < 2 ^ (8 * 4).
Proof. rewrite mixcolumn_column. apply column_range. Qed.
Lemma invmix_range c : 0 <= AES_INVMIXCOLUMN c < 2 ^ (8 * 4).
Proof. rewrite invmixcolumn_column. apply column_range. Qed.

Lemma mix_inverse c : 0 <= c < 2 ^ 32 ->
  AES_INVMIXCOLUMN (AES_MIXCOLUMN c) = c /\ AES_MIXCOLUMN (AES_INVMIXCOLUMN c) = c.
Proof.
  intros Hc. pose proof (BY_range c) as Hb.
  destruct (mixcolumn_bytes c) as (M0 & M1 & M2 & M3).
  destruct (invmixcolumn_bytes c) as (I0 & I1 & I2 & I3).
  destruct (invmixcolumn_bytes (AES_MIXCOLUMN c)) as (E0 & E1 & E2 & E3).
  destruct (mixcolumn_bytes (AES_INVMIXCOLUMN c)) as (F0 & F1 & F2 & F3).
  split.
  1: refine (bytes_ext 4 _ _ four_nonneg (invmix_range _) Hc (fun k Hk => _)).
  2: refine (bytes_ext 4 _ _ four_nonneg (mix_range _) Hc (fun k Hk => _)).
  - destruct (index4 k Hk) as [->|[->|[->| ->]]]; rewrite ?E0, ?E1, ?E2, ?E3; unfold AES_INVMIXBYTE;
      rewrite M0, M1, M2, M3;
      [ exact (inv_of_mix_bytes (BY c 0) (BY c 1) (BY c 2) (BY c 3) (Hb _) (Hb _) (Hb _) (Hb _))
      | exact (inv_of_mix_bytes (BY c 1) (BY c 2) (BY c 3) (BY c 0) (Hb _) (Hb _) (Hb _) (Hb _))
      | exact (inv_of_mix_bytes (BY c 2) (BY c 3) (BY c 0) (BY c 1) (Hb _) (Hb _) (Hb _) (Hb _))
      | exact (inv_of_mix_bytes (BY c 3) (BY c 0) (BY c 1) (BY c 2) (Hb _) (Hb _) (Hb _) (Hb _)) ].
  - destruct (index4 k Hk) as [->|[->|[->| ->]]]; rewrite ?F0, ?F1, ?F2, ?F3; unfold AES_MIXBYTE;
      rewrite I0, I1, I2, I3;
      [ exact (mix_of_inv_bytes (BY c 0) (BY c 1) (BY c 2) (BY c 3) (Hb _) (Hb _) (Hb _) (Hb _))
      | exact (mix_of_inv_bytes (BY c 1) (BY c 2) (BY c 3) (BY c 0) (Hb _) (Hb _) (Hb _) (Hb _))
      | exact (mix_of_inv_bytes (BY c 2) (BY c 3) (BY c 0) (BY c 1) (Hb _) (Hb _) (Hb _) (Hb _))
      | exact (mix_of_inv_bytes (BY c 3) (BY c 0) (BY c 1) (BY c 2) (Hb _) (Hb _) (Hb _) (Hb _)) ].
Qed.

(** ** The RV64 rounds *)

Lemma eight_nonneg : 0 <= 8.
Proof. lia. Qed.
Lemma index8 k : 0 <= k < 8 ->
  k = 0 \/ k = 1 \/ k = 2 \/ k = 3 \/ k = 4 \/ k = 5 \/ k = 6 \/ k = 7.
Proof. lia. Qed.

(** The doubleword with the given bytes, highest first. *)
Definition dword (b7 b6 b5 b4 b3 b2 b1 b0 : Z) : Z :=
  Z.lor (Z.lor (Z.lor (Z.lor (Z.lor (Z.lor (Z.lor
    (u64 (Z.shiftl b7 56)) (u64 (Z.shiftl b6 48))) (u64 (Z.shiftl b5 40))) (u64 (Z.shiftl b4 32)))
    (u64 (Z.shiftl b3 24))) (u64 (Z.shiftl b2 16))) (u64 (Z.shiftl b1 8))) (u64 (Z.shiftl b0 0)).

Lemma dword_range b7 b6 b5 b4 b3 b2 b1 b0 : 0 <= dword b7 b6 b5 b4 b3 b2 b1 b0 < 2 ^ (8 * 8).
Proof. unfold dword. repeat apply lor_range; try lia; by apply wrap_range. Qed.

Lemma dword_bytes b7 b6 b5 b4 b3 b2 b1 b0 k : 0 <= k < 8 ->
  Forall (fun b => 0 <= b < 256) [b0; b1; b2; b3; b4; b5; b6; b7] ->
  BY (dword b7 b6 b5 b4 b3 b2 b1 b0) k = nth (Z.to_nat k) [b0; b1; b2; b3; b4; b5; b6; b7] 0.
Proof.
  intros Hk HF. rewrite !Forall_cons_iff in HF. destruct HF as (H0&H1&H2&H3&H4&H5&H6&H7&_).
  unfold dword. rewrite !BY_lor.
  change 56 with (8 * 7). change 48 with (8 * 6). change 40 with (8 * 5). change 32 with (8 * 4).
  change 24 with (8 * 3). change 16 with (8 * 2). change (Z.shiftl b1 8) with (Z.shiftl b1 (8 * 1)).
  change (Z.shiftl b0 0) with (Z.shiftl b0 (8 * 0)). rewrite !BY_shifted by lia.
  destruct (index8 k Hk) as [->|[->|[->|[->|[->|[->|[->| ->]]]]]]]; cbn;
    by rewrite ?Z.lor_0_r, ?Z.lor_0_l.
Qed.

Lemma shiftrows_dword a b : AES_SHIFROWS_LO a b =
  dword (BY a 3) (BY b 6) (BY b 1) (BY a 4) (BY b 7) (BY b 2) (BY a 5) (BY a 0).
Proof. cbv beta delta [AES_SHIFROWS_LO dword BY]. reflexivity. Qed.
Lemma invshiftrows_dword a b : AES_INVSHIFROWS_LO a b =
  dword (BY b 3) (BY b 6) (BY a 1) (BY a 4) (BY a 7) (BY b 2) (BY b 5) (BY a 0).
Proof. cbv beta delta [AES_INVSHIFROWS_LO dword BY]. reflexivity. Qed.

Definition sub8 (t : list Z) (x : Z) (k : Z) : Z := tbl t (BY x k).
Lemma sub_bytes_dword t x : (forall k, 0 <= sub8 t x k < 256) -> sub_bytes64 t x =
  dword (sub8 t x 7) (sub8 t x 6) (sub8 t x 5) (sub8 t x 4)
        (sub8 t x 3) (sub8 t x 2) (sub8 t x 1) (sub8 t x 0).
Proof.
  intros H. assert (Hw : forall k, u64 (sub8 t x k) = sub8 t x k)
    by (intros k; apply wrap_small; specialize (H k); lia).
  unfold dword. rewrite <- (Hw 0), <- (Hw 1), <- (Hw 2), <- (Hw 3), <- (Hw 4), <- (Hw 5),
    <- (Hw 6), <- (Hw 7). unfold sub8, BY. clear Hw H. unfold sub_bytes64.
  change (8 * 0) with 0. change (8 * 1) with 8. change (8 * 2) with 16. change (8 * 3) with 24.
  change (8 * 4) with 32. change (8 * 5) with 40. change (8 * 6) with 48. change (8 * 7) with 56.
  apply Z.bits_inj'. intros i Hi. rewrite !Z.lor_spec. btauto.
Qed.

(** The source bytes of the row shifts: byte [k] comes from the register pair. *)
Lemma shiftrows_bytes a b k : 0 <= k < 8 ->
  BY (AES_SHIFROWS_LO a b) k =
  nth (Z.to_nat k) [BY a 0; BY a 5; BY b 2; BY b 7; BY a 4; BY b 1; BY b 6; BY a 3] 0.
Proof.
  intros Hk. rewrite shiftrows_dword. apply dword_bytes; [done|].
  repeat constructor; apply BY_range.
Qed.

Lemma invshiftrows_bytes a b k : 0 <= k < 8 ->
  BY (AES_INVSHIFROWS_LO a b) k =
  nth (Z.to_nat k) [BY a 0; BY b 5; BY b 2; BY a 7; BY a 4; BY a 1; BY b 6; BY b 3] 0.
Proof.
  intros Hk. rewrite invshiftrows_dword. apply dword_bytes; [done|].
  repeat constructor; apply BY_range.
Qed.

Lemma sub_bytes_byte t x k : 0 <= k < 8 -> (forall y, 0 <= y < 256 -> 0 <= tbl t y < 256) ->
  BY (sub_bytes64 t x) k = tbl t (BY x k).
Proof.
  intros Hk Ht. assert (H : forall k, 0 <= sub8 t x k < 256) by (intros; apply Ht, BY_range).
  rewrite sub_bytes_dword, dword_bytes by (try done; repeat constructor; apply H).
  by destruct (index8 k Hk) as [->|[->|[->|[->|[->|[->|[->| ->]]]]]]].
Qed.

Lemma sub_bytes_range t x : (forall y, 0 <= y < 256 -> 0 <= tbl t y < 256) ->
  0 <= sub_bytes64 t x < 2 ^ (8 * 8).
Proof. intros Ht. rewrite sub_bytes_dword by (intros; apply Ht, BY_range). apply dword_range. Qed.

Lemma enc_range y : 0 <= y < 256 -> 0 <= tbl AES_ENC_SBOX y < 256.
Proof. intros Hy. apply (sbox_correct y Hy). Qed.
Lemma dec_range y : 0 <= y < 256 -> 0 <= tbl AES_DEC_SBOX y < 256.
Proof. intros Hy. apply (sbox_correct y Hy). Qed.

Ltac select_byte :=
  repeat match goal with |- context [Z.to_nat ?c] =>
    let e := eval vm_compute in (Z.to_nat c) in change (Z.to_nat c) with e end;
  cbn [nth].

(** The last rounds: [ShiftRows] and [SubBytes] on half a state and back. *)
Lemma ds_es lo hi : 0 <= lo < 2 ^ 64 ->
  aes64ds_value (aes64es_value lo hi) (aes64es_value hi lo) = lo /\
  aes64es_value (aes64ds_value lo hi) (aes64ds_value hi lo) = lo.
Proof.
  intros Hlo. pose proof enc_range as He. pose proof dec_range as Hd. pose proof sbox_correct as Hs.
  split; unfold aes64ds_value, aes64es_value.
  1: refine (bytes_ext 8 _ _ eight_nonneg (sub_bytes_range _ _ Hd) Hlo (fun k Hk => _)).
  2: refine (bytes_ext 8 _ _ eight_nonneg (sub_bytes_range _ _ He) Hlo (fun k Hk => _)).
  all: rewrite sub_bytes_byte by done; rewrite ?invshiftrows_bytes, ?shiftrows_bytes by done;
    destruct (index8 k Hk) as [->|[->|[->|[->|[->|[->|[->| ->]]]]]]]; select_byte;
    rewrite sub_bytes_byte by (done || lia);
    rewrite ?invshiftrows_bytes, ?shiftrows_bytes by lia; select_byte; apply Hs, BY_range.
Qed.

(** The middle rounds add [MixColumns]: [aes64esm] mixes the columns of
    [aes64es], [aes64im] unmixes both columns of a half state. *)
Definition mix64 (f : Z -> Z) (x : Z) : Z :=
  Z.lor (u64 (Z.shiftl (u64 (f (u32 (Z.shiftr x 32)))) 32)) (f (u32 (Z.land x 0xFFFFFFFF))).

Lemma esm_es a b : aes64esm_value a b = mix64 AES_MIXCOLUMN (aes64es_value a b).
Proof. cbv beta zeta delta [aes64esm_value mix64 aes64es_value]. reflexivity. Qed.
Lemma dsm_ds a b : aes64dsm_value a b = mix64 AES_INVMIXCOLUMN (aes64ds_value a b).
Proof. cbv beta zeta delta [aes64dsm_value mix64 aes64ds_value]. reflexivity. Qed.
Lemma im_mix a : aes64im_value a = mix64 AES_INVMIXCOLUMN a.
Proof. cbv beta zeta delta [aes64im_value mix64]. reflexivity. Qed.

Lemma mix64_halves f x : (forall c, 0 <= f c < 2 ^ 32) ->
  mix64 f x = f (u32 (Z.shiftr x 32)) * 2 ^ 32 + f (u32 x).
Proof.
  intros Hf. unfold mix64. change 0xFFFFFFFF with (Z.ones 32). rewrite Z.land_ones by lia.
  fold (wrap 32 x). rewrite wrap_wrap by lia.
  pose proof (Hf (u32 (Z.shiftr x 32))). rewrite (wrap_small 64 (f _)) by lia.
  rewrite (wrap_small 64) by (rewrite Z.shiftl_mul_pow2 by lia; lia).
  by apply lor_shiftl_add.
Qed.

Lemma mix64_inverse f g x : 0 <= x < 2 ^ 64 ->
  (forall c, 0 <= f c < 2 ^ 32) -> (forall c, 0 <= g c < 2 ^ 32) ->
  (forall c, 0 <= c < 2 ^ 32 -> g (f c) = c) -> mix64 g (mix64 f x) = x.
Proof.
  intros Hx Hf Hg Hgf. rewrite !mix64_halves by done.
  pose proof (Hf (u32 (Z.shiftr x 32))). pose proof (Hf (u32 x)).
  rewrite Z.shiftr_div_pow2, Z.div_add_l, (Z.div_small (f (u32 x))), Z.add_0_r by lia.
  replace (u32 (f (u32 (Z.shiftr x 32)) * 2 ^ 32 + f (u32 x))) with (f (u32 x)).
  2: { unfold wrap. rewrite Z.add_comm, Z_mod_plus_full. symmetry. by apply Z.mod_small. }
  rewrite (wrap_small 32 (f _)), !Hgf by (done || by apply wrap_range).
  rewrite (wrap_small 32 (Z.shiftr x 32)).
  - rewrite Z.shiftr_div_pow2 by lia. unfold wrap. pose proof (Z.div_mod x (2 ^ 32)). lia.
  - rewrite Z.shiftr_div_pow2 by lia. split; [apply Z.div_pos; lia|].
    apply Z.div_lt_upper_bound; lia.
Qed.

(** ** The RV32 and SM4 byte instructions against whole columns *)

Lemma column_lxor b0 b1 b2 b3 c0 c1 c2 c3 :
  Forall (fun b => 0 <= b < 256) [b0; b1; b2; b3; c0; c1; c2; c3] ->
  Z.lxor (column b0 b1 b2 b3) (column c0 c1 c2 c3) =
  column (Z.lxor b0 c0) (Z.lxor b1 c1) (Z.lxor b2 c2) (Z.lxor b3 c3).
Proof.
  rewrite !Forall_cons_iff. intros (?&?&?&?&?&?&?&?&_).
  destruct (column_bytes b0 b1 b2 b3) as (B0&B1&B2&B3); try done.
  destruct (column_bytes c0 c1 c2 c3) as (C0&C1&C2&C3); try done.
  destruct (column_bytes (Z.lxor b0 c0) (Z.lxor b1 c1) (Z.lxor b2 c2) (Z.lxor b3 c3))
    as (D0&D1&D2&D3); try (change 256 with (2 ^ 8); apply lxor_range; done).
  refine (bytes_ext 4 _ _ four_nonneg _ (column_range _ _ _ _) (fun k Hk => _)).
  { apply lxor_range; [done|apply column_range..]. }
  destruct (index4 k Hk) as [->|[->|[->| ->]]]; rewrite BY_lxor by done; congruence.
Qed.

Ltac bytes := repeat first [apply List.Forall_nil | apply List.Forall_cons].

(** A column is the exclusive or of its bytes in place. *)
Lemma column_split b0 b1 b2 b3 : Forall (fun b => 0 <= b < 256) [b0; b1; b2; b3] ->
  column b0 b1 b2 b3 =
  Z.lxor (Z.lxor (Z.lxor (column b0 0 0 0) (column 0 b1 0 0)) (column 0 0 b2 0)) (column 0 0 0 b3).
Proof.
  rewrite !Forall_cons_iff. intros (?&?&?&?&_).
  rewrite !column_lxor by (bytes; rewrite ?Z.lxor_0_r, ?Z.lxor_0_l; lia).
  by rewrite !Z.lxor_0_r, !Z.lxor_0_l.
Qed.

Lemma mixbyte_linear i j k l x y : 0 <= i -> 0 <= j -> 0 <= k -> 0 <= l ->
  AES_MIXBYTE (Z.lxor x y) i j k l = Z.lxor (AES_MIXBYTE x i j k l) (AES_MIXBYTE y i j k l).
Proof.
  intros Hi Hj Hk Hl. unfold AES_MIXBYTE. rewrite !BY_lxor, !gfmul_lxor by done.
  generalize_products. intros. apply Z.bits_inj'. intros n Hn. rewrite !Z.lxor_spec. btauto.
Qed.
Lemma invmixbyte_linear i j k l x y : 0 <= i -> 0 <= j -> 0 <= k -> 0 <= l ->
  AES_INVMIXBYTE (Z.lxor x y) i j k l = Z.lxor (AES_INVMIXBYTE x i j k l) (AES_INVMIXBYTE y i j k l).
Proof.
  intros Hi Hj Hk Hl. unfold AES_INVMIXBYTE. rewrite !BY_lxor, !gfmul_lxor by done.
  generalize_products. intros. apply Z.bits_inj'. intros n Hn. rewrite !Z.lxor_spec. btauto.
Qed.

Lemma mixcolumn_linear : xor_linear AES_MIXCOLUMN.
Proof.
  intros x y. rewrite !mixcolumn_column. rewrite column_lxor by (bytes; apply mixbyte_range).
  by rewrite !mixbyte_linear by lia.
Qed.
Lemma invmixcolumn_linear : xor_linear AES_INVMIXCOLUMN.
Proof.
  intros x y. rewrite !invmixcolumn_column.
  rewrite column_lxor by (bytes; apply invmixbyte_range).
  by rewrite !invmixbyte_linear by lia.
Qed.

(** A linear map of a column from its values on the four byte positions. *)
Definition place (bs x : Z) : Z := u32 (Z.shiftl x (8 * bs)).

Lemma column_place x : 0 <= x < 256 ->
  column x 0 0 0 = place 0 x /\ column 0 x 0 0 = place 1 x /\
  column 0 0 x 0 = place 2 x /\ column 0 0 0 x = place 3 x.
Proof.
  intros Hx. assert (H : all_bytes (fun x => (column x 0 0 0 =? place 0 x) &&
    (column 0 x 0 0 =? place 1 x) && (column 0 0 x 0 =? place 2 x) && (column 0 0 0 x =? place 3 x))
    = true) by (vm_compute; reflexivity).
  pose proof (all_bytes_spec _ _ H Hx) as Hb. cbv beta in Hb. rewrite !andb_true_iff in Hb. lia.
Qed.

Lemma linear_column f b0 b1 b2 b3 : xor_linear f ->
  Forall (fun b => 0 <= b < 256) [b0; b1; b2; b3] ->
  f (column b0 b1 b2 b3) =
  Z.lxor (Z.lxor (Z.lxor (f (place 0 b0)) (f (place 1 b1))) (f (place 2 b2))) (f (place 3 b3)).
Proof.
  intros Hf Hb. rewrite column_split, !Hf by done. rewrite !Forall_cons_iff in Hb.
  destruct Hb as (?&?&?&?&_).
  by rewrite (proj1 (column_place b0 ltac:(done))), (proj1 (proj2 (column_place b1 ltac:(done)))),
    (proj1 (proj2 (proj2 (column_place b2 ltac:(done))))),
    (proj2 (proj2 (proj2 (column_place b3 ltac:(done))))).
Qed.

(** Four byte instructions applied in turn, accumulating into [k]. *)
Definition four_steps (step : Z -> Z -> Z -> Z) (k c0 c1 c2 c3 : Z) : Z :=
  step 3 (step 2 (step 1 (step 0 k c0) c1) c2) c3.

Lemma four_steps_column step f t k c0 c1 c2 c3 :
  xor_linear f -> (forall y, 0 <= y < 256 -> 0 <= tbl t y < 256) ->
  (forall bs a b, 0 <= bs < 4 -> step bs a b = Z.lxor (f (place bs (tbl t (BY b bs)))) a) ->
  four_steps step k c0 c1 c2 c3 =
  Z.lxor k (f (column (tbl t (BY c0 0)) (tbl t (BY c1 1)) (tbl t (BY c2 2)) (tbl t (BY c3 3)))).
Proof.
  intros Hf Ht Hstep. unfold four_steps. rewrite !Hstep by done.
  rewrite linear_column by (try done; bytes; apply Ht, BY_range).
  apply Z.bits_inj'. intros i Hi. rewrite !Z.lxor_spec. btauto.
Qed.

Lemma place_eq (g : Z -> Z) (f : Z -> Z) bs x :
  forallb (fun bs => all_bytes (fun x => rotl_bs (g x) bs =? f (place bs x))) (seqZ 0 4) = true ->
  0 <= bs < 4 -> 0 <= x < 256 -> rotl_bs (g x) bs = f (place bs x).
Proof.
  rewrite forallb_forall. intros H Hbs Hx.
  specialize (H bs ltac:(apply list_elem_of_In, elem_of_seqZ; lia)).
  exact (byte_fun_eq (fun x => rotl_bs (g x) bs) (fun x => f (place bs x)) x H Hx).
Qed.

Lemma u8_BY b bs : u8 (Z.shiftr b (8 * bs)) = BY b bs.
Proof. unfold BY. change 0xFF with (Z.ones 8). by rewrite Z.land_ones. Qed.

Definition sub_column (t : list Z) (c0 c1 c2 c3 : Z) : Z :=
  column (tbl t (BY c0 0)) (tbl t (BY c1 1)) (tbl t (BY c2 2)) (tbl t (BY c3 3)).

(** The word each RV32 middle-round instruction rotates into place. *)
Definition esmi_word (x : Z) : Z :=
  u32 ((Z.shiftl (AES_GFMUL x 3) 24) |! (Z.shiftl x 16) |! (Z.shiftl x 8) |!
       (Z.shiftl (AES_GFMUL x 2) 0)).
Definition dsmi_word (x : Z) : Z :=
  u32 ((Z.shiftl (AES_GFMUL x 0xb) 24) |! (Z.shiftl (AES_GFMUL x 0xd) 16) |!
       (Z.shiftl (AES_GFMUL x 0x9) 8) |! (Z.shiftl (AES_GFMUL x 0xe) 0)).

(** The value of one byte step, for the table word [word] and the linear map [f]. *)
Lemma aes32_step word f t bs a b :
  (forall y, 0 <= y < 256 -> 0 <= tbl t y < 256) ->
  forallb (fun bs => all_bytes (fun x => rotl_bs (word x) bs =? f (place bs x))) (seqZ 0 4) = true ->
  0 <= bs < 4 ->
  Z.lxor (rotl_bs (word (tbl t (u8 (Z.shiftr b (8 * bs))))) bs) a =
  Z.lxor (f (place bs (tbl t (BY b bs)))) a.
Proof.
  intros Ht Hc Hbs. rewrite u8_BY. f_equal.
  exact (place_eq word f bs _ Hc Hbs (Ht _ (BY_range b bs))).
Qed.

Lemma words_ok :
  forallb (fun bs => all_bytes (fun x => rotl_bs (esmi_word x) bs =? AES_MIXCOLUMN (place bs x)))
    (seqZ 0 4) = true /\
  forallb (fun bs => all_bytes (fun x => rotl_bs (dsmi_word x) bs =? AES_INVMIXCOLUMN (place bs x)))
    (seqZ 0 4) = true /\
  forallb (fun bs => all_bytes (fun x => rotl_bs x bs =? place bs x)) (seqZ 0 4) = true.
Proof. split_and!; vm_compute; reflexivity. Qed.

Lemma aes32esmi_step bs a b : 0 <= bs < 4 ->
  aes32esmi_value bs a b = Z.lxor (AES_MIXCOLUMN (place bs (tbl AES_ENC_SBOX (BY b bs)))) a.
Proof.
  intros Hbs. rewrite <- (aes32_step esmi_word _ _ _ _ _ enc_range (proj1 words_ok) Hbs).
  unfold aes32esmi_value, esmi_word. reflexivity.
Qed.
Lemma aes32dsmi_step bs a b : 0 <= bs < 4 ->
  aes32dsmi_value bs a b = Z.lxor (AES_INVMIXCOLUMN (place bs (tbl AES_DEC_SBOX (BY b bs)))) a.
Proof.
  intros Hbs. rewrite <- (aes32_step dsmi_word _ _ _ _ _ dec_range (proj1 (proj2 words_ok)) Hbs).
  unfold aes32dsmi_value, dsmi_word. reflexivity.
Qed.
Lemma aes32esi_step bs a b : 0 <= bs < 4 ->
  aes32esi_value bs a b = Z.lxor (place bs (tbl AES_ENC_SBOX (BY b bs))) a.
Proof. exact (aes32_step (fun x => x) (fun x => x) _ bs a b enc_range (proj2 (proj2 words_ok))). Qed.
Lemma aes32dsi_step bs a b : 0 <= bs < 4 ->
  aes32dsi_value bs a b = Z.lxor (place bs (tbl AES_DEC_SBOX (BY b bs))) a.
Proof. exact (aes32_step (fun x => x) (fun x => x) _ bs a b dec_range (proj2 (proj2 words_ok))). Qed.

Lemma aes32_columns k c0 c1 c2 c3 :
  four_steps aes32esmi_value k c0 c1 c2 c3 =
    Z.lxor k (AES_MIXCOLUMN (sub_column AES_ENC_SBOX c0 c1 c2 c3)) /\
  four_steps aes32esi_value k c0 c1 c2 c3 = Z.lxor k (sub_column AES_ENC_SBOX c0 c1 c2 c3) /\
  four_steps aes32dsmi_value k c0 c1 c2 c3 =
    Z.lxor k (AES_INVMIXCOLUMN (sub_column AES_DEC_SBOX c0 c1 c2 c3)) /\
  four_steps aes32dsi_value k c0 c1 c2 c3 = Z.lxor k (sub_column AES_DEC_SBOX c0 c1 c2 c3).
Proof.
  split_and!.
  - apply four_steps_column; [apply mixcolumn_linear|apply enc_range|intros; by apply aes32esmi_step].
  - apply (four_steps_column _ (fun x => x)); [done|apply enc_range|intros; by apply aes32esi_step].
  - apply four_steps_column;
      [apply invmixcolumn_linear|apply dec_range|intros; by apply aes32dsmi_step].
  - apply (four_steps_column _ (fun x => x)); [done|apply dec_range|intros; by apply aes32dsi_step].
Qed.

(** ** SM4 *)

Definition rotl32 (x n : Z) : Z := let x := u32 x in u32 (Z.lor (Z.shiftl x n) (Z.shiftr x (32 - n))).
(** The linear transformations L and L' of the standard, which reads words
    big-endian: the register holds the byte-reversed word. *)
Definition bswap32 (x : Z) : Z := column (BY x 3) (BY x 2) (BY x 1) (BY x 0).
Definition sm4_linear (b : Z) : Z :=
  u32 b ^! rotl32 b 2 ^! rotl32 b 10 ^! rotl32 b 18 ^! rotl32 b 24.
Definition sm4_linear' (b : Z) : Z := u32 b ^! rotl32 b 13 ^! rotl32 b 23.
Definition sm4_L (b : Z) : Z := bswap32 (sm4_linear (bswap32 b)).
Definition sm4_L' (b : Z) : Z := bswap32 (sm4_linear' (bswap32 b)).

Lemma rotl32_bit x n i : 0 <= n < 32 -> 0 <= i < 32 ->
  Z.testbit (rotl32 x n) i = Z.testbit x ((i - n) mod 32).
Proof.
  intros Hn Hi. unfold rotl32. cbv zeta.
  rewrite wrap_testbit, Z.lor_spec, Z.shiftl_spec, Z.shiftr_spec by lia.
  replace (i <? 32) with true by lia. cbn [andb]. destruct (Z.ltb_spec i n).
  - rewrite (Z.testbit_neg_r _ (i - n)), wrap_testbit by lia. replace (i + (32 - n) <? 32) with true by lia.
    cbn [andb orb]. f_equal. apply (Z.mod_unique _ _ (-1)); lia.
  - rewrite !wrap_testbit by lia. replace (i + (32 - n) <? 32) with false by lia.
    replace (i - n <? 32) with true by lia. cbn [andb]. rewrite orb_false_r, Z.mod_small by lia. done.
Qed.

Lemma rotl32_range x n : 0 <= rotl32 x n < 2 ^ 32.
Proof. by apply wrap_range. Qed.

Lemma rotl32_linear n : 0 <= n < 32 -> xor_linear (fun x => rotl32 x n).
Proof.
  intros Hn x y. apply Z.bits_inj'. intros i Hi. destruct (Z.lt_ge_cases i 32).
  - by rewrite Z.lxor_spec, !rotl32_bit, Z.lxor_spec by lia.
  - rewrite !(testbit_high 32); [done|apply lxor_range|lia|apply rotl32_range|lia];
      try apply rotl32_range; lia.
Qed.

Lemma bswap32_lxor x y : bswap32 (Z.lxor x y) = Z.lxor (bswap32 x) (bswap32 y).
Proof.
  unfold bswap32. rewrite column_lxor by (bytes; apply BY_range). by rewrite !BY_lxor by lia.
Qed.

Lemma sm4_linear_lxor x y :
  sm4_linear (Z.lxor x y) = Z.lxor (sm4_linear x) (sm4_linear y) /\
  sm4_linear' (Z.lxor x y) = Z.lxor (sm4_linear' x) (sm4_linear' y).
Proof.
  split; unfold sm4_linear, sm4_linear'; rewrite ?(rotl32_linear 2), ?(rotl32_linear 10),
    ?(rotl32_linear 18), ?(rotl32_linear 24), ?(rotl32_linear 13), ?(rotl32_linear 23) by lia;
    apply Z.bits_inj'; intros i Hi; rewrite !Z.lxor_spec, !wrap_testbit, Z.lxor_spec by lia;
    destruct (i <? 32); cbn [andb]; btauto.
Qed.

Lemma sm4_L_linear : xor_linear sm4_L /\ xor_linear sm4_L'.
Proof.
  split; intros x y; unfold sm4_L, sm4_L'; rewrite bswap32_lxor;
    rewrite ?(proj1 (sm4_linear_lxor _ _)), ?(proj2 (sm4_linear_lxor _ _)); apply bswap32_lxor.
Qed.

Lemma sm4_range y : 0 <= y < 256 -> 0 <= tbl sm4_sbox y < 256.
Proof.
  intros Hy. assert (H : all_bytes (fun y => (0 <=? tbl sm4_sbox y) && (tbl sm4_sbox y <? 256)) = true)
    by (vm_compute; reflexivity).
  pose proof (all_bytes_spec _ _ H Hy) as Hb. cbv beta in Hb. lia.
Qed.

(** The word each SM4 instruction rotates into place. *)
Definition sm4ed_word (x : Z) : Z :=
  x ^! u32 (Z.shiftl x 8) ^! u32 (Z.shiftl x 2) ^! u32 (Z.shiftl x 18) ^!
  u32 (Z.shiftl (x &! 0x3f) 26) ^! u32 (Z.shiftl (x &! 0xC0) 10).
Definition sm4ks_word (x : Z) : Z :=
  x ^! u32 (Z.shiftl (x &! 0x07) 29) ^! u32 (Z.shiftl (x &! 0xFE) 7) ^!
  u32 (Z.shiftl (x &! 0x01) 23) ^! u32 (Z.shiftl (x &! 0xF8) 13).

Lemma sm4_L_range b : 0 <= sm4_L b < 2 ^ 32 /\ 0 <= sm4_L' b < 2 ^ 32.
Proof. split; apply column_range. Qed.

Lemma u32_lxor x a : 0 <= x < 2 ^ 32 -> u32 (Z.lxor x a) = Z.lxor x (u32 a).
Proof.
  intros Hx. apply Z.bits_inj'. intros i Hi. rewrite wrap_testbit, !Z.lxor_spec, wrap_testbit by lia.
  destruct (Z.ltb_spec i 32); [done|]. by rewrite (testbit_high 32 x).
Qed.

(** One SM4 byte step, for the table word [word] and the linear map [L]. *)
Lemma sm4_step word L bs a x (value : Z -> Z -> Z -> Z) :
  (forall bs a b, value bs a b = u32 (rotl_bs (word (u32 (tbl sm4_sbox (u32 (BY b bs))))) bs ^! a)) ->
  (forall y, 0 <= L y < 2 ^ 32) ->
  forallb (fun bs => all_bytes (fun x => rotl_bs (word x) bs =? L (place bs x))) (seqZ 0 4) = true ->
  0 <= bs < 4 -> 0 <= a < 2 ^ 32 ->
  value bs a x = Z.lxor (L (place bs (tbl sm4_sbox (BY x bs)))) a.
Proof.
  intros Hv HL Hc Hbs Ha. pose proof (BY_range x bs) as Hb. pose proof (sm4_range _ Hb) as Ht.
  rewrite Hv, (wrap_small 32 (BY x bs)), (wrap_small 32 (tbl _ _)) by lia.
  rewrite (place_eq word L bs _ Hc Hbs Ht), u32_lxor by apply HL. by rewrite (wrap_small 32 a).
Qed.

Lemma sm4_words_ok :
  forallb (fun bs => all_bytes (fun x => rotl_bs (sm4ed_word x) bs =? sm4_L (place bs x)))
    (seqZ 0 4) = true /\
  forallb (fun bs => all_bytes (fun x => rotl_bs (sm4ks_word x) bs =? sm4_L' (place bs x)))
    (seqZ 0 4) = true.
Proof. split; vm_compute; reflexivity. Qed.

Lemma sm4ed_step bs a x : 0 <= bs < 4 -> 0 <= a < 2 ^ 32 ->
  sm4ed_value bs a x = Z.lxor (sm4_L (place bs (tbl sm4_sbox (BY x bs)))) a.
Proof.
  refine (sm4_step sm4ed_word sm4_L bs a x sm4ed_value _ (fun y => proj1 (sm4_L_range y))
    (proj1 sm4_words_ok)).
  intros bs' a' b'. unfold sm4ed_value, sm4ed_word, BY. reflexivity.
Qed.
Lemma sm4ks_step bs a x : 0 <= bs < 4 -> 0 <= a < 2 ^ 32 ->
  sm4ks_value bs a x = Z.lxor (sm4_L' (place bs (tbl sm4_sbox (BY x bs)))) a.
Proof.
  refine (sm4_step sm4ks_word sm4_L' bs a x sm4ks_value _ (fun y => proj2 (sm4_L_range y))
    (proj2 sm4_words_ok)).
  intros bs' a' b'. unfold sm4ks_value, sm4ks_word, BY. reflexivity.
Qed.

(** Four steps that share their word, from steps that hold for 32-bit keys. *)
Lemma sm4_four step L k b : xor_linear L -> (forall y, 0 <= L y < 2 ^ 32) ->
  (forall bs a x, 0 <= bs < 4 -> 0 <= a < 2 ^ 32 ->
    step bs a x = Z.lxor (L (place bs (tbl sm4_sbox (BY x bs)))) a) ->
  0 <= k < 2 ^ 32 ->
  four_steps step k b b b b = Z.lxor k (L (sub_column sm4_sbox b b b b)).
Proof.
  intros HL Hr Hs Hk. unfold four_steps, sub_column.
  assert (R : forall bs a, 0 <= bs < 4 -> 0 <= a < 2 ^ 32 -> 0 <= step bs a b < 2 ^ 32)
    by (intros bs a Hbs Ha; rewrite Hs by done; by apply lxor_range).
  pose proof (R 0 k ltac:(lia) Hk) as R0. pose proof (R 1 _ ltac:(lia) R0) as R1.
  pose proof (R 2 _ ltac:(lia) R1) as R2. clear R.
  rewrite (Hs 3), (Hs 2), (Hs 1), (Hs 0) by (done || lia).
  rewrite linear_column by (try done; bytes; apply sm4_range, BY_range).
  apply Z.bits_inj'. intros i Hi. rewrite !Z.lxor_spec. btauto.
Qed.

Lemma sm4_columns k b : 0 <= k < 2 ^ 32 ->
  four_steps sm4ed_value k b b b b = Z.lxor k (sm4_L (sub_column sm4_sbox b b b b)) /\
  four_steps sm4ks_value k b b b b = Z.lxor k (sm4_L' (sub_column sm4_sbox b b b b)).
Proof.
  intros Hk. split.
  - exact (sm4_four sm4ed_value sm4_L k b (proj1 sm4_L_linear) (fun y => proj1 (sm4_L_range y))
      sm4ed_step Hk).
  - exact (sm4_four sm4ks_value sm4_L' k b (proj2 sm4_L_linear) (fun y => proj2 (sm4_L_range y))
      sm4ks_step Hk).
Qed.

(** ** SHA-512 on RV32 register pairs *)

Lemma ROR64_bit a n i : 0 <= a < 2 ^ 64 -> 0 < n < 64 -> 0 <= i < 64 ->
  Z.testbit (ROR64 a n) i = Z.testbit a (if i + n <? 64 then i + n else i + n - 64).
Proof.
  intros Ha Hn Hi. unfold ROR64. change (64 - 1) with (Z.ones 6).
  rewrite !Z.land_ones by lia. change (2 ^ 6) with 64.
  replace (- n mod 64) with (64 - n) by (apply (Z.mod_unique _ _ (-1)); lia).
  rewrite (Z.mod_small n) by lia.
  rewrite Z.lor_spec, wrap_testbit, Z.shiftl_spec, Z.shiftr_spec by lia.
  replace (i <? 64) with true by lia. cbn [andb]. destruct (Z.ltb_spec (i + n) 64).
  - rewrite Z.testbit_neg_r by lia. done.
  - rewrite (testbit_high 64 a (i + n)), orb_false_r by lia. f_equal. lia.
Qed.

(** A 64-bit value read from its halves. *)
Lemma halves_bit lo hi i : 0 <= lo < 2 ^ 32 -> 0 <= i ->
  Z.testbit (hi * 2 ^ 32 + lo) i = if i <? 32 then Z.testbit lo i else Z.testbit hi (i - 32).
Proof.
  intros Hlo Hi. rewrite <- lor_shiftl_add, Z.lor_spec, Z.shiftl_spec by lia.
  destruct (Z.ltb_spec i 32); [by rewrite Z.testbit_neg_r by lia|].
  by rewrite (testbit_high 32 lo), orb_false_r by lia.
Qed.

Ltac sha_bits :=
  repeat match goal with
  | |- context [?a <? ?b] => destruct (Z.ltb_spec a b); try lia
  end; cbn [andb orb]; rewrite ?andb_true_l, ?xorb_false_r, ?xorb_false_l;
  repeat match goal with
  | |- context [Z.testbit ?x ?j] =>
      first [ rewrite (Z.testbit_neg_r x j) by lia | rewrite (testbit_high 32 x j) by lia ]
  end;
  repeat match goal with
  | |- context [Z.testbit ?x ?j] =>
      match goal with |- context [Z.testbit x ?k] =>
        lazymatch j with k => fail | _ => replace k with j by lia end end
  end; try btauto.

(** The low or high half of a 64-bit function, from its bits. *)
Lemma half_eq f g base : (base = 0 \/ base = 32) ->
  (forall i, 0 <= i < 32 -> Z.testbit f i = Z.testbit g (i + base)) ->
  u32 f = u32 (Z.shiftr g base).
Proof.
  intros Hb H. apply Z.bits_inj'. intros i Hi. rewrite !wrap_testbit by lia.
  destruct (Z.ltb_spec i 32); [|done]. rewrite Z.shiftr_spec by lia. apply H. lia.
Qed.

Section sha512.
Context (lo hi : Z) (Hlo : 0 <= lo < 2 ^ 32) (Hhi : 0 <= hi < 2 ^ 32).
Let x := hi * 2 ^ 32 + lo.

Lemma x_range : 0 <= x < 2 ^ 64.
Proof using Hlo Hhi. unfold x. lia. Qed.

Ltac sha_half :=
  apply half_eq; [auto|]; intros i Hi; pose proof x_range;
  cbv beta delta [sha512sig0l_value sha512sig0h_value sha512sig0_value sha512sig1l_value
    sha512sig1h_value sha512sig1_value sha512sum0r_value sha512sum0_value sha512sum1r_value
    sha512sum1_value];
  rewrite !zext32_wrap, !(wrap_small 32) by done;
  rewrite !Z.lxor_spec, !ROR64_bit, ?wrap_testbit, ?Z.shiftr_spec, ?Z.shiftl_spec by lia;
  unfold x; rewrite !halves_bit by (repeat case_match; lia); sha_bits.

Lemma sha512sig0_halves :
  u32 (sha512sig0l_value lo hi) = u32 (Z.shiftr (sha512sig0_value x) 0) /\
  u32 (sha512sig0h_value hi lo) = u32 (Z.shiftr (sha512sig0_value x) 32).
Proof using Hlo Hhi. split; sha_half. Qed.

Lemma sha512sig1_halves :
  u32 (sha512sig1l_value lo hi) = u32 (Z.shiftr (sha512sig1_value x) 0) /\
  u32 (sha512sig1h_value hi lo) = u32 (Z.shiftr (sha512sig1_value x) 32).
Proof using Hlo Hhi. split; sha_half. Qed.

Lemma sha512sum0_halves :
  u32 (sha512sum0r_value lo hi) = u32 (Z.shiftr (sha512sum0_value x) 0) /\
  u32 (sha512sum0r_value hi lo) = u32 (Z.shiftr (sha512sum0_value x) 32).
Proof using Hlo Hhi. split; sha_half. Qed.

Lemma sha512sum1_halves :
  u32 (sha512sum1r_value lo hi) = u32 (Z.shiftr (sha512sum1_value x) 0) /\
  u32 (sha512sum1r_value hi lo) = u32 (Z.shiftr (sha512sum1_value x) 32).
Proof using Hlo Hhi. split; sha_half. Qed.
End sha512.

(** ** The AES-128 key schedule step *)

(** Four round-key words; [t] is the transformed last word. *)
Definition sub_word (x : Z) : Z :=
  column (tbl AES_ENC_SBOX (BY x 0)) (tbl AES_ENC_SBOX (BY x 1))
         (tbl AES_ENC_SBOX (BY x 2)) (tbl AES_ENC_SBOX (BY x 3)).
Definition rot_word (x : Z) : Z := column (BY x 1) (BY x 2) (BY x 3) (BY x 0).
Definition next_round_key (rcon w0 w1 w2 w3 : Z) : Z * Z * Z * Z :=
  let v0 := w0 ^! (sub_word (rot_word w3) ^! rcon) in
  let v1 := w1 ^! v0 in let v2 := w2 ^! v1 in let v3 := w3 ^! v2 in (v0, v1, v2, v3).

Lemma join_halves h l : 0 <= h < 2 ^ 32 -> 0 <= l < 2 ^ 32 ->
  Z.lor (u64 (Z.shiftl (u64 h) 32)) l = h * 2 ^ 32 + l.
Proof.
  intros Hh Hl. rewrite (wrap_small 64 h) by lia.
  rewrite wrap_small by (rewrite Z.shiftl_mul_pow2 by lia; lia). by apply lor_shiftl_add.
Qed.

Lemma split_halves h l : 0 <= h < 2 ^ 32 -> 0 <= l < 2 ^ 32 ->
  u32 (Z.shiftr (h * 2 ^ 32 + l) 32) = h /\ u32 (h * 2 ^ 32 + l) = l.
Proof.
  intros Hh Hl. rewrite Z.shiftr_div_pow2, Z.div_add_l, Z.div_small, Z.add_0_r by lia.
  rewrite (wrap_small 32 h) by done. split; [done|]. unfold wrap.
  rewrite Z.add_comm, Z_mod_plus_full. by apply Z.mod_small.
Qed.

Lemma ks2_halves h l h' l' : 0 <= h < 2 ^ 32 -> 0 <= l < 2 ^ 32 -> 0 <= h' < 2 ^ 32 -> 0 <= l' < 2 ^ 32 ->
  aes64ks2_value (h * 2 ^ 32 + l) (h' * 2 ^ 32 + l') =
  Z.lxor (Z.lxor h l') h' * 2 ^ 32 + Z.lxor h l'.
Proof.
  intros Hh Hl Hh' Hl'. unfold aes64ks2_value. cbv zeta.
  destruct (split_halves h l) as [-> _]; try done. destruct (split_halves h' l') as [-> ->]; try done.
  apply join_halves; repeat apply lxor_range; lia.
Qed.

Lemma rot_word_shift x : 0 <= x < 2 ^ 32 ->
  Z.lor (Z.shiftr x 8) (u32 (Z.shiftl x 24)) = rot_word x.
Proof.
  intros Hx. unfold rot_word.
  destruct (column_bytes (BY x 1) (BY x 2) (BY x 3) (BY x 0)) as (B0&B1&B2&B3); try apply BY_range.
  refine (bytes_ext 4 _ _ four_nonneg _ (column_range _ _ _ _) (fun k Hk => _)).
  { apply lor_range; [lia|apply shiftr_range; lia|by apply wrap_range]. }
  rewrite BY_lor. change 24 with (8 * 3).
  assert (Hs : BY (Z.shiftr x 8) k = BY x (k + 1)).
  { unfold BY. rewrite Z.shiftr_shiftr by lia. do 2 f_equal. lia. }
  assert (Hl : BY (u32 (Z.shiftl x (8 * 3))) k = if k =? 3 then BY x 0 else 0).
  { apply Z.bits_inj'. intros i Hi. rewrite BY_testbit, wrap_testbit, Z.shiftl_spec by lia.
    destruct (Z.eqb_spec k 3) as [->|].
    - rewrite BY_testbit by lia. destruct (Z.ltb_spec i 8); cbn [andb]; [|done].
      replace (i + 8 * 3 <? 32) with true by lia. cbn [andb]. f_equal. lia.
    - rewrite Z.bits_0. destruct (Z.ltb_spec i 8); cbn [andb]; [|done].
      rewrite Z.testbit_neg_r by lia. apply andb_false_r. }
  rewrite Hs, Hl. assert (H4 : BY x 4 = 0).
  { apply Z.bits_inj'. intros i Hi. rewrite BY_testbit, Z.bits_0, (testbit_high 32 x) by lia.
    apply andb_false_r. }
  destruct (index4 k Hk) as [->|[->|[->| ->]]];
    cbv beta iota delta [Z.eqb Pos.eqb]; rewrite ?Z.lor_0_r; [by rewrite B0|by rewrite B1|by rewrite B2|].
  change (3 + 1) with 4. by rewrite H4, Z.lor_0_l, B3.
Qed.

Lemma ks1i_halves rcon h l : 0 <= rcon < 10 -> 0 <= h < 2 ^ 32 -> 0 <= l < 2 ^ 32 ->
  aes64ks1i_value rcon (h * 2 ^ 32 + l) =
  (let t := sub_word (rot_word h) ^! tbl round_consts rcon in t * 2 ^ 32 + t) /\
  0 <= sub_word (rot_word h) ^! tbl round_consts rcon < 2 ^ 32.
Proof.
  intros Hr Hh Hl. assert (Ht : 0 <= sub_word (rot_word h) ^! tbl round_consts rcon < 2 ^ 32).
  { apply lxor_range; [lia|apply column_range|].
    assert (Hc : forallb (fun r => (0 <=? tbl round_consts r) && (tbl round_consts r <? 2 ^ 32))
      (seqZ 0 10) = true) by (vm_compute; reflexivity).
    rewrite forallb_forall in Hc.
    specialize (Hc rcon ltac:(apply list_elem_of_In, elem_of_seqZ; lia)). lia. }
  split; [|exact Ht]. cbv zeta. rewrite <- (join_halves _ _ Ht Ht).
  unfold aes64ks1i_value. cbv zeta. change 0xFFFFFFFF with (Z.ones 32). rewrite Z.land_ones by lia.
  fold (wrap 32 (Z.shiftr (h * 2 ^ 32 + l) 32)).
  rewrite wrap_wrap, (proj1 (split_halves h l Hh Hl)) by lia.
  replace (negb (rcon =? 10)) with true by (symmetry; apply negb_true_iff, Z.eqb_neq; lia).
  cbv iota beta. rewrite rot_word_shift by done. unfold sub_word, column, BY.
  reflexivity.
Qed.

Lemma key_schedule r w0 w1 w2 w3 : 0 <= r < 10 ->
  Forall (fun w => 0 <= w < 2 ^ 32) [w0; w1; w2; w3] ->
  let '(v0, v1, v2, v3) := next_round_key (tbl round_consts r) w0 w1 w2 w3 in
  let k01 := aes64ks2_value (aes64ks1i_value r (w3 * 2 ^ 32 + w2)) (w1 * 2 ^ 32 + w0) in
  k01 = v1 * 2 ^ 32 + v0 /\ aes64ks2_value k01 (w3 * 2 ^ 32 + w2) = v3 * 2 ^ 32 + v2.
Proof.
  intros Hr Hw. rewrite !Forall_cons_iff in Hw. destruct Hw as (H0&H1&H2&H3&_).
  unfold next_round_key. cbv zeta. destruct (ks1i_halves r w3 w2) as [-> Ht]; try done.
  cbv zeta. set (t := sub_word (rot_word w3) ^! tbl round_consts r) in *. clearbody t.
  rewrite ks2_halves by done.
  assert (E0 : Z.lxor t w0 = Z.lxor w0 t) by apply Z.lxor_comm. rewrite E0.
  assert (E1 : Z.lxor (Z.lxor w0 t) w1 = Z.lxor w1 (Z.lxor w0 t)) by apply Z.lxor_comm. rewrite E1.
  split; [done|]. rewrite ks2_halves by (done || (repeat apply lxor_range; lia)). f_equal; [f_equal|].
  - by rewrite (Z.lxor_comm _ w2), (Z.lxor_comm _ w3).
  - apply Z.lxor_comm.
Qed.

(** ** The instruction bodies *)

Record k_entry (W : Type) := KEntry {
  ke_src2 : bool;
  ke_req : state W -> bool;
  (** the value handed to [WRITE_RD], from the two source registers *)
  ke_value : Z -> Z -> Z;
  ke_body : M W unit
}.
Arguments KEntry {W}. Arguments ke_src2 {W}. Arguments ke_req {W}.
Arguments ke_value {W}. Arguments ke_body {W}.

Section table.
Context {W : Type} {E : env}.
Local Abbreviation on e := (fun s : state W => extension_enabled s e).
Local Abbreviation rv32_on e := (fun s : state W => (xlen =? 32) && extension_enabled s e).
Local Abbreviation rv64_on e := (fun s : state W => (xlen =? 64) && extension_enabled s e).
Local Abbreviation rv64_aes :=
  (fun s : state W => (xlen =? 64) && (extension_enabled s EXT_ZKND || extension_enabled s EXT_ZKNE)).
Local Abbreviation bs := (insn_bs insn).

Definition k_table : list (k_entry W) := [
  KEntry true (rv32_on EXT_ZKND) (fun a b => sext_xlen (aes32dsi_value bs a b)) aes32dsi;
  KEntry true (rv32_on EXT_ZKND) (fun a b => sext_xlen (aes32dsmi_value bs a b)) aes32dsmi;
  KEntry true (rv32_on EXT_ZKNE) (fun a b => sext_xlen (aes32esi_value bs a b)) aes32esi;
  KEntry true (rv32_on EXT_ZKNE) (fun a b => sext_xlen (aes32esmi_value bs a b)) aes32esmi;
  KEntry true (rv64_on EXT_ZKND) aes64ds_value aes64ds;
  KEntry true (rv64_on EXT_ZKND) aes64dsm_value aes64dsm;
  KEntry true (rv64_on EXT_ZKNE) aes64es_value aes64es;
  KEntry true (rv64_on EXT_ZKNE) aes64esm_value aes64esm;
  KEntry false (rv64_on EXT_ZKND) (fun a _ => aes64im_value a) aes64im;
  KEntry false (fun s => (xlen =? 64) && (extension_enabled s EXT_ZKND || extension_enabled s EXT_ZKNE)
      && (insn_rcon insn <=? 0xA)) (fun a _ => aes64ks1i_value (insn_rcon insn) a) aes64ks1i;
  KEntry true rv64_aes aes64ks2_value aes64ks2;
  KEntry false (on EXT_ZKNH) (fun a _ => sext32 (sha256sig0_value a)) sha256sig0;
  KEntry false (on EXT_ZKNH) (fun a _ => sext32 (sha256sig1_value a)) sha256sig1;
  KEntry false (on EXT_ZKNH) (fun a _ => sext32 (sha256sum0_value a)) sha256sum0;
  KEntry false (on EXT_ZKNH) (fun a _ => sext32 (sha256sum1_value a)) sha256sum1;
  KEntry false (rv64_on EXT_ZKNH) (fun a _ => sha512sig0_value a) sha512sig0;
  KEntry false (rv64_on EXT_ZKNH) (fun a _ => sha512sig1_value a) sha512sig1;
  KEntry false (rv64_on EXT_ZKNH) (fun a _ => sha512sum0_value a) sha512sum0;
  KEntry false (rv64_on EXT_ZKNH) (fun a _ => sha512sum1_value a) sha512sum1;
  KEntry true (rv32_on EXT_ZKNH) (fun a b => sext_xlen (sha512sig0h_value a b)) sha512sig0h;
  KEntry true (rv32_on EXT_ZKNH) (fun a b => sext_xlen (sha512sig0l_value a b)) sha512sig0l;
  KEntry true (rv32_on EXT_ZKNH) (fun a b => sext_xlen (sha512sig1h_value a b)) sha512sig1h;
  KEntry true (rv32_on EXT_ZKNH) (fun a b => sext_xlen (sha512sig1l_value a b)) sha512sig1l;
  KEntry true (rv32_on EXT_ZKNH) (fun a b => sext_xlen (sha512sum0r_value a b)) sha512sum0r;
  KEntry true (rv32_on EXT_ZKNH) (fun a b => sext_xlen (sha512sum1r_value a b)) sha512sum1r;
  KEntry false (on EXT_ZKSH) (fun a _ => sext32 (sm3p0_value a)) sm3p0;
  KEntry false (on EXT_ZKSH) (fun a _ => sext32 (sm3p1_value a)) sm3p1;
  KEntry true (on EXT_ZKSED) (fun a b => sext32 (sm4ed_value bs a b)) sm4ed;
  KEntry true (on EXT_ZKSED) (fun a b => sext32 (sm4ks_value bs a b)) sm4ks
].

Definition k_result (e : k_entry W) (s : state W) : Z :=
  u64 (ke_value e (regfile_get (XPR s) (insn_rs1 insn)) (regfile_get (XPR s) (insn_rs2 insn))).

Definition k_regs_ok (e : k_entry W) : bool :=
  reg_ok (insn_rd insn) && reg_ok (insn_rs1 insn) && (negb (ke_src2 e) || reg_ok (insn_rs2 insn)).

Definition implements_k (e : k_entry W) : Prop :=
  forall s, wf_state xlen s ->
    (if ke_req e s then canon xlen (k_result e s) else True) /\
    ke_body e s =
      if ke_req e s && k_regs_ok e
      then (inr tt, with_XPR (regfile_write true (insn_rd insn) (k_result e s) (XPR s)) s)
      else (inl (trap_illegal_instruction insn), s).

Lemma canon_64 x : xlen = 64 -> canon xlen (u64 x).
Proof using. intros ->. unfold canon. by rewrite swrap_wrap, wrap_swrap by lia. Qed.

Lemma canon_sext32 x : xlen = 32 \/ xlen = 64 -> canon xlen (u64 (sext32 x)).
Proof using.
  intros Hx. rewrite sext32_swrap. apply canon_signed32; [done|].
  pose proof (swrap_range 32 ltac:(lia) x). lia.
Qed.
End table.

Ltac k_canon Hx :=
  try exact I;
  first [ apply canon_sext_xlen; exact Hx | apply canon_sext32; exact Hx | apply canon_64; lia ].
Ltac k_run :=
  unfold k_regs_ok, k_result; cbn [ke_body ke_req ke_value ke_src2];
  match goal with |- ?f _ _ _ = _ => unfold f end;
  unfold WRITE_RD, RS1, RS2, require_rv64, require_rv32, require_extension, require_either_extension;
  cbv zeta; split_conditions;
  try match goal with |- context [insn_rcon insn <=? ?n] => destruct (insn_rcon insn <=? n) end;
  cbn [andb orb negb];
  repeat (progress (eval_body; use_conditions; cbn [andb orb negb])); reflexivity.
Ltac k_entry Hx :=
  intros s Hs; split;
  [ unfold k_result; cbn [ke_req ke_value];
    match goal with |- if ?c then _ else _ => destruct c eqn:?; [|exact I] end; k_canon Hx
  | k_run ].

Lemma k_table_ok {W : Type} {E : env} : xlen = 32 \/ xlen = 64 ->
  Forall (implements_k (W:=W)) k_table.
Proof.
  intros Hx. unfold k_table. repeat (apply Forall_cons_2; [k_entry Hx|]). by apply Forall_nil_2.
Qed.

Lemma mix_round lo hi : 0 <= lo < 2 ^ 64 -> 0 <= hi < 2 ^ 64 ->
  aes64ds_value (aes64im_value (aes64esm_value lo hi)) (aes64im_value (aes64esm_value hi lo)) = lo.
Proof.
  intros Hlo Hhi.
  assert (Hm : forall a b, aes64im_value (aes64esm_value a b) = aes64es_value a b).
  { intros a b. rewrite im_mix, esm_es. apply mix64_inverse.
    - exact (sub_bytes_range _ _ enc_range).
    - apply mix_range.
    - apply invmix_range.
    - intros c Hc. exact (proj1 (mix_inverse c Hc)). }
  rewrite !Hm. exact (proj1 (ds_es lo hi Hlo)).
Qed.

(** ** Properties *)

(** C33: The AES tables and macros are the standard's: the S-box is the affine
    image of inversion in GF(2^8) and the decryption table is its inverse on
    every byte, [AES_GFMUL] is multiplication modulo x^8+x^4+x^3+x+1, and
    [AES_INVMIXCOLUMN] and [AES_MIXCOLUMN] invert each other on every column. *)
Theorem aes_primitives_exact a b c : 0 <= a < 256 -> 0 <= b < 16 -> 0 <= c < 2 ^ 32 ->
  tbl AES_ENC_SBOX a = sbox_spec a /\
  tbl AES_DEC_SBOX (tbl AES_ENC_SBOX a) = a /\ tbl AES_ENC_SBOX (tbl AES_DEC_SBOX a) = a /\
  AES_GFMUL a b = gf_mul a b /\
  AES_INVMIXCOLUMN (AES_MIXCOLUMN c) = c /\ AES_MIXCOLUMN (AES_INVMIXCOLUMN c) = c.
Proof.
  intros Ha Hb Hc. destruct (sbox_correct a Ha) as (H1&H2&H3&_).
  exact (conj H1 (conj H2 (conj H3 (conj (gfmul_correct a b Ha Hb) (mix_inverse c Hc))))).
Qed.

(** The MixColumns example column of FIPS 197. *)
Lemma aes_primitives_exact_witness :
  tbl AES_DEC_SBOX (tbl AES_ENC_SBOX 0x53) = 0x53 /\ AES_INVMIXCOLUMN (AES_MIXCOLUMN 0x305dbfd4) = 0x305dbfd4.
Proof.
  destruct (aes_primitives_exact 0x53 3 0x305dbfd4 ltac:(lia) ltac:(lia) ltac:(lia))
    as (_&H1&_&_&H2&_). exact (conj H1 H2).
Defined.

(** C34: The RV64 AES round instructions: for every state given by its two
    halves, [aes64ds] undoes [aes64es] and conversely, [aes64ds] after
    [aes64im] undoes [aes64esm], and one [aes64ks1i] with two [aes64ks2]
    compute the next AES-128 round key. *)
Theorem aes64_rounds_exact lo hi r w0 w1 w2 w3 : 0 <= lo < 2 ^ 64 -> 0 <= hi < 2 ^ 64 ->
  0 <= r < 10 -> Forall (fun w => 0 <= w < 2 ^ 32) [w0; w1; w2; w3] ->
  aes64ds_value (aes64es_value lo hi) (aes64es_value hi lo) = lo /\
  aes64es_value (aes64ds_value lo hi) (aes64ds_value hi lo) = lo /\
  aes64ds_value (aes64im_value (aes64esm_value lo hi)) (aes64im_value (aes64esm_value hi lo)) = lo /\
  let '(v0, v1, v2, v3) := next_round_key (tbl round_consts r) w0 w1 w2 w3 in
  let k01 := aes64ks2_value (aes64ks1i_value r (w3 * 2 ^ 32 + w2)) (w1 * 2 ^ 32 + w0) in
  k01 = v1 * 2 ^ 32 + v0 /\ aes64ks2_value k01 (w3 * 2 ^ 32 + w2) = v3 * 2 ^ 32 + v2.
Proof.
  intros Hlo Hhi Hr Hw. destruct (ds_es lo hi Hlo) as [H1 H2].
  split; [exact H1|]. split; [exact H2|]. split; [exact (mix_round lo hi Hlo Hhi)|].
  exact (key_schedule r w0 w1 w2 w3 Hr Hw).
Qed.

Lemma aes64_rounds_exact_witness :
  aes64ds_value (aes64es_value 0x0123456789abcdef 0xfedcba9876543210)
    (aes64es_value 0xfedcba9876543210 0x0123456789abcdef) = 0x0123456789abcdef.
Proof.
  refine (proj1 (aes64_rounds_exact 0x0123456789abcdef 0xfedcba9876543210 0 0 0 0 0 _ _ _ _));
    try lia. repeat constructor; lia.
Defined.

(** Four RV32 AES byte instructions, one per byte of a column, accumulate
    the substituted (and mixed) column into the round key, for encryption and
    decryption, middle and last rounds; four [sm4ed] ([sm4ks]) accumulate the
    round function (key function) of SM4 on the byte-reversed word. *)
Theorem byte_steps_exact k c0 c1 c2 c3 b : 0 <= k < 2 ^ 32 ->
  four_steps aes32esmi_value k c0 c1 c2 c3 =
    Z.lxor k (AES_MIXCOLUMN (sub_column AES_ENC_SBOX c0 c1 c2 c3)) /\
  four_steps aes32esi_value k c0 c1 c2 c3 = Z.lxor k (sub_column AES_ENC_SBOX c0 c1 c2 c3) /\
  four_steps aes32dsmi_value k c0 c1 c2 c3 =
    Z.lxor k (AES_INVMIXCOLUMN (sub_column AES_DEC_SBOX c0 c1 c2 c3)) /\
  four_steps aes32dsi_value k c0 c1 c2 c3 = Z.lxor k (sub_column AES_DEC_SBOX c0 c1 c2 c3) /\
  four_steps sm4ed_value k b b b b = Z.lxor k (sm4_L (sub_column sm4_sbox b b b b)) /\
  four_steps sm4ks_value k b b b b = Z.lxor k (sm4_L' (sub_column sm4_sbox b b b b)).
Proof.
  intros Hk. destruct (aes32_columns k c0 c1 c2 c3) as (H1&H2&H3&H4).
  destruct (sm4_columns k b Hk) as [H5 H6]. exact (conj H1 (conj H2 (conj H3 (conj H4 (conj H5 H6))))).
Qed.

Lemma byte_steps_exact_witness :
  four_steps sm4ed_value 0x12345678 1 1 1 1 =
  Z.lxor 0x12345678 (sm4_L (sub_column sm4_sbox 1 1 1 1)).
Proof. apply (byte_steps_exact 0x12345678 0 0 0 0 1). lia. Defined.

(** C35: On RV32 the SHA-512 half instructions, given the two halves of a
    64-bit value, produce the low and the high half of what the RV64
    instruction produces on the whole value. *)
Theorem sha512_halves_exact lo hi : 0 <= lo < 2 ^ 32 -> 0 <= hi < 2 ^ 32 ->
  let x := hi * 2 ^ 32 + lo in
  let halves low high whole :=
    u32 low = u32 (Z.shiftr whole 0) /\ u32 high = u32 (Z.shiftr whole 32) in
  halves (sha512sig0l_value lo hi) (sha512sig0h_value hi lo) (sha512sig0_value x) /\
  halves (sha512sig1l_value lo hi) (sha512sig1h_value hi lo) (sha512sig1_value x) /\
  halves (sha512sum0r_value lo hi) (sha512sum0r_value hi lo) (sha512sum0_value x) /\
  halves (sha512sum1r_value lo hi) (sha512sum1r_value hi lo) (sha512sum1_value x).
Proof.
  intros Hlo Hhi x halves. exact (conj (sha512sig0_halves lo hi Hlo Hhi) (conj (sha512sig1_halves lo hi Hlo Hhi)
    (conj (sha512sum0_halves lo hi Hlo Hhi) (sha512sum1_halves lo hi Hlo Hhi)))).
Qed.

Lemma sha512_halves_exact_witness :
  u32 (sha512sum0r_value 0x01234567 0x89abcdef) =
  u32 (Z.shiftr (sha512sum0_value (0x89abcdef * 2 ^ 32 + 0x01234567)) 0).
Proof.
  exact (proj1 (proj1 (proj2 (proj2 (sha512_halves_exact 0x01234567 0x89abcdef
    ltac:(lia) ltac:(lia)))))).
Defined.


