(* ===== verification/CacheSim.v ===== *)
(** * The cache simulator of the memory tracer: [src/riscv/cachesim.h], [cachesim.cc]

    Set-associative caches ([cache_sim_t]) and fully associative ones
    ([fa_cache_sim_t]), with their pseudo-random replacement, statistics, and
    the chain of miss handlers.  Several caches may share one miss handler (the
    instruction and the data cache share the L2), so the caches live in a heap
    and a miss handler is an index into it.

    Printing (the log of misses, the statistics) and the parsing of the
    configuration string are not modelled. *)

From stdpp Require Import sorting.
From S2P Require Import Prelude.
Local Open Scope cint_scope.

(** ** Data *)

(** Class [lfsr_t]: a 32-bit Galois shift register. *)
Definition lfsr_next (reg : Z) : Z := Z.lxor (reg >>! 1) (u32 (- (reg &! 1)) &! 0xd0000001).

Definition VALID : Z := 2 ^ 63.
Definition DIRTY : Z := 2 ^ 62.

(** [tags] of [cache_sim_t] is an array of [sets * ways] words, that of
    [fa_cache_sim_t] a [std::map] from line numbers, kept here as its sequence
    of entries in key order. *)
Inductive tag_store :=
  | SA (tags : list Z)
  | FA (tags : list (Z * Z)).

Record stats_t := Stats {
  read_accesses : Z; read_misses : Z; bytes_read : Z;
  write_accesses : Z; write_misses : Z; bytes_written : Z;
  writebacks : Z
}.

Record cache_sim_t := CacheSim {
  lfsr : Z;
  miss_handler : option nat;
  sets : Z; ways : Z; linesz : Z; idx_shift : Z;
  tags : tag_store;
  stats : stats_t
}.

Definition with_tags (c : cache_sim_t) (t : tag_store) : cache_sim_t :=
  CacheSim (lfsr c) (miss_handler c) (sets c) (ways c) (linesz c) (idx_shift c) t (stats c).
Definition with_lfsr (c : cache_sim_t) (r : Z) : cache_sim_t :=
  CacheSim r (miss_handler c) (sets c) (ways c) (linesz c) (idx_shift c) (tags c) (stats c).
Definition with_stats (c : cache_sim_t) (s : stats_t) : cache_sim_t :=
  CacheSim (lfsr c) (miss_handler c) (sets c) (ways c) (linesz c) (idx_shift c) (tags c) s.
Definition set_miss_handler (c : cache_sim_t) (mh : nat) : cache_sim_t :=
  CacheSim (lfsr c) (Some mh) (sets c) (ways c) (linesz c) (idx_shift c) (tags c) (stats c).

(** ** Construction *)

(** The loop of [init] that counts the bits of the line size. *)
Fixpoint count_shift (fuel : nat) (x idx_shift : Z) : Z :=
  match fuel with
  | O => idx_shift
  | S fuel => if 1 <? x then count_shift fuel (x >>! 1) (idx_shift + 1) else idx_shift
  end.

(** [init]; [None] is the call of [help], which exits. *)
Definition init (fa : bool) (sets ways linesz : Z) : option cache_sim_t :=
  if (sets =? 0) || z2b (sets &! (sets -! 1)) then None else
  if (linesz <? 8) || z2b (linesz &! (linesz -! 1)) then None else
  Some (CacheSim 1 None sets ways linesz (count_shift 64 linesz 0)
    (if fa then FA [] else SA (replicate (Z.to_nat (sets *! ways)) 0))
    (Stats 0 0 0 0 0 0 0)).

(** [construct], from the three parsed numbers. *)
Definition construct (sets ways linesz : Z) : option cache_sim_t :=
  if (4 <? ways) && (sets =? 1) then init true 1 ways linesz else init false sets ways linesz.

(** ** Tags *)

Definition tag_at (l : list Z) (n : Z) : Z := nth (Z.to_nat n) l 0.

(** A pointer into [tags]: an index of the array or a key of the map. *)
Definition read_slot (c : cache_sim_t) (slot : Z) : Z :=
  match tags c with
  | SA l => tag_at l slot
  | FA m => match List.find (fun e => fst e =? slot) m with Some e => snd e | None => 0 end
  end.
Definition write_slot (c : cache_sim_t) (slot v : Z) : cache_sim_t :=
  with_tags c (match tags c with
    | SA l => SA (<[Z.to_nat slot := v]> l)
    | FA m => FA (map (fun e => if fst e =? slot then (fst e, v) else e) m)
    end).

Definition check_tag (c : cache_sim_t) (addr : Z) : option Z :=
  match tags c with
  | SA l =>
    let idx := (addr >>! idx_shift c) &! (sets c -! 1) in
    let tag := (addr >>! idx_shift c) |! VALID in
    option_map (fun i => idx * ways c + i)
      (List.find (fun i => tag =? (tag_at l (idx * ways c + i) &! ~! DIRTY)) (seqZ 0 (ways c)))
  | FA m =>
    option_map fst (List.find (fun e => fst e =? (addr >>! idx_shift c)) m)
  end.

(** [std::map::operator[]] on an absent key. *)
Fixpoint map_insert (k v : Z) (m : list (Z * Z)) : list (Z * Z) :=
  match m with
  | [] => [(k, v)]
  | e :: m' => if k <? fst e then (k, v) :: m else e :: map_insert k v m'
  end.

Definition victimize (c : cache_sim_t) (addr : Z) : Z * cache_sim_t :=
  match tags c with
  | SA l =>
    let idx := (addr >>! idx_shift c) &! (sets c -! 1) in
    let r := lfsr_next (lfsr c) in
    let way := r mod ways c in
    let victim := tag_at l (idx * ways c + way) in
    (victim, write_slot (with_lfsr c r) (idx * ways c + way) ((addr >>! idx_shift c) |! VALID))
  | FA m =>
    let '(old_tag, m, r) :=
      if Z.of_nat (length m) =? ways c then
        let r := lfsr_next (lfsr c) in
        let it := Z.to_nat (r mod ways c) in
        (snd (nth it m (0, 0)), take it m ++ drop (S it) m, r)
      else (0, m, lfsr c) in
    (old_tag, with_tags (with_lfsr c r)
       (FA (map_insert (addr >>! idx_shift c) ((addr >>! idx_shift c) |! VALID) m)))
  end.

(** ** Statistics *)

Definition count_access (store : bool) (bytes : Z) (c : cache_sim_t) : cache_sim_t :=
  let s := stats c in
  with_stats c (if store
    then Stats (read_accesses s) (read_misses s) (bytes_read s)
           (write_accesses s +! 1) (write_misses s) (bytes_written s +! bytes) (writebacks s)
    else Stats (read_accesses s +! 1) (read_misses s) (bytes_read s +! bytes)
           (write_accesses s) (write_misses s) (bytes_written s) (writebacks s)).
Definition count_miss (store : bool) (c : cache_sim_t) : cache_sim_t :=
  let s := stats c in
  with_stats c (if store
    then Stats (read_accesses s) (read_misses s) (bytes_read s)
           (write_accesses s) (write_misses s +! 1) (bytes_written s) (writebacks s)
    else Stats (read_accesses s) (read_misses s +! 1) (bytes_read s)
           (write_accesses s) (write_misses s) (bytes_written s) (writebacks s)).
Definition count_writeback (c : cache_sim_t) : cache_sim_t :=
  let s := stats c in
  with_stats c (Stats (read_accesses s) (read_misses s) (bytes_read s)
    (write_accesses s) (write_misses s) (bytes_written s) (writebacks s +! 1)).

(** ** Operations *)

Abbreviation heap := (list cache_sim_t).

(** [None] is a dereference of a null pointer, or no fuel: the recursion goes
    down the chain of miss handlers. *)
Fixpoint access (fuel : nat) (h : heap) (this : nat) (addr bytes : Z) (store : bool) : option heap :=
  match fuel with
  | O => None
  | S fuel =>
    c ← h !! this;
    let c := count_access store bytes c in
    match check_tag c addr with
    | Some hit_way =>
      Some (<[this := if store then write_slot c hit_way (read_slot c hit_way |! DIRTY) else c]> h)
    | None =>
      let '(victim, c) := victimize (count_miss store c) addr in
      let h := <[this := c]> h in
      h ← (if (victim &! (VALID |! DIRTY)) =? (VALID |! DIRTY) then
             let dirty_addr := (victim &! ~! (VALID |! DIRTY)) <<! idx_shift c in
             h ← match miss_handler c with
                 | Some mh => access fuel h mh dirty_addr (linesz c) true
                 | None => Some h
                 end;
             Some (alter count_writeback this h)
           else Some h);
      h ← match miss_handler c with
          | Some mh => access fuel h mh (addr &! ~! (linesz c -! 1)) (linesz c) false
          | None => Some h
          end;
      if store then
        c ← h !! this;
        slot ← check_tag c addr;
        Some (<[this := write_slot c slot (read_slot c slot |! DIRTY)]> h)
      else Some h
    end
  end.

(** The body of the loop of [clean_invalidate]. *)
Definition clean_invalidate_line (clean inval : bool) (c : cache_sim_t) (cur_addr : Z) : cache_sim_t :=
  match check_tag c cur_addr with
  | None => c
  | Some hit_way =>
    let c := if clean && z2b (read_slot c hit_way &! DIRTY)
             then write_slot (count_writeback c) hit_way (read_slot c hit_way &! ~! DIRTY)
             else c in
    if inval then write_slot c hit_way (read_slot c hit_way &! ~! VALID) else c
  end.

(** The addresses the loop visits. *)
Definition line_addrs (c : cache_sim_t) (addr bytes : Z) : list Z :=
  let start_addr := addr &! ~! (linesz c -! 1) in
  let end_addr := (((addr +! bytes) +! linesz c) -! 1) &! ~! (linesz c -! 1) in
  map (fun k => start_addr + k * linesz c) (seqZ 0 ((end_addr - start_addr) / linesz c)).

Fixpoint clean_invalidate (fuel : nat) (h : heap) (this : nat) (addr bytes : Z)
    (clean inval : bool) : option heap :=
  match fuel with
  | O => None
  | S fuel =>
    c ← h !! this;
    let c := fold_left (clean_invalidate_line clean inval) (line_addrs c addr bytes) c in
    let h := <[this := c]> h in
    match miss_handler c with
    | Some mh => clean_invalidate fuel h mh addr bytes clean inval
    | None => Some h
    end
  end.

(** ** The tracers [icache_sim_t] and [dcache_sim_t] *)

Inductive tracer_kind := Icache | Dcache.

(** [interested_in_range], for an access that is a fetch or not. *)
Definition interested_in_range (k : tracer_kind) (fetch : bool) : bool :=
  match k with Icache => fetch | Dcache => negb fetch end.

Definition trace (fuel : nat) (h : heap) (k : tracer_kind) (cache : nat) (addr bytes : Z)
    (fetch store : bool) : option heap :=
  if interested_in_range k fetch
  then access fuel h cache addr bytes (match k with Icache => false | Dcache => store end)
  else Some h.

(** ** Tag words *)

Definition valid (t : Z) : bool := Z.testbit t 63.
Definition dirty (t : Z) : bool := Z.testbit t 62.
Definition line_of (t : Z) : Z := t mod 2 ^ 62.

Lemma line_of_testbit t i : 0 <= i -> Z.testbit (line_of t) i = (i <? 62) && Z.testbit t i.
Proof.
  intros Hi. unfold line_of. destruct (Z.ltb_spec i 62).
  - by rewrite Z.mod_pow2_bits_low by lia.
  - by rewrite Z.mod_pow2_bits_high by lia.
Qed.

Lemma VALID_testbit i : 0 <= i -> Z.testbit VALID i = (63 =? i).
Proof. intros. unfold VALID. apply Z.pow2_bits_eqb. lia. Qed.
Lemma DIRTY_testbit i : 0 <= i -> Z.testbit DIRTY i = (62 =? i).
Proof. intros. unfold DIRTY. apply Z.pow2_bits_eqb. lia. Qed.

Ltac tag_bits := rewrite ?Z.land_spec, ?Z.lor_spec, ?wrap_testbit, ?lnot_spec', ?Z.lor_spec,
  ?VALID_testbit, ?DIRTY_testbit by lia.

Lemma tag_ext t u : 0 <= t < 2 ^ 64 -> 0 <= u < 2 ^ 64 ->
  line_of t = line_of u -> valid t = valid u -> dirty t = dirty u -> t = u.
Proof.
  intros Ht Hu Hl Hv Hd. apply Z.bits_inj'. intros i Hi.
  destruct (Z.lt_ge_cases i 62).
  - assert (E : Z.testbit (line_of t) i = Z.testbit (line_of u) i) by (by rewrite Hl).
    rewrite !line_of_testbit in E by lia. by replace (i <? 62) with true in E by lia.
  - destruct (Z.eq_dec i 62) as [->|]; [done|]. destruct (Z.eq_dec i 63) as [->|]; [done|].
    by rewrite !(testbit_high 64) by lia.
Qed.

(** The word [victimize] installs. *)
Lemma new_tag L : 0 <= L < 2 ^ 62 ->
  let t := L |! VALID in 0 <= t < 2 ^ 64 /\ valid t = true /\ dirty t = false /\ line_of t = L.
Proof.
  intros HL t. unfold t, valid, dirty. split; [apply lor_range; unfold VALID; lia|]. split_and!.
  - tag_bits. by rewrite orb_true_r.
  - tag_bits. by rewrite (testbit_high 62) by lia.
  - apply Z.bits_inj'. intros i Hi. rewrite line_of_testbit by lia. tag_bits.
    destruct (Z.ltb_spec i 62).
    + replace (63 =? i) with false by lia. by rewrite orb_false_r.
    + by rewrite (testbit_high 62) by lia.
Qed.

Lemma or_dirty_tag t : 0 <= t < 2 ^ 64 ->
  let u := t |! DIRTY in
  0 <= u < 2 ^ 64 /\ valid u = valid t /\ dirty u = true /\ line_of u = line_of t.
Proof.
  intros Ht u. unfold u, valid, dirty. split; [apply lor_range; unfold DIRTY; lia|]. split_and!.
  - tag_bits. by rewrite orb_false_r.
  - tag_bits. by rewrite orb_true_r.
  - apply Z.bits_inj'. intros i Hi. rewrite !line_of_testbit by lia. tag_bits.
    destruct (Z.ltb_spec i 62); [|done]. replace (62 =? i) with false by lia. by rewrite orb_false_r.
Qed.

Lemma and_not_dirty_tag t : 0 <= t < 2 ^ 64 ->
  let u := t &! ~! DIRTY in
  0 <= u < 2 ^ 64 /\ valid u = valid t /\ dirty u = false /\ line_of u = line_of t.
Proof.
  intros Ht u. unfold u, valid, dirty. split; [apply land_range; [lia|]; apply wrap_range; lia|]. split_and!.
  - tag_bits. simpl. by rewrite andb_true_r.
  - tag_bits. simpl. by rewrite andb_false_r.
  - apply Z.bits_inj'. intros i Hi. rewrite !line_of_testbit by lia. tag_bits.
    destruct (Z.ltb_spec i 62); [|done]. replace (62 =? i) with false by lia.
    replace (i <? 64) with true by lia. simpl. by rewrite andb_true_r.
Qed.

Lemma and_not_valid_tag t : 0 <= t < 2 ^ 64 ->
  let u := t &! ~! VALID in
  0 <= u < 2 ^ 64 /\ valid u = false /\ dirty u = dirty t /\ line_of u = line_of t.
Proof.
  intros Ht u. unfold u, valid, dirty. split; [apply land_range; [lia|]; apply wrap_range; lia|]. split_and!.
  - tag_bits. simpl. by rewrite andb_false_r.
  - tag_bits. simpl. by rewrite andb_true_r.
  - apply Z.bits_inj'. intros i Hi. rewrite !line_of_testbit by lia. tag_bits.
    destruct (Z.ltb_spec i 62); [|done]. replace (63 =? i) with false by lia.
    replace (i <? 64) with true by lia. simpl. by rewrite andb_true_r.
Qed.

(** The comparison of [cache_sim_t::check_tag]. *)
Lemma tag_match L t : 0 <= L < 2 ^ 62 -> 0 <= t < 2 ^ 64 ->
  ((L |! VALID) =? (t &! ~! DIRTY)) = valid t && (line_of t =? L).
Proof.
  intros HL Ht. destruct (new_tag L HL) as (R1 & V1 & D1 & E1).
  destruct (and_not_dirty_tag t Ht) as (R2 & V2 & D2 & E2). apply eq_true_iff_eq.
  rewrite andb_true_iff, !Z.eqb_eq. split.
  - intros E. rewrite E in V1, E1. by rewrite <- V2, <- E2.
  - intros [Hv Hl]. apply tag_ext; congruence.
Qed.

Lemma both_bits t : 0 <= t < 2 ^ 64 ->
  ((t &! (VALID |! DIRTY)) =? (VALID |! DIRTY)) = valid t && dirty t.
Proof.
  intros Ht. apply eq_true_iff_eq. rewrite andb_true_iff, Z.eqb_eq. unfold valid, dirty. split.
  - intros E. split; [assert (H : Z.testbit (VALID |! DIRTY) 63 = true) by reflexivity
                     |assert (H : Z.testbit (VALID |! DIRTY) 62 = true) by reflexivity];
      rewrite <- E, Z.land_spec in H; apply andb_true_iff in H as [H _]; exact H.
  - intros [Hv Hd]. apply Z.bits_inj'. intros i Hi. tag_bits.
    destruct (Z.eqb_spec 63 i) as [<-|]; [by rewrite Hv|].
    destruct (Z.eqb_spec 62 i) as [<-|]; [by rewrite Hd|]. apply andb_false_r.
Qed.

(** ** Well-formed caches *)

Record wf_geometry (c : cache_sim_t) : Prop := {
  wf_ways : 0 < ways c < 2 ^ 32;
  wf_shift : 3 <= idx_shift c < 64;
  wf_linesz : linesz c = 2 ^ idx_shift c;
  wf_sets : exists k, 0 <= k < 64 /\ sets c = 2 ^ k
}.

Definition entry_order (e e' : Z * Z) : Prop := fst e < fst e'.

Definition wf_tags (c : cache_sim_t) : Prop :=
  match tags c with
  | SA l =>
    Z.of_nat (length l) = sets c * ways c /\
    Forall (fun t => 0 <= t < 2 ^ 64) l /\
    (forall s, 0 <= s < sets c * ways c -> valid (tag_at l s) = true ->
       line_of (tag_at l s) mod sets c = s / ways c) /\
    (forall s s', 0 <= s < sets c * ways c -> 0 <= s' < sets c * ways c ->
       valid (tag_at l s) = true -> valid (tag_at l s') = true ->
       line_of (tag_at l s) = line_of (tag_at l s') -> s = s') /\
    (forall s, 0 <= s < sets c * ways c -> valid (tag_at l s) = true ->
       line_of (tag_at l s) * 2 ^ idx_shift c < 2 ^ 64)
  | FA m =>
    StronglySorted entry_order m /\ Z.of_nat (length m) <= ways c /\
    Forall (fun e => 0 <= fst e < 2 ^ 62 /\ 0 <= snd e < 2 ^ 64 /\ line_of (snd e) = fst e /\
              fst e * 2 ^ idx_shift c < 2 ^ 64) m
  end.

Definition wf_cache (c : cache_sim_t) : Prop := wf_geometry c /\ wf_tags c.

(** What the cache knows of a line: absent, or present and clean or dirty. *)
Definition status (c : cache_sim_t) (L : Z) : option bool :=
  option_map (fun s => dirty (read_slot c s)) (check_tag c (L * 2 ^ idx_shift c)).

(** A line is in a slot with a word. *)
Definition holds (c : cache_sim_t) (L s t : Z) : Prop :=
  match tags c with
  | SA l => 0 <= s < sets c * ways c /\ tag_at l s = t /\ valid t = true /\ line_of t = L
  | FA m => s = L /\ In (L, t) m
  end.

(** ** Lookups *)

Lemma tag_at_range l s : Forall (fun t => 0 <= t < 2 ^ 64) l -> 0 <= tag_at l s < 2 ^ 64.
Proof.
  intros Hl. unfold tag_at. destruct (nth_in_or_default (Z.to_nat s) l 0) as [Hi| ->]; [|lia].
  rewrite list.Forall_forall in Hl. by apply Hl, list_elem_of_In.
Qed.

Lemma tag_at_insert l n m v : 0 <= n < Z.of_nat (length l) -> 0 <= m ->
  tag_at (<[Z.to_nat n := v]> l) m = if n =? m then v else tag_at l m.
Proof.
  intros Hn Hm. unfold tag_at. rewrite !nth_lookup. destruct (Z.eqb_spec n m) as [->|].
  - by rewrite list_lookup_insert_eq by lia.
  - by rewrite list_lookup_insert_ne by lia.
Qed.

Lemma find_key m k e : StronglySorted entry_order m ->
  List.find (fun e => fst e =? k) m = Some e <-> In e m /\ fst e = k.
Proof.
  intros Hs. split.
  - intros Hf. apply find_some in Hf as [Hi Hk]. by apply Z.eqb_eq in Hk.
  - intros [Hi Hk]. destruct (List.find _ m) as [e'|] eqn:Ef.
    + apply find_some in Ef as [Hi' Hk']. apply Z.eqb_eq in Hk'. f_equal.
      clear -Hs Hi Hk Hi' Hk'. induction Hs as [|e0 m _ IH Hall]; [done|].
      rewrite list.Forall_forall in Hall. unfold entry_order in Hall.
      destruct Hi as [->|Hi], Hi' as [->|Hi']; [done|..|by apply IH].
      * apply list_elem_of_In in Hi'. specialize (Hall _ Hi'). lia.
      * apply list_elem_of_In in Hi. specialize (Hall _ Hi). lia.
    + pose proof (find_none _ _ Ef e Hi) as Hn. simpl in Hn. lia.
Qed.

Section lookups.
Context (c : cache_sim_t) (Hc : wf_cache c).

Lemma slot_index L s : 0 <= s < sets c * ways c -> L mod sets c = s / ways c ->
  exists i, 0 <= i < ways c /\ s = L mod sets c * ways c + i.
Proof using Hc.
  intros Hs E. destruct Hc as [[Hw _ _ _] _]. exists (s mod ways c).
  pose proof (Z.mod_pos_bound s (ways c) ltac:(lia)). pose proof (Z.div_mod s (ways c) ltac:(lia)).
  split; [done|]. rewrite E. lia.
Qed.

Lemma set_index addr : (addr >>! idx_shift c) &! (sets c -! 1) = (addr >>! idx_shift c) mod sets c.
Proof using Hc.
  destruct Hc as [[_ _ _ (k & Hk & Es)] _]. rewrite Es.
  assert (2 ^ k < 2 ^ 64) by (apply Z.pow_lt_mono_r; lia). assert (0 < 2 ^ k) by lia.
  rewrite wrap_small by lia.
  replace (2 ^ k - 1) with (Z.ones k) by (rewrite Z.ones_equiv; lia). by rewrite Z.land_ones by lia.
Qed.

Lemma line_range addr : 0 <= addr < 2 ^ 64 -> 0 <= addr >>! idx_shift c < 2 ^ 62.
Proof using Hc.
  intros Ha. destruct Hc as [[_ Hsh _ _] _]. rewrite Z.shiftr_div_pow2 by lia.
  assert (2 ^ 3 <= 2 ^ idx_shift c) by (apply Z.pow_le_mono_r; lia).
  split; [apply Z.div_pos; lia|]. apply Z.div_lt_upper_bound; [lia|]. change (2 ^ 3) with 8 in *. nia.
Qed.

Lemma sets_ways_bound idx way : 0 <= idx < sets c -> 0 <= way < ways c ->
  0 <= idx * ways c + way < sets c * ways c /\ (idx * ways c + way) / ways c = idx.
Proof using. intros. split; [nia|]. rewrite Z.div_add_l by lia. rewrite Z.div_small; lia. Qed.

Lemma check_tag_holds addr s : 0 <= addr < 2 ^ 64 ->
  check_tag c addr = Some s <-> exists t, holds c (addr >>! idx_shift c) s t.
Proof using Hc.
  intros Ha. pose proof (line_range addr Ha) as HL. pose proof set_index addr as Ei.
  unfold check_tag, holds. destruct Hc as [Hg Ht]. unfold wf_tags in Ht.
  destruct (tags c) as [l|m].
  - rewrite Ei. set (L := addr >>! idx_shift c) in *. destruct Ht as (Hlen & Hr & Hset & Hinj & Hbd).
    destruct Hg as [Hw _ _ (k & Hk & Es)].
    assert (HLm : 0 <= L mod sets c < sets c) by (apply Z.mod_pos_bound; rewrite Es; lia).
    split.
    + intros E. destruct (List.find _ _) as [i|] eqn:Ef; [|discriminate]. simpl in E.
      injection E as <-. apply find_some in Ef as [Hi Hm]. apply list_elem_of_In, elem_of_seqZ in Hi.
      rewrite tag_match in Hm by (done || by apply tag_at_range).
      apply andb_true_iff in Hm as [Hv Hm]. apply Z.eqb_eq in Hm. eexists. split; [nia|]. eauto.
    + intros (t & Hs & Et & Hv & Hl). rewrite <- Et in Hv, Hl.
      destruct (slot_index L s Hs) as (i & Hi & Esl); [by rewrite <- Hl; apply Hset|].
      destruct (List.find _ _) as [j|] eqn:Ef.
      * apply find_some in Ef as [Hj Hm]. apply list_elem_of_In, elem_of_seqZ in Hj.
        rewrite tag_match in Hm by (done || by apply tag_at_range).
        apply andb_true_iff in Hm as [Hv' Hm]. apply Z.eqb_eq in Hm. simpl. f_equal.
        apply Hinj; try done; [nia|congruence].
      * apply find_none with (x := i) in Ef; [|apply list_elem_of_In, elem_of_seqZ; lia].
        rewrite tag_match in Ef by (done || by apply tag_at_range).
        rewrite <- Esl, Hv, Hl, Z.eqb_refl in Ef. discriminate.
  - destruct Ht as (Hs & _ & _). split.
    + intros E. destruct (List.find _ _) as [e|] eqn:Ef; [|discriminate]. injection E as <-.
      apply find_key in Ef as [Hi Hk]; [|done]. exists (snd e). split; [done|].
      rewrite <- Hk. by destruct e.
    + intros (t & -> & Hi). pose proof (proj2 (find_key m (addr >>! idx_shift c) (addr >>! idx_shift c, t) Hs)
        (conj Hi eq_refl)) as Ef. by rewrite Ef.
Qed.

Lemma holds_read L s t : holds c L s t -> read_slot c s = t.
Proof using Hc.
  unfold holds, read_slot. destruct Hc as [_ Ht]. unfold wf_tags in Ht.
  destruct (tags c) as [l|m]; [by intros (_ & -> & _)|]. intros [-> Hi]. destruct Ht as (Hs & _ & _).
  by rewrite (proj2 (find_key m L (L, t) Hs) (conj Hi eq_refl)).
Qed.

Lemma holds_unique L s t s' t' : holds c L s t -> holds c L s' t' -> s = s' /\ t = t'.
Proof using Hc.
  intros H H'. assert (s = s') as <-.
  { unfold holds in *. destruct Hc as [_ Ht]. unfold wf_tags in Ht. destruct (tags c) as [l|m].
    - destruct Ht as (_ & _ & _ & Hinj & _). destruct H as (?&<-&?&?), H' as (?&<-&?&?).
      apply Hinj; congruence.
    - destruct H, H'. congruence. }
  split; [done|]. apply holds_read in H, H'. congruence.
Qed.

Lemma holds_tag L s t : holds c L s t -> 0 <= t < 2 ^ 64 /\ line_of t = L.
Proof using Hc.
  unfold holds. destruct Hc as [_ Ht]. unfold wf_tags in Ht. destruct (tags c) as [l|m].
  - intros (_ & <- & _ & E). split; [|done]. destruct Ht as (_ & Hr & _). by apply tag_at_range.
  - intros [-> Hi]. destruct Ht as (_ & _ & Hf). rewrite list.Forall_forall in Hf.
    apply list_elem_of_In, Hf in Hi. simpl in Hi. tauto.
Qed.

Definition valid_line (L : Z) : Prop := 0 <= L /\ L * 2 ^ idx_shift c < 2 ^ 64.

Lemma valid_line_shift L : valid_line L -> (L * 2 ^ idx_shift c) >>! idx_shift c = L.
Proof using Hc.
  intros _. destruct Hc as [[_ Hsh _ _] _]. rewrite Z.shiftr_div_pow2 by lia. apply Z.div_mul. lia.
Qed.

Lemma addr_valid_line addr : 0 <= addr < 2 ^ 64 -> valid_line (addr >>! idx_shift c).
Proof using Hc.
  intros Ha. destruct Hc as [[_ Hsh _ _] _]. unfold valid_line. rewrite Z.shiftr_div_pow2 by lia.
  split; [apply Z.div_pos; lia|]. pose proof (Z.mul_div_le addr (2 ^ idx_shift c) ltac:(lia)). lia.
Qed.

Lemma status_Some L d : valid_line L -> status c L = Some d <-> exists s t, holds c L s t /\ dirty t = d.
Proof using Hc.
  intros HL. unfold status.
  assert (Ha : 0 <= L * 2 ^ idx_shift c < 2 ^ 64) by (unfold valid_line in HL; nia).
  split.
  - intros E. destruct (check_tag c _) as [s|] eqn:Ec; [|discriminate]. injection E as <-.
    apply check_tag_holds in Ec as [t Ht]; [|done]. rewrite valid_line_shift in Ht by done.
    exists s, t. split; [done|]. by rewrite (holds_read _ _ _ Ht).
  - intros (s & t & Ht & <-).
    assert (Ec : check_tag c (L * 2 ^ idx_shift c) = Some s).
    { apply check_tag_holds; [done|]. exists t. by rewrite valid_line_shift. }
    rewrite Ec. simpl. by rewrite (holds_read _ _ _ Ht).
Qed.

Lemma status_None L : valid_line L -> status c L = None <-> ~ exists s t, holds c L s t.
Proof using Hc.
  intros HL. destruct (status c L) as [d|] eqn:E.
  - split; [done|]. intros Hn. destruct Hn. apply status_Some in E as (s & t & H & _); eauto.
  - split; [|done]. intros _ (s & t & H).
    assert (status c L = Some (dirty t)) by (apply status_Some; eauto). congruence.
Qed.
End lookups.

(** Two caches that hold a line alike agree on it. *)
Lemma status_ext c c' L : wf_cache c -> wf_cache c' -> valid_line c L -> valid_line c' L ->
  (forall t, (exists s, holds c L s t) <-> (exists s, holds c' L s t)) -> status c' L = status c L.
Proof.
  intros Hc Hc' HL HL' Hx. destruct (status c L) as [d|] eqn:E.
  - apply (status_Some c Hc L d HL) in E as (s & t & Ht & Hd). apply (status_Some c' Hc' L d HL').
    destruct (proj1 (Hx t) (ex_intro _ s Ht)) as [s' H']. eauto.
  - apply (status_None c Hc L HL) in E. apply (status_None c' Hc' L HL'). intros (s & t & Ht).
    apply E. destruct (proj2 (Hx t) (ex_intro _ s Ht)) as [s' H']. eauto.
Qed.

(** ** Updates *)

Definition is_fa (c : cache_sim_t) : bool := match tags c with FA _ => true | SA _ => false end.

Lemma map_write_entries m k v : StronglySorted entry_order m ->
  StronglySorted entry_order (map (fun e => if fst e =? k then (fst e, v) else e) m).
Proof.
  induction 1 as [|e m Hs IH Hall]; simpl; [constructor|]. constructor; [done|].
  rewrite list.Forall_forall in Hall |- *. intros x Hx. apply list_elem_of_In, in_map_iff in Hx as (y & <- & Hy).
  apply list_elem_of_In, Hall in Hy. unfold entry_order in *.
  destruct (fst e =? k), (fst y =? k); done.
Qed.

Section updates.
Context (c : cache_sim_t) (Hc : wf_cache c).

Lemma write_slot_spec L s t t' : holds c L s t -> 0 <= t' < 2 ^ 64 -> line_of t' = L ->
  wf_cache (write_slot c s t') /\
  forall L' s' u, holds (write_slot c s t') L' s' u <->
    if L' =? L then s' = s /\ u = t' /\ (is_fa c || valid t') = true else holds c L' s' u.
Proof using Hc.
  intros Hh Ht' Hl'. pose proof (holds_tag c Hc L s t Hh) as [Hrt Hlt].
  unfold write_slot, wf_cache, wf_tags, holds, is_fa in *. simpl.
  destruct Hc as [Hg Ht]. unfold wf_tags in Ht. destruct (tags c) as [l|m]; simpl.
  - destruct Hh as (Hs & Et & Hv & HL). destruct Ht as (Hlen & Hr & Hset & Hinj & Hbd).
    assert (Hat : forall n, 0 <= n -> tag_at (<[Z.to_nat s := t']> l) n = if s =? n then t' else tag_at l n).
    { intros n Hn. by rewrite tag_at_insert by lia. }
    split.
    + split; [by destruct Hg|]. rewrite length_insert. split; [done|]. split; [by apply Forall_insert|]. split.
      * intros n Hn. rewrite Hat by lia. destruct (Z.eqb_spec s n) as [<-|]; [|by apply Hset].
        intros _. rewrite Hl', <- HL, <- Et. apply Hset; [done|]. by rewrite Et.
      * split; [|intros n Hn; rewrite Hat by lia; destruct (Z.eqb_spec s n) as [<-|]; [|by apply Hbd];
                 intros _; rewrite Hl', <- HL, <- Et; apply Hbd; [done|by rewrite Et]].
        intros n n' Hn Hn'. rewrite !Hat by lia.
        destruct (Z.eqb_spec s n) as [<-|], (Z.eqb_spec s n') as [<-|]; [done|..].
        -- intros _ Hv' E. apply Hinj; try done; [by rewrite Et|]. rewrite Et. congruence.
        -- intros Hv' _ E. apply Hinj; try done; [by rewrite Et|]. rewrite Et. congruence.
        -- by apply Hinj.
    + intros L' s' u. destruct (Z.eqb_spec L' L) as [->|Hne]; cbn [orb].
      * split.
        -- intros (Hs' & Hu & Hvu & Hlu). rewrite Hat in Hu by lia.
           destruct (Z.eqb_spec s s') as [<-|Hn]; [by subst u|]. destruct Hn.
           apply Hinj; [done|done|by rewrite Et|by rewrite Hu|rewrite Et, Hu; congruence].
        -- intros (-> & -> & Hvt). rewrite Hat, Z.eqb_refl by lia. done.
      * split.
        -- intros (Hs' & Hu & Hvu & Hlu). rewrite Hat in Hu by lia.
           destruct (Z.eqb_spec s s') as [<-|]; [congruence|done].
        -- intros (Hs' & Hu & Hvu & Hlu). split; [done|]. rewrite Hat by lia.
           destruct (Z.eqb_spec s s') as [<-|]; [congruence|done].
  - destruct Hh as [-> Hi]. destruct Ht as (Hs & Hlen & Hf). split.
    + split; [by destruct Hg|]. split; [by apply map_write_entries|]. split; [by rewrite length_map|].
      rewrite list.Forall_forall in Hf |- *. intros x Hx.
      apply list_elem_of_In, in_map_iff in Hx as (y & <- & Hy). apply list_elem_of_In, Hf in Hy.
      destruct (Z.eqb_spec (fst y) L); [|done]. simpl. split; [tauto|]. split; [done|]. split; [congruence|tauto].
    + intros L' s' u. rewrite in_map_iff. destruct (Z.eqb_spec L' L) as [->|Hne]; cbn [orb].
      * split.
        -- intros (-> & y & E & Hy). destruct (Z.eqb_spec (fst y) L); [|destruct y; simpl in *; congruence].
           injection E as _ <-. done.
        -- intros (-> & -> & _). split; [done|]. exists (L, t). simpl. by rewrite Z.eqb_refl.
      * split.
        -- intros (-> & y & E & Hy). split; [done|].
           destruct (Z.eqb_spec (fst y) L); [destruct y; simpl in *; congruence|]. by rewrite <- E.
        -- intros (-> & Hy). split; [done|]. exists (L', u). simpl.
           by destruct (Z.eqb_spec L' L).
Qed.

Lemma map_insert_In m k v e : In e (map_insert k v m) <-> e = (k, v) \/ In e m.
Proof using.
  induction m as [|e0 m IH]; simpl; [intuition|]. destruct (k <? fst e0); simpl; [intuition|].
  rewrite IH. tauto.
Qed.

Lemma map_insert_sorted m k v : StronglySorted entry_order m -> (forall e, In e m -> fst e <> k) ->
  StronglySorted entry_order (map_insert k v m) /\ length (map_insert k v m) = S (length m).
Proof using.
  induction 1 as [|e0 m Hs IH Hall]; intros Hn; simpl; [by repeat constructor|].
  rewrite list.Forall_forall in Hall. destruct (Z.ltb_spec k (fst e0)).
  - split; [|done]. constructor; [constructor; [done|by apply list.Forall_forall]|].
    apply list.Forall_forall. intros x Hx. apply list_elem_of_In in Hx as [<-|Hx]; [done|].
    apply list_elem_of_In, Hall in Hx. unfold entry_order in *. simpl. lia.
  - destruct IH as [IHs IHl]; [intros e He; apply Hn; by right|]. split; [|simpl; lia].
    constructor; [done|]. apply list.Forall_forall. intros x Hx.
    apply list_elem_of_In, map_insert_In in Hx as [->|Hx].
    + unfold entry_order. simpl. specialize (Hn e0 (or_introl eq_refl)). lia.
    + by apply Hall, list_elem_of_In.
Qed.

(** The line that leaves the cache when [addr] is brought in. *)
Definition evicted (addr : Z) : option Z :=
  let v := fst (victimize c addr) in
  match tags c with
  | SA _ => if valid v then Some (line_of v) else None
  | FA m => if Z.of_nat (length m) =? ways c then Some (line_of v) else None
  end.

Lemma victimize_spec addr : 0 <= addr < 2 ^ 64 -> check_tag c addr = None ->
  let L := addr >>! idx_shift c in
  let '(v, c') := victimize c addr in
  wf_cache c' /\ 0 <= v < 2 ^ 64 /\
  (forall E, evicted addr = Some E -> line_of v = E /\ exists s, holds c E s v) /\
  (evicted addr = None -> valid v = false) /\
  forall L' , (L' = L -> exists s, forall s' u, holds c' L' s' u <-> s' = s /\ u = (L |! VALID)) /\
    (L' <> L -> forall s' u, holds c' L' s' u <-> evicted addr <> Some L' /\ holds c L' s' u).
Proof using Hc.
  intros Ha Hmiss L.
  assert (Habs : forall s t, ~ holds c L s t).
  { intros s t H. assert (check_tag c addr = Some s) by (apply (check_tag_holds c Hc); eauto). congruence. }
  clear Hmiss. pose proof (line_range c Hc addr Ha) as HL. fold L in HL.
  destruct (addr_valid_line c Hc addr Ha) as [_ HLb]. fold L in HLb.
  destruct (new_tag L HL) as (Rn & Vn & Dn & Ln). pose proof (set_index c Hc addr) as Ei. fold L in Ei.
  unfold evicted, victimize. fold L. rewrite Ei. pose proof Hc as [Hg Ht].
  unfold wf_tags in Ht. unfold holds in Habs |- *. destruct (tags c) as [l|m] eqn:Etags.
  - destruct Ht as (Hlen & Hr & Hset & Hinj & Hbd). set (r := lfsr_next (lfsr c)).
    set (s := L mod sets c * ways c + r mod ways c). cbn [fst].
    destruct Hg as [Hw Hsh Hlz (k & Hk & Es)].
    destruct (sets_ways_bound c (L mod sets c) (r mod ways c)) as [Hsb Hsd];
      [apply Z.mod_pos_bound; rewrite Es; lia|apply Z.mod_pos_bound; lia|]. fold s in Hsb, Hsd.
    assert (Hat : forall n, 0 <= n ->
      tag_at (<[Z.to_nat s := L |! VALID]> l) n = if s =? n then L |! VALID else tag_at l n).
    { intros n Hn. by rewrite tag_at_insert by lia. }
    assert (Hno : forall n, 0 <= n < sets c * ways c -> valid (tag_at l n) = true ->
      line_of (tag_at l n) <> L).
    { intros n Hn Hv E. apply (Habs n (tag_at l n)). done. }
    unfold write_slot, wf_cache, wf_tags. simpl. rewrite Etags. split_and!.
    + constructor; [done|done|done|by exists k].
    + by rewrite length_insert.
    + by apply Forall_insert.
    + intros n Hn. rewrite Hat by lia. destruct (Z.eqb_spec s n) as [<-|]; [|by apply Hset].
      intros _. by rewrite Ln, Hsd.
    + intros n n' Hn Hn'. rewrite !Hat by lia.
      destruct (Z.eqb_spec s n) as [<-|], (Z.eqb_spec s n') as [<-|]; [done|..]; rewrite ?Ln.
      * intros _ Hv E. by destruct (Hno n').
      * intros Hv _ E. by destruct (Hno n).
      * by apply Hinj.
    + intros n Hn. rewrite Hat by lia. destruct (Z.eqb_spec s n) as [<-|]; [|by apply Hbd].
      intros _. by rewrite Ln.
    + by apply tag_at_range.
    + by apply tag_at_range.
    + intros E HE. destruct (valid (tag_at l s)) eqn:Hv; [|discriminate]. injection HE as <-.
      split; [done|]. by exists s.
    + by destruct (valid (tag_at l s)).
    + intros L'. split.
      * intros ->. exists s. intros s' u. split.
        -- intros (Hs' & Hu & Hvu & Hlu). rewrite Hat in Hu by lia.
           destruct (Z.eqb_spec s s') as [<-|]; [done|]. subst u. by destruct (Hno s').
        -- intros [-> ->]. by rewrite Hat, Z.eqb_refl by lia.
      * intros Hne s' u. split.
        -- intros (Hs' & Hu & Hvu & Hlu). rewrite Hat in Hu by lia.
           destruct (Z.eqb_spec s s') as [<-|Hn]; [congruence|]. split; [|done].
           destruct (valid (tag_at l s)) eqn:Hv; [|done]. intros [= E]. apply Hn.
           apply Hinj; congruence.
        -- intros (He & Hs' & Hu & Hvu & Hlu). split; [done|]. rewrite Hat by lia.
           destruct (Z.eqb_spec s s') as [<-|Hn]; [|done]. rewrite Hu, Hvu, Hlu in He. done.
  - destruct Ht as (Hs & Hlen & Hf).
    assert (Hno : forall e, In e m -> fst e <> L).
    { intros e He E. apply (Habs L (snd e)). split; [done|]. rewrite <- E. by destruct e. }
    destruct (Z.eqb_spec (Z.of_nat (length m)) (ways c)) as [Hfull|Hnf]; cbn [fst].
    + set (it := Z.to_nat (lfsr_next (lfsr c) mod ways c)).
      assert (Hit : (it < length m)%nat).
      { unfold it. destruct Hg as [Hw _ _ _].
        pose proof (Z.mod_pos_bound (lfsr_next (lfsr c)) (ways c) ltac:(lia)). lia. }
      destruct (lookup_lt_is_Some_2 m it Hit) as [e He]. rewrite (nth_lookup_Some _ _ _ _ He).
      pose proof (take_drop_middle m it e He) as Em. set (m1 := take it m) in *.
      set (m2 := drop (S it) m) in *.
      assert (Hin : forall x, In x (m1 ++ m2) <-> In x m /\ fst x <> fst e).
      { intros x. rewrite <- Em in Hs |- *. apply StronglySorted_app in Hs as (Hx & _ & Hs2).
        apply StronglySorted_inv in Hs2 as [_ H2]. rewrite list.Forall_forall in H2.
        rewrite !in_app_iff. simpl. split.
        - intros [H|H]; (split; [tauto|]).
          + assert (entry_order x e); [|unfold entry_order in *; lia].
            apply Hx; [by apply list_elem_of_In|by left].
          + assert (entry_order e x); [|unfold entry_order in *; lia]. by apply H2, list_elem_of_In.
        - intros [[H|[<-|H]] Hne]; [tauto|done|tauto]. }
      assert (Hs12 : StronglySorted entry_order (m1 ++ m2)).
      { rewrite <- Em in Hs. apply StronglySorted_app in Hs as (Hx & H1 & H2).
        apply StronglySorted_inv in H2 as [H2 _]. apply StronglySorted_app. split_and!; try done.
        intros x y Hx1 Hy. apply Hx; [done|by right]. }
      assert (Hem : In e m) by (apply list_elem_of_In; by eapply list_elem_of_lookup_2).
      destruct (map_insert_sorted (m1 ++ m2) L (L |! VALID) Hs12) as [Hsi Hli].
      { intros x Hx. apply Hin in Hx as [Hx _]. by apply Hno. }
      assert (Hle : S (length (m1 ++ m2)) = length m).
      { rewrite <- Em. rewrite !length_app. simpl. lia. }
      rewrite list.Forall_forall in Hf. pose proof (Hf e (proj2 (list_elem_of_In _ _) Hem)) as (He1 & He2 & He3 & He4).
      unfold wf_cache, wf_tags. simpl. split_and!; try done; try tauto; try lia; try (by destruct Hg).
      * rewrite list.Forall_forall. intros x Hx.
        apply list_elem_of_In, map_insert_In in Hx as [->|Hx]; [by simpl|].
        apply Hin in Hx as [Hx _]. by apply Hf, list_elem_of_In.
      * intros E [= <-]. split; [done|]. exists (line_of (snd e)). split; [done|].
        rewrite He3. by destruct e.
      * intros L'. split.
        -- intros ->. exists L. intros s' u. rewrite map_insert_In. split.
           ++ intros [-> [[= ->]|Hx]]; [done|]. apply Hin in Hx as [Hx _]. by destruct (Hno _ Hx).
           ++ intros [-> ->]. split; [done|]. by left.
        -- intros Hne s' u. rewrite map_insert_In, Hin. simpl. split.
           ++ intros [-> [[= E]|[Hx Hxe]]]; [congruence|]. split; [|done]. rewrite He3. congruence.
           ++ intros (HE & -> & Hx). split; [done|]. right. split; [done|]. rewrite He3 in HE. congruence.
    + destruct (map_insert_sorted m L (L |! VALID) Hs Hno) as [Hsi Hli].
      unfold wf_cache, wf_tags. simpl. split_and!; try done; try lia; try (by destruct Hg).
      * rewrite list.Forall_forall in Hf |- *. intros x Hx.
        apply list_elem_of_In, map_insert_In in Hx as [->|Hx]; [by simpl|].
        by apply Hf, list_elem_of_In.
      * intros L'. split.
        -- intros ->. exists L. intros s' u. rewrite map_insert_In. split.
           ++ intros [-> [[= ->]|Hx]]; [done|]. by destruct (Hno _ Hx).
           ++ intros [-> ->]. split; [done|]. by left.
        -- intros Hne s' u. rewrite map_insert_In. split.
           ++ intros [-> [[= E]|Hx]]; [congruence|done].
           ++ intros (_ & -> & Hx). split; [done|]. by right.
Qed.
End updates.

(** ** One access, at one level

    The same steps as [access], with the requests to the miss handler returned
    instead of performed. *)

Definition request : Type := Z * Z * bool.

Definition access_local (c : cache_sim_t) (addr bytes : Z) (store : bool) : cache_sim_t * list request :=
  let c := count_access store bytes c in
  match check_tag c addr with
  | Some hit_way => (if store then write_slot c hit_way (read_slot c hit_way |! DIRTY) else c, [])
  | None =>
    let '(victim, c) := victimize (count_miss store c) addr in
    let wb := (victim &! (VALID |! DIRTY)) =? (VALID |! DIRTY) in
    let c := if wb then count_writeback c else c in
    let reqs := (if wb then [((victim &! ~! (VALID |! DIRTY)) <<! idx_shift c, linesz c, true)] else [])
                ++ [(addr &! ~! (linesz c -! 1), linesz c, false)] in
    (if store then
       match check_tag c addr with
       | Some slot => write_slot c slot (read_slot c slot |! DIRTY)
       | None => c
       end
     else c, reqs)
  end.

(** The abstract cache: which lines are present and dirty. *)
Definition hit (c : cache_sim_t) (L : Z) : bool := bool_decide (is_Some (status c L)).

Definition status_after (c : cache_sim_t) (addr : Z) (store : bool) (L' : Z) : option bool :=
  let L := addr >>! idx_shift c in
  if L' =? L then Some (store || default false (status c L))
  else if negb (hit c L) && bool_decide (evicted c addr = Some L') then None
  else status c L'.

Definition requests_after (c : cache_sim_t) (addr : Z) : list request :=
  let L := addr >>! idx_shift c in
  if hit c L then []
  else match evicted c addr with
       | Some E => if default false (status c E) then [(E * 2 ^ idx_shift c, linesz c, true)] else []
       | None => []
       end ++ [(L * 2 ^ idx_shift c, linesz c, false)].

(** Every present line is valid; for set-associative caches this is the meaning
    of presence. *)
Definition all_valid (c : cache_sim_t) : Prop :=
  forall L s t, holds c L s t -> valid t = true.

Lemma sa_all_valid c : is_fa c = false -> all_valid c.
Proof.
  unfold is_fa, all_valid, holds. destruct (tags c); [|done]. intros _ L s t (_ & _ & H & _). done.
Qed.

Section with_stats.
Context (c : cache_sim_t) (x : stats_t).

Lemma wf_with_stats : wf_cache c -> wf_cache (with_stats c x).
Proof using. intros [[????] Ht]. by split. Qed.
Lemma check_tag_with_stats addr : check_tag (with_stats c x) addr = check_tag c addr.
Proof using. done. Qed.
Lemma holds_with_stats L s t : holds (with_stats c x) L s t <-> holds c L s t.
Proof using. done. Qed.
Lemma victimize_with_stats addr :
  victimize (with_stats c x) addr = (fst (victimize c addr), with_stats (snd (victimize c addr)) x).
Proof using.
  unfold victimize, with_stats. cbn [tags idx_shift sets ways lfsr].
  destruct (tags c) as [l|m] eqn:E; [unfold write_slot; simpl; by rewrite E|].
  by destruct (Z.of_nat (length m) =? ways c).
Qed.
Lemma evicted_with_stats addr : evicted (with_stats c x) addr = evicted c addr.
Proof using. unfold evicted. rewrite victimize_with_stats. done. Qed.
End with_stats.

Lemma victimize_geometry c addr :
  let c' := snd (victimize c addr) in
  idx_shift c' = idx_shift c /\ linesz c' = linesz c /\ miss_handler c' = miss_handler c /\
  sets c' = sets c /\ ways c' = ways c /\ stats c' = stats c.
Proof.
  unfold victimize. destruct (tags c) as [l|m]; [done|]. by destruct (Z.of_nat (length m) =? ways c).
Qed.

Section access_one.
Context (c : cache_sim_t) (addr : Z) (Hc : wf_cache c) (Ha : 0 <= addr < 2 ^ 64).
Let L := addr >>! idx_shift c.

Lemma hit_check : hit c L = bool_decide (is_Some (check_tag c addr)).
Proof using Hc Ha.
  unfold hit. apply bool_decide_ext.
  pose proof (addr_valid_line c Hc addr Ha) as HL. fold L in HL. split.
  - intros [d Hd]. apply (status_Some c Hc L d HL) in Hd as (s & t & Hh & _).
    exists s. apply (check_tag_holds c Hc addr s Ha). eauto.
  - intros [s Hs]. apply (check_tag_holds c Hc addr s Ha) in Hs as [t Ht].
    exists (dirty t). apply (status_Some c Hc L _ HL). eauto.
Qed.

(** Marking the line of the access dirty. *)
Lemma mark_dirty s t : holds c L s t ->
  let c' := write_slot c s (read_slot c s |! DIRTY) in
  wf_cache c' /\ (all_valid c -> all_valid c') /\
  forall L', valid_line c L' -> status c' L' = if L' =? L then Some true else status c L'.
Proof using Hc Ha.
  intros Hh c'. unfold c'. rewrite (holds_read c Hc L s t Hh).
  destruct (holds_tag c Hc L s t Hh) as [Ht Hl]. destruct (or_dirty_tag t Ht) as (Hr & Hv & Hd & Hl').
  assert (Hln : line_of (t |! DIRTY) = L) by (rewrite Hl'; exact Hl).
  destruct (write_slot_spec c Hc L s t (t |! DIRTY) Hh Hr Hln) as [Hw Hx].
  assert (Hvx : (is_fa c || valid (t |! DIRTY)) = true).
  { rewrite Hv. unfold is_fa. unfold holds in Hh. destruct (tags c); [|done]. by destruct Hh as (_&_&->&_). }
  split; [done|]. split.
  - intros Hall L' s' u Hu. apply Hx in Hu. destruct (L' =? L); [|by eapply Hall].
    destruct Hu as (_ & -> & _). rewrite Hv. by eapply Hall.
  - intros L' HL'. destruct (Z.eqb_spec L' L) as [->|Hne].
    + apply (status_Some _ Hw L true HL'). exists s, (t |! DIRTY). split; [|done].
      apply Hx. by rewrite Z.eqb_refl.
    + apply status_ext; try done. intros u. split; intros [s' Hs']; exists s'.
      * apply Hx. by replace (L' =? L) with false by lia.
      * apply Hx in Hs'. by replace (L' =? L) with false in Hs' by lia.
Qed.
End access_one.

Lemma holds_valid_line c L s t : wf_cache c -> holds c L s t -> valid_line c L.
Proof.
  intros [Hg Ht] Hh. unfold valid_line, holds, wf_tags in *. destruct (tags c) as [l|m].
  - destruct Hh as (Hs & Et & Hv & <-). destruct Ht as (_ & _ & _ & _ & Hb). rewrite <- Et in *.
    split; [unfold line_of; apply Z.mod_pos_bound; lia|by apply Hb].
  - destruct Hh as [-> Hi]. destruct Ht as (_ & _ & Hf). rewrite list.Forall_forall in Hf.
    apply list_elem_of_In, Hf in Hi. simpl in Hi. lia.
Qed.

Section access_miss.
Context (c : cache_sim_t) (addr : Z) (Hc : wf_cache c) (Ha : 0 <= addr < 2 ^ 64).
Context (Hm : check_tag c addr = None) (Hall : all_valid c).
Let L := addr >>! idx_shift c.

Lemma miss_status :
  let c' := snd (victimize c addr) in
  wf_cache c' /\ all_valid c' /\ check_tag c' addr <> None /\
  forall L', valid_line c L' -> status c' L' =
    if L' =? L then Some false
    else if bool_decide (evicted c addr = Some L') then None else status c L'.
Proof using Hc Ha Hm Hall.
  pose proof (victimize_spec c Hc addr Ha Hm) as Hs. cbv zeta in Hs. fold L in Hs.
  destruct (victimize_geometry c addr) as (Gs & _). destruct (victimize c addr) as [v c']. simpl in *.
  destruct Hs as (Hw & Hv & _ & _ & Hx). destruct (Hx L) as [HL _]. destruct (HL eq_refl) as [s0 HL0].
  destruct (new_tag L (line_range c Hc addr Ha)) as (_ & Vn & Dn & _).
  split; [done|]. split; [|split].
  - intros L' s t Ht. destruct (Z.eq_dec L' L) as [->|Hne].
    + apply HL0 in Ht as [_ ->]. done.
    + apply (Hx L') in Ht as [_ Ht]; [|done]. by eapply Hall.
  - intros Hn. assert (check_tag c' addr = Some s0); [|congruence].
    apply (check_tag_holds c' Hw addr s0 Ha). exists (L |! VALID). rewrite Gs. by apply HL0.
  - intros L' HL'. assert (HL'' : valid_line c' L') by (unfold valid_line; by rewrite Gs).
    destruct (Z.eqb_spec L' L) as [->|Hne].
    + apply (status_Some c' Hw L false HL''). exists s0, (L |! VALID). split; [by apply HL0|done].
    + destruct (Hx L') as [_ Hx']. specialize (Hx' Hne). destruct (bool_decide_reflect (evicted c addr = Some L')).
      * apply (status_None c' Hw L' HL''). intros (s & t & Ht). by apply Hx' in Ht as [? _].
      * apply status_ext; try done. intros t. split; intros [s Hs]; exists s; [by apply Hx'|].
        by apply Hx' in Hs as [_ ?].
Qed.

(** The write-back goes to the line that leaves, exactly when it is dirty. *)
Lemma miss_writeback : let v := fst (victimize c addr) in
  ((v &! (VALID |! DIRTY)) =? (VALID |! DIRTY)) =
    (match evicted c addr with Some E => default false (status c E) | None => false end) /\
  forall E, evicted c addr = Some E ->
    (v &! ~! (VALID |! DIRTY)) <<! idx_shift c = E * 2 ^ idx_shift c.
Proof using Hc Ha Hm Hall.
  pose proof (victimize_spec c Hc addr Ha Hm) as Hs. cbv zeta in Hs. fold L in Hs.
  destruct (victimize c addr) as [v c'] eqn:Ev. cbn [fst] in *.
  destruct Hs as (_ & Hv & Hsome & Hnone & _). rewrite both_bits by done. split.
  - destruct (evicted c addr) as [E|] eqn:Ee.
    + destruct (Hsome E eq_refl) as [_ [s Hs]].
      assert (Est : status c E = Some (dirty v)).
      { apply (status_Some c Hc E _ (holds_valid_line c E s v Hc Hs)). eauto. }
      rewrite Est, (Hall E s v Hs). done.
    + by rewrite Hnone.
  - intros E Ee. destruct (Hsome E Ee) as [El [s Hs]].
    destruct (holds_valid_line c E s v Hc Hs) as [HE0 HE1].
    assert (Em : v &! ~! (VALID |! DIRTY) = E).
    { rewrite <- El. apply Z.bits_inj'. intros i Hi. rewrite line_of_testbit by lia. tag_bits.
      destruct (Z.ltb_spec i 62).
      - replace (63 =? i) with false by lia. replace (62 =? i) with false by lia.
        replace (i <? 64) with true by lia. simpl. by rewrite andb_true_r.
      - destruct (Z.eq_dec i 62) as [->|]; [simpl; by rewrite andb_false_r|].
        destruct (Z.eq_dec i 63) as [->|]; [simpl; by rewrite andb_false_r|].
        by rewrite (testbit_high 64) by lia. }
    rewrite Em. destruct Hc as [[_ Hsh _ _] _]. rewrite Z.shiftl_mul_pow2 by lia.
    apply wrap_small. nia.
Qed.
End access_miss.

Lemma line_base c addr : wf_geometry c -> 0 <= addr < 2 ^ 64 ->
  addr &! ~! (linesz c -! 1) = (addr >>! idx_shift c) * 2 ^ idx_shift c.
Proof.
  intros [_ Hsh El _] Ha. rewrite El. assert (2 ^ idx_shift c < 2 ^ 64) by (apply Z.pow_lt_mono_r; lia).
  assert (0 < 2 ^ idx_shift c) by lia. rewrite (wrap_small 64 (2 ^ idx_shift c - 1)) by lia.
  replace (2 ^ idx_shift c - 1) with (Z.ones (idx_shift c)) by (rewrite Z.ones_equiv; lia).
  rewrite Z.shiftr_div_pow2, <- Z.shiftr_div_pow2, <- Z.shiftl_mul_pow2 by lia.
  apply Z.bits_inj'. intros i Hi.
  rewrite Z.land_spec, wrap_testbit, lnot_spec', Z.shiftl_spec, Z.testbit_ones_nonneg by lia.
  destruct (Z.ltb_spec i (idx_shift c)).
  - rewrite (Z.testbit_neg_r _ (i - idx_shift c)) by lia. simpl. by rewrite !andb_false_r.
  - rewrite Z.shiftr_spec by lia. replace (i - idx_shift c + idx_shift c) with i by lia. simpl.
    destruct (Z.ltb_spec i 64); [by rewrite !andb_true_r|].
    simpl. rewrite andb_false_r. symmetry. by apply (testbit_high 64).
Qed.

Lemma count_writeback_same (b : bool) c : let c' := if b then count_writeback c else c in
  (wf_cache c -> wf_cache c') /\ (all_valid c -> all_valid c') /\ (forall L, status c' L = status c L) /\
  (forall a, check_tag c' a = check_tag c a) /\ (forall s, read_slot c' s = read_slot c s) /\
  idx_shift c' = idx_shift c /\ linesz c' = linesz c /\ (forall L s t, holds c' L s t <-> holds c L s t).
Proof. destruct b; [|done]. split; [apply wf_with_stats|done]. Qed.

Lemma access_local_spec c addr bytes store :
  wf_cache c -> all_valid c -> 0 <= addr < 2 ^ 64 ->
  let '(c', reqs) := access_local c addr bytes store in
  wf_cache c' /\ all_valid c' /\ reqs = requests_after c addr /\
  forall L, valid_line c L -> status c' L = status_after c addr store L.
Proof.
  intros Hc Hall Ha. unfold access_local, requests_after, status_after.
  set (c0 := count_access store bytes c). set (L := addr >>! idx_shift c).
  assert (Hc0 : wf_cache c0) by (by apply wf_with_stats).
  pose proof (hit_check c addr Hc Ha) as Hhit. fold L in Hhit. rewrite Hhit.
  change (check_tag c0 addr) with (check_tag c addr).
  destruct (check_tag c addr) as [s|] eqn:Ec; simpl.
  - destruct (proj1 (check_tag_holds c0 Hc0 addr s Ha) Ec) as [t Ht].
    destruct store.
    + destruct (mark_dirty c0 addr Hc0 Ha s t Ht) as (Hw & Hv & Hs). split; [done|]. split; [by apply Hv|].
      split; [done|]. exact Hs.
    + split; [done|]. split; [done|]. split; [done|]. intros L' HL'. change (status c0 L') with (status c L').
      destruct (Z.eqb_spec L' L) as [->|]; [|done].
      destruct (holds_tag c0 Hc0 _ s t Ht). assert (E : status c L = Some (dirty t)).
      { apply (status_Some c Hc L _ HL'). exists s, t. done. }
      by rewrite E.
  - assert (Hst : status c L = None).
    { unfold hit in Hhit. apply bool_decide_eq_false in Hhit. by apply eq_None_not_Some. }
    rewrite Hst. cbn [default].
    assert (Ev2 : exists x, victimize (count_miss store c0) addr =
      (fst (victimize c addr), with_stats (snd (victimize c addr)) x)).
    { eexists. unfold c0, count_miss, count_access. rewrite !victimize_with_stats. reflexivity. }
    destruct Ev2 as [x Ev2]. rewrite Ev2.
    destruct (miss_status c addr Hc Ha Ec Hall) as (Hw & Hv & Hct & Hs).
    destruct (miss_writeback c addr Hc Ha Ec Hall) as (Hwb & Hda).
    destruct (victimize_geometry c addr) as (Gs & Gl & _). destruct (victimize c addr) as [v c1] eqn:Ev.
    cbn [fst snd] in *. rewrite Hwb.
    set (c2 := with_stats c1 x).
    assert (Hw2 : wf_cache c2) by (by apply wf_with_stats).
    set (wb := match evicted c addr with Some E => default false (status c E) | None => false end).
    destruct (count_writeback_same wb c2) as (W3 & V3 & S3 & C3 & R3 & I3 & Z3 & H3).
    set (c3 := if wb then count_writeback c2 else c2) in *. specialize (W3 Hw2).
    specialize (V3 Hv). rewrite I3, Z3. change (idx_shift c2) with (idx_shift c1).
    change (linesz c2) with (linesz c1). rewrite Gs, Gl. rewrite (line_base c addr (proj1 Hc) Ha). fold L.
    assert (Hreq : (if wb then [((v &! ~! (VALID |! DIRTY)) <<! idx_shift c, linesz c, true)] else [])
        ++ [(L * 2 ^ idx_shift c, linesz c, false)] =
      match evicted c addr with
      | Some E => if default false (status c E) then [(E * 2 ^ idx_shift c, linesz c, true)] else []
      | None => []
      end ++ [(L * 2 ^ idx_shift c, linesz c, false)]).
    { unfold wb. destruct (evicted c addr) as [E|]; [|done]. rewrite (Hda E eq_refl). done. }
    assert (Hv3 : forall L', valid_line c L' -> valid_line c3 L').
    { intros L' H. unfold valid_line. rewrite I3. change (idx_shift c2) with (idx_shift c1). by rewrite Gs. }
    destruct store.
    + rewrite C3. change (check_tag c2 addr) with (check_tag c1 addr).
      destruct (check_tag c1 addr) as [s|] eqn:E1; [|done].
      assert (E3 : check_tag c3 addr = Some s) by (rewrite C3; exact E1).
      destruct (proj1 (check_tag_holds c3 W3 addr s Ha) E3) as [t Ht].
      destruct (mark_dirty c3 addr W3 Ha s t Ht) as (Hw4 & Hv4 & Hs4).
      split; [done|]. split; [by apply Hv4|]. split; [exact Hreq|]. intros L' HL'.
      rewrite (Hs4 L' (Hv3 L' HL')), I3. change (idx_shift c2) with (idx_shift c1). rewrite Gs. fold L.
      destruct (L' =? L) eqn:E; [done|]. rewrite S3. change (status c2 L') with (status c1 L').
      rewrite Hs by done. fold L. by rewrite E.
    + split; [done|]. split; [done|]. split; [exact Hreq|]. intros L' HL'. rewrite S3.
      change (status c2 L') with (status c1 L'). rewrite Hs by done. fold L. by destruct (L' =? L).
Qed.

(** ** The chain of miss handlers *)

(** Miss handlers are earlier in the heap, so the chains end. *)
Definition wf_heap (h : heap) : Prop :=
  forall i c, h !! i = Some c ->
    wf_cache c /\ all_valid c /\ forall m, miss_handler c = Some m -> (m < i)%nat.

Definition request_ok (r : request) : Prop := 0 <= fst (fst r) < 2 ^ 64.

Fixpoint send (fuel : nat) (mh : nat) (reqs : list request) (h : heap) : option heap :=
  match reqs with
  | [] => Some h
  | (a, b, s) :: reqs => h ← access fuel h mh a b s; send fuel mh reqs h
  end.
Definition send_opt (fuel : nat) (mh : option nat) (reqs : list request) (h : heap) : option heap :=
  match mh with Some mh => send fuel mh reqs h | None => Some h end.

Lemma access_local_geometry c addr bytes store :
  miss_handler (fst (access_local c addr bytes store)) = miss_handler c.
Proof.
  unfold access_local. destruct (check_tag _ _); [by destruct store|].
  destruct (victimize_geometry (count_miss store (count_access store bytes c)) addr) as (_&_&E&_).
  destruct (victimize _ _) as [v c1]. simpl in E. destruct (_ =? _); destruct store; simpl;
    try destruct (check_tag _ _); exact E.
Qed.

Lemma requests_ok c addr : 0 <= addr < 2 ^ 64 -> wf_cache c -> all_valid c ->
  Forall request_ok (snd (access_local c addr 0 false)).
Proof.
  intros Ha Hc Hall. unfold access_local. destruct (check_tag _ _); [by apply Forall_nil_2|].
  destruct (victimize _ _) as [v c1]. cbn [snd].
  assert (H1 : forall x b s, request_ok (wrap 64 x, b, s)) by (intros; apply wrap_range; lia).
  assert (H2 : forall x y b s, request_ok (x &! ~! y, b, s)).
  { intros. unfold request_ok. cbn [fst]. apply land_range; [lia|]. apply wrap_range. lia. }
  apply Forall_app. split; [|apply Forall_cons_2; [apply H2|apply Forall_nil_2]].
  destruct ((v &! (VALID |! DIRTY)) =? (VALID |! DIRTY));
    [apply Forall_cons_2; [apply H1|apply Forall_nil_2]|apply Forall_nil_2].
Qed.

Lemma access_local_requests c addr bytes store :
  snd (access_local c addr bytes store) = snd (access_local c addr 0 false).
Proof.
  unfold access_local, count_access. rewrite !check_tag_with_stats.
  destruct (check_tag c addr); [done|]. unfold count_miss. rewrite !victimize_with_stats.
  cbn [snd]. by destruct (_ =? _).
Qed.

Lemma insert_middle (h1 h2 : heap) x y : <[length h1 := y]> (h1 ++ x :: h2) = h1 ++ y :: h2.
Proof. rewrite <- (Nat.add_0_r (length h1)). by rewrite insert_app_r. Qed.
Lemma alter_middle g (h1 h2 : heap) x : alter g (length h1) (h1 ++ x :: h2) = h1 ++ g x :: h2.
Proof. rewrite <- (Nat.add_0_r (length h1)). by rewrite alter_app_r. Qed.
Lemma lookup_middle (h1 h2 : heap) x : (h1 ++ x :: h2) !! length h1 = Some x.
Proof. by apply list_lookup_middle. Qed.

Lemma wf_heap_app h1 h2 : wf_heap (h1 ++ h2) -> wf_heap h1.
Proof. intros H i c Hi. apply (H i). by apply lookup_app_l_Some. Qed.

(** The heaps reached from [g1], whatever comes after it, satisfy the contract:
    only [g1] changes. *)
Definition runs (run : heap -> option heap) (g1 g1' : heap) : Prop :=
  wf_heap g1' /\ length g1' = length g1 /\ forall g2, run (g1 ++ g2) = Some (g1' ++ g2).

Lemma send_single fuel mh g a b s :
  match mh with Some m => access fuel g m a b s | None => Some g end = send_opt fuel mh [(a, b, s)] g.
Proof. destruct mh; [|done]. simpl. by destruct (access _ _ _ _ _ _). Qed.

Lemma send_opt_app fuel mh r1 r2 g :
  send_opt fuel mh (r1 ++ r2) g = (g' ← send_opt fuel mh r1 g; send_opt fuel mh r2 g').
Proof.
  destruct mh as [m|]; [|done]. simpl. revert g. induction r1 as [|[[a b] s] r1 IH]; intros g; [done|].
  simpl. destruct (access _ _ _ _ _ _); [apply IH|done].
Qed.

Lemma bind_some {A B} (x : A) (k : A -> option B) : (Some x ≫= k) = k x.
Proof. done. Qed.

(** After [victimize] the line is found: the pointer of the last step of [access]
    is not null. *)
Lemma miss_checked c addr bytes store : wf_cache c -> 0 <= addr < 2 ^ 64 ->
  check_tag (count_access store bytes c) addr = None ->
  let '(v, c1) := victimize (count_miss store (count_access store bytes c)) addr in
  let wb := (v &! (VALID |! DIRTY)) =? (VALID |! DIRTY) in
  check_tag (if wb then count_writeback c1 else c1) addr <> None.
Proof.
  intros Hc Ha Ec. set (c0 := count_miss store (count_access store bytes c)).
  assert (Hc0 : wf_cache c0) by (by do 2 apply wf_with_stats).
  pose proof (victimize_spec c0 Hc0 addr Ha Ec) as Hs. cbv zeta in Hs.
  destruct (victimize_geometry c0 addr) as (Gs & _).
  destruct (victimize c0 addr) as [v c1]. cbn [snd] in Gs. cbv zeta.
  assert (Hf : check_tag c1 addr <> None).
  { destruct Hs as (Hw & _ & _ & _ & Hx). destruct (Hx (addr >>! idx_shift c0)) as [Hx1 _].
    destruct (Hx1 eq_refl) as [s Hs]. intros Hn.
    assert (check_tag c1 addr = Some s); [|congruence].
    apply (check_tag_holds c1 Hw addr s Ha). eexists. rewrite Gs. by apply Hs. }
  by destruct (_ =? _).
Qed.

Section chain.
Context (f : nat).
(** The contract of the earlier caches, for recursive calls with fuel [f]. *)
Context (IH : forall g1 m a b s, wf_heap g1 -> (m < length g1)%nat -> (m < f)%nat -> 0 <= a < 2 ^ 64 ->
  exists g1', runs (fun g => access f g m a b s) g1 g1').

Lemma send_runs mh reqs g1 : Forall request_ok reqs -> wf_heap g1 ->
  (forall m, mh = Some m -> (m < length g1)%nat /\ (m < f)%nat) ->
  exists g1', runs (send_opt f mh reqs) g1 g1'.
Proof using IH.
  intros Hr. revert g1. destruct mh as [m|]; [|by intros g1; exists g1]. simpl.
  induction Hr as [|[[a b] s] reqs Hok _ IHr]; intros g1 Hg Hm; [by exists g1|].
  destruct (Hm m eq_refl) as [Hm1 Hm2].
  destruct (IH g1 m a b s Hg Hm1 Hm2 Hok) as (g' & W & L & R).
  destruct (IHr g' W) as (g'' & W' & L' & R'). { rewrite L. done. }
  exists g''. split; [done|]. split; [congruence|]. intros g2. simpl. rewrite R. simpl. apply R'.
Qed.

Lemma access_runs g1 c addr bytes store : wf_heap (g1 ++ [c]) -> (length g1 <= f)%nat ->
  0 <= addr < 2 ^ 64 ->
  let '(c', reqs) := access_local c addr bytes store in
  exists g1', runs (send_opt f (miss_handler c) reqs) g1 g1' /\
    forall g2, access (S f) (g1 ++ c :: g2) (length g1) addr bytes store = Some (g1' ++ c' :: g2).
Proof using IH.
  intros Hh Hf Ha. destruct (Hh (length g1) c (lookup_middle g1 [] c)) as (Hc & Hall & Hmh).
  pose proof (wf_heap_app _ _ Hh) as Hg.
  pose proof (requests_ok c addr Ha Hc Hall) as Hok. rewrite <- (access_local_requests c addr bytes store) in Hok.
  pose proof (access_local_spec c addr bytes store Hc Hall Ha) as Hspec.
  assert (Hm : forall m, miss_handler c = Some m -> (m < length g1)%nat /\ (m < f)%nat).
  { intros m Em. specialize (Hmh m Em). lia. }
  clear Hmh Hh. unfold access_local in *.
  destruct (check_tag (count_access store bytes c) addr) as [s|] eqn:Ec.
  { exists g1. split; [split; [done|]; split; [done|]; intros; by destruct (miss_handler c)|].
    intros g2. cbn [access]. rewrite lookup_middle. cbn [mbind option_bind]. rewrite Ec.
    by rewrite insert_middle. }
  destruct (victimize_geometry (count_miss store (count_access store bytes c)) addr) as (_ & _ & Gm & _).
  change (miss_handler (count_miss _ _)) with (miss_handler c) in Gm.
  destruct (victimize (count_miss store (count_access store bytes c)) addr) as [v c1] eqn:Ev. cbn [snd fst] in *.
  set (wb := (v &! (VALID |! DIRTY)) =? (VALID |! DIRTY)) in *.
  set (c2 := if wb then count_writeback c1 else c1) in *.
  assert (Ec2 : idx_shift c2 = idx_shift c1 /\ linesz c2 = linesz c1) by (unfold c2; by destruct wb).
  destruct Ec2 as [Ei El]. rewrite Ei, El in *.
  set (r1 := if wb then _ else []) in *. set (r2 := [(addr &! _, _, false)]) in *.
  apply Forall_app in Hok as [Hok1 Hok2].
  destruct (send_runs (miss_handler c) r1 g1 Hok1 Hg Hm) as (ga & Wa & La & Ra).
  destruct (send_runs (miss_handler c) r2 ga Hok2 Wa) as (gb & Wb & Lb & Rb). { by rewrite La. }
  exists gb. split.
  { split; [done|]. split; [congruence|]. intros g2. rewrite send_opt_app, Ra. simpl. apply Rb. }
  intros g2. cbn [access]. rewrite lookup_middle, bind_some. cbv zeta. rewrite Ec, Ev.
  rewrite insert_middle, Gm. fold wb.
  match goal with |- mbind _ ?X = _ => replace X with (Some (ga ++ c2 :: g2)) end.
  - rewrite bind_some, send_single. fold r2. rewrite Rb, bind_some.
    destruct store; [|done]. rewrite <- La, <- Lb, lookup_middle, bind_some.
    destruct (check_tag c2 addr) as [s|] eqn:E2.
    + by rewrite bind_some, insert_middle.
    + exfalso. pose proof (miss_checked c addr bytes true Hc Ha Ec) as Hn. rewrite Ev in Hn. exact (Hn E2).
  - symmetry. destruct wb.
    + rewrite send_single. fold r1. rewrite Ra, bind_some. by rewrite <- La, alter_middle.
    + specialize (Ra (c1 :: g2)). unfold r1 in Ra. destruct (miss_handler c); exact Ra.
Qed.
End chain.

Lemma access_total f : forall g1 m a b s, wf_heap g1 -> (m < length g1)%nat -> (m < f)%nat ->
  0 <= a < 2 ^ 64 -> exists g1', runs (fun g => access f g m a b s) g1 g1'.
Proof.
  induction f as [|f IH]; intros g1 m a b s Hg Hm Hf Ha; [lia|].
  destruct (lookup_lt_is_Some_2 g1 m Hm) as [c Hc].
  pose proof (take_drop_middle g1 m c Hc) as Eg. set (g0 := take m g1) in *. set (gt := drop (S m) g1) in *.
  assert (Lm : length g0 = m) by (unfold g0; rewrite length_take; lia).
  assert (Hg0 : wf_heap (g0 ++ [c])).
  { apply (wf_heap_app _ gt). rewrite <- app_assoc. simpl. by rewrite Eg. }
  pose proof (access_runs f IH g0 c a b s Hg0 ltac:(lia) Ha) as Hr.
  destruct (Hg m c Hc) as (Hwc & Hall & Hmh).
  pose proof (access_local_spec c a b s Hwc Hall Ha) as Hsp. pose proof (access_local_geometry c a b s) as Hgm.
  destruct (access_local c a b s) as [c' reqs]. destruct Hr as (g0' & (Wg & Lg & _) & Hr). cbn [fst] in Hgm.
  destruct Hsp as (Hw' & Hv' & _).
  exists (g0' ++ c' :: gt). split; [|split].
  - intros i x Hx. destruct (Nat.lt_trichotomy i m) as [Hlt|[->|Hgt]].
    + rewrite lookup_app_l in Hx by lia. by apply Wg.
    + rewrite <- Lm, <- Lg, lookup_middle in Hx. injection Hx as <-. by rewrite Hgm.
    + rewrite lookup_app_r in Hx by lia. rewrite Lg, Lm in Hx.
      apply (Hg i). rewrite <- Eg, lookup_app_r by lia. rewrite Lm.
      destruct (i - m)%nat eqn:E; [lia|]. exact Hx.
  - rewrite <- Eg, !length_app. simpl. lia.
  - intros g2. rewrite <- Eg, <- !app_assoc. simpl. rewrite <- Lm. apply Hr.
Qed.

(** ** [clean_invalidate] on a set-associative cache *)

Definition clean_status (clean inval : bool) (d : option bool) : option bool :=
  if inval then None else if clean then option_map (fun _ => false) d else d.

Lemma clean_line_spec clean inval c a : wf_cache c -> is_fa c = false -> 0 <= a < 2 ^ 64 ->
  let c' := clean_invalidate_line clean inval c a in
  wf_cache c' /\ is_fa c' = false /\ idx_shift c' = idx_shift c /\
  forall L, valid_line c L -> status c' L =
    if L =? (a >>! idx_shift c) then clean_status clean inval (status c L) else status c L.
Proof.
  intros Hc Hsa Ha c'. unfold c', clean_invalidate_line. set (L0 := a >>! idx_shift c).
  destruct (check_tag c a) as [s|] eqn:Ec.
  2: { split; [done|]. split; [done|]. split; [done|]. intros L HL. destruct (Z.eqb_spec L L0) as [->|]; [|done].
       assert (E : status c L0 = None).
       { apply (status_None c Hc L0 HL). intros (s & t & Ht).
         assert (check_tag c a = Some s) by (apply (check_tag_holds c Hc a s Ha); eauto). congruence. }
       rewrite E. by destruct clean, inval. }
  destruct (proj1 (check_tag_holds c Hc a s Ha) Ec) as [t Ht]. fold L0 in Ht.
  rewrite (holds_read c Hc L0 s t Ht). destruct (holds_tag c Hc L0 s t Ht) as [Rt Lt].
  pose proof (sa_all_valid c Hsa L0 s t Ht) as Vt.
  set (cd := clean && z2b (t &! DIRTY)).
  set (t1 := if cd then t &! ~! DIRTY else t).
  set (c1 := if cd then write_slot (count_writeback c) s (t &! ~! DIRTY) else c).
  destruct (and_not_dirty_tag t Rt) as (R1 & V1 & D1 & L1).
  assert (H1 : wf_cache c1 /\ is_fa c1 = false /\ idx_shift c1 = idx_shift c /\ holds c1 L0 s t1 /\
    dirty t1 = dirty t && negb clean /\
    forall L s' u, L <> L0 -> holds c1 L s' u <-> holds c L s' u).
  { unfold c1, t1. destruct cd eqn:Ecd.
    - destruct (write_slot_spec (count_writeback c) (wf_with_stats c _ Hc) L0 s t (t &! ~! DIRTY)) as [Hw Hx];
        [exact Ht|exact R1|congruence|].
      split; [done|]. split; [unfold is_fa in *; simpl; by destruct (tags c)|]. split; [done|].
      split; [apply Hx; rewrite Z.eqb_refl; split_and!; [done|done|by rewrite V1, Vt, orb_true_r]|].
      apply andb_true_iff in Ecd as [-> _]. split; [by rewrite D1, andb_false_r|].
      intros L s' u Hne. rewrite Hx. by replace (L =? L0) with false by lia.
    - split; [done|]. split; [done|]. split; [done|]. split; [done|]. split; [|done].
      unfold cd, dirty in *. destruct clean; cbn [negb andb] in *; [|by rewrite andb_true_r].
      unfold DIRTY in Ecd. rewrite (land_pow2 t 62) in Ecd by lia. by rewrite Ecd. }
  clearbody c1 t1. destruct H1 as (W1 & F1 & S1 & T1 & Dt1 & X1).
  assert (HV : forall L, valid_line c L -> valid_line c1 L) by (intros; unfold valid_line; by rewrite S1).
  assert (St1 : forall L, valid_line c L -> L <> L0 -> status c1 L = status c L).
  { intros L HL Hne. apply status_ext; auto. intros u. split; intros [x Hx]; exists x; by apply X1. }
  destruct inval.
  - rewrite (holds_read c1 W1 L0 s t1 T1). destruct (holds_tag c1 W1 L0 s t1 T1) as [Rt1 Lt1].
    destruct (and_not_valid_tag t1 Rt1) as (R2 & V2 & _ & L2).
    destruct (write_slot_spec c1 W1 L0 s t1 (t1 &! ~! VALID) T1 R2) as [Hw Hx]; [congruence|].
    split; [done|]. split; [unfold is_fa in *; simpl; by destruct (tags c1)|]. split; [done|].
    intros L HL. destruct (Z.eqb_spec L L0) as [->|Hne].
    + apply (status_None _ Hw L0). { apply HV, HL. }
      intros (s' & u & Hu). apply Hx in Hu. rewrite Z.eqb_refl, F1, V2 in Hu. by destruct Hu as (_&_&?).
    + rewrite <- St1 by done. apply (status_ext c1 _ L W1 Hw (HV L HL) (HV L HL)).
      intros u. split; intros [x Hu]; exists x.
      * apply Hx. by replace (L =? L0) with false by lia.
      * apply Hx in Hu. by replace (L =? L0) with false in Hu by lia.
  - split; [done|]. split; [done|]. split; [done|]. intros L HL.
    destruct (Z.eqb_spec L L0) as [->|Hne]; [|by apply St1].
    assert (E1 : status c1 L0 = Some (dirty t1)) by (apply (status_Some c1 W1 L0 _ (HV L0 HL)); eauto).
    assert (E : status c L0 = Some (dirty t)) by (apply (status_Some c Hc L0 _ HL); eauto).
    rewrite E1, E, Dt1. unfold clean_status. destruct clean; simpl; [by rewrite andb_false_r|].
    by rewrite andb_true_r.
Qed.

Lemma clean_lines_spec clean inval l : forall c, wf_cache c -> is_fa c = false ->
  Forall (fun a => 0 <= a < 2 ^ 64) l ->
  let c' := fold_left (clean_invalidate_line clean inval) l c in
  wf_cache c' /\ is_fa c' = false /\
  forall L, valid_line c L -> status c' L =
    if existsb (fun a => L =? (a >>! idx_shift c)) l then clean_status clean inval (status c L) else status c L.
Proof.
  induction l as [|a l IH]; intros c Hc Hsa Hl; [done|]. apply Forall_cons_iff in Hl as [Ha Hl].
  destruct (clean_line_spec clean inval c a Hc Hsa Ha) as (W1 & F1 & S1 & X1). cbn [fold_left].
  destruct (IH _ W1 F1 Hl) as (W2 & F2 & X2). split; [done|]. split; [done|]. intros L HL.
  rewrite X2 by (unfold valid_line; by rewrite S1). rewrite S1, X1 by done. cbn [existsb].
  destruct (L =? _); simpl; [|done]. destruct (existsb _ l); [|done].
  destruct inval, clean; simpl; try done. by destruct (status c L).
Qed.

(** ** Properties *)

(** The lines a byte range touches. *)
Definition line_in_range (c : cache_sim_t) (addr bytes L : Z) : bool :=
  (addr / 2 ^ idx_shift c <=? L) && (L <=? (addr + bytes - 1) / 2 ^ idx_shift c).

Lemma line_addrs_spec c addr bytes : wf_geometry c -> 0 <= addr -> 0 < bytes ->
  addr + bytes + linesz c <= 2 ^ 64 ->
  Forall (fun a => 0 <= a < 2 ^ 64) (line_addrs c addr bytes) /\
  forall L, existsb (fun a => L =? (a >>! idx_shift c)) (line_addrs c addr bytes) =
    line_in_range c addr bytes L.
Proof.
  intros Hg Ha Hb Hend. unfold line_addrs. pose proof (line_base c) as Hbase.
  destruct Hg as [Hw Hsh El Hs]. set (z := 2 ^ idx_shift c) in *.
  assert (Hz : 8 <= z) by (unfold z; change 8 with (2 ^ 3); apply Z.pow_le_mono_r; lia).
  assert (E1 : ((addr +! bytes) +! linesz c) -! 1 = addr + bytes + z - 1).
  { rewrite El in *. rewrite (wrap_small 64 (addr + bytes)) by lia.
    destruct (Z.eq_dec (addr + bytes + z) (2 ^ 64)) as [E|].
    - rewrite E. change (2 ^ 64 mod 2 ^ 64) with 0. unfold wrap. rewrite Z.mod_same by lia. reflexivity.
    - rewrite (wrap_small 64 (addr + bytes + z)) by lia. apply wrap_small. lia. }
  rewrite E1, !Hbase by (done || lia). rewrite El in *. rewrite !Z.shiftr_div_pow2 by lia. fold z.
  set (lo := addr / z). set (hi := (addr + bytes + z - 1) / z).
  assert (Ehi : hi = (addr + bytes - 1) / z + 1).
  { unfold hi. replace (addr + bytes + z - 1) with (addr + bytes - 1 + 1 * z) by lia.
    apply Z.div_add. lia. }
  assert (Hlo : 0 <= lo) by (apply Z.div_pos; lia).
  assert (Hhi : (addr + bytes - 1) / z * z <= addr + bytes - 1).
  { rewrite Z.mul_comm. apply Z.mul_div_le. lia. }
  assert (Hn : (hi * z - lo * z) / z = hi - lo).
  { rewrite <- Z.mul_sub_distr_r. apply Z.div_mul. lia. }
  rewrite Hn. split.
  - apply list.Forall_forall. intros a Hin. apply list_elem_of_In, in_map_iff in Hin as (k & <- & Hk).
    apply list_elem_of_In, elem_of_seqZ in Hk. nia.
  - intros L. unfold line_in_range. fold z. fold lo. apply eq_true_iff_eq.
    rewrite existsb_exists, andb_true_iff, !Z.leb_le. split.
    + intros (a & Hin & HL). apply in_map_iff in Hin as (k & <- & Hk).
      apply list_elem_of_In, elem_of_seqZ in Hk. apply Z.eqb_eq in HL.
      rewrite Z.shiftr_div_pow2 in HL by lia. fold z in HL.
      rewrite <- Z.mul_add_distr_r, Z.div_mul in HL by lia. lia.
    + intros [H1 H2]. exists (lo * z + (L - lo) * z). split.
      * apply in_map_iff. exists (L - lo). split; [done|]. apply list_elem_of_In, elem_of_seqZ. lia.
      * rewrite Z.shiftr_div_pow2 by lia. fold z.
        rewrite <- Z.mul_add_distr_r, Z.div_mul by lia. lia.
Qed.

(** C19: An access to a cache (set-associative or fully associative) terminates
    without dereferencing a null pointer, down the whole chain of miss handlers;
    the cache changes to the abstract state: the line of the address is present,
    dirty if it was stored to now or before, the evicted line is absent, all
    other lines are as before; and the miss handler is sent, in this order, the
    write-back of the evicted line exactly when it was dirty and the read of the
    missing line, nothing on a hit. *)
Theorem access_exact fuel h this c addr bytes store :
  wf_heap h -> h !! this = Some c -> (this <= fuel)%nat -> 0 <= addr < 2 ^ 64 ->
  exists c' h',
    send_opt fuel (miss_handler c) (requests_after c addr) h = Some h' /\
    access (S fuel) h this addr bytes store = Some (<[this := c']> h') /\
    wf_heap h' /\ h' !! this = Some c /\ wf_cache c' /\ all_valid c' /\
    forall L, valid_line c L -> status c' L = status_after c addr store L.
Proof.
  intros Hh Hc Hf Ha. pose proof (take_drop_middle h this c Hc) as Eh.
  pose proof (lookup_lt_Some _ _ _ Hc) as Hlt.
  set (g1 := take this h) in *. set (g2 := drop (S this) h) in *.
  assert (Lg : length g1 = this) by (unfold g1; rewrite length_take; lia).
  assert (Hg1 : wf_heap (g1 ++ [c])).
  { apply (wf_heap_app _ g2). rewrite <- app_assoc. simpl. by rewrite Eh. }
  pose proof (access_runs fuel (fun g m a b s => access_total fuel g m a b s) g1 c addr bytes store Hg1
    ltac:(lia) Ha) as Hr.
  destruct (Hh this c Hc) as (Hw & Hall & _).
  pose proof (access_local_spec c addr bytes store Hw Hall Ha) as Hs.
  destruct (access_local c addr bytes store) as [c' reqs].
  destruct Hs as (Hw' & Hall' & -> & Hst). destruct Hr as (g1' & (Wg & L1 & R1) & R2).
  exists c', (g1' ++ c :: g2). rewrite <- Lg, <- L1, insert_middle, lookup_middle.
  split; [rewrite <- Eh at 1; apply R1|]. split; [rewrite L1, <- Eh; apply R2|].
  split; [|done]. intros i x Hx. destruct (Nat.lt_ge_cases i this) as [Hi|Hi].
  - rewrite lookup_app_l in Hx by lia. by apply Wg.
  - apply (Hh i). rewrite <- Eh, lookup_app_r by lia. rewrite lookup_app_r in Hx by lia.
    by rewrite <- L1.
Qed.

(** An L2 shared by a direct-mapped data cache: the second store evicts the dirty
    line of the first. *)
Definition small_l2 : cache_sim_t :=
  match construct 4 2 64 with Some c => c | None => CacheSim 1 None 1 1 8 3 (SA [0]) (Stats 0 0 0 0 0 0 0) end.
Definition small_d : cache_sim_t :=
  set_miss_handler match construct 2 1 16 with
    | Some c => c | None => CacheSim 1 None 1 1 8 3 (SA [0]) (Stats 0 0 0 0 0 0 0) end 0.

Lemma zero_cache_wf c n : wf_geometry c -> tags c = SA (replicate n 0) ->
  Z.of_nat n = sets c * ways c -> wf_cache c /\ all_valid c.
Proof.
  intros Hg Ht Hn. assert (H0 : forall s, tag_at (replicate n 0) s = 0).
  { intros s. unfold tag_at. rewrite nth_lookup. destruct (_ !! _) eqn:E; [|done].
    by apply lookup_replicate_1 in E as [-> _]. }
  split.
  - split; [done|]. unfold wf_tags. rewrite Ht, length_replicate. split_and!; [done|..].
    + apply Forall_replicate. lia.
    + intros s _. rewrite H0. discriminate.
    + intros s s' _ _. rewrite H0. discriminate.
    + intros s _. rewrite H0. discriminate.
  - apply sa_all_valid. unfold is_fa. by rewrite Ht.
Qed.

Lemma small_heap_wf : wf_heap [small_l2; small_d].
Proof.
  intros i c Hi. destruct i as [|[|[]]]; try discriminate; injection Hi as <-.
  - destruct (zero_cache_wf small_l2 8) as [H1 H2]; [|reflexivity|reflexivity|by split].
    constructor; [simpl; lia|simpl; lia|reflexivity|]. by exists 2.
  - destruct (zero_cache_wf small_d 2) as [H1 H2]; [|reflexivity|reflexivity|].
    { constructor; [simpl; lia|simpl; lia|reflexivity|]. by exists 1. }
    split; [done|]. split; [done|]. intros m [= <-]. lia.
Qed.

Lemma access_exact_witness :
  exists c' h', access 2 [small_l2; small_d] 1 0x100 4 true = Some (<[1%nat := c']> h') /\
    status c' 0x10 = Some true.
Proof.
  destruct (access_exact 1 [small_l2; small_d] 1 small_d 0x100 4 true small_heap_wf eq_refl
    ltac:(lia) ltac:(lia)) as (c' & h' & _ & E & _ & _ & _ & _ & Hs).
  exists c', h'. split; [exact E|]. rewrite (Hs 0x10); [reflexivity|]. unfold valid_line. simpl. lia.
Defined.

(** [clean_invalidate] on a set-associative cache treats exactly the lines
    that the byte range touches: cleaning makes a present line clean,
    invalidating removes it; every other line keeps its state. *)
Theorem clean_invalidate_exact fuel h this c addr bytes clean inval :
  wf_heap h -> h !! this = Some c -> is_fa c = false -> miss_handler c = None ->
  0 <= addr -> 0 < bytes -> addr + bytes + linesz c <= 2 ^ 64 ->
  exists c', clean_invalidate (S fuel) h this addr bytes clean inval = Some (<[this := c']> h) /\
    wf_cache c' /\
    forall L, valid_line c L -> status c' L =
      if line_in_range c addr bytes L then clean_status clean inval (status c L) else status c L.
Proof.
  intros Hh Hc Hsa Hmh Ha Hb Hend. destruct (Hh this c Hc) as (Hw & _ & _).
  destruct (line_addrs_spec c addr bytes (proj1 Hw) Ha Hb Hend) as [Hr Hx].
  destruct (clean_lines_spec clean inval (line_addrs c addr bytes) c Hw Hsa Hr) as (Hw' & _ & Hs).
  set (c' := fold_left _ _ c) in *. exists c'. split; [|split; [done|]].
  - cbn [clean_invalidate]. rewrite Hc, bind_some. fold c'.
    assert (Hm : miss_handler c' = None); [|by rewrite Hm].
    unfold c'. clear -Hmh. generalize (line_addrs c addr bytes) as l. intros l. revert c Hmh.
    induction l as [|a l IH]; intros c Hmh; [done|]. cbn [fold_left]. apply IH.
    unfold clean_invalidate_line. destruct (check_tag c a); [|done].
    destruct (clean && _); by destruct inval.
  - intros L HL. rewrite Hs by done. by rewrite Hx.
Qed.

Lemma clean_invalidate_exact_witness :
  exists c', clean_invalidate 1 [small_l2] 0 0x105 8 true true = Some [c'] /\ status c' 4 = None.
Proof.
  assert (Hw : wf_heap [small_l2]) by (exact (wf_heap_app [small_l2] [small_d] small_heap_wf)).
  destruct (clean_invalidate_exact 0 [small_l2] 0 small_l2 0x105 8 true true Hw eq_refl eq_refl eq_refl
    ltac:(lia) ltac:(lia) ltac:(simpl; lia)) as (c' & E & _ & Hs).
  exists c'. split; [exact E|]. rewrite (Hs 4); [reflexivity|]. unfold valid_line. simpl. lia.
Defined.

(** ** The finding on fully associative caches

    [fa_cache_sim_t::check_tag] does not look at the valid bit: a line that was
    invalidated is still a hit, and a store to it is never written back. *)
Definition small_fa : heap :=
  match construct 1 8 64 with Some c => [c] | None => [] end.

Lemma fa_invalidate_is_lost :
  (h1 ← access 1 small_fa 0 0x1000 8 false;
   h2 ← clean_invalidate 1 h1 0 0x1000 8 false true;
   h3 ← access 1 h2 0 0x1000 8 true;
   c2 ← h2 !! 0%nat; c3 ← h3 !! 0%nat;
   Some (status c2 0x40, write_misses (stats c3))) = Some (Some false, 0).
Proof. vm_compute. reflexivity. Qed.

(** [help] asks for positive numbers, but zero ways are accepted (and the first
    miss divides by zero). *)
Lemma zero_ways_accepted : exists c, construct 64 0 64 = Some c /\ ways c = 0.
Proof. eexists. split; reflexivity. Qed.
