(* ===== verification/CacheModel.v ===== *)
(** * The timing caches: [src/riscv/cache_model.h], [cache_model.cc], [cache_hierarchy.cc]

    The LRU caches and the two-level hierarchy that the processor charges cycles
    for ([processor_t::simulate_cache_access]).  A set is refined to a list of
    lines in order of last use.

    Reading the configuration file, memory allocation failures and printing are
    not modelled; [rand()] is an argument of an access. *)

From stdpp Require Import sorting.
From S2P Require Import Prelude.
Local Open Scope cint_scope.

(** ** Data *)

Inductive cache_state_t := CACHE_INVALID | CACHE_VALID | CACHE_DIRTY.
Inductive cache_replacement_t := CACHE_LRU | CACHE_RANDOM.
Inductive cache_write_policy_t := CACHE_WRITE_THROUGH | CACHE_WRITE_BACK.
Inductive cache_access_t := CACHE_READ | CACHE_WRITE.

#[global] Instance cache_state_eq_dec : EqDecision cache_state_t.
Proof. solve_decision. Defined.

Record cache_result_t := CacheResult {
  r_hit : bool;
  latency : Z;
  writeback_needed : bool;
  writeback_addr : Z;
  l1_miss : bool;
  l2_miss : bool
}.
Definition no_result : cache_result_t := CacheResult false 0 false 0 false false.

Record cache_line_t := CacheLine { tag : Z; state : cache_state_t; lru_counter : Z; data_addr : Z }.
Record cache_set_t := CacheSet { lines : list cache_line_t; next_lru : Z }.

Record cache_t := Cache {
  size : Z; ways : Z; line_size : Z; sets : Z;
  replacement : cache_replacement_t;
  write_policy : cache_write_policy_t;
  index_bits : Z; offset_bits : Z; index_mask : Z; tag_mask : Z;
  cache_sets : list cache_set_t;
  accesses : Z; hits : Z; misses : Z; writebacks : Z; reads : Z; writes : Z
}.

Definition with_sets (c : cache_t) (s : list cache_set_t) : cache_t :=
  Cache (size c) (ways c) (line_size c) (sets c) (replacement c) (write_policy c)
    (index_bits c) (offset_bits c) (index_mask c) (tag_mask c) s
    (accesses c) (hits c) (misses c) (writebacks c) (reads c) (writes c).
Definition with_counts (c : cache_t) (a h m wb r w : Z) : cache_t :=
  Cache (size c) (ways c) (line_size c) (sets c) (replacement c) (write_policy c)
    (index_bits c) (offset_bits c) (index_mask c) (tag_mask c) (cache_sets c) a h m wb r w.

(** ** Creation *)

Fixpoint log2_loop (fuel : nat) (value result : Z) : Z :=
  match fuel with
  | O => result
  | S fuel => let value := value >>! 1 in
              if value =? 0 then result else log2_loop fuel value (u32 (result + 1))
  end.
Definition log2_uint32 (value : Z) : Z := log2_loop 32 value 0.

(** The division comes before the validation, so it may trap. *)
Inductive created := DivisionByZero | InvalidConfiguration | Created (c : cache_t).

Definition empty_line : cache_line_t := CacheLine 0 CACHE_INVALID 0 0.

Definition cache_create (size ways line_size : Z) (replacement : cache_replacement_t)
    (write_policy : cache_write_policy_t) : created :=
  let d := u32 (ways * line_size) in
  if d =? 0 then DivisionByZero else
  let sets := size / d in
  if (sets =? 0) || (ways =? 0) || (line_size =? 0) then InvalidConfiguration else
  let offset_bits := log2_uint32 line_size in
  let index_bits := log2_uint32 sets in
  Created (Cache size ways line_size sets replacement write_policy index_bits offset_bits
    ((1 <<! index_bits) -! 1) (~! ((1 <<! u32 (offset_bits + index_bits)) -! 1))
    (replicate (Z.to_nat sets) (CacheSet (replicate (Z.to_nat ways) empty_line) 0))
    0 0 0 0 0 0).

(** ** Replacement *)

Definition line_at (s : cache_set_t) (way : Z) : cache_line_t := nth (Z.to_nat way) (lines s) empty_line.
Definition set_line (s : cache_set_t) (way : Z) (l : cache_line_t) : cache_set_t :=
  CacheSet (<[Z.to_nat way := l]> (lines s)) (next_lru s).

Definition find_lru_way (s : cache_set_t) (ways : Z) : Z :=
  fst (fold_left (fun '(lru_way, min_lru) i =>
      if lru_counter (line_at s i) <? min_lru then (i, lru_counter (line_at s i)) else (lru_way, min_lru))
    (seqZ 1 (ways - 1)) (0, lru_counter (line_at s 0))).

Definition with_lru (l : cache_line_t) (n : Z) : cache_line_t :=
  CacheLine (tag l) (state l) n (data_addr l).

Definition min_counter (s : cache_set_t) (ways : Z) : Z :=
  fold_left (fun m i => if lru_counter (line_at s i) <? m then lru_counter (line_at s i) else m)
    (seqZ 1 (ways - 1)) (lru_counter (line_at s 0)).

Definition update_lru (s : cache_set_t) (ways accessed_way : Z) : cache_set_t :=
  let s := set_line s accessed_way (with_lru (line_at s accessed_way) (next_lru s)) in
  let s := CacheSet (lines s) (u32 (next_lru s + 1)) in
  if 1000000 <? next_lru s then
    let min_lru := min_counter s ways in
    let s := fold_left (fun s i =>
        set_line s i (with_lru (line_at s i) (u32 (lru_counter (line_at s i) - min_lru))))
      (seqZ 0 ways) s in
    CacheSet (lines s) (u32 (next_lru s - min_lru))
  else s.

(** ** One cache *)

Definition is_write (t : cache_access_t) : bool := match t with CACHE_WRITE => true | _ => false end.
Definition is_write_back (p : cache_write_policy_t) : bool :=
  match p with CACHE_WRITE_BACK => true | _ => false end.
Definition is_invalid (l : cache_line_t) : bool :=
  match state l with CACHE_INVALID => true | _ => false end.
Definition is_dirty (l : cache_line_t) : bool :=
  match state l with CACHE_DIRTY => true | _ => false end.

Definition set_at (c : cache_t) (index : Z) : cache_set_t :=
  nth (Z.to_nat index) (cache_sets c) (CacheSet [] 0).
Definition put_set (c : cache_t) (index : Z) (s : cache_set_t) : cache_t :=
  with_sets c (<[Z.to_nat index := s]> (cache_sets c)).

Definition count_access (c : cache_t) (t : cache_access_t) : cache_t :=
  if is_write t
  then with_counts c (accesses c +! 1) (hits c) (misses c) (writebacks c) (reads c) (writes c +! 1)
  else with_counts c (accesses c +! 1) (hits c) (misses c) (writebacks c) (reads c +! 1) (writes c).
Definition count_hit (c : cache_t) : cache_t :=
  with_counts c (accesses c) (hits c +! 1) (misses c) (writebacks c) (reads c) (writes c).
Definition count_miss (c : cache_t) : cache_t :=
  with_counts c (accesses c) (hits c) (misses c +! 1) (writebacks c) (reads c) (writes c).
Definition count_writeback (c : cache_t) : cache_t :=
  with_counts c (accesses c) (hits c) (misses c) (writebacks c +! 1) (reads c) (writes c).

Definition index_of (c : cache_t) (addr : Z) : Z := (addr >>! offset_bits c) &! index_mask c.
Definition tag_of (c : cache_t) (addr : Z) : Z := addr >>! u32 (offset_bits c + index_bits c).

(** What an access does to its set: the new set, and the victim if one was
    replaced. *)
Definition find_hit (c : cache_t) (s : cache_set_t) (t : Z) : option Z :=
  List.find (fun way => negb (is_invalid (line_at s way)) && (tag (line_at s way) =? t))
    (seqZ 0 (ways c)).
Definition find_invalid (c : cache_t) (s : cache_set_t) : option Z :=
  List.find (fun way => is_invalid (line_at s way)) (seqZ 0 (ways c)).

Definition cache_access (c : cache_t) (addr : Z) (access_type : cache_access_t) (rand : Z)
    : cache_result_t * cache_t :=
  let c := count_access c access_type in
  let index := index_of c addr in
  let t := tag_of c addr in
  let s := set_at c index in
  match find_hit c s t with
  | Some way =>
    let c := count_hit c in
    let s := update_lru s (ways c) way in
    let s := if is_write access_type && is_write_back (write_policy c)
             then set_line s way (CacheLine (tag (line_at s way)) CACHE_DIRTY
                                    (lru_counter (line_at s way)) (data_addr (line_at s way)))
             else s in
    (CacheResult true 1 false 0 false false, put_set c index s)
  | None =>
    let c := count_miss c in
    let '(victim_way, wb, wb_addr) :=
      match find_invalid c s with
      | Some way => (way, false, 0)
      | None =>
        let victim_way := match replacement c with
                          | CACHE_LRU => find_lru_way s (ways c)
                          | CACHE_RANDOM => rand mod ways c
                          end in
        let victim := line_at s victim_way in
        if is_dirty victim
        then (victim_way, true, (tag victim <<! u32 (offset_bits c + index_bits c)) |! (index <<! offset_bits c))
        else (victim_way, false, 0)
      end in
    let c := if wb then count_writeback c else c in
    let new_line := CacheLine t
      (if is_write access_type && is_write_back (write_policy c) then CACHE_DIRTY else CACHE_VALID)
      (lru_counter (line_at s victim_way)) (addr &! ~! ((1 <<! offset_bits c) -! 1)) in
    let s := update_lru (set_line s victim_way new_line) (ways c) victim_way in
    (CacheResult false 10 wb wb_addr false false, put_set c index s)
  end.

Definition cache_reset_stats (c : cache_t) : cache_t := with_counts c 0 0 0 0 0 0.

(** ** The hierarchy *)

Record cache_hierarchy_t := Hierarchy {
  l1_icache : cache_t; l1_dcache : cache_t; l2_cache : cache_t;
  l1_hit_latency : Z; l2_hit_latency : Z; memory_latency : Z;
  total_cycles : Z; memory_accesses : Z
}.

Definition set_l1 (is_instruction : bool) (h : cache_hierarchy_t) (c : cache_t) : cache_hierarchy_t :=
  if is_instruction
  then Hierarchy c (l1_dcache h) (l2_cache h) (l1_hit_latency h) (l2_hit_latency h) (memory_latency h)
         (total_cycles h) (memory_accesses h)
  else Hierarchy (l1_icache h) c (l2_cache h) (l1_hit_latency h) (l2_hit_latency h) (memory_latency h)
         (total_cycles h) (memory_accesses h).
Definition set_l2 (h : cache_hierarchy_t) (c : cache_t) : cache_hierarchy_t :=
  Hierarchy (l1_icache h) (l1_dcache h) c (l1_hit_latency h) (l2_hit_latency h) (memory_latency h)
    (total_cycles h) (memory_accesses h).
Definition add_total_cycles (h : cache_hierarchy_t) (n : Z) : cache_hierarchy_t :=
  Hierarchy (l1_icache h) (l1_dcache h) (l2_cache h) (l1_hit_latency h) (l2_hit_latency h)
    (memory_latency h) (total_cycles h +! n) (memory_accesses h).
Definition count_memory_access (h : cache_hierarchy_t) : cache_hierarchy_t :=
  Hierarchy (l1_icache h) (l1_dcache h) (l2_cache h) (l1_hit_latency h) (l2_hit_latency h)
    (memory_latency h) (total_cycles h) (memory_accesses h +! 1).

(** [rands] are the results of the calls of [rand()], in order. *)
Definition cache_hierarchy_access (h : cache_hierarchy_t) (addr : Z) (access_type : cache_access_t)
    (is_instruction : bool) (rands : Z * Z * Z) : cache_result_t * cache_hierarchy_t :=
  let '(rand1, rand2, rand3) := rands in
  let h := count_memory_access h in
  let l1_cache := if is_instruction then l1_icache h else l1_dcache h in
  let '(l1_result, l1) := cache_access l1_cache addr access_type rand1 in
  let h := set_l1 is_instruction h l1 in
  if r_hit l1_result then
    let lat := l1_hit_latency h in
    (CacheResult true lat false 0 false false, add_total_cycles h lat)
  else
    let '(l2_result, l2) := cache_access (l2_cache h) addr access_type rand2 in
    let h := set_l2 h l2 in
    let result :=
      if r_hit l2_result
      then CacheResult true (u32 (l1_hit_latency h + l2_hit_latency h)) false 0 true false
      else CacheResult false (u32 (l1_hit_latency h + l2_hit_latency h + memory_latency h)) false 0 true true in
    let h := if writeback_needed l2_result then add_total_cycles h (memory_latency h) else h in
    let h := if writeback_needed l1_result
             then set_l2 h (snd (cache_access (l2_cache h) (writeback_addr l1_result) CACHE_WRITE rand3))
             else h in
    (result, add_total_cycles h (latency result)).

Definition cache_hierarchy_reset_stats (h : cache_hierarchy_t) : cache_hierarchy_t :=
  Hierarchy (cache_reset_stats (l1_icache h)) (cache_reset_stats (l1_dcache h))
    (cache_reset_stats (l2_cache h)) (l1_hit_latency h) (l2_hit_latency h) (memory_latency h) 0 0.

(** ** The processor's side: [processor_t::simulate_cache_access] *)

Record perf_t := Perf {
  hierarchy : cache_hierarchy_t;
  extra_cycles : Z;
  insn_extra_cycles : Z; insn_l1_misses : Z; insn_l2_misses : Z;
  dcache_accesses : Z; dcache_misses : Z; l2_accesses : Z; l2_misses : Z
}.

Definition simulate_cache_access (p : perf_t) (addr : Z) (is_write : bool) (rands : Z * Z * Z) : perf_t :=
  let '(result, h) := cache_hierarchy_access (hierarchy p) addr
      (if is_write then CACHE_WRITE else CACHE_READ) false rands in
  let extra_latency := if 1 <? latency result then latency result - 1 else 0 in
  Perf h (extra_cycles p +! extra_latency) (insn_extra_cycles p +! extra_latency)
    (if l1_miss result then insn_l1_misses p +! 1 else insn_l1_misses p)
    (if l2_miss result then insn_l2_misses p +! 1 else insn_l2_misses p)
    (dcache_accesses p +! 1)
    (if l1_miss result then dcache_misses p +! 1 else dcache_misses p)
    (accesses (l2_cache h)) (misses (l2_cache h)).

(** ** The specification of a set: its lines in order of last use *)

(** Tag and dirty bit, most recently used first. *)
Definition recency := list (Z * bool).

Record lru_outcome := Outcome { o_lines : recency; o_hit : bool; o_evicted : option (Z * bool) }.

Definition lru_step (n : Z) (t : Z) (dirties : bool) (l : recency) : lru_outcome :=
  match List.find (fun e => fst e =? t) l with
  | Some e => Outcome ((t, snd e || dirties) :: List.filter (fun e => negb (fst e =? t)) l) true None
  | None =>
    if Z.of_nat (length l) <? n then Outcome ((t, dirties) :: l) false None
    else Outcome ((t, dirties) :: removelast l) false (List.last (map Some l) None)
  end.

Definition lru_of (s : cache_set_t) (i : Z) : Z := lru_counter (line_at s i).
Definition cell (s : cache_set_t) (i : Z) : Z * bool := (tag (line_at s i), is_dirty (line_at s i)).
Definition more_recent (s : cache_set_t) (i j : Z) : Prop := lru_of s j < lru_of s i.

(** [ways] lines; [order] lists the valid ways by decreasing counter. *)
Record set_order (n : Z) (s : cache_set_t) (order : list Z) : Prop := {
  so_length : Z.of_nat (length (lines s)) = n;
  so_sorted : StronglySorted (more_recent s) order;
  so_valid : forall i, In i order <-> 0 <= i < n /\ is_invalid (line_at s i) = false;
  so_range : forall i, 0 <= i < n -> 0 <= lru_of s i < 2 ^ 32;
  so_next : forall i, In i order -> lru_of s i < next_lru s;
  so_next_pos : 0 <= next_lru s
}.

Definition set_rel (n B : Z) (s : cache_set_t) (l : recency) : Prop :=
  exists order, set_order n s order /\ l = map (cell s) order /\ List.NoDup (map fst l) /\
    Forall (fun e => 0 <= fst e < B) l.

(** ** Lines *)

Lemma line_at_set s w l i : 0 <= w < Z.of_nat (length (lines s)) -> 0 <= i ->
  line_at (set_line s w l) i = if w =? i then l else line_at s i.
Proof.
  intros Hw Hi. unfold line_at, set_line. simpl. rewrite !nth_lookup.
  destruct (Z.eqb_spec w i) as [->|].
  - by rewrite list_lookup_insert_eq by lia.
  - by rewrite list_lookup_insert_ne by lia.
Qed.

Lemma set_line_length s w l : length (lines (set_line s w l)) = length (lines s).
Proof. unfold set_line. simpl. apply length_insert. Qed.

(** The renumbering loop changes each line on its own. *)
Lemma renumber_lines g l s : NoDup l -> Forall (fun i => 0 <= i < Z.of_nat (length (lines s))) l ->
  let s' := fold_left (fun s i => set_line s i (g (line_at s i))) l s in
  length (lines s') = length (lines s) /\ next_lru s' = next_lru s /\
  forall i, 0 <= i -> line_at s' i = if bool_decide (i ∈ l) then g (line_at s i) else line_at s i.
Proof.
  revert s. induction l as [|a l IH]; intros s Hnd Hl; [done|].
  apply list.NoDup_cons in Hnd as [Hna Hnd]. apply Forall_cons_iff in Hl as [Ha Hl]. cbn [fold_left].
  destruct (IH (set_line s a (g (line_at s a))) Hnd) as (E1 & E2 & E3).
  { by rewrite set_line_length. }
  rewrite set_line_length in E1. split; [done|]. split; [done|]. intros i Hi.
  rewrite E3, line_at_set by lia. destruct (Z.eqb_spec a i) as [<-|Hne].
  - rewrite bool_decide_false by done. rewrite bool_decide_true by left. done.
  - destruct (bool_decide_reflect (i ∈ l)).
    + by rewrite bool_decide_true by (by right).
    + rewrite bool_decide_false; [done|]. rewrite elem_of_cons. intros [->|?]; done.
Qed.

(** Both searches for a minimum. *)
Lemma min_fold s l : forall w m, lru_of s w = m ->
  let r := fold_left (fun '(lru_way, min_lru) i =>
      if lru_counter (line_at s i) <? min_lru then (i, lru_counter (line_at s i)) else (lru_way, min_lru))
      l (w, m) in
  (fst r = w \/ In (fst r) l) /\ lru_of s (fst r) = snd r /\ snd r <= m /\
  (forall i, In i l -> snd r <= lru_of s i) /\
  fold_left (fun m i => if lru_counter (line_at s i) <? m then lru_counter (line_at s i) else m) l m = snd r.
Proof.
  induction l as [|a l IH]; intros w m Hm; simpl.
  { split_and!; [by left|done|lia|done|done]. }
  change (lru_counter (line_at s a)) with (lru_of s a).
  destruct (Z.ltb_spec (lru_of s a) m).
  - destruct (IH a (lru_of s a) eq_refl) as (H1 & H2 & H3 & H4 & H5). split_and!; [|done|lia| |done].
    + destruct H1 as [->|]; tauto.
    + intros i [<-|Hi]; [done|by apply H4].
  - destruct (IH w m Hm) as (H1 & H2 & H3 & H4 & H5). split_and!; [tauto|done|done| |done].
    intros i [<-|Hi]; [lia|by apply H4].
Qed.

Lemma find_lru_way_spec s n : 0 < n ->
  let w := find_lru_way s n in
  0 <= w < n /\ (forall i, 0 <= i < n -> lru_of s w <= lru_of s i) /\ min_counter s n = lru_of s w.
Proof.
  intros Hn w. unfold w, find_lru_way, min_counter.
  destruct (min_fold s (seqZ 1 (n - 1)) 0 (lru_of s 0) eq_refl) as (H1 & H2 & H3 & H4 & H5).
  fold (lru_of s 0). split_and!; [..|by rewrite H5].
  - destruct H1 as [->|Hi]; [lia|]. apply list_elem_of_In, elem_of_seqZ in Hi. lia.
  - destruct H1 as [->|Hi]; [lia|]. apply list_elem_of_In, elem_of_seqZ in Hi. lia.
  - intros i Hi. rewrite H2. destruct (Z.eq_dec i 0) as [->|]; [done|]. apply H4.
    apply list_elem_of_In, elem_of_seqZ. lia.
Qed.

(** [update_lru] gives the accessed line the highest counter and shifts all
    counters by the same amount. *)
Lemma update_lru_spec s n w : Z.of_nat (length (lines s)) = n -> 0 <= w < n ->
  (forall i, 0 <= i < n -> 0 <= lru_of s i < 2 ^ 32) -> 0 <= next_lru s -> next_lru s + 1 < 2 ^ 32 ->
  let s' := update_lru s n w in
  length (lines s') = length (lines s) /\
  (forall i, 0 <= i < n -> tag (line_at s' i) = tag (line_at s i) /\
     state (line_at s' i) = state (line_at s i)) /\
  exists d, 0 <= d <= next_lru s /\ next_lru s' = next_lru s + 1 - d /\
    forall i, 0 <= i < n ->
      d <= (if w =? i then next_lru s else lru_of s i) /\
      lru_of s' i = (if w =? i then next_lru s else lru_of s i) - d.
Proof.
  intros Hl Hw Hr Hn0 Hn s'. unfold s', update_lru.
  set (s1 := set_line s w (with_lru (line_at s w) (next_lru s))).
  assert (Hline : forall i, 0 <= i -> line_at s1 i =
    if w =? i then with_lru (line_at s w) (next_lru s) else line_at s i).
  { intros i Hi. apply line_at_set; lia. }
  assert (Hlen : length (lines s1) = length (lines s)) by apply set_line_length.
  change (next_lru s1) with (next_lru s). rewrite (wrap_small 32 (next_lru s + 1)) by lia.
  set (s2 := CacheSet (lines s1) (next_lru s + 1)).
  assert (Hlru : forall i, 0 <= i -> lru_of s2 i = if w =? i then next_lru s else lru_of s i).
  { intros i Hi. unfold lru_of at 1. change (line_at s2 i) with (line_at s1 i).
    rewrite Hline by done. by destruct (w =? i). }
  change (next_lru s2) with (next_lru s + 1). destruct (Z.ltb_spec 1000000 (next_lru s + 1)).
  - destruct (find_lru_way_spec s2 n ltac:(lia)) as (Hmw & Hmin & Hm). set (m := min_counter s2 n) in *.
    set (mw := find_lru_way s2 n) in *.
    assert (Hm0 : 0 <= m <= next_lru s).
    { rewrite Hm. split.
      - rewrite Hlru by lia. destruct (w =? mw); [done|]. by apply Hr.
      - pose proof (Hmin w ltac:(lia)) as Hx. rewrite (Hlru w) in Hx by lia. by rewrite Z.eqb_refl in Hx. }
    set (g := fun l => with_lru l (u32 (lru_counter l - m))).
    destruct (renumber_lines g (seqZ 0 n) s2) as (L3 & N3 & E3).
    { apply NoDup_seqZ. }
    { apply list.Forall_forall. intros i Hi. apply elem_of_seqZ in Hi. unfold s2. cbn [lines]. lia. }
    change (fold_left _ (seqZ 0 n) s2) with
      (fold_left (fun s i => set_line s i (g (line_at s i))) (seqZ 0 n) s2).
    set (s3 := fold_left _ _ s2) in *. unfold s2 in L3, N3. cbn [lines next_lru] in L3, N3.
    change (length (lines (CacheSet (lines s3) (u32 (next_lru s3 - m)))))with (length (lines s3)).
    assert (Hg : forall i, 0 <= i < n -> line_at s3 i = g (line_at s2 i)).
    { intros i Hi. rewrite E3 by lia. rewrite bool_decide_true; [done|]. apply elem_of_seqZ. lia. }
    split; [congruence|]. split.
    + intros i Hi. change (line_at (CacheSet (lines s3) _) i) with (line_at s3 i). rewrite Hg by done.
      change (line_at s2 i) with (line_at s1 i). rewrite Hline by lia. unfold g. simpl.
      destruct (Z.eqb_spec w i) as [->|]; done.
    + exists m. cbn [next_lru]. rewrite N3, wrap_small by lia. split; [done|]. split; [done|].
      intros i Hi. pose proof (Hmin i Hi) as Hx. rewrite <- Hm, Hlru in Hx by lia. split; [done|].
      unfold lru_of at 1. change (line_at (CacheSet (lines s3) _) i) with (line_at s3 i).
      rewrite Hg by done. unfold g. cbn [with_lru lru_counter]. fold (lru_of s2 i). rewrite Hlru by lia.
      apply wrap_small. destruct (w =? i); [lia|]. pose proof (Hr i Hi). lia.
  - split; [done|]. split.
    + intros i Hi. change (line_at s2 i) with (line_at s1 i). rewrite Hline by lia.
      destruct (Z.eqb_spec w i) as [->|]; done.
    + exists 0. change (next_lru s2) with (next_lru s + 1). split; [lia|]. split; [lia|]. intros i Hi. rewrite Hlru by lia.
      split; [|lia]. destruct (w =? i); [done|]. by apply Hr.
Qed.

(** ** Refinement of one set *)

Lemma sorted_nodup s l : StronglySorted (more_recent s) l -> List.NoDup l.
Proof.
  induction 1 as [|a l Hs IH Hall]; constructor; [|done]. intros Hin.
  rewrite list.Forall_forall in Hall. apply list_elem_of_In, Hall in Hin. unfold more_recent in Hin. lia.
Qed.

Lemma nodup_range_length l n : List.NoDup l -> (forall i, In i l -> 0 <= i < n) -> 0 <= n ->
  Z.of_nat (length l) <= n.
Proof.
  intros Hnd Hr Hn. assert (H : (length l <= length (seqZ 0 n))%nat).
  { apply NoDup_incl_length; [done|]. intros i Hi. apply list_elem_of_In, elem_of_seqZ.
    specialize (Hr i Hi). lia. }
  rewrite length_seqZ in H. lia.
Qed.

Lemma filter_remove (x y : recency) e : List.NoDup (map fst (x ++ e :: y)) ->
  List.filter (fun e' => negb (fst e' =? fst e)) (x ++ e :: y) = x ++ y.
Proof.
  intros Hnd. rewrite map_app in Hnd. cbn [map] in Hnd.
  assert (Hk : forall l : recency, (forall e', In e' l -> fst e' <> fst e) ->
    List.filter (fun e' => negb (fst e' =? fst e)) l = l).
  { induction l as [|e' l IH]; intros Hl; [done|]. cbn [List.filter].
    replace (fst e' =? fst e) with false by (specialize (Hl e' (or_introl eq_refl)); lia). simpl.
    f_equal. apply IH. intros e'' H. apply Hl. by right. }
  apply NoDup_remove_2 in Hnd. rewrite filter_app. cbn [List.filter]. rewrite Z.eqb_refl. cbn [negb].
  rewrite !Hk; [done|..]; intros e' He E; apply Hnd; rewrite in_app_iff; [right|left];
    rewrite <- E; by apply in_map.
Qed.

Lemma find_unique (l : recency) e : List.NoDup (map fst l) -> In e l ->
  List.find (fun e' => fst e' =? fst e) l = Some e.
Proof.
  intros Hnd Hin. induction l as [|e' l IH]; [done|]. cbn [List.find].
  apply NoDup_cons_iff in Hnd as [Hn Hnd]. destruct Hin as [->|Hin]; [by rewrite Z.eqb_refl|].
  destruct (Z.eqb_spec (fst e') (fst e)) as [E|]; [|by apply IH].
  destruct Hn. rewrite E. by apply in_map.
Qed.

(** What the new set is, in terms of the old one: way [w] was written and is the
    most recent, the other lines only had their counters shifted. *)
Record touched (n w : Z) (s s' : cache_set_t) : Prop := {
  t_length : length (lines s') = length (lines s);
  t_valid : is_invalid (line_at s' w) = false;
  t_others : forall i, 0 <= i < n -> i <> w ->
    tag (line_at s' i) = tag (line_at s i) /\ state (line_at s' i) = state (line_at s i);
  t_counters : exists d, 0 <= d <= next_lru s /\ next_lru s' = next_lru s + 1 - d /\
    forall i, 0 <= i < n -> d <= (if w =? i then next_lru s else lru_of s i) /\
      lru_of s' i = (if w =? i then next_lru s else lru_of s i) - d
}.

Lemma touched_order n s s' w order rest : 0 <= w < n -> next_lru s + 1 < 2 ^ 32 ->
  set_order n s order -> touched n w s s' ->
  StronglySorted (more_recent s) rest ->
  (forall i, In i rest <-> In i order /\ i <> w) ->
  set_order n s' (w :: rest) /\ map (cell s') (w :: rest) = cell s' w :: map (cell s) rest.
Proof.
  intros Hw Hov [Hl Hs Hv Hr Hn Hp] [Tl Tv To (d & Hd & Tn & Tc)] Hrs Hrest.
  assert (Hrange : forall i, In i rest -> 0 <= i < n /\ i <> w).
  { intros i Hi. apply Hrest in Hi as [Hi Hne]. split; [|done]. by apply Hv in Hi as [? _]. }
  assert (Hlru : forall i, In i rest -> lru_of s' i = lru_of s i - d /\ lru_of s i < next_lru s).
  { intros i Hi. destruct (Hrange i Hi) as [Hb Hne]. destruct (Tc i Hb) as [_ E].
    replace (w =? i) with false in E by lia. split; [done|]. apply Hn. by apply Hrest in Hi as [? _]. }
  assert (Hlw : lru_of s' w = next_lru s - d).
  { destruct (Tc w Hw) as [_ E]. by rewrite Z.eqb_refl in E. }
  split.
  - constructor.
    + congruence.
    + constructor.
      * assert (Hsub : forall l, (forall i, In i l -> In i rest) -> StronglySorted (more_recent s) l ->
          StronglySorted (more_recent s') l).
        { intros l Hin Hss. induction Hss as [|a l Hss IH Hall]; constructor.
          - apply IH. intros i Hi. apply Hin. by right.
          - rewrite list.Forall_forall in Hall |- *. intros i Hi. specialize (Hall i Hi).
            unfold more_recent in *. destruct (Hlru a) as [-> _]; [apply Hin; by left|].
            destruct (Hlru i) as [-> _]; [apply Hin; right; by apply list_elem_of_In|]. lia. }
        by apply Hsub.
      * apply list.Forall_forall. intros i Hi. apply list_elem_of_In, Hlru in Hi as [E Hlt].
        unfold more_recent. rewrite E, Hlw. lia.
    + intros i. split.
      * intros [<-|Hi]; [done|]. destruct (Hrange i Hi) as [Hb Hne]. split; [done|].
        apply Hrest in Hi as [Hi _]. apply Hv in Hi as [_ Hi]. unfold is_invalid in *.
        destruct (To i Hb Hne) as [_ ->]. done.
      * intros [Hb Hi]. destruct (Z.eq_dec i w) as [->|Hne]; [by left|right]. apply Hrest. split; [|done].
        apply Hv. split; [done|]. unfold is_invalid in *. by destruct (To i Hb Hne) as [_ <-].
    + intros i Hi. destruct (Tc i Hi) as [H1 ->]. pose proof (Hr i Hi). destruct (w =? i); lia.
    + intros i [<-|Hi]; [rewrite Hlw; lia|]. destruct (Hlru i Hi) as [-> ?]. lia.
    + lia.
  - cbn [map]. f_equal. apply map_ext_in. intros i Hi. destruct (Hrange i Hi) as [Hb Hne].
    unfold cell, is_dirty. by destruct (To i Hb Hne) as [-> ->].
Qed.

Lemma update_touched n s w l : Z.of_nat (length (lines s)) = n -> 0 <= w < n ->
  (forall i, 0 <= i < n -> 0 <= lru_of s i < 2 ^ 32) -> 0 <= next_lru s -> next_lru s + 1 < 2 ^ 32 ->
  is_invalid l = false -> lru_counter l = lru_of s w ->
  touched n w s (update_lru (set_line s w l) n w) /\
  cell (update_lru (set_line s w l) n w) w = (tag l, is_dirty l).
Proof.
  intros Hl Hw Hr Hn0 Hn Hv Hlw.
  assert (Hat : forall i, 0 <= i -> line_at (set_line s w l) i = if w =? i then l else line_at s i).
  { intros i Hi. apply line_at_set; lia. }
  assert (Hlr : forall i, 0 <= i -> lru_of (set_line s w l) i = lru_of s i).
  { intros i Hi. unfold lru_of at 1. rewrite Hat by done. by destruct (Z.eqb_spec w i) as [<-|]. }
  destruct (update_lru_spec (set_line s w l) n w) as (L & T & d & Hd & N & C); try done.
  { by rewrite set_line_length. }
  { intros i Hi. rewrite Hlr by lia. by apply Hr. }
  rewrite set_line_length in L. destruct (T w Hw) as [Tt Ts].
  rewrite Hat, Z.eqb_refl in Tt, Ts by lia. split.
  - constructor; [done|unfold is_invalid; by rewrite Ts| |].
    + intros i Hi Hne. destruct (T i Hi) as [-> ->]. rewrite Hat by lia.
      by replace (w =? i) with false by lia.
    + exists d. split; [done|]. split; [done|]. intros i Hi. destruct (C i Hi) as [C1 C2].
      rewrite Hlr in C1, C2 by lia. done.
  - unfold cell, is_dirty. by rewrite Tt, Ts.
Qed.

Lemma mark_touched n s s' w : Z.of_nat (length (lines s)) = n -> 0 <= w < n -> touched n w s s' ->
  let l := line_at s' w in
  let s'' := set_line s' w (CacheLine (tag l) CACHE_DIRTY (lru_counter l) (data_addr l)) in
  touched n w s s'' /\ cell s'' w = (tag l, true).
Proof.
  intros Hl Hw [Tl Tv To (d & Hd & Tn & Tc)] l s''.
  assert (Hat : forall i, 0 <= i -> line_at s'' i =
    if w =? i then CacheLine (tag l) CACHE_DIRTY (lru_counter l) (data_addr l) else line_at s' i).
  { intros i Hi. apply line_at_set; lia. }
  assert (Hlr : forall i, 0 <= i -> lru_of s'' i = lru_of s' i).
  { intros i Hi. unfold lru_of. rewrite Hat by done. by destruct (Z.eqb_spec w i) as [<-|]. }
  split.
  - constructor.
    + unfold s''. by rewrite set_line_length.
    + rewrite Hat, Z.eqb_refl by lia. done.
    + intros i Hi Hne. rewrite Hat by lia. replace (w =? i) with false by lia. by apply To.
    + exists d. split; [done|]. split; [done|]. intros i Hi. rewrite Hlr by lia. by apply Tc.
  - unfold cell. by rewrite Hat, Z.eqb_refl by lia.
Qed.

Section one_set.
Context (c : cache_t) (B : Z) (s : cache_set_t) (l : recency) (t : Z).
Context (Hways : 0 < ways c) (Hrel : set_rel (ways c) B s l) (Hov : next_lru s + 1 < 2 ^ 32).
Context (Ht : 0 <= t < B).
Let n := ways c.

Lemma find_hit_spec :
  match find_hit c s t with
  | Some w => 0 <= w < n /\ is_invalid (line_at s w) = false /\ tag (line_at s w) = t
  | None => forall i, 0 <= i < n -> is_invalid (line_at s i) = false -> tag (line_at s i) <> t
  end.
Proof using.
  unfold find_hit. destruct (List.find _ _) as [w|] eqn:Ef.
  - apply find_some in Ef as [Hi Hf]. apply list_elem_of_In, elem_of_seqZ in Hi.
    apply andb_true_iff in Hf as [H1 H2]. apply Z.eqb_eq in H2. apply negb_true_iff in H1. done.
  - intros i Hi Hv E. apply find_none with (x := i) in Ef; [|apply list_elem_of_In, elem_of_seqZ; lia].
    rewrite Hv, E, Z.eqb_refl in Ef. discriminate.
Qed.

(** A hit moves the line to the front. *)
Lemma hit_set w (dirties : bool) : find_hit c s t = Some w ->
  let s1 := update_lru s n w in
  let s' := if dirties then set_line s1 w (CacheLine (tag (line_at s1 w)) CACHE_DIRTY
                              (lru_counter (line_at s1 w)) (data_addr (line_at s1 w))) else s1 in
  set_rel n B s' (o_lines (lru_step n t dirties l)) /\
  o_hit (lru_step n t dirties l) = true /\ o_evicted (lru_step n t dirties l) = None.
Proof using Hways Hrel Hov Ht.
  intros Hf s1 s'. pose proof find_hit_spec as Hs. rewrite Hf in Hs. destruct Hs as (Hw & Hv & Htag).
  destruct Hrel as (order & Ho & -> & Hnd & HB). pose proof Ho as [Hl Hsrt Hval Hr Hn Hp].
  assert (Hin : In w order) by (by apply Hval).
  apply in_split in Hin as (a & b & ->).
  assert (Hid : set_line s w (line_at s w) = s).
  { unfold set_line, line_at. destruct s as [ls nl]. cbn [lines next_lru] in *. f_equal.
    apply list_insert_id. destruct (lookup_lt_is_Some_2 ls (Z.to_nat w)) as [x Hx]; [unfold n in *; lia|].
    by rewrite (nth_lookup_Some _ _ _ _ Hx). }
  destruct (update_touched n s w (line_at s w)) as [T1 C1]; try done. rewrite Hid in T1, C1.
  fold s1 in T1, C1.
  assert (HT : touched n w s s' /\ cell s' w = (t, is_dirty (line_at s w) || dirties)).
  { unfold s'. destruct dirties.
    - destruct (mark_touched n s s1 w Hl Hw T1) as [T2 C2]. split; [done|]. rewrite C2, orb_true_r.
      f_equal. unfold cell in C1. congruence.
    - split; [done|]. rewrite C1, Htag, orb_false_r. done. }
  destruct HT as [T2 C2].
  assert (Hnd' := sorted_nodup s _ Hsrt).
  destruct (touched_order n s s' w (a ++ w :: b) (a ++ b) Hw Hov Ho T2) as [Ho' Hm].
  { apply StronglySorted_app in Hsrt as (Hx & Ha & Hb). apply StronglySorted_inv in Hb as [Hb _].
    apply StronglySorted_app. split_and!; try done. intros x y Hx1 Hy. apply Hx; [done|by right]. }
  { intros i. rewrite !in_app_iff. cbn [In]. apply NoDup_remove_2 in Hnd'. split.
    - intros Hi. split; [tauto|]. intros ->. apply Hnd'. by rewrite in_app_iff.
    - intros [Hi Hne]. destruct Hi as [|[<-|]]; [by left|done|by right]. }
  assert (Ecell : cell s w = (t, is_dirty (line_at s w))) by (unfold cell; congruence).
  assert (Et : fst (cell s w) = t) by (rewrite Ecell; done).
  assert (Efind : List.find (fun e => fst e =? t) (map (cell s) (a ++ w :: b)) = Some (cell s w)).
  { pose proof (find_unique (map (cell s) (a ++ w :: b)) (cell s w) Hnd) as Hu. rewrite Et in Hu. apply Hu, in_map. rewrite in_app_iff. right. by left. }
  unfold lru_step. rewrite Efind. cbn [o_lines o_hit o_evicted]. split; [|done].
  rewrite map_app in *. cbn [map] in *.
  pose proof (filter_remove (map (cell s) a) (map (cell s) b) (cell s w) Hnd) as Hfr.
  rewrite Et in Hfr. rewrite Hfr.
  assert (E1 : (t, (cell s w).2 || dirties) = cell s' w) by (rewrite C2, Ecell; done). rewrite E1.
  exists (w :: a ++ b). split; [done|]. split; [cbn [map]; by rewrite Hm|].
  rewrite map_app in Hnd. cbn [map] in Hnd. rewrite Ecell in Hnd. cbn [fst] in Hnd.
  split.
  - cbn [map]. rewrite map_app, C2. cbn [fst]. apply NoDup_cons_iff.
    pose proof (NoDup_remove_1 _ _ _ Hnd). by pose proof (NoDup_remove_2 _ _ _ Hnd).
  - apply Forall_app in HB as [HBa HBb]. apply Forall_cons_iff in HBb as [_ HBb].
    apply Forall_cons_2; [by rewrite C2|]. apply Forall_app. done.
Qed.

(** A miss on absent tags: the new line goes to the front of what is kept. *)
Lemma miss_set w new rest : find_hit c s t = None -> 0 <= w < n ->
  is_invalid new = false -> tag new = t -> lru_counter new = lru_of s w ->
  (forall order, set_order n s order -> StronglySorted (more_recent s) (rest order) /\
     forall i, In i (rest order) <-> In i order /\ i <> w) ->
  let s' := update_lru (set_line s w new) n w in
  exists order, set_order n s order /\ l = map (cell s) order /\
    set_rel n B s' ((t, is_dirty new) :: map (cell s) (rest order)).
Proof using Hways Hrel Hov Ht.
  intros Hf Hw Hv Htag Hlc Hrest s'. pose proof find_hit_spec as Hs. rewrite Hf in Hs.
  destruct Hrel as (order & Ho & -> & Hnd & HB). pose proof Ho as [Hl Hsrt Hval Hr Hn Hp].
  destruct (Hrest order Ho) as [Hrs Hri].
  destruct (update_touched n s w new) as [T1 C1]; try done. fold s' in T1, C1.
  destruct (touched_order n s s' w order (rest order) Hw Hov Ho T1 Hrs Hri) as [Ho' Hm].
  exists order. split; [done|]. split; [done|]. exists (w :: rest order). split; [done|].
  split; [by rewrite Hm, C1, Htag|]. split.
  - cbn [map fst]. apply NoDup_cons_iff. split.
    + intros Hi. rewrite in_map_iff in Hi. destruct Hi as (e & E & Hi). apply in_map_iff in Hi as (i & <- & Hi).
      apply Hri in Hi as [Hi _]. apply Hval in Hi as [Hb Hi]. by apply (Hs i Hb Hi).
    + (* the kept tags are among the old ones *)
      clear -Hrs Hri Hnd Hsrt. assert (Hn1 := sorted_nodup s _ Hrs). revert Hn1 Hri.
      generalize (rest order) as r. intros r Hn1 Hri. rewrite map_map in *.
      assert (Hinj : forall i j, In i order -> In j order -> fst (cell s i) = fst (cell s j) -> i = j).
      { intros i j Hi Hj E. apply in_split in Hi as (a & b & ->). rewrite map_app in Hnd. cbn [map] in Hnd.
        apply NoDup_remove_2 in Hnd. rewrite in_app_iff in Hj. cbn [In] in Hj.
        destruct Hj as [Hj|[Hj|Hj]]; [|done|]; destruct Hnd; rewrite in_app_iff; [left|right];
          apply in_map_iff; exists j; done. }
      assert (Hsub : forall i, In i r -> In i order) by (intros i Hi; by apply Hri in Hi as [? _]).
      clear Hri. induction Hn1 as [|i r Hni Hn1 IH]; cbn [map]; constructor.
      * intros Hin. apply in_map_iff in Hin as (j & E & Hj). apply Hni.
        rewrite (Hinj i j); [done|apply Hsub; by left|apply Hsub; by right|done].
      * apply IH. intros j Hj. apply Hsub. by right.
  - apply Forall_cons_2; [done|]. rewrite list.Forall_forall in HB |- *. intros e He.
    apply list_elem_of_In, in_map_iff in He as (i & <- & Hi). apply Hri in Hi as [Hi _].
    apply HB, list_elem_of_In. by apply in_map.
Qed.
End one_set.

(** ** Which way is replaced *)

Lemma find_invalid_spec c s :
  match find_invalid c s with
  | Some w => 0 <= w < ways c /\ is_invalid (line_at s w) = true
  | None => forall i, 0 <= i < ways c -> is_invalid (line_at s i) = false
  end.
Proof.
  unfold find_invalid. destruct (List.find _ _) as [w|] eqn:Ef.
  - apply find_some in Ef as [Hi Hf]. by apply list_elem_of_In, elem_of_seqZ in Hi.
  - intros i Hi. apply (find_none _ _ Ef), list_elem_of_In, elem_of_seqZ. lia.
Qed.

(** When all ways are valid, the way with the least counter is the last in the
    order of use. *)
Lemma full_order n s order : 0 < n -> set_order n s order ->
  (forall i, 0 <= i < n -> is_invalid (line_at s i) = false) ->
  Z.of_nat (length order) = n /\ exists a, order = a ++ [find_lru_way s n].
Proof.
  intros Hn [Hl Hs Hv Hr Hnx Hp] Hall.
  destruct (find_lru_way_spec s n Hn) as (Hw & Hmin & _). set (w := find_lru_way s n) in *.
  assert (Hin : forall i, 0 <= i < n -> In i order) by (intros i Hi; apply Hv; auto).
  split.
  - pose proof (nodup_range_length order n (sorted_nodup s _ Hs)) as H1.
    specialize (H1 ltac:(intros i Hi; apply Hv in Hi; tauto) ltac:(lia)).
    assert (H2 : (length (seqZ 0 n) <= length order)%nat).
    { apply NoDup_incl_length; [apply NoDup_ListNoDup, NoDup_seqZ|]. intros i Hi.
      apply list_elem_of_In, elem_of_seqZ in Hi. apply Hin. lia. }
    rewrite length_seqZ in H2. lia.
  - destruct (in_split w order (Hin w Hw)) as (a & b & E). exists a. rewrite E. f_equal. f_equal.
    destruct b as [|x b]; [done|exfalso].
    assert (Hx : In x order) by (rewrite E, in_app_iff; right; right; left; done).
    assert (Hlt : lru_of s x < lru_of s w).
    { rewrite E in Hs. apply StronglySorted_app in Hs as (_ & _ & Hs2).
      apply StronglySorted_inv in Hs2 as [_ Hf]. rewrite list.Forall_forall in Hf. apply Hf. by left. }
    apply Hv in Hx as [Hb _]. specialize (Hmin x Hb). lia.
Qed.

Lemma invalid_order n s order w : set_order n s order -> 0 <= w < n ->
  is_invalid (line_at s w) = true -> Z.of_nat (length order) < n /\ ~ In w order.
Proof.
  intros [Hl Hs Hv Hr Hnx Hp] Hw Hi.
  assert (Hn : ~ In w order) by (intros H; apply Hv in H as [_ H]; congruence).
  split; [|done].
  pose proof (nodup_range_length (w :: order) n) as H1. cbn [length] in H1.
  enough (Z.of_nat (S (length order)) <= n) by lia. apply H1; [|..|lia].
  - constructor; [done|by apply (sorted_nodup s)].
  - intros i [<-|H]; [done|]. by apply Hv in H as [? _].
Qed.

(** ** Refinement of a cache *)

Record wf_cache (c : cache_t) : Prop := {
  wf_ways : 0 < ways c;
  wf_bits : 0 <= offset_bits c /\ 0 <= index_bits c /\ offset_bits c + index_bits c < 32;
  wf_mask : index_mask c = 2 ^ index_bits c - 1;
  wf_sets : 2 ^ index_bits c <= Z.of_nat (length (cache_sets c))
}.

Definition tag_bound (c : cache_t) : Z := 2 ^ (64 - (offset_bits c + index_bits c)).

Definition cache_rel (c : cache_t) (f : Z -> recency) : Prop :=
  forall i, 0 <= i < 2 ^ index_bits c -> set_rel (ways c) (tag_bound c) (set_at c i) (f i).

Lemma index_range c addr : wf_cache c -> 0 <= addr < 2 ^ 64 ->
  index_of c addr = (addr / 2 ^ offset_bits c) mod 2 ^ index_bits c /\
  0 <= index_of c addr < 2 ^ index_bits c /\
  tag_of c addr = addr / 2 ^ (offset_bits c + index_bits c) /\ 0 <= tag_of c addr < tag_bound c.
Proof.
  intros [_ Hb Hm _] Ha. unfold index_of, tag_of, tag_bound. rewrite Hm, (wrap_small 32) by lia.
  replace (2 ^ index_bits c - 1) with (Z.ones (index_bits c)) by (rewrite Z.ones_equiv; lia).
  rewrite Z.land_ones, !Z.shiftr_div_pow2 by lia. split_and!; try done.
  - apply Z.mod_pos_bound. lia.
  - apply Z.mod_pos_bound. lia.
  - apply Z.div_pos; lia.
  - apply Z.div_lt_upper_bound; [lia|]. rewrite <- Z.pow_add_r by lia.
    replace (offset_bits c + index_bits c + (64 - (offset_bits c + index_bits c))) with 64 by lia. lia.
Qed.

Lemma set_at_put c i j s : 0 <= i < Z.of_nat (length (cache_sets c)) -> 0 <= j ->
  set_at (put_set c i s) j = if i =? j then s else set_at c j.
Proof.
  intros Hi Hj. unfold set_at, put_set. simpl. rewrite !nth_lookup. destruct (Z.eqb_spec i j) as [->|].
  - by rewrite list_lookup_insert_eq by lia.
  - by rewrite list_lookup_insert_ne by lia.
Qed.

(** Statistics do not matter to the relation. *)
Lemma rel_put c0 c f i s l : (ways c0, offset_bits c0, index_bits c0, index_mask c0, cache_sets c0) =
    (ways c, offset_bits c, index_bits c, index_mask c, cache_sets c) ->
  wf_cache c -> cache_rel c f -> 0 <= i < 2 ^ index_bits c ->
  set_rel (ways c) (tag_bound c) s l ->
  wf_cache (put_set c0 i s) /\ cache_rel (put_set c0 i s) (fun j => if j =? i then l else f j).
Proof.
  intros E [Hw Hb Hm Hs] Hf Hi Hl. injection E as E1 E2 E3 E4 E5. split.
  - constructor; simpl; rewrite ?length_insert; congruence.
  - intros j Hj. unfold tag_bound. change (ways (put_set c0 i s)) with (ways c0).
    change (offset_bits (put_set c0 i s)) with (offset_bits c0).
    change (index_bits (put_set c0 i s)) with (index_bits c0) in *.
    rewrite E1, E2, E3 in *. fold (tag_bound c). rewrite set_at_put by (rewrite ?E5; lia).
    rewrite Z.eqb_sym. destruct (Z.eqb_spec j i) as [->|]; [done|].
    unfold set_at. rewrite E5. by apply Hf.
Qed.

Lemma find_hit_none n B c s l t : ways c = n -> set_rel n B s l -> find_hit c s t = None ->
  List.find (fun e => fst e =? t) l = None.
Proof.
  intros En (order & Ho & -> & _) Hf. pose proof (find_hit_spec c s t) as Hs. rewrite Hf in Hs.
  destruct (List.find _ _) as [e|] eqn:Ef; [|done]. apply find_some in Ef as [Hi He].
  apply in_map_iff in Hi as (i & <- & Hi). apply (so_valid _ _ _ Ho) in Hi as [Hb Hv].
  apply Z.eqb_eq in He. rewrite <- En in Hb. by destruct (Hs i Hb Hv).
Qed.

Lemma compose_addr tag index o i : 0 <= o -> 0 <= i -> o + i < 32 -> 0 <= tag < 2 ^ (64 - (o + i)) ->
  0 <= index < 2 ^ i ->
  (tag <<! u32 (o + i)) |! (index <<! o) = (tag * 2 ^ i + index) * 2 ^ o.
Proof.
  intros Ho Hi Hoi Ht Hx. rewrite (wrap_small 32) by lia.
  assert (E : 2 ^ (o + i) = 2 ^ i * 2 ^ o) by (rewrite Z.pow_add_r; lia).
  assert (E64 : 2 ^ 64 = 2 ^ (64 - (o + i)) * 2 ^ (o + i)) by (rewrite <- Z.pow_add_r by lia; f_equal; lia).
  assert (0 < 2 ^ o) by lia. assert (0 < 2 ^ i) by lia. assert (0 < 2 ^ (o + i)) by lia.
  assert (index * 2 ^ o < 2 ^ (o + i)) by nia.
  rewrite !Z.shiftl_mul_pow2 by lia. rewrite (wrap_small 64 (tag * _)) by nia.
  rewrite (wrap_small 64 (index * _)) by nia. rewrite <- (Z.shiftl_mul_pow2 tag) by lia.
  rewrite lor_shiftl_add by nia. rewrite E. ring.
Qed.

(** ** Properties *)

Section access.
Context (c : cache_t) (f : Z -> recency) (addr : Z) (ty : cache_access_t) (rand : Z).
Context (Hc : wf_cache c) (Hlru : replacement c = CACHE_LRU) (Hf : cache_rel c f).
Context (Ha : 0 <= addr < 2 ^ 64).
Let idx := index_of c addr.
Let t := tag_of c addr.
Let dirties := is_write ty && is_write_back (write_policy c).
Context (Hov : next_lru (set_at c idx) + 1 < 2 ^ 32).
Let o := lru_step (ways c) t dirties (f idx).

(** The outcome of an access, as the specification of the set describes it. *)
Definition access_outcome (r : cache_result_t) (c' : cache_t) : Prop :=
  wf_cache c' /\ cache_rel c' (fun i => if i =? idx then o_lines o else f i) /\
  r_hit r = o_hit o /\
  writeback_needed r = (match o_evicted o with Some (_, d) => d | None => false end) /\
  (forall tag d, o_evicted o = Some (tag, d) -> d = true ->
     writeback_addr r = (tag * 2 ^ index_bits c + idx) * 2 ^ offset_bits c).

Lemma access_hit w : find_hit c (set_at c idx) t = Some w ->
  let '(r, c') := cache_access c addr ty rand in access_outcome r c'.
Proof using Hc Hf Ha Hov.
  intros Hh. destruct (index_range c addr Hc Ha) as (_ & Hi & _ & Ht). fold idx in Hi. fold t in Ht.
  destruct (hit_set c (tag_bound c) (set_at c idx) (f idx) t (wf_ways c Hc) (Hf idx Hi) Hov Ht w dirties Hh)
    as (Hr & Ho & He). fold o in Hr, Ho, He.
  unfold cache_access. set (c0 := count_access c ty).
  assert (E0 : forall s, index_of c0 addr = idx /\ tag_of c0 addr = t /\ set_at c0 idx = set_at c idx /\
    ways c0 = ways c /\ find_hit c0 s t = find_hit c s t /\ write_policy c0 = write_policy c).
  { intros s. unfold c0, count_access. destruct (is_write ty); done. }
  destruct (E0 (set_at c idx)) as (-> & -> & E3 & _ & E5 & _). rewrite E3, E5, Hh.
  change (ways (count_hit c0)) with (ways c0). change (write_policy (count_hit c0)) with (write_policy c0).
  destruct (E0 (set_at c idx)) as (_ & _ & _ & -> & _ & ->). fold dirties.
  destruct (rel_put (count_hit c0) c f idx _ _ ltac:(unfold c0, count_access; by destruct (is_write ty))
    Hc Hf Hi Hr) as [Hw Hrel].
  split; [exact Hw|]. split; [exact Hrel|]. rewrite Ho, He. done.
Qed.

Lemma access_miss : find_hit c (set_at c idx) t = None ->
  let '(r, c') := cache_access c addr ty rand in access_outcome r c'.
Proof using Hc Hlru Hf Ha Hov.
  intros Hh. destruct (index_range c addr Hc Ha) as (_ & Hi & _ & Ht). fold idx in Hi. fold t in Ht.
  pose proof (find_hit_none (ways c) (tag_bound c) c _ _ t eq_refl (Hf idx Hi) Hh) as Hnone.
  unfold cache_access. set (c0 := count_access c ty).
  assert (E0 : index_of c0 addr = idx /\ tag_of c0 addr = t /\ set_at c0 idx = set_at c idx /\
    ways c0 = ways c /\ find_hit c0 (set_at c idx) t = find_hit c (set_at c idx) t /\
    find_invalid (count_miss c0) (set_at c idx) = find_invalid c (set_at c idx) /\
    write_policy c0 = write_policy c /\ replacement (count_miss c0) = CACHE_LRU /\
    offset_bits c0 = offset_bits c /\ index_bits c0 = index_bits c).
  { rewrite <- Hlru. unfold c0, count_access. destruct (is_write ty); done. }
  destruct E0 as (-> & -> & -> & Ew & -> & Einv & Ewp & Erp & Eo & Eib). rewrite Hh, Einv, Erp.
  change (ways (count_miss c0)) with (ways c0). change (offset_bits (count_miss c0)) with (offset_bits c0).
  change (index_bits (count_miss c0)) with (index_bits c0). rewrite Ew, Eo, Eib.
  set (s := set_at c idx) in *.
  assert (Hgeo : forall b, let c1 := if b : bool then count_writeback (count_miss c0) else count_miss c0 in
    (ways c1, offset_bits c1, index_bits c1, index_mask c1, cache_sets c1) =
    (ways c, offset_bits c, index_bits c, index_mask c, cache_sets c) /\ write_policy c1 = write_policy c).
  { intros b. unfold c0, count_access. by destruct b, (is_write ty). }
  assert (Hnew : forall (w : Z) rest b wb_addr,
    0 <= w < ways c ->
    (forall order, set_order (ways c) s order -> StronglySorted (more_recent s) (rest order) /\
       forall i, In i (rest order) <-> In i order /\ i <> w) ->
    (forall order, set_order (ways c) s order -> f idx = map (cell s) order ->
       o_lines o = (t, dirties) :: map (cell s) (rest order)) ->
    let c1 := if b : bool then count_writeback (count_miss c0) else count_miss c0 in
    let new := CacheLine t (if is_write ty && is_write_back (write_policy c1) then CACHE_DIRTY else CACHE_VALID)
      (lru_counter (line_at s w)) wb_addr in
    let c' := put_set c1 idx (update_lru (set_line s w new) (ways c1) w) in
    wf_cache c' /\ cache_rel c' (fun i => if i =? idx then o_lines o else f i)).
  { intros w rest b a Hw Hrest Hlines c1 new c'. destruct (Hgeo b) as [G1 G2]. fold c1 in G1, G2.
    assert (Enew : is_dirty new = dirties /\ is_invalid new = false).
    { unfold new, is_dirty, is_invalid, dirties. rewrite G2. cbn [state].
      by destruct (is_write ty && is_write_back (write_policy c)). }
    destruct Enew as [Ed Ei].
    destruct (miss_set c (tag_bound c) s (f idx) t (wf_ways c Hc) (Hf idx Hi) Hov Ht w new rest Hh Hw Ei
      eq_refl eq_refl Hrest) as (order & Hord & El & Hrel).
    rewrite Ed, <- (Hlines order Hord El) in Hrel. injection G1 as Gw Gr. unfold c'. rewrite Gw.
    apply (rel_put c1 c f idx); try done. congruence. }
  pose proof (find_invalid_spec c s) as Hinv. destruct (find_invalid c s) as [w|].
  - destruct Hinv as [Hw Hwi].
    destruct (Hf idx Hi) as (order0 & Ho0 & El0 & _). fold s in Ho0, El0.
    destruct (invalid_order _ _ _ w Ho0 Hw Hwi) as [Hlt _].
    assert (Eo' : o = Outcome ((t, dirties) :: f idx) false None).
    { unfold o, lru_step. rewrite Hnone, El0, length_map. by replace (_ <? _) with true by lia. }
    destruct (Hnew w (fun order => order) false (addr &! ~! ((1 <<! offset_bits c0) -! 1)) Hw) as [Hw' Hrel'].
    + intros order Ho. split; [apply (so_sorted _ _ _ Ho)|]. intros i.
      destruct (invalid_order _ _ _ w Ho Hw Hwi) as [_ Hni]. split; [|tauto].
      intros H. split; [done|]. by intros ->.
    + intros order Ho El. rewrite Eo', El. done.
    + split; [exact Hw'|]. split; [exact Hrel'|]. rewrite Eo'. done.
  - set (w := find_lru_way s (ways c)).
    destruct (Hf idx Hi) as (order0 & Ho0 & El0 & _). fold s in Ho0, El0.
    destruct (full_order _ _ _ (wf_ways c Hc) Ho0 Hinv) as (Hlen & a0 & Ea0). fold w in Ea0.
    assert (Eo' : o = Outcome ((t, dirties) :: map (cell s) (removelast order0)) false (Some (cell s w))).
    { unfold o, lru_step. rewrite Hnone, El0, length_map. replace (_ <? _) with false by lia.
      rewrite Ea0, map_map, !map_app. cbn [map]. rewrite !removelast_last, last_last. done. }
    destruct (find_lru_way_spec s (ways c) (wf_ways c Hc)) as (Hw & _). fold w in Hw.
    assert (Hrest : forall order, set_order (ways c) s order ->
      StronglySorted (more_recent s) (removelast order) /\
      forall i, In i (removelast order) <-> In i order /\ i <> w).
    { intros order Ho. destruct (full_order _ _ _ (wf_ways c Hc) Ho Hinv) as (_ & a & Ea). fold w in Ea.
      pose proof (so_sorted _ _ _ Ho) as Hs. pose proof (sorted_nodup s _ Hs) as Hnd.
      rewrite Ea, removelast_last in *. split; [by apply StronglySorted_app in Hs as (_ & ? & _)|].
      intros i. rewrite in_app_iff. cbn [In]. apply NoDup_remove_2 in Hnd. rewrite app_nil_r in Hnd. split.
      - intros H. split; [tauto|]. by intros ->.
      - intros [[H|[H|[]]] Hne]; [done|congruence]. }
    assert (Hlines : forall order, set_order (ways c) s order -> f idx = map (cell s) order ->
       o_lines o = (t, dirties) :: map (cell s) (removelast order)).
    { intros order Ho El. rewrite Eo'. cbn [o_lines]. f_equal.
      destruct (full_order _ _ _ (wf_ways c Hc) Ho Hinv) as (_ & a & Ea). fold w in Ea.
      rewrite El0, Ea, Ea0, !map_app in El. cbn [map] in El. apply app_inj_tail in El as [El _].
      by rewrite Ea, Ea0, !removelast_last. }
    destruct (is_dirty (line_at s w)) eqn:Ed.
    + destruct (Hnew w (fun order => removelast order) true (addr &! ~! ((1 <<! offset_bits c0) -! 1))
        Hw Hrest Hlines) as [Hw' Hrel'].
      split; [exact Hw'|]. split; [exact Hrel'|]. rewrite Eo'. cbn [o_hit o_evicted r_hit writeback_needed].
      split; [done|]. unfold cell at 1. rewrite Ed. split; [done|]. cbn [writeback_addr].
      intros tg d [= <- <-] _. destruct (Hc) as [_ (Hb1 & Hb2 & Hb3) _ _]. apply compose_addr; try done.
      destruct (Hf idx Hi) as (order1 & Ho1 & El1 & _ & HB). fold s in Ho1, El1.
      rewrite list.Forall_forall in HB. specialize (HB (cell s w)). apply HB. rewrite El1.
      apply list_elem_of_In, in_map. apply (so_valid _ _ _ Ho1). split; [done|by apply Hinv].
    + destruct (Hnew w (fun order => removelast order) false (addr &! ~! ((1 <<! offset_bits c0) -! 1))
        Hw Hrest Hlines) as [Hw' Hrel'].
      split; [exact Hw'|]. split; [exact Hrel'|]. rewrite Eo'. cbn [o_hit o_evicted r_hit writeback_needed].
      split; [done|]. unfold cell at 1. rewrite Ed. split; [done|].
      intros tg d [= <- <-]. rewrite Ed. discriminate.
Qed.
End access.

(** C37: A cache with LRU replacement behaves as the abstract cache whose sets are
    lists of lines in order of last use: a hit moves the line to the front, a
    miss puts the new line there and drops the last one when the set is full; a
    write-back is reported exactly when the dropped line was dirty, with the
    address that has its tag and index; the other sets are untouched; this holds
    across the periodic renumbering of the counters. *)
Theorem cache_access_lru c f addr ty rand :
  wf_cache c -> replacement c = CACHE_LRU -> cache_rel c f -> 0 <= addr < 2 ^ 64 ->
  next_lru (set_at c (index_of c addr)) + 1 < 2 ^ 32 ->
  let '(r, c') := cache_access c addr ty rand in access_outcome c f addr ty r c'.
Proof.
  intros Hc Hl Hf Ha Hov. destruct (find_hit c (set_at c (index_of c addr)) (tag_of c addr)) as [w|] eqn:E.
  - exact (access_hit c f addr ty rand Hc Hf Ha Hov w E).
  - exact (access_miss c f addr ty rand Hc Hl Hf Ha Hov E).
Qed.

(** A new cache has empty sets. *)
Definition small_cache : cache_t :=
  match cache_create 64 2 16 CACHE_LRU CACHE_WRITE_BACK with
  | Created c => c
  | _ => Cache 0 0 0 0 CACHE_LRU CACHE_WRITE_BACK 0 0 0 0 [] 0 0 0 0 0 0
  end.

Lemma empty_set_rel n B : 0 < n -> set_rel n B (CacheSet (replicate (Z.to_nat n) empty_line) 0) [].
Proof.
  intros Hn. assert (He : forall i, line_at (CacheSet (replicate (Z.to_nat n) empty_line) 0) i = empty_line).
  { intros i. unfold line_at. simpl. rewrite nth_lookup. destruct (_ !! _) eqn:E; [|done].
    by apply lookup_replicate_1 in E as [-> _]. }
  exists []. split; [|by repeat constructor]. constructor; simpl; try done.
  - rewrite length_replicate. lia.
  - constructor.
  - intros i. rewrite He. split; [done|]. intros [_ H]. discriminate.
  - intros i _. unfold lru_of. rewrite He. simpl. lia.
Qed.

Lemma small_cache_wf : wf_cache small_cache /\ cache_rel small_cache (fun _ => []).
Proof.
  split; [constructor; [reflexivity|split_and!; done|reflexivity|done]|].
  intros i Hi. change (2 ^ index_bits small_cache) with 2 in Hi.
  assert (i = 0 \/ i = 1) as [-> | ->] by lia; exact (empty_set_rel 2 _ ltac:(lia)).
Qed.

Lemma cache_access_lru_witness :
  let '(r, c') := cache_access small_cache 0x125 CACHE_WRITE 0 in
  r_hit r = false /\ cache_rel c' (fun i => if i =? 0 then [(9, true)] else []).
Proof.
  pose proof (cache_access_lru small_cache (fun _ => []) 0x125 CACHE_WRITE 0 (proj1 small_cache_wf) eq_refl
    (proj2 small_cache_wf) ltac:(lia) ltac:(simpl; lia)) as H.
  destruct (cache_access small_cache 0x125 CACHE_WRITE 0) as [r c']. destruct H as (_ & H2 & H3 & _).
  exact (conj H3 H2).
Defined.

(** ** Accounting *)

Definition counters_ok (c : cache_t) : Prop :=
  accesses c = wrap 64 (hits c + misses c) /\ accesses c = wrap 64 (reads c + writes c).

Lemma access_counters c addr ty rand : counters_ok c ->
  let '(r, c') := cache_access c addr ty rand in
  counters_ok c' /\ accesses c' = accesses c +! 1 /\
  misses c' = (if r_hit r then misses c else misses c +! 1) /\
  hits c' = (if r_hit r then hits c +! 1 else hits c) /\
  writebacks c' = (if writeback_needed r then writebacks c +! 1 else writebacks c).
Proof.
  intros [H1 H2]. unfold cache_access.
  assert (Hc0 : forall c', (accesses c', hits c', misses c', writebacks c', reads c', writes c') =
      (accesses c +! 1, hits c +! 1, misses c, writebacks c,
       if is_write ty then reads c else reads c +! 1, if is_write ty then writes c +! 1 else writes c) ->
    counters_ok c').
  { intros c' E. injection E as E1 E2 E3 E4 E5 E6. unfold counters_ok. rewrite E1, E2, E3, E5, E6, H1.
    split; [|rewrite <- H1, H2; destruct (is_write ty)];
      rewrite ?wrap_add_l, ?wrap_add_r by lia; f_equal; lia. }
  assert (Hc1 : forall c', (accesses c', hits c', misses c', reads c', writes c') =
      (accesses c +! 1, hits c, misses c +! 1,
       if is_write ty then reads c else reads c +! 1, if is_write ty then writes c +! 1 else writes c) ->
    counters_ok c').
  { intros c' E. injection E as E1 E2 E3 E5 E6. unfold counters_ok. rewrite E1, E2, E3, E5, E6, H1.
    split; [|rewrite <- H1, H2; destruct (is_write ty)];
      rewrite ?wrap_add_l, ?wrap_add_r by lia; f_equal; lia. }
  destruct (find_hit _ _ _) as [w|].
  - split; [apply Hc0|]; unfold count_access; by destruct (is_write ty).
  - destruct (match find_invalid _ _ with Some _ => _ | None => _ end) as [[w wb] a].
    split; [apply Hc1|]; unfold count_access; by destruct (is_write ty), wb.
Qed.

Definition hierarchy_ok (h : cache_hierarchy_t) : Prop :=
  counters_ok (l1_icache h) /\ counters_ok (l1_dcache h) /\ counters_ok (l2_cache h).

(** Cycles of a data access: the levels it went through. *)
Definition charged (h : cache_hierarchy_t) (hit1 hit2 : bool) : Z :=
  if hit1 then l1_hit_latency h
  else if hit2 then l1_hit_latency h + l2_hit_latency h
  else l1_hit_latency h + l2_hit_latency h + memory_latency h.

(** C38: A simulated data access keeps the statistics of the three caches
    consistent (accesses are hits plus misses and reads plus writes), charges
    the processor the latency of the levels it reached less the cycle already
    counted, adds that latency and the cost of a dirty L2 eviction to the total,
    and counts L1 and L2 misses where they occurred; the instruction cache is
    not touched. *)
Theorem simulate_cache_access_exact p addr (w : bool) r1 r2 r3 :
  let h := hierarchy p in
  let ty := if w then CACHE_WRITE else CACHE_READ in
  let res1 := cache_access (l1_dcache h) addr ty r1 in
  let res2 := cache_access (l2_cache h) addr ty r2 in
  let hit1 := r_hit (fst res1) in
  let hit2 := r_hit (fst res2) in
  let cycles := charged h hit1 hit2 in
  let p' := simulate_cache_access p addr w (r1, r2, r3) in
  hierarchy_ok h -> 0 <= l1_hit_latency h -> 0 <= l2_hit_latency h -> 0 <= memory_latency h ->
  l1_hit_latency h + l2_hit_latency h + memory_latency h < 2 ^ 32 ->
  hierarchy_ok (hierarchy p') /\ l1_icache (hierarchy p') = l1_icache h /\
  l1_dcache (hierarchy p') = snd res1 /\
  extra_cycles p' = extra_cycles p +! (Z.max 1 cycles - 1) /\
  insn_extra_cycles p' = insn_extra_cycles p +! (Z.max 1 cycles - 1) /\
  total_cycles (hierarchy p') =
    (total_cycles h +! ((if negb hit1 && writeback_needed (fst res2) then memory_latency h else 0) + cycles)) /\
  dcache_accesses p' = dcache_accesses p +! 1 /\
  dcache_misses p' = (if hit1 then dcache_misses p else dcache_misses p +! 1) /\
  insn_l2_misses p' = (if hit1 || hit2 then insn_l2_misses p else insn_l2_misses p +! 1).
Proof.
  intros h ty res1 res2 hit1 hit2 cycles p' (Ki & Kd & K2) Hl1 Hl2 Hm Hs.
  unfold p', cycles, charged, hit1, hit2. clear p' cycles hit1 hit2.
  pose proof (access_counters (l1_dcache h) addr ty r1 Kd) as A1.
  pose proof (access_counters (l2_cache h) addr ty r2 K2) as A2.
  unfold simulate_cache_access, cache_hierarchy_access. fold h. fold ty.
  cbn [l1_dcache l2_cache count_memory_access]. fold res1. destruct res1 as [d1 l1] eqn:E1. fold res1 in A1.
  rewrite E1 in A1. destruct A1 as (Kd' & _). cbn [fst snd].
  assert (Hmax : forall x, (if 1 <? x then x - 1 else 0) = Z.max 1 x - 1) by (intros x; destruct (Z.ltb_spec 1 x); lia).
  destruct (r_hit d1) eqn:Eh1.
  - cbn. rewrite Hmax. split_and!; done.
  - cbn [l2_cache set_l1]. fold res2 in A2. destruct res2 as [d2 l2] eqn:E2.
    unfold res2 in E2.
    change (l2_cache (count_memory_access h)) with (l2_cache h). rewrite E2. destruct A2 as (K2' & _). cbn [negb andb orb fst snd].
    pose proof (access_counters l2 (writeback_addr d1) CACHE_WRITE r3 K2') as A3.
    destruct (cache_access l2 (writeback_addr d1) CACHE_WRITE r3) as [d3 l3] eqn:E3.
    destruct A3 as (K3' & _).
    destruct (r_hit d2), (writeback_needed d2), (writeback_needed d1); cbn -[wrap]; rewrite ?E3.
    all: rewrite ?(wrap_small 32) by lia; rewrite ?Hmax, ?wrap_add_l, <- ?Z.add_assoc by lia;
      split_and!; done.
Qed.

Definition small_hierarchy : cache_hierarchy_t :=
  Hierarchy small_cache small_cache small_cache 1 8 100 0 0.

Lemma simulate_cache_access_exact_witness :
  extra_cycles (simulate_cache_access (Perf small_hierarchy 0 0 0 0 0 0 0 0) 0x40 false (0, 0, 0)) = 108.
Proof.
  pose proof (simulate_cache_access_exact (Perf small_hierarchy 0 0 0 0 0 0 0 0) 0x40 false 0 0 0) as H.
  cbv zeta in H. destruct H as (_ & _ & _ & H & _); [split_and!; split; reflexivity|simpl; lia..|exact H].
Defined.

(** ** The finding on the counters

    The renumbering subtracts the least counter, so while one line of a set is
    not used the counters keep growing, and after 2^32 uses they wrap around:
    the line used last then has the least counter. *)
Definition two_way (n : Z) : cache_set_t :=
  CacheSet [CacheLine 1 CACHE_VALID 0 0; CacheLine 2 CACHE_VALID (n - 1) 0] n.

Lemma stale_step n : 2 <= n -> n < 2 ^ 32 - 1 -> update_lru (two_way n) 2 1 = two_way (n + 1).
Proof.
  intros H1 H2. pose proof (wrap_small 32 (n + 1) ltac:(lia)) as En.
  assert (E0 : wrap 32 (n + 1 - 0) = n + 1) by (rewrite wrap_small; lia).
  assert (E1 : wrap 32 (n - 0) = n) by (rewrite wrap_small; lia).
  unfold two_way. replace (n + 1 - 1) with n by lia.
  unfold update_lru, min_counter. change (seqZ 0 2) with [0; 1]. change (seqZ 1 (2 - 1)) with [1].
  cbv -[wrap Z.ltb Z.sub Z.add]. rewrite En. destruct (1000000 <? n + 1); [|done].
  replace (n <? 0) with false by lia. by rewrite E0, E1.
Qed.

Lemma lru_counter_wraps : exists k,
  find_lru_way (update_lru (Nat.iter k (fun s => update_lru s 2 1) (two_way 2)) 2 0) 2 = 0.
Proof.
  assert (Hk : forall k, 2 + Z.of_nat k <= 2 ^ 32 - 1 ->
    Nat.iter k (fun s => update_lru s 2 1) (two_way 2) = two_way (2 + Z.of_nat k)).
  { induction k as [|k IH]; intros Hb; [done|]. rewrite Nat.iter_succ, IH by lia.
    rewrite stale_step by lia. f_equal. lia. }
  exists (S (Z.to_nat (2 ^ 32 - 3))). rewrite Nat.iter_succ, Hk by lia.
  replace (2 + Z.of_nat (Z.to_nat (2 ^ 32 - 3))) with 4294967295 by lia. vm_compute. reflexivity.
Qed.

(** The configuration is validated after the division it should guard. *)
Lemma create_divides_by_zero : cache_create 16384 0 64 CACHE_LRU CACHE_WRITE_BACK = DivisionByZero.
Proof. reflexivity. Qed.
