(* ===== verification/Devices.v ===== *)
(** * The device bus, memory and ROM: [src/riscv/devices.cc], [rom.cc], [devices.h]

    [bus_t] routes an access to the device with the greatest base address at or
    below it; [mem_t] is a sparse map of lazily allocated pages; [rom_device_t]
    is a constant byte vector.  The class [abstract_device] is the interface a
    bus client sees; its second parameter is the state of the harts, which the
    interrupt controllers change.  The theorems: a memory of pages refines a
    flat array of bytes under any sequence of accesses, and the bus routes as a
    total map of half-open ranges does. *)

From Stdlib Require Import ZifyBool.
From stdpp Require Import gmap sorting.
From S2P Require Import Prelude.
Local Open Scope cint_scope.

(** Case analysis on the first conditional of the goal. *)
Ltac case_if :=
  match goal with |- context [if ?b then _ else _] => let E := fresh "E" in destruct b eqn:E end.

Definition PGSHIFT : Z := 12.
Definition PGSIZE : Z := 4096.

(** ** Little-endian registers *)

(** The loop of [write_little_endian_reg] on a [w]-bit word, from index [i]. *)
Fixpoint write_little_endian_from (w word addr i : Z) (bytes : list Z) : Z :=
  match bytes with
  | [] => word
  | b :: bytes =>
    let shift := 8 * ((addr +! i) mod (w / 8)) in
    let word := (word &! wrap w (Z.lnot (wrap w (Z.shiftl 0xFF shift)))) |!
                wrap w (Z.shiftl b shift) in
    write_little_endian_from w word addr (i + 1) bytes
  end.
Definition write_little_endian_reg (w word addr : Z) (bytes : list Z) : Z :=
  write_little_endian_from w word addr 0 bytes.

Definition read_little_endian_reg (w word addr len : Z) : list Z :=
  map (fun i => u8 (word >>! (8 * ((addr +! i) mod (w / 8))))) (seqZ 0 len).

(** ** The interface of a device

    [H] is the state of the harts the device reaches.  A load returns the bytes
    or reports failure; a store reports whether it was accepted. *)
Class abstract_device (H D : Type) := {
  dev_load : D -> H -> Z -> Z -> option (list Z) * (D * H);
  dev_store : D -> H -> Z -> list Z -> bool * (D * H)
}.

(** ** The bus *)

(** [std::map] from base addresses, as its entries in key order. *)
Abbreviation bus_t D := (list (Z * D)).

Fixpoint add_device {D} (addr : Z) (dev : D) (devices : bus_t D) : bus_t D :=
  match devices with
  | [] => [(addr, dev)]
  | e :: devices' =>
    if addr <? fst e then (addr, dev) :: devices
    else if addr =? fst e then (addr, dev) :: devices'
    else e :: add_device addr dev devices'
  end.

(** [upper_bound(addr)] and one step back: the position of the device. *)
Definition find_device {D} (devices : bus_t D) (addr : Z) : option (nat * (Z * D)) :=
  let n := length (List.filter (fun e => fst e <=? addr) devices) in
  match n with
  | O => None
  | S i => e ← devices !! i; Some (i, e)
  end.

Section bus.
Context {H D : Type} `{abstract_device H D}.

Definition bus_load (devices : bus_t D) (h : H) (addr len : Z) : option (list Z) * (bus_t D * H) :=
  match find_device devices addr with
  | None => (None, (devices, h))
  | Some (i, (base, dev)) =>
    let r := dev_load dev h (addr -! base) len in
    (fst r, (<[i := (base, fst (snd r))]> devices, snd (snd r)))
  end.

Definition bus_store (devices : bus_t D) (h : H) (addr : Z) (bytes : list Z) : bool * (bus_t D * H) :=
  match find_device devices addr with
  | None => (false, (devices, h))
  | Some (i, (base, dev)) =>
    let r := dev_store dev h (addr -! base) bytes in
    (fst r, (<[i := (base, fst (snd r))]> devices, snd (snd r)))
  end.
End bus.

(** ** ROM *)

Definition rom_load (data : list Z) (addr len : Z) : option (list Z) :=
  if Z.of_nat (length data) <? addr +! len then None
  else Some (take (Z.to_nat len) (drop (Z.to_nat addr) data)).
Definition rom_store (data : list Z) (addr : Z) (bytes : list Z) : bool := false.

(** ** Memory *)

Record mem_t := Mem { sz : Z; sparse_memory_map : gmap Z (list Z) }.

(** The constructor; [None] is the exception it throws. *)
Definition new_mem (size : Z) : option mem_t :=
  if (size =? 0) || negb (size mod PGSIZE =? 0) then None else Some (Mem size ∅).

Definition zero_page : list Z := replicate (Z.to_nat PGSIZE) 0.

(** [contents]: the page of the address, allocated when it is absent. *)
Definition contents (m : mem_t) (addr : Z) : list Z * mem_t :=
  let ppn := addr >>! PGSHIFT in
  match sparse_memory_map m !! ppn with
  | Some page => (page, m)
  | None => (zero_page, Mem (sz m) (<[ppn := zero_page]> (sparse_memory_map m)))
  end.

Definition read_page (page : list Z) (pgoff n : Z) : list Z :=
  take (Z.to_nat n) (drop (Z.to_nat pgoff) page).
Definition write_page (page : list Z) (pgoff : Z) (bytes : list Z) : list Z :=
  take (Z.to_nat pgoff) page ++ bytes ++ drop (Z.to_nat pgoff + length bytes) page.

(** The loop of [load_store], for a load and for a store; [None] is no fuel. *)
Fixpoint load_loop (fuel : nat) (m : mem_t) (addr len : Z) : option (list Z * mem_t) :=
  match fuel with
  | O => None
  | S fuel =>
    if 0 <? len then
      let n := Z.min (PGSIZE - addr mod PGSIZE) len in
      let '(page, m) := contents m addr in
      r ← load_loop fuel m (addr +! n) (len - n);
      Some (read_page page (addr mod PGSIZE) n ++ fst r, snd r)
    else Some ([], m)
  end.
Fixpoint store_loop (fuel : nat) (m : mem_t) (addr : Z) (bytes : list Z) : option mem_t :=
  match fuel with
  | O => None
  | S fuel =>
    let len := Z.of_nat (length bytes) in
    if 0 <? len then
      let n := Z.min (PGSIZE - addr mod PGSIZE) len in
      let '(page, m) := contents m addr in
      let page := write_page page (addr mod PGSIZE) (take (Z.to_nat n) bytes) in
      store_loop fuel (Mem (sz m) (<[addr >>! PGSHIFT := page]> (sparse_memory_map m)))
        (addr +! n) (drop (Z.to_nat n) bytes)
    else Some m
  end.

Definition in_bounds (m : mem_t) (addr len : Z) : bool :=
  negb ((addr +! len <? addr) || (sz m <? addr +! len)).

(** One iteration per page: [len + 1] rounds are enough. *)
Definition mem_load (m : mem_t) (addr len : Z) : option (list Z) * mem_t :=
  if in_bounds m addr len then
    match load_loop (S (Z.to_nat len)) m addr len with
    | Some r => (Some (fst r), snd r)
    | None => (None, m)
    end
  else (None, m).
Definition mem_store (m : mem_t) (addr : Z) (bytes : list Z) : bool * mem_t :=
  if in_bounds m addr (Z.of_nat (length bytes)) then
    match store_loop (S (length bytes)) m addr bytes with
    | Some m' => (true, m')
    | None => (false, m)
    end
  else (false, m).

(** [dump]: the pages in order, zeros for the absent ones. *)
Definition mem_dump (m : mem_t) : list Z :=
  concat (map (fun i => default zero_page (sparse_memory_map m !! ((i * PGSIZE) >>! PGSHIFT)))
    (seqZ 0 (sz m / PGSIZE))).

(** ** Memory refines a flat array *)

Definition mem_byte (m : mem_t) (a : Z) : Z :=
  nth (Z.to_nat (a mod PGSIZE)) (default zero_page (sparse_memory_map m !! (a / PGSIZE))) 0.

Record wf_mem (m : mem_t) : Prop := {
  wf_size : 0 < sz m < 2 ^ 64;
  wf_pages : map_Forall (fun _ page => length page = Z.to_nat PGSIZE) (sparse_memory_map m)
}.

(** The flat reading of the source range [addr], [addr + 1], ... *)
Definition overlay (addr : Z) (bytes : list Z) (f : Z -> Z) (a : Z) : Z :=
  if (addr <=? a) && (a <? addr + Z.of_nat (length bytes))
  then nth (Z.to_nat (a - addr)) bytes 0 else f a.

Lemma shiftr_page a : a >>! PGSHIFT = a / PGSIZE.
Proof. by rewrite Z.shiftr_div_pow2. Qed.

Lemma page_split a : a = PGSIZE * (a / PGSIZE) + a mod PGSIZE /\ 0 <= a mod PGSIZE < PGSIZE.
Proof. split; [by apply Z.div_mod|by apply Z.mod_pos_bound]. Qed.

Lemma nth_app_le {A} (l l' : list A) i d : (i < length l)%nat -> nth i (l ++ l') d = nth i l d.
Proof. apply app_nth1. Qed.

Lemma nth_take {A} (l : list A) i n d : (i < n)%nat -> nth i (take n l) d = nth i l d.
Proof. revert i n. induction l as [|x l IH]; intros [|i] [|n] ?; simpl; try done; try lia. apply IH. lia. Qed.

Lemma nth_drop {A} (l : list A) i n d : nth i (drop n l) d = nth (n + i) l d.
Proof.
  revert n. induction l as [|x l IH]; intros [|n]; simpl; [done|by destruct i|done|apply IH].
Qed.

Lemma zero_page_length : length zero_page = Z.to_nat PGSIZE.
Proof. apply length_replicate. Qed.

Section pages.
Context (m : mem_t) (Hm : wf_mem m).

Lemma page_length p : length (default zero_page (sparse_memory_map m !! p)) = Z.to_nat PGSIZE.
Proof using Hm.
  destruct (sparse_memory_map m !! p) as [page|] eqn:E.
  - exact (wf_pages m Hm p page E).
  - exact zero_page_length.
Qed.

Lemma contents_page addr : fst (contents m addr) = default zero_page (sparse_memory_map m !! (addr / PGSIZE)).
Proof using. unfold contents. rewrite shiftr_page. by destruct (_ !! _). Qed.

Lemma contents_page_after addr :
  default zero_page (sparse_memory_map (snd (contents m addr)) !! (addr / PGSIZE)) =
  fst (contents m addr).
Proof using.
  unfold contents. rewrite shiftr_page.
  destruct (sparse_memory_map m !! (addr / PGSIZE)) eqn:E; cbn [fst snd sparse_memory_map].
  - by rewrite E.
  - by rewrite lookup_insert_eq.
Qed.

Lemma contents_byte addr a : mem_byte (snd (contents m addr)) a = mem_byte m a.
Proof using.
  unfold contents, mem_byte. rewrite shiftr_page.
  destruct (sparse_memory_map m !! (addr / PGSIZE)) eqn:E; [done|]. simpl.
  destruct (decide (addr / PGSIZE = a / PGSIZE)) as [Ep|Np].
  - by rewrite <- Ep, lookup_insert_eq, E.
  - by rewrite lookup_insert_ne.
Qed.

Lemma insert_page_wf p page : length page = Z.to_nat PGSIZE ->
  wf_mem (Mem (sz m) (<[p := page]> (sparse_memory_map m))).
Proof using Hm.
  destruct Hm as [Hs Hp]. intros Hl. split; [done|]. simpl. by apply map_Forall_insert_2.
Qed.

Lemma contents_wf addr : wf_mem (snd (contents m addr)) /\ sz (snd (contents m addr)) = sz m.
Proof using Hm.
  unfold contents. destruct (sparse_memory_map m !! (addr >>! PGSHIFT)); [done|].
  split; [|done]. apply insert_page_wf, zero_page_length.
Qed.
End pages.

Lemma write_page_length page pgoff bytes : length page = Z.to_nat PGSIZE ->
  0 <= pgoff -> pgoff + Z.of_nat (length bytes) <= PGSIZE ->
  length (write_page page pgoff bytes) = Z.to_nat PGSIZE.
Proof.
  intros Hl Ho Hb. unfold write_page. rewrite !length_app, length_take, length_drop. lia.
Qed.

Lemma write_page_nth page pgoff bytes k : length page = Z.to_nat PGSIZE ->
  0 <= pgoff -> pgoff + Z.of_nat (length bytes) <= PGSIZE -> 0 <= k ->
  nth (Z.to_nat k) (write_page page pgoff bytes) 0 =
  if (pgoff <=? k) && (k <? pgoff + Z.of_nat (length bytes))
  then nth (Z.to_nat (k - pgoff)) bytes 0 else nth (Z.to_nat k) page 0.
Proof.
  intros Hl Ho Hb Hk. unfold write_page.
  assert (Ht : length (take (Z.to_nat pgoff) page) = Z.to_nat pgoff)
    by (rewrite length_take; lia).
  destruct (Z.leb_spec pgoff k) as [H1|H1]; simpl.
  - rewrite app_nth2 by lia. rewrite Ht.
    replace (Z.to_nat k - Z.to_nat pgoff)%nat with (Z.to_nat (k - pgoff)) by lia.
    destruct (Z.ltb_spec k (pgoff + Z.of_nat (length bytes))).
    + by rewrite app_nth1 by lia.
    + rewrite app_nth2, nth_drop by lia. f_equal. lia.
  - rewrite app_nth1 by lia. by rewrite nth_take by lia.
Qed.

Lemma nth_map_seqZ (f : Z -> Z) lo n i d : (i < Z.to_nat n)%nat ->
  nth i (map f (seqZ lo n)) d = f (lo + Z.of_nat i).
Proof.
  intros Hi. rewrite nth_lookup. change (map f (seqZ lo n)) with (f <$> seqZ lo n).
  rewrite list_lookup_fmap. by rewrite lookup_seqZ_lt by lia.
Qed.

(** The bytes of one page, read and written. *)
Lemma same_page addr k : 0 <= addr -> 0 <= k -> addr mod PGSIZE + k < PGSIZE ->
  (addr + k) / PGSIZE = addr / PGSIZE /\ (addr + k) mod PGSIZE = addr mod PGSIZE + k.
Proof.
  intros Ha Hk H. destruct (page_split addr) as [E R].
  split; symmetry; [apply (Z.div_unique _ _ _ (addr mod PGSIZE + k))
                   |apply (Z.mod_unique _ _ (addr / PGSIZE))]; try (left; lia); lia.
Qed.

Lemma read_page_spec m addr n : wf_mem m -> 0 <= addr -> 0 <= n -> addr mod PGSIZE + n <= PGSIZE ->
  read_page (fst (contents m addr)) (addr mod PGSIZE) n = map (mem_byte m) (seqZ addr n).
Proof.
  intros Hm Ha Hn H. rewrite contents_page. unfold read_page.
  destruct (page_split addr) as [_ R].
  pose proof (page_length m Hm (addr / PGSIZE)) as Hl.
  assert (Hlen : length (take (Z.to_nat n) (drop (Z.to_nat (addr mod PGSIZE))
      (default zero_page (sparse_memory_map m !! (addr / PGSIZE))))) = Z.to_nat n)
    by (rewrite length_take, length_drop; lia).
  apply (nth_ext _ _ 0 0).
  { by rewrite Hlen, length_map, length_seqZ. }
  rewrite Hlen. intros i Hi. rewrite nth_take, nth_drop, nth_map_seqZ by lia.
  unfold mem_byte. destruct (same_page addr (Z.of_nat i)) as [E1 E2]; try lia.
  rewrite E1, E2. f_equal. lia.
Qed.

Lemma write_page_byte m addr page bytes a : wf_mem m -> 0 <= addr -> 0 <= a ->
  default zero_page (sparse_memory_map m !! (addr / PGSIZE)) = page ->
  addr mod PGSIZE + Z.of_nat (length bytes) <= PGSIZE ->
  mem_byte (Mem (sz m) (<[addr / PGSIZE := write_page page (addr mod PGSIZE) bytes]>
    (sparse_memory_map m))) a = overlay addr bytes (mem_byte m) a.
Proof.
  intros Hm Ha Haa <- H.
  destruct (page_split addr) as [E R], (page_split a) as [E' R'].
  pose proof (page_length m Hm (addr / PGSIZE)) as Hl.
  unfold mem_byte, overlay. cbn [sparse_memory_map].
  destruct (decide (addr / PGSIZE = a / PGSIZE)) as [Ep|Np].
  - rewrite Ep, lookup_insert_eq. cbn [default from_option id]. rewrite Ep in Hl.
    rewrite write_page_nth by (done || lia).
    replace ((addr mod PGSIZE <=? a mod PGSIZE) &&
        (a mod PGSIZE <? addr mod PGSIZE + Z.of_nat (length bytes)))
      with ((addr <=? a) && (a <? addr + Z.of_nat (length bytes))) by lia.
    destruct (_ && _) eqn:Eb; [|done]. do 2 f_equal. lia.
  - rewrite lookup_insert_ne by done.
    destruct (Z.leb_spec addr a), (Z.ltb_spec a (addr + Z.of_nat (length bytes))); simpl; try done.
    destruct Np. apply Z.le_antisymm; [by apply Z.div_le_mono|].
    apply Z.lt_succ_r. apply Z.div_lt_upper_bound; [done|]. lia.
Qed.

Lemma load_loop_spec fuel m addr len : wf_mem m -> 0 <= addr -> 0 <= len -> addr + len < 2 ^ 64 ->
  (Z.to_nat len < fuel)%nat ->
  exists m', load_loop fuel m addr len = Some (map (mem_byte m) (seqZ addr len), m') /\
    wf_mem m' /\ sz m' = sz m /\ forall a, mem_byte m' a = mem_byte m a.
Proof.
  revert m addr len. induction fuel as [|fuel IH]; intros m addr len Hm Ha Hl Hs Hf; [lia|].
  cbn [load_loop]. destruct (Z.ltb_spec 0 len) as [Hp|]; cycle 1.
  { exists m. replace len with 0 by lia. done. }
  destruct (page_split addr) as [_ R].
  set (n := Z.min (PGSIZE - addr mod PGSIZE) len).
  pose proof (read_page_spec m addr n Hm Ha ltac:(lia) ltac:(lia)) as Hr.
  pose proof (contents_byte m addr) as Hb.
  destruct (contents_wf m Hm addr) as [Hw Hsz].
  destruct (contents m addr) as [page m1]. cbn [fst snd] in *.
  rewrite (wrap_small 64 (addr + n)) by lia.
  destruct (IH m1 (addr + n) (len - n)) as (m' & E & Hw' & Hsz' & Hb'); try done; try lia.
  rewrite E. simpl. exists m'. split_and!; [|done|lia|].
  - assert (seqZ addr len = seqZ addr n ++ seqZ (addr + n) (len - n)) as ->
      by (rewrite <- seqZ_app by lia; f_equal; lia).
    rewrite map_app, Hr. do 3 f_equal. apply map_ext. intros a. apply Hb.
  - intros a. by rewrite Hb', Hb.
Qed.

Lemma overlay_nil addr f a : overlay addr [] f a = f a.
Proof.
  unfold overlay. change (length []) with 0%nat.
  destruct (Z.leb_spec addr a), (Z.ltb_spec a (addr + Z.of_nat 0)); cbn [andb]; done || lia.
Qed.

Lemma overlay_ext addr bytes f g a : f a = g a -> overlay addr bytes f a = overlay addr bytes g a.
Proof. intros E. unfold overlay. by rewrite E. Qed.

Lemma overlay_app addr b1 b2 f a :
  overlay (addr + Z.of_nat (length b1)) b2 (overlay addr b1 f) a = overlay addr (b1 ++ b2) f a.
Proof.
  unfold overlay. rewrite length_app.
  destruct (Z.leb_spec addr a), (Z.leb_spec (addr + Z.of_nat (length b1)) a),
    (Z.ltb_spec a (addr + Z.of_nat (length b1))),
    (Z.ltb_spec a (addr + Z.of_nat (length b1) + Z.of_nat (length b2))),
    (Z.ltb_spec a (addr + Z.of_nat (length b1 + length b2))); simpl; try lia; try done.
  - rewrite app_nth2 by lia. f_equal. lia.
  - rewrite app_nth1 by lia. done.
Qed.

Lemma store_loop_spec fuel m addr bytes : wf_mem m -> 0 <= addr ->
  addr + Z.of_nat (length bytes) < 2 ^ 64 -> (length bytes < fuel)%nat ->
  exists m', store_loop fuel m addr bytes = Some m' /\ wf_mem m' /\ sz m' = sz m /\
    forall a, 0 <= a -> mem_byte m' a = overlay addr bytes (mem_byte m) a.
Proof.
  revert m addr bytes. induction fuel as [|fuel IH]; intros m addr bytes Hm Ha Hs Hf; [lia|].
  cbn [store_loop]. destruct (Z.ltb_spec 0 (Z.of_nat (length bytes))) as [Hp|Hp]; cycle 1.
  { exists m. destruct bytes; [|simpl in Hp; lia]. split_and!; try done. intros a _.
    by rewrite overlay_nil. }
  destruct (page_split addr) as [_ R].
  set (n := Z.min (PGSIZE - addr mod PGSIZE) (Z.of_nat (length bytes))).
  assert (Hln : Z.of_nat (length (take (Z.to_nat n) bytes)) = n) by (rewrite length_take; lia).
  destruct (contents_wf m Hm addr) as [Hw Hsz].
  pose proof (contents_byte m addr) as Hb. pose proof (contents_page_after m addr) as Hpg.
  pose proof (contents_page m addr) as Hpl. pose proof (page_length m Hm (addr / PGSIZE)) as Hl.
  rewrite <- Hpl in Hl. rewrite shiftr_page, (wrap_small 64 (addr + n)) by lia.
  destruct (contents m addr) as [page m1] eqn:Ec. cbn [fst snd] in *.
  set (page' := write_page page _ _). set (m2 := Mem _ _).
  assert (Hw2 : wf_mem m2) by (apply insert_page_wf; [done|]; apply write_page_length; lia || done).
  destruct (IH m2 (addr + n) (drop (Z.to_nat n) bytes)) as (m' & E & Hw' & Hsz' & Hb');
    [done|lia|rewrite length_drop; lia|rewrite length_drop; lia|].
  exists m'. split_and!; [exact E|done|by rewrite Hsz'|]. intros a Haa. rewrite Hb' by done.
  rewrite <- (take_drop (Z.to_nat n) bytes) at 2. rewrite <- overlay_app, Hln.
  apply overlay_ext. unfold m2, page'. rewrite (write_page_byte m1) by (done || lia).
  by apply overlay_ext.
Qed.

(** ** Little-endian registers are byte arrays *)

Definition byte_of (x k : Z) : Z := u8 (x >>! (8 * k)).

Definition put_byte (w word p b : Z) : Z :=
  (word &! wrap w (Z.lnot (wrap w (Z.shiftl 0xFF (8 * p))))) |! wrap w (Z.shiftl b (8 * p)).

Lemma put_byte_of n word p b k : 0 <= p < n -> 0 <= k < n -> 0 <= b < 256 ->
  byte_of (put_byte (8 * n) word p b) k = if k =? p then b else byte_of word k.
Proof.
  intros Hp Hk Hb. unfold byte_of, put_byte. apply Z.bits_inj'. intros i Hi.
  rewrite wrap_testbit by lia.
  assert (Hff : forall j, Z.testbit 0xFF j = (0 <=? j) && (j <? 8)).
  { intros j. change 0xFF with (Z.ones 8). destruct (Z.leb_spec 0 j), (Z.ltb_spec j 8); cbn [andb].
    - by apply Z.ones_spec_low. - by apply Z.ones_spec_high; lia.
    - by apply Z.testbit_neg_r. - by apply Z.testbit_neg_r. }
  destruct (Z.ltb_spec i 8) as [H8|H8]; cbn [andb]; cycle 1.
  { destruct (k =? p); [by rewrite (testbit_high 8 b)|]. rewrite wrap_testbit by lia.
    by replace (i <? 8) with false by lia. }
  rewrite Z.shiftr_spec, Z.lor_spec, Z.land_spec, !wrap_testbit, Z.lnot_spec, wrap_testbit,
    !Z.shiftl_spec, Hff by lia.
  replace (i + 8 * k <? 8 * n) with true by lia. cbn [andb].
  destruct (Z.eqb_spec k p) as [->|Np].
  - replace (0 <=? i + 8 * p - 8 * p) with true by lia. replace (i + 8 * p - 8 * p) with i by lia.
    replace (i <? 8) with true by lia. cbn. by rewrite andb_false_r.
  - rewrite wrap_testbit, Z.shiftr_spec by lia. replace (i <? 8) with true by lia. cbn [andb].
    replace ((0 <=? i + 8 * k - 8 * p) && (i + 8 * k - 8 * p <? 8)) with false by lia.
    cbn. rewrite andb_true_r. destruct (Z.lt_ge_cases (i + 8 * k - 8 * p) 0).
    + by rewrite (Z.testbit_neg_r b), orb_false_r by lia.
    + by rewrite (testbit_high 8 b), orb_false_r by lia.
Qed.

Lemma write_little_endian_byte n word addr i bytes k :
  0 < n -> Forall (fun b => 0 <= b < 256) bytes -> 0 <= addr -> 0 <= i ->
  addr + i + Z.of_nat (length bytes) < 2 ^ 64 -> Z.of_nat (length bytes) <= n -> 0 <= k < n ->
  byte_of (write_little_endian_from (8 * n) word addr i bytes) k =
  (let j := (k - (addr + i)) mod n in
   if j <? Z.of_nat (length bytes) then nth (Z.to_nat j) bytes 0 else byte_of word k).
Proof.
  intros Hn. revert word i. induction bytes as [|b bytes IH]; intros word i Hb Ha Hi Hr Hl Hk.
  - cbn [length write_little_endian_from]. cbv zeta. pose proof (Z.mod_pos_bound (k - (addr + i)) n).
    rewrite (proj2 (Z.ltb_ge _ _)) by lia. done.
  - apply Forall_cons_iff in Hb as [Hb Hbs]. cbn [length] in Hr, Hl. cbn [write_little_endian_from].
    rewrite (wrap_small 64 (addr + i)) by lia.
    replace (8 * n / 8) with n by (rewrite Z.mul_comm, Z.div_mul; lia).
    set (p := (addr + i) mod n). fold (put_byte (8 * n) word p b).
    assert (Hp : 0 <= p < n) by (apply Z.mod_pos_bound; lia).
    rewrite IH by (done || lia). cbn zeta.
    set (j := (k - (addr + i)) mod n).
    assert (Hj : 0 <= j < n) by (apply Z.mod_pos_bound; lia).
    rewrite put_byte_of by (done || lia).
    assert (Ekp : (k =? p) = (j =? 0)).
    { subst j p. destruct (Z.eqb_spec k ((addr + i) mod n)) as [->|Nk].
      - rewrite Zminus_mod_idemp_l, Z.sub_diag. done.
      - destruct (Z.eqb_spec ((k - (addr + i)) mod n) 0) as [E0|]; [|done]. destruct Nk.
        rewrite <- (Z.mod_small k n) at 1 by lia.
        replace k with ((k - (addr + i)) + (addr + i)) by lia.
        by rewrite Zplus_mod, E0, Z.add_0_l, Z.mod_mod by lia. }
    rewrite Ekp. cbn [length].
    destruct (Z.eqb_spec j 0) as [Ej|Ej].
    + replace ((k - (addr + (i + 1))) mod n) with (n - 1); cycle 1.
      { apply (Z.mod_unique _ _ ((k - (addr + i)) / n - 1)); [lia|].
        pose proof (Z.div_mod (k - (addr + i)) n ltac:(lia)) as Hd. fold j in Hd. lia. }
      replace (n - 1 <? Z.of_nat (length bytes)) with false by lia.
      rewrite Ej. replace (0 <? Z.of_nat (S (length bytes))) with true by lia. done.
    + replace ((k - (addr + (i + 1))) mod n) with (j - 1); cycle 1.
      { apply (Z.mod_unique _ _ ((k - (addr + i)) / n)); [lia|].
        pose proof (Z.div_mod (k - (addr + i)) n ltac:(lia)) as Hd. fold j in Hd. lia. }
      replace (j <? Z.of_nat (S (length bytes))) with (j - 1 <? Z.of_nat (length bytes)) by lia.
      replace (Z.to_nat j) with (S (Z.to_nat (j - 1))) by lia. done.
Qed.

Lemma write_little_endian_range w word addr i bytes : 0 <= w -> 0 <= word < 2 ^ w ->
  0 <= write_little_endian_from w word addr i bytes < 2 ^ w.
Proof.
  intros Hw. revert word i. induction bytes as [|b bytes IH]; intros word i Hr; [done|].
  cbn [write_little_endian_from]. apply IH. apply lor_range; [done| |by apply wrap_range].
  apply land_range; [done|by apply wrap_range].
Qed.

(** A field of a register reads back what was written to it. *)
Lemma little_endian_roundtrip n word addr bytes :
  0 < n -> Forall (fun b => 0 <= b < 256) bytes -> 0 <= addr ->
  addr + Z.of_nat (length bytes) < 2 ^ 64 -> Z.of_nat (length bytes) <= n ->
  read_little_endian_reg (8 * n) (write_little_endian_reg (8 * n) word addr bytes) addr
    (Z.of_nat (length bytes)) = bytes.
Proof.
  intros Hn Hb Ha Hr Hl. unfold read_little_endian_reg, write_little_endian_reg.
  replace (8 * n / 8) with n by (rewrite Z.mul_comm, Z.div_mul; lia).
  apply (nth_ext _ _ 0 0). { rewrite length_map, length_seqZ. lia. }
  rewrite length_map, length_seqZ. intros q Hq. rewrite nth_map_seqZ by lia.
  rewrite Z.add_0_l, (wrap_small 64) by lia.
  fold (byte_of (write_little_endian_from (8 * n) word addr 0 bytes) ((addr + Z.of_nat q) mod n)).
  rewrite write_little_endian_byte by (done || lia || by apply Z.mod_pos_bound). cbn zeta.
  rewrite Zminus_mod_idemp_l, Z.add_0_r.
  replace (addr + Z.of_nat q - addr) with (Z.of_nat q) by lia. rewrite Z.mod_small by lia.
  replace (Z.of_nat q <? Z.of_nat (length bytes)) with true by lia. f_equal. lia.
Qed.

(** ** Accesses as a sequence *)

Inductive mem_op := MemLoad (addr len : Z) | MemStore (addr : Z) (bytes : list Z).
Inductive mem_result := Loaded (r : option (list Z)) | Stored (ok : bool).

Definition op_ok (o : mem_op) : Prop :=
  match o with
  | MemLoad addr len => 0 <= addr < 2 ^ 64 /\ 0 <= len < 2 ^ 64
  | MemStore addr bytes => 0 <= addr < 2 ^ 64 /\ Z.of_nat (length bytes) < 2 ^ 64
  end.

Definition mem_step (m : mem_t) (o : mem_op) : mem_result * mem_t :=
  match o with
  | MemLoad addr len => let r := mem_load m addr len in (Loaded (fst r), snd r)
  | MemStore addr bytes => let r := mem_store m addr bytes in (Stored (fst r), snd r)
  end.

(** The same on a flat array of [size] bytes: an access inside it takes effect
    byte for byte, an access that leaves it has no effect and fails. *)
Definition flat_step (size : Z) (f : Z -> Z) (o : mem_op) : mem_result * (Z -> Z) :=
  match o with
  | MemLoad addr len =>
    (Loaded (if addr + len <=? size then Some (map f (seqZ addr len)) else None), f)
  | MemStore addr bytes =>
    if addr + Z.of_nat (length bytes) <=? size then (Stored true, overlay addr bytes f)
    else (Stored false, f)
  end.

Fixpoint run {S : Type} (step : S -> mem_op -> mem_result * S) (s : S) (ops : list mem_op) :
    list mem_result :=
  match ops with
  | [] => []
  | o :: ops => fst (step s o) :: run step (snd (step s o)) ops
  end.

Lemma in_bounds_spec m addr len : wf_mem m -> 0 <= addr < 2 ^ 64 -> 0 <= len < 2 ^ 64 ->
  in_bounds m addr len = (addr + len <=? sz m).
Proof.
  intros [Hs _] Ha Hl. unfold in_bounds. unfold wrap.
  destruct (Z.ltb_spec (addr + len) (2 ^ 64)).
  - rewrite Z.mod_small by lia. lia.
  - assert (E : (addr + len) mod 2 ^ 64 = addr + len - 2 ^ 64)
      by (symmetry; apply (Z.mod_unique _ _ 1); lia).
    rewrite E. lia.
Qed.

Definition mem_rel (m : mem_t) (f : Z -> Z) : Prop := wf_mem m /\ forall a, 0 <= a -> mem_byte m a = f a.

Lemma mem_step_rel m f o : mem_rel m f -> op_ok o ->
  fst (mem_step m o) = fst (flat_step (sz m) f o) /\
  sz (snd (mem_step m o)) = sz m /\ mem_rel (snd (mem_step m o)) (snd (flat_step (sz m) f o)).
Proof.
  intros [Hm Hf] Ho. destruct o as [addr len|addr bytes]; destruct Ho as [Ha Hl];
    cbn [mem_step flat_step]; unfold mem_load, mem_store; rewrite in_bounds_spec by (done || lia);
    destruct (Z.leb_spec (addr + len) (sz m)) || destruct (Z.leb_spec (addr + Z.of_nat (length bytes)) (sz m));
    try done; pose proof (wf_size m Hm).
  - destruct (load_loop_spec (S (Z.to_nat len)) m addr len) as (m' & -> & Hw & Hs & Hb); try lia; [done|].
    cbn [fst snd]. split; [|split; [done|split; [done|intros a Haa; rewrite Hb; auto]]].
    do 2 f_equal. apply map_ext_in. intros a Hin. apply list_elem_of_In, elem_of_seqZ in Hin. apply Hf. lia.
  - destruct (store_loop_spec (S (length bytes)) m addr bytes) as (m' & -> & Hw & Hs & Hb); try lia; [done|].
    cbn [fst snd]. split; [done|split; [done|split; [done|]]].
    intros a Haa. rewrite Hb by done. apply overlay_ext. auto.
Qed.

Lemma run_rel ops m f : mem_rel m f -> Forall op_ok ops ->
  run mem_step m ops = run (flat_step (sz m)) f ops.
Proof.
  revert m f. induction ops as [|o ops IH]; intros m f Hr Ho; [done|].
  apply Forall_cons_iff in Ho as [Ho Hos]. cbn [run].
  destruct (mem_step_rel m f o Hr Ho) as (E & Es & Hr'). rewrite E, (IH _ _ Hr' Hos), Es. done.
Qed.

Lemma new_mem_rel size m : 0 <= size < 2 ^ 64 -> new_mem size = Some m -> mem_rel m (fun _ => 0) /\ sz m = size.
Proof.
  intros Hs E. unfold new_mem in E. destruct (_ || _) eqn:B; [done|]. injection E as <-.
  apply orb_false_iff in B as [B _]. apply Z.eqb_neq in B. split; [|done]. split.
  - split; [cbn; lia|apply map_Forall_empty].
  - intros a Ha. unfold mem_byte. cbn [sparse_memory_map]. rewrite lookup_empty.
    cbn [default from_option id]. unfold zero_page.
    destruct (page_split a) as [_ R]. rewrite nth_lookup, lookup_replicate_2 by lia. done.
Qed.

(** ** Routing *)

Section routing.
Context {D : Type}.
Implicit Types devices : bus_t D.

Definition sorted_bus devices : Prop := StronglySorted Z.lt (map fst devices).

(** The device last added at a base address. *)
Definition last_added (adds : list (Z * D)) (base : Z) : option D :=
  option_map snd (List.find (fun e => fst e =? base) (rev adds)).

Definition at_base devices (base : Z) : option D :=
  option_map snd (List.find (fun e => fst e =? base) devices).

Lemma at_base_add addr dev devices base : sorted_bus devices ->
  at_base (add_device addr dev devices) base = if addr =? base then Some dev else at_base devices base.
Proof.
  unfold at_base. induction devices as [|e l IH]; intros Hs; cbn [add_device].
  - cbn. by destruct (addr =? base).
  - apply StronglySorted_inv in Hs as [Hs Hall].
    destruct (Z.ltb_spec addr (fst e)); [|destruct (Z.eqb_spec addr (fst e))]; cbn [List.find fst].
    + by destruct (addr =? base).
    + subst addr. by destruct (fst e =? base).
    + destruct (Z.eqb_spec (fst e) base) as [Eb|]; [|by apply IH].
      destruct (Z.eqb_spec addr base); [lia|done].
Qed.

Lemma add_device_bases addr dev devices b :
  b ∈ map fst (add_device addr dev devices) <-> b = addr \/ b ∈ map fst devices.
Proof.
  induction devices as [|e l IH]; cbn [add_device map].
  - rewrite !elem_of_cons. tauto.
  - destruct (Z.ltb_spec addr (fst e)); [|destruct (Z.eqb_spec addr (fst e)) as [->|]];
      cbn [map fst]; rewrite ?elem_of_cons, ?IH; tauto.
Qed.

Lemma add_device_sorted addr dev devices : sorted_bus devices -> sorted_bus (add_device addr dev devices).
Proof.
  unfold sorted_bus. induction devices as [|e l IH]; cbn [add_device map]; intros Hs.
  - cbn. repeat constructor.
  - pose proof Hs as Hs0. apply StronglySorted_inv in Hs as [Hs Hall].
    destruct (Z.ltb_spec addr (fst e)); [|destruct (Z.eqb_spec addr (fst e))]; cbn [map fst].
    + constructor; [done|]. constructor; [done|]. apply (list.Forall_impl _ _ _ Hall). cbn. intros; lia.
    + subst addr. by constructor.
    + constructor; [by apply IH|]. apply list.Forall_forall. intros b Hb.
      apply add_device_bases in Hb as [->|Hb]; [lia|]. by eapply list.Forall_forall in Hall.
Qed.

(** In a sorted list the entries below a bound are a prefix. *)
Lemma sorted_prefix devices addr : sorted_bus devices ->
  exists l1 l2, devices = l1 ++ l2 /\ List.filter (fun e => fst e <=? addr) devices = l1 /\
    Forall (fun e => fst e <= addr) l1 /\ Forall (fun e => addr < fst e) l2.
Proof.
  unfold sorted_bus. induction devices as [|e l IH]; cbn [map]; intros Hs; [by exists [], []|].
  apply StronglySorted_inv in Hs as [Hs Hall]. cbn [List.filter].
  destruct (Z.leb_spec (fst e) addr).
  - destruct (IH Hs) as (l1 & l2 & -> & -> & H1 & H2). exists (e :: l1), l2. auto.
  - assert (Hgt : Forall (fun e' => addr < fst e') l).
    { apply list.Forall_forall. intros e' He. eapply list.Forall_forall in Hall; [|by apply list_elem_of_fmap_2].
      lia. }
    exists [], (e :: l). split_and!; [done| |done|by constructor].
    clear -Hgt. induction Hgt as [|e' l He' _ IH]; [done|]. cbn. by rewrite (proj2 (Z.leb_gt _ _)).
Qed.

Lemma find_device_spec devices addr : sorted_bus devices ->
  match find_device devices addr with
  | Some (i, (base, dev)) => devices !! i = Some (base, dev) /\ base <= addr /\
      at_base devices base = Some dev /\ forall b, b ∈ map fst devices -> b <= addr -> b <= base
  | None => forall b, b ∈ map fst devices -> addr < b
  end.
Proof.
  intros Hs. destruct (sorted_prefix devices addr Hs) as (l1 & l2 & Hd & Hf & H1 & H2).
  unfold find_device. rewrite Hf.
  destruct l1 as [|[base dev] l1 _] using rev_ind.
  - cbn [length]. intros b Hb. rewrite Hd in Hb. apply list_elem_of_fmap in Hb as (e & -> & He).
    by eapply list.Forall_forall in H2.
  - rewrite length_app. replace (length l1 + length [(base, dev)])%nat with (S (length l1)) by (cbn; lia).
    assert (Hl : devices !! length l1 = Some (base, dev)).
    { rewrite Hd, <- app_assoc. by apply list_lookup_middle. }
    rewrite Hl. cbn [mbind option_bind]. pose proof H1 as H1'.
    apply Forall_app in H1 as [H1 Hb]. apply Forall_cons_iff in Hb as [Hb _]. cbn in Hb.
    assert (Hlt : forall e, e ∈ l1 -> fst e < base).
    { intros e He. unfold sorted_bus in Hs. rewrite Hd, !map_app, <- app_assoc in Hs.
      eapply StronglySorted_app_1_elem_of; [exact Hs|by apply list_elem_of_fmap_2|].
      cbn. by left. }
    split; [done|split; [done|split]].
    + unfold at_base. rewrite Hd, <- app_assoc. clear -Hlt.
      induction l1 as [|e l1 IH]; cbn [app List.find].
      * cbn. by rewrite Z.eqb_refl.
      * pose proof (Hlt e ltac:(by left)). rewrite (proj2 (Z.eqb_neq _ _)) by lia.
        apply IH. intros e' He'. apply Hlt. by right.
    + intros b Hin Hle. rewrite Hd in Hin. apply list_elem_of_fmap in Hin as (e & -> & He).
      apply elem_of_app in He as [He|He]; [|eapply list.Forall_forall in H2; [|exact He]; lia].
      apply elem_of_app in He as [He|He]; [specialize (Hlt e He); lia|].
      apply list_elem_of_singleton in He as ->. done.
Qed.

Definition build (adds : list (Z * D)) : bus_t D :=
  fold_left (fun b e => add_device (fst e) (snd e) b) adds [].

Lemma build_spec adds : sorted_bus (build adds) /\ forall base, at_base (build adds) base = last_added adds base.
Proof.
  unfold build. induction adds as [|e adds [IH1 IH2]] using rev_ind.
  - split; [constructor|done].
  - rewrite fold_left_app. cbn [fold_left]. split; [by apply add_device_sorted|].
    intros base. rewrite at_base_add by done. unfold last_added.
    rewrite rev_app_distr. cbn [rev app List.find]. by destruct (fst e =? base).
Qed.

Lemma at_base_in devices base : at_base devices base <> None <-> base ∈ map fst devices.
Proof.
  unfold at_base. induction devices as [|e l IH]; cbn [List.find map].
  - split; [done|]. intros ?%elem_of_nil. done.
  - rewrite elem_of_cons. destruct (Z.eqb_spec (fst e) base); cbn; [naive_solver|]. rewrite IH. naive_solver.
Qed.

(** Replacing the state of one device leaves the others. *)
Lemma at_base_update devices i base dev dev' : sorted_bus devices -> devices !! i = Some (base, dev) ->
  forall b, at_base (<[i := (base, dev')]> devices) b = if base =? b then Some dev' else at_base devices b.
Proof.
  unfold at_base. revert i. induction devices as [|e l IH]; intros i Hs Hi b; [done|].
  apply StronglySorted_inv in Hs as [Hs Hall]. destruct i as [|i]; cbn in Hi.
  - injection Hi as ->. cbn. by destruct (base =? b).
  - cbn. specialize (IH i Hs Hi b). destruct (Z.eqb_spec (fst e) b) as [Eb|]; [|done].
    destruct (Z.eqb_spec base b); [|done]. exfalso.
    assert (fst e < base); [|lia]. eapply list.Forall_forall; [exact Hall|].
    apply (list_elem_of_fmap_2 fst l (base, dev)). by eapply list_elem_of_lookup_2.
Qed.

Lemma find_built adds addr :
  match find_device (build adds) addr with
  | Some (i, (base, dev)) => build adds !! i = Some (base, dev) /\ base <= addr /\
      last_added adds base = Some dev /\
      forall b, last_added adds b <> None -> b <= addr -> b <= base
  | None => forall b, last_added adds b <> None -> addr < b
  end.
Proof.
  destruct (build_spec adds) as [Hs Ha]. pose proof (find_device_spec _ addr Hs) as Hf.
  destruct (find_device (build adds) addr) as [[i [base dev]]|].
  - destruct Hf as (H1 & H2 & H3 & H4). rewrite <- Ha. split_and!; try done.
    intros b Hb. apply H4, at_base_in. by rewrite Ha.
  - intros b Hb. apply Hf, at_base_in. by rewrite Ha.
Qed.
End routing.

(** ** The claims *)

(** C22: A memory device of lazily allocated pages behaves as one flat array of
    bytes, zero at first, under every sequence of loads and stores of any length
    and alignment: loads that fit return the bytes last stored, across page
    boundaries, accesses that leave the memory (also by wrapping around) fail
    without effect, and no access runs out of fuel. *)
Theorem mem_refines_flat size m ops : 0 <= size < 2 ^ 64 -> new_mem size = Some m ->
  Forall op_ok ops -> run mem_step m ops = run (flat_step size) (fun _ => 0) ops.
Proof.
  intros Hs Hn Ho. destruct (new_mem_rel size m Hs Hn) as [Hr <-]. by apply run_rel.
Qed.

(** A store across a page boundary, read back in two halves. *)
Lemma mem_refines_flat_witness :
  run (flat_step 8192) (fun _ => 0) [MemStore 4094 [1; 2; 3; 4]; MemLoad 4096 2; MemLoad 8190 4] =
  [Stored true; Loaded (Some [3; 4]); Loaded None].
Proof.
  rewrite <- (mem_refines_flat 8192 (Mem 8192 ∅));
    [vm_compute; reflexivity|lia|reflexivity|repeat constructor; cbn; lia].
Defined.

(** C39: The bus hands an access to the device registered last at the greatest
    base address at or below it, with the offset from that base, and replaces
    the state of that device only; below the lowest base the access fails and
    changes nothing. *)
Theorem bus_routes {H D} `{abstract_device H D} (adds : list (Z * D)) (h : H) addr len bytes :
  0 <= addr < 2 ^ 64 -> Forall (fun e => 0 <= fst e) adds ->
  let bus := build adds in
  (bus_load bus h addr len = (None, (bus, h)) /\ bus_store bus h addr bytes = (false, (bus, h)) /\
   forall b, last_added adds b <> None -> addr < b) \/
  exists base dev, last_added adds base = Some dev /\ base <= addr /\
    (forall b, last_added adds b <> None -> b <= addr -> b <= base) /\
    (let r := dev_load dev h (addr - base) len in let r' := bus_load bus h addr len in
     fst r' = fst r /\ snd (snd r') = snd (snd r) /\
     forall b, at_base (fst (snd r')) b = if base =? b then Some (fst (snd r)) else last_added adds b) /\
    (let r := dev_store dev h (addr - base) bytes in let r' := bus_store bus h addr bytes in
     fst r' = fst r /\ snd (snd r') = snd (snd r) /\
     forall b, at_base (fst (snd r')) b = if base =? b then Some (fst (snd r)) else last_added adds b).
Proof.
  intros Ha Hadds bus. pose proof (find_built adds addr) as Hf. fold bus in Hf.
  destruct (build_spec adds) as [Hs Hb]. fold bus in Hs, Hb. unfold bus_load, bus_store.
  destruct (find_device bus addr) as [[i [base dev]]|]; [right|by left].
  destruct Hf as (Hi & Hle & Hl & Hmax).
  assert (0 <= base).
  { unfold last_added in Hl. destruct (List.find _ (rev adds)) as [e|] eqn:E; [|done].
    apply List.find_some in E as [Hin E]. apply Z.eqb_eq in E as <-.
    apply in_rev in Hin. rewrite List.Forall_forall in Hadds. by apply Hadds. }
  rewrite (wrap_small 64 (addr - base)) by lia.
  exists base, dev. split; [done|split; [done|split; [done|]]]. cbn.
  split; (split; [done|split; [done|]]); intros b;
    rewrite (at_base_update bus i base dev) by done; by rewrite Hb.
Qed.

Lemma bus_routes_witness :
  exists base dev, last_added [(0x1000, [7; 8]); (0x8000, [])] base = Some dev /\ base <= 0x1001.
Proof.
  destruct (@bus_routes unit (list Z)
    {| dev_load d h a n := (rom_load d a n, (d, h)); dev_store d h a b := (rom_store d a b, (d, h)) |}
    [(0x1000, [7; 8]); (0x8000, [])] tt 0x1001 1 [] ltac:(lia) ltac:(repeat constructor; cbn; lia))
    as [(E & _)|(base & dev & H1 & H2 & _)].
  - vm_compute in E. discriminate E.
  - by exists base, dev.
Defined.
