(* ===== verification/Clint.v ===== *)
(** * The core-local interruptor: [src/riscv/clint.cc]

    [clint_t] holds the machine timer and the compare registers and drives the
    timer and software interrupt lines of the harts.  [hart_io] is the part of a
    hart the interrupt controllers reach: [mip], the [time] shadow register and
    the Sstc compare registers with their enables ([csrs.cc]).  The claims: the
    timer lines always equal the comparison, under every sequence of accesses
    and ticks, and the memory-mapped registers read back what was written. *)

From Stdlib Require Import ZifyBool.
From stdpp Require Import gmap.
From S2P Require Import Prelude Devices.
Local Open Scope cint_scope.

Definition CLINT_SIZE : Z := 0x000c0000.
Definition MSIP_BASE : Z := 0x0.
Definition MTIMECMP_BASE : Z := 0x4000.
Definition MTIME_BASE : Z := 0xbff8.
Definition MIP_MSIP : Z := 2 ^ 3.
Definition MIP_STIP : Z := 2 ^ 5.
Definition MIP_VSTIP : Z := 2 ^ 6.
Definition MIP_MTIP : Z := 2 ^ 7.
Definition MIP_SEIP : Z := 2 ^ 9.
Definition MIP_MEIP : Z := 2 ^ 11.

(** ** What the controllers reach in a hart

    [stce] and [hstce] are the [STCE] bits of [menvcfg] and [henvcfg], [sstc]
    and [has_s] the extensions. *)
Record hart_io := HartIo {
  mip : Z; hvip : Z; time : Z;
  stimecmp : Z; vstimecmp : Z; htimedelta : Z;
  sstc : bool; stce : bool; hstce : bool; has_s : bool
}.

Definition with_mip (h : hart_io) (v : Z) : hart_io :=
  HartIo v (hvip h) (time h) (stimecmp h) (vstimecmp h) (htimedelta h)
    (sstc h) (stce h) (hstce h) (has_s h).
Definition with_time (h : hart_io) (v : Z) : hart_io :=
  HartIo (mip h) (hvip h) v (stimecmp h) (vstimecmp h) (htimedelta h)
    (sstc h) (stce h) (hstce h) (has_s h).

Definition mip_read (h : hart_io) : Z := mip h |! hvip h.
Definition backdoor_write_with_mask (mask v : Z) (h : hart_io) : hart_io :=
  with_mip h ((mip h &! ~! mask) |! (v &! mask)).

(** [time_counter_csr_t::sync]. *)
Definition time_sync (v : Z) (h : hart_io) : hart_io :=
  let h := with_time h v in
  if sstc h then
    let mip_val := (if stimecmp h <=? time h then MIP_STIP else 0) |!
      (if vstimecmp h <=? (time h +! htimedelta h) then MIP_VSTIP else 0) in
    let mask := (if stce h then MIP_STIP else 0) |! (if hstce h then MIP_VSTIP else 0) in
    backdoor_write_with_mask mask mip_val h
  else h.

Abbreviation harts_t := (gmap Z hart_io).

(** ** The device *)

Record clint_t := Clint {
  freq_hz : Z; real_time : bool;
  mtime : Z;
  mtimecmp : gmap Z Z
}.
Definition with_mtime (c : clint_t) (v : Z) : clint_t := Clint (freq_hz c) (real_time c) v (mtimecmp c).
Definition with_mtimecmp (c : clint_t) (m : gmap Z Z) : clint_t := Clint (freq_hz c) (real_time c) (mtime c) m.

(** [mtimecmp[hart_id]]: [operator[]] reads an absent entry as zero. *)
Definition cmp_of (c : clint_t) (hart_id : Z) : Z := default 0 (mtimecmp c !! hart_id).

Section clock.
(** The microseconds since the reference time, as the host clock gives them
    during an access; used in real-time mode only. *)
Context (diff_usecs : Z).

Definition tick_hart (c : clint_t) (hart_id : Z) (h : hart_io) : hart_io :=
  backdoor_write_with_mask MIP_MTIP (if cmp_of c hart_id <=? mtime c then MIP_MTIP else 0)
    (time_sync (mtime c) h).

Definition tick (s : clint_t * harts_t) (rtc_ticks : Z) : clint_t * harts_t :=
  let c := fst s in
  let c := with_mtime c (if real_time c then (diff_usecs *! freq_hz c) / 1000000
                         else mtime c +! rtc_ticks) in
  (c, map_imap (fun id h => Some (tick_hart c id h)) (snd s)).

(** [load] and [store] call themselves on the halves of a doubleword; [rec] is
    the recursive call. *)
Definition load_body (rec : clint_t * harts_t -> Z -> Z -> option (list Z) * (clint_t * harts_t))
    (s : clint_t * harts_t) (addr len : Z) : option (list Z) * (clint_t * harts_t) :=
  if 8 <? len then (None, s) else
  let s := tick s 0 in
  let '(c, harts) := s in
  if (MSIP_BASE <=? addr) && (addr <? MTIMECMP_BASE) then
    if len =? 8 then
      match rec s addr 4 with
      | (Some lo, s) => let r := rec s (addr + 4) 4 in (option_map (app lo) (fst r), snd r)
      | (None, s) => (None, s)
      end
    else
      let hart_id := (addr - MSIP_BASE) / 4 in
      let res := match harts !! hart_id with
                 | Some h => b2z (z2b (mip_read h &! MIP_MSIP))
                 | None => 0
                 end in
      (Some (read_little_endian_reg 32 res addr len), s)
  else if (MTIMECMP_BASE <=? addr) && (addr <? MTIME_BASE) then
    let hart_id := (addr - MTIMECMP_BASE) / 8 in
    let res := match harts !! hart_id with Some _ => cmp_of c hart_id | None => 0 end in
    (Some (read_little_endian_reg 64 res addr len), s)
  else if (MTIME_BASE <=? addr) && (addr <? MTIME_BASE + 8) then
    (Some (read_little_endian_reg 64 (mtime c) addr len), s)
  else if (addr +! len) <=? CLINT_SIZE then (Some (replicate (Z.to_nat len) 0), s)
  else (None, s).
Definition clint_load : clint_t * harts_t -> Z -> Z -> option (list Z) * (clint_t * harts_t) :=
  load_body (load_body (fun s _ _ => (None, s))).

Definition store_body (rec : clint_t * harts_t -> Z -> list Z -> bool * (clint_t * harts_t))
    (s : clint_t * harts_t) (addr : Z) (bytes : list Z) : bool * (clint_t * harts_t) :=
  let len := Z.of_nat (length bytes) in
  if 8 <? len then (false, s) else
  let '(c, harts) := s in
  if (MSIP_BASE <=? addr) && (addr <? MTIMECMP_BASE) then
    if len =? 8 then
      match rec s addr (take 4 bytes) with
      | (true, s) => rec s (addr + 4) (drop 4 bytes)
      | (false, s) => (false, s)
      end
    else
      let harts :=
        if addr mod 4 =? 0 then
          let msip := write_little_endian_reg 32 0 addr bytes in
          alter (backdoor_write_with_mask MIP_MSIP (if z2b (msip &! 1) then MIP_MSIP else 0))
            ((addr - MSIP_BASE) / 4) harts
        else harts in
      (true, tick (c, harts) 0)
  else if (MTIMECMP_BASE <=? addr) && (addr <? MTIME_BASE) then
    let hart_id := (addr - MTIMECMP_BASE) / 8 in
    let c := match harts !! hart_id with
             | Some _ => with_mtimecmp c
                 (<[hart_id := write_little_endian_reg 64 (cmp_of c hart_id) addr bytes]> (mtimecmp c))
             | None => c
             end in
    (true, tick (c, harts) 0)
  else if (MTIME_BASE <=? addr) && (addr <? MTIME_BASE + 8) then
    (true, tick (with_mtime c (write_little_endian_reg 64 (mtime c) addr bytes), harts) 0)
  else if (addr +! len) <=? CLINT_SIZE then (true, tick (c, harts) 0)
  else (false, s).
Definition clint_store : clint_t * harts_t -> Z -> list Z -> bool * (clint_t * harts_t) :=
  store_body (store_body (fun s _ _ => (false, s))).
End clock.

(** ** Interrupt lines *)

Definition line (i : Z) (h : hart_io) : bool := Z.testbit (mip h) i.

Lemma write_line mask v h i : 0 <= i < 64 ->
  line i (backdoor_write_with_mask mask v h) = if Z.testbit mask i then Z.testbit v i else line i h.
Proof.
  intros Hi. unfold line, backdoor_write_with_mask. cbn [mip with_mip].
  rewrite Z.lor_spec, !Z.land_spec, wrap_testbit, Z.lnot_spec by lia.
  replace (i <? 64) with true by lia.
  destruct (Z.testbit mask i), (Z.testbit (mip h) i), (Z.testbit v i); reflexivity.
Qed.

(** What the timer lines of a hart must show at time [t] with compare value [cmp]. *)
Record timer_lines (t cmp : Z) (h : hart_io) : Prop := {
  tl_time : time h = t;
  tl_mtip : line 7 h = (cmp <=? t);
  tl_stip : sstc h && stce h = true -> line 5 h = (stimecmp h <=? t);
  tl_vstip : sstc h && hstce h = true -> line 6 h = (vstimecmp h <=? wrap 64 (t + htimedelta h))
}.

(** What the device never changes in a hart: every line but those of the timer
    and, when [soft] is false, the software interrupt; and the configuration. *)
Record untouched (soft : bool) (h h' : hart_io) : Prop := {
  un_lines : forall i, 0 <= i < 64 -> i <> 5 -> i <> 6 -> i <> 7 -> (soft = true -> i <> 3) ->
    line i h' = line i h;
  un_config : (hvip h', stimecmp h', vstimecmp h', htimedelta h', sstc h', stce h', hstce h', has_s h') =
    (hvip h, stimecmp h, vstimecmp h, htimedelta h, sstc h, stce h, hstce h, has_s h);
  un_sstc : sstc h && stce h = false -> line 5 h' = line 5 h;
  un_vstc : sstc h && hstce h = false -> line 6 h' = line 6 h
}.

Lemma mask_testbit (c : bool) n i : 0 <= n -> 0 <= i ->
  Z.testbit (if c then 2 ^ n else 0) i = c && (n =? i).
Proof. intros. destruct c; cbn [andb]; [by rewrite Z.pow2_bits_eqb|by rewrite Z.bits_0]. Qed.

Lemma mtip_write (b : bool) h i : 0 <= i < 64 ->
  line i (backdoor_write_with_mask MIP_MTIP (if b then MIP_MTIP else 0) h) =
  if i =? 7 then b else line i h.
Proof.
  intros Hi. rewrite write_line by done. unfold MIP_MTIP.
  rewrite mask_testbit, Z.pow2_bits_eqb, (Z.eqb_sym 7) by lia.
  by destruct (i =? 7), b.
Qed.

Lemma sync_line t h i : 0 <= i < 64 ->
  line i (time_sync t h) =
  if (i =? 5) && (sstc h && stce h) then stimecmp h <=? t
  else if (i =? 6) && (sstc h && hstce h) then vstimecmp h <=? wrap 64 (t + htimedelta h)
  else line i h.
Proof.
  intros Hi. unfold time_sync. change (sstc (with_time h t)) with (sstc h).
  destruct (sstc h); cbn [andb]; [|rewrite !andb_false_r; done].
  rewrite write_line by done. cbn [stimecmp vstimecmp htimedelta stce hstce time with_time].
  rewrite !Z.lor_spec. unfold MIP_STIP, MIP_VSTIP. rewrite !mask_testbit by lia.
  rewrite (Z.eqb_sym 5), (Z.eqb_sym 6).
  change (line i (with_time h t)) with (line i h).
  destruct (Z.eqb_spec i 5), (Z.eqb_spec i 6), (stce h), (hstce h); cbn [andb orb];
    rewrite ?andb_true_r, ?andb_false_r, ?orb_false_r; done || lia.
Qed.

Lemma tick_hart_lines c id h : timer_lines (mtime c) (cmp_of c id) (tick_hart c id h) /\
  untouched false h (tick_hart c id h).
Proof.
  unfold tick_hart. set (b := cmp_of c id <=? mtime c).
  assert (Hcfg : forall {A} (f : hart_io -> A),
    (forall h v, f (with_mip h v) = f h) -> (forall h v, f (with_time h v) = f h) ->
    f (backdoor_write_with_mask MIP_MTIP (if b then MIP_MTIP else 0) (time_sync (mtime c) h)) = f h).
  { intros A f H1 H2. unfold time_sync, backdoor_write_with_mask.
    destruct (sstc (with_time h (mtime c))); by rewrite ?H1, ?H2. }
  split; split.
  - unfold time_sync, backdoor_write_with_mask. by destruct (sstc _).
  - by rewrite mtip_write.
  - rewrite mtip_write, sync_line by lia. rewrite (Hcfg _ sstc), (Hcfg _ stce), (Hcfg _ stimecmp) by done.
    cbn [Z.eqb]. by intros ->.
  - rewrite mtip_write, sync_line by lia.
    rewrite (Hcfg _ sstc), (Hcfg _ hstce), (Hcfg _ vstimecmp), (Hcfg _ htimedelta) by done. by intros ->.
  - intros i Hi H5 H6 H7 _. rewrite mtip_write, sync_line by lia.
    destruct (Z.eqb_spec i 7), (Z.eqb_spec i 5), (Z.eqb_spec i 6); done.
  - by rewrite (Hcfg _ hvip), (Hcfg _ sstc), (Hcfg _ stce), (Hcfg _ hstce), (Hcfg _ has_s),
      (Hcfg _ stimecmp), (Hcfg _ vstimecmp), (Hcfg _ htimedelta).
  - intros E. rewrite mtip_write, sync_line by lia. by rewrite E.
  - intros E. rewrite mtip_write, sync_line by lia. by rewrite E.
Qed.

(** ** Sequences of accesses *)

Inductive clint_op :=
  | CLoad (us addr len : Z)
  | CStore (us addr : Z) (bytes : list Z)
  | CTick (us rtc_ticks : Z).

Definition clint_step (s : clint_t * harts_t) (o : clint_op) : clint_t * harts_t :=
  match o with
  | CLoad us addr len => snd (clint_load us s addr len)
  | CStore us addr bytes => snd (clint_store us s addr bytes)
  | CTick us n => tick us s n
  end.

Definition lines_ok (s : clint_t * harts_t) : Prop :=
  map_Forall (fun id h => timer_lines (mtime (fst s)) (cmp_of (fst s) id) h) (snd s).

(** The operation can change the software interrupt of the hart. *)
Definition writes_msip (id : Z) (o : clint_op) : bool :=
  match o with
  | CStore _ addr bytes => (addr <=? 4 * id) && (4 * id <? addr + Z.max 1 (Z.of_nat (length bytes)))
  | _ => false
  end.

Definition hart_rel (soft : bool) (o o' : option hart_io) : Prop :=
  match o, o' with
  | Some h, Some h' => untouched soft h h'
  | None, None => True
  | _, _ => False
  end.

Lemma untouched_refl h : untouched false h h.
Proof. by split. Qed.

Lemma untouched_trans a b h1 h2 h3 : untouched a h1 h2 -> untouched b h2 h3 -> untouched (a || b) h1 h3.
Proof.
  intros [L1 C1 S1 V1] [L2 C2 S2 V2].
  assert (Es : sstc h2 = sstc h1 /\ stce h2 = stce h1 /\ hstce h2 = hstce h1) by (simplify_eq C1; auto).
  destruct Es as (Ea & Eb & Ec). split.
  - intros i Hi H5 H6 H7 Hs. rewrite L2, L1; try done; intros E; apply Hs; rewrite E; [done|apply orb_true_r].
  - congruence.
  - intros E. rewrite S2, S1; [done|done|]. by rewrite Ea, Eb.
  - intros E. rewrite V2, V1; [done|done|]. by rewrite Ea, Ec.
Qed.

Lemma untouched_weaken a b h h' : (a = true -> b = true) -> untouched a h h' -> untouched b h h'.
Proof. intros Hab [L C S V]. split; try done. intros. apply L; auto. Qed.

Lemma hart_rel_trans a b o1 o2 o3 : hart_rel a o1 o2 -> hart_rel b o2 o3 -> hart_rel (a || b) o1 o3.
Proof. destruct o1, o2, o3; cbn; try done. apply untouched_trans. Qed.

Lemma hart_rel_refl o : hart_rel false o o.
Proof. destruct o; [apply untouched_refl|done]. Qed.

Lemma hart_rel_weaken a b o o' : (a = true -> b = true) -> hart_rel a o o' -> hart_rel b o o'.
Proof. destruct o, o'; cbn; try done. apply untouched_weaken. Qed.

Lemma tick_spec us s n : lines_ok (tick us s n) /\
  mtimecmp (fst (tick us s n)) = mtimecmp (fst s) /\
  forall id, hart_rel false (snd s !! id) (snd (tick us s n) !! id).
Proof.
  split; [|split; [done|]].
  - intros id h Hh. unfold tick in *. cbn [fst snd] in *.
    rewrite map_lookup_imap in Hh. destruct (snd s !! id) as [h0|]; [|done]. cbn in Hh.
    injection Hh as <-. apply tick_hart_lines.
  - intros id. unfold tick. cbn [snd]. rewrite map_lookup_imap.
    destruct (snd s !! id) as [h0|]; [|done]. cbn. apply tick_hart_lines.
Qed.

Lemma msip_untouched v h : untouched true h (backdoor_write_with_mask MIP_MSIP v h).
Proof.
  assert (Hl : forall i, 0 <= i < 64 -> i <> 3 -> line i (backdoor_write_with_mask MIP_MSIP v h) = line i h).
  { intros i Hi H3. rewrite write_line by done. unfold MIP_MSIP. rewrite Z.pow2_bits_eqb by lia.
    by rewrite (proj2 (Z.eqb_neq 3 i)) by lia. }
  split; try done; intros; apply Hl; lia || auto.
Qed.

(** One call of [load] or [store] without its recursion, for any recursive call
    that keeps the invariant. *)
Definition good_step (f : clint_t * harts_t -> clint_t * harts_t) (soft : Z -> bool) : Prop :=
  forall s, lines_ok s -> lines_ok (f s) /\ forall id, hart_rel (soft id) (snd s !! id) (snd (f s) !! id).

Lemma load_body_good us rec addr len :
  (forall addr' len', good_step (fun s => snd (rec s addr' len')) (fun _ => false)) ->
  good_step (fun s => snd (load_body us rec s addr len)) (fun _ => false).
Proof.
  intros Hrec s Hs. unfold load_body. destruct (8 <? len); [split; [done|intros; apply hart_rel_refl]|].
  destruct (tick_spec us s 0) as (Hl & _ & Hh). destruct (tick us s 0) as [c harts].
  destruct (_ && _); [destruct (len =? 8)|destruct (_ && _); [|destruct (_ && _); [|destruct (_ <=? _)]]];
    try (split; [exact Hl|exact Hh]).
  destruct (Hrec addr 4 (c, harts) Hl) as [Hl1 Hh1]. destruct (rec (c, harts) addr 4) as [[lo|] s1]; cbn [snd] in *.
  - destruct (Hrec (addr + 4) 4 s1 Hl1) as [Hl2 Hh2]. split; [done|]. intros id.
    apply (hart_rel_trans false false _ _ _ (Hh id)). apply (hart_rel_trans false false _ _ _ (Hh1 id) (Hh2 id)).
  - split; [done|]. intros id. apply (hart_rel_trans false false _ _ _ (Hh id) (Hh1 id)).
Qed.

Lemma store_simple us (s0 s : clint_t * harts_t) (soft : Z -> bool) : (forall id, hart_rel (soft id) (snd s0 !! id) (snd s !! id)) ->
  lines_ok (tick us s 0) /\ forall id, hart_rel (soft id) (snd s0 !! id) (snd (tick us s 0) !! id).
Proof.
  intros Hs. destruct (tick_spec us s 0) as (Hl & _ & Hh). split; [done|]. intros id.
  rewrite <- (orb_false_r (soft id)). by eapply hart_rel_trans.
Qed.

Lemma store_body_good us rec addr bytes : 0 <= addr ->
  (forall addr' bytes', 0 <= addr' ->
    good_step (fun s => snd (rec s addr' bytes')) (fun id => writes_msip id (CStore us addr' bytes'))) ->
  good_step (fun s => snd (store_body us rec s addr bytes)) (fun id => writes_msip id (CStore us addr bytes)).
Proof.
  intros Ha Hrec s Hs. unfold store_body.
  assert (Hid : forall b, lines_ok s /\ forall id, hart_rel (b id) (snd s !! id) (snd s !! id)).
  { intros b. split; [done|]. intros id. by eapply hart_rel_weaken, hart_rel_refl. }
  destruct (8 <? _) eqn:E8; [apply Hid|]. destruct s as [c harts].
  assert (Hsame : forall c', forall id,
    hart_rel (writes_msip id (CStore us addr bytes)) (snd (c, harts) !! id) (snd ((c', harts) : clint_t * harts_t) !! id)).
  { intros c' id. by eapply hart_rel_weaken, hart_rel_refl. }
  destruct (_ && _) eqn:Er.
  - destruct (_ =? 8) eqn:El8.
    + assert (Hw : forall id, writes_msip id (CStore us addr (take 4 bytes)) ||
          writes_msip id (CStore us (addr + 4) (drop 4 bytes)) = true -> writes_msip id (CStore us addr bytes) = true).
      { intros id. cbn [writes_msip]. rewrite length_take, length_drop. lia. }
      destruct (Hrec addr (take 4 bytes) Ha (c, harts) Hs) as [Hl1 Hh1].
      destruct (rec (c, harts) addr (take 4 bytes)) as [[|] s1]; cbn [snd] in *.
      * destruct (Hrec (addr + 4) (drop 4 bytes) ltac:(lia) s1 Hl1) as [Hl2 Hh2]. split; [done|].
        intros id. refine (hart_rel_weaken _ _ _ _ (Hw id) _). exact (hart_rel_trans _ _ _ _ _ (Hh1 id) (Hh2 id)).
      * split; [done|]. intros id. refine (hart_rel_weaken _ _ _ _ _ (Hh1 id)).
        intros E. apply Hw. by rewrite E.
    + cbn [snd]. apply (store_simple us (c, harts) _ (fun id => writes_msip id (CStore us addr bytes))). intros id. cbn [snd].
      destruct (Z.eqb_spec (addr mod 4) 0) as [E4|]; [|apply (Hsame c)].
      destruct (decide ((addr - MSIP_BASE) / 4 = id)) as [<-|Nid].
      * rewrite lookup_alter_eq. eapply hart_rel_weaken; cycle 1.
        { destruct (harts !! _); [apply msip_untouched|done]. }
        intros _. cbn [writes_msip]. unfold MSIP_BASE. rewrite Z.sub_0_r.
        pose proof (Z.div_mod addr 4). lia.
      * rewrite lookup_alter_ne by done. apply (Hsame c).
  - case_if; [|case_if; [|case_if]]; cbn [snd];
      try (apply (store_simple us (c, harts) _ (fun id => writes_msip id (CStore us addr bytes))); intros id; apply Hsame).
    apply Hid.
Qed.

Definition clint_op_ok (o : clint_op) : Prop :=
  match o with
  | CLoad _ addr len => 0 <= addr < 2 ^ 64 /\ 0 <= len
  | CStore _ addr bytes => 0 <= addr < 2 ^ 64
  | CTick _ n => 0 <= n
  end.

Lemma clint_step_good o : clint_op_ok o -> good_step (fun s => clint_step s o) (fun id => writes_msip id o).
Proof.
  intros Ho. destruct o as [us addr len|us addr bytes|us n]; cbn [clint_step].
  - apply load_body_good. intros. apply load_body_good.
    intros addr'' len'' s Hs. split; [done|]. intros. apply hart_rel_refl.
  - apply store_body_good; [apply Ho|]. intros. apply store_body_good; [done|].
    intros addr'' bytes'' _ s Hs. split; [done|]. intros id. by eapply hart_rel_weaken, hart_rel_refl.
  - intros s _. destruct (tick_spec us s n) as (Hl & _ & Hh). done.
Qed.

Lemma clint_run_good ops s : lines_ok s -> Forall clint_op_ok ops ->
  lines_ok (fold_left clint_step ops s) /\
  forall id, hart_rel (existsb (writes_msip id) ops) (snd s !! id) (snd (fold_left clint_step ops s) !! id).
Proof.
  revert s. induction ops as [|o ops IH]; intros s Hs Ho; cbn [fold_left existsb].
  - split; [done|]. intros. apply hart_rel_refl.
  - apply Forall_cons_iff in Ho as [Ho Hos]. destruct (clint_step_good o Ho s Hs) as [H1 H2].
    destruct (IH _ H1 Hos) as [H3 H4]. split; [done|]. intros id. by eapply hart_rel_trans.
Qed.

(** C18: Under every sequence of loads, stores and clock ticks, in simulated or
    real time, the timer interrupt of every hart is pending exactly when the
    timer has reached its compare register, its [time] is the timer, its Sstc
    interrupts follow their compare registers where enabled; no other interrupt
    line changes, the software interrupt of a hart only by a store to its
    register, and no access changes the harts' configuration. *)
Theorem clint_lines ops c harts : Forall clint_op_ok ops ->
  let s := tick 0 (c, harts) 0 in
  let s' := fold_left clint_step ops s in
  map_Forall (fun id h => timer_lines (mtime (fst s')) (cmp_of (fst s') id) h) (snd s') /\
  forall id, hart_rel (existsb (writes_msip id) ops) (harts !! id) (snd s' !! id).
Proof.
  intros Ho s s'. destruct (tick_spec 0 (c, harts) 0) as (Hl & _ & Hh).
  destruct (clint_run_good ops s Hl Ho) as [H1 H2]. split; [exact H1|]. intros id.
  exact (hart_rel_trans false _ _ _ _ (Hh id) (H2 id)).
Qed.

Definition demo_hart : hart_io := HartIo 0 0 0 0 0 0 false false false true.

(** Setting [mtimecmp] of hart 0 to 5, then five ticks. *)
Lemma clint_lines_witness :
  option_map (line 7) (snd (fold_left clint_step
    [CStore 0 0x4000 [5; 0; 0; 0; 0; 0; 0; 0]; CTick 0 5]
    (tick 0 (Clint 10000000 false 0 ∅, {[0 := demo_hart]}) 0)) !! 0) = Some true.
Proof.
  pose proof (clint_lines [CStore 0 0x4000 [5; 0; 0; 0; 0; 0; 0; 0]; CTick 0 5]
    (Clint 10000000 false 0 ∅) {[0 := demo_hart]} ltac:(repeat constructor; cbn; lia)) as [H _].
  cbv zeta in H. set (s' := fold_left _ _ _) in *.
  destruct (snd s' !! 0) as [h|] eqn:E; [|vm_compute in E; discriminate E].
  destruct (H 0 h E) as [_ Hm _ _]. cbn [option_map]. f_equal. etransitivity; [exact Hm|].
  vm_compute. reflexivity.
Defined.

(** ** Registers *)

Lemma load_cmp us s id off len : 0 <= id < 4095 -> 0 <= off < 8 -> 0 <= len <= 8 ->
  fst (clint_load us s (MTIMECMP_BASE + 8 * id + off) len) =
  Some (read_little_endian_reg 64 (match snd s !! id with Some _ => cmp_of (fst s) id | None => 0 end)
    (MTIMECMP_BASE + 8 * id + off) len).
Proof.
  intros Hid Ho Hl. unfold clint_load, load_body.
  destruct (tick_spec us s 0) as (_ & Hc & Hh). specialize (Hh id).
  destruct (tick us s 0) as [c harts]. unfold MSIP_BASE, MTIMECMP_BASE, MTIME_BASE in *.
  replace (8 <? len) with false by lia.
  replace ((0 <=? 16384 + 8 * id + off) && (16384 + 8 * id + off <? 16384)) with false by lia.
  replace ((16384 <=? 16384 + 8 * id + off) && (16384 + 8 * id + off <? 49144)) with true by lia.
  replace ((16384 + 8 * id + off - 16384) / 8) with id by (apply (Z.div_unique _ _ _ off); lia).
  cbn [fst snd] in *. do 2 f_equal. unfold cmp_of. rewrite Hc.
  destruct (snd s !! id), (harts !! id); done.
Qed.

Lemma store_cmp us s id off bytes h : snd s !! id = Some h -> 0 <= id < 4095 -> 0 <= off < 8 ->
  Z.of_nat (length bytes) <= 8 ->
  clint_store us s (MTIMECMP_BASE + 8 * id + off) bytes =
  (true, tick us (with_mtimecmp (fst s) (<[id := write_little_endian_reg 64 (cmp_of (fst s) id)
     (MTIMECMP_BASE + 8 * id + off) bytes]> (mtimecmp (fst s))), snd s) 0).
Proof.
  intros Hh Hid Ho Hl. unfold clint_store, store_body. destruct s as [c harts].
  cbn [fst snd] in *. unfold MSIP_BASE, MTIMECMP_BASE, MTIME_BASE in *.
  replace (8 <? Z.of_nat (length bytes)) with false by lia.
  replace ((0 <=? 16384 + 8 * id + off) && (16384 + 8 * id + off <? 16384)) with false by lia.
  replace ((16384 <=? 16384 + 8 * id + off) && (16384 + 8 * id + off <? 49144)) with true by lia.
  replace ((16384 + 8 * id + off - 16384) / 8) with id by (apply (Z.div_unique _ _ _ off); lia).
  by rewrite Hh.
Qed.

Lemma read_zero addr len : read_little_endian_reg 64 0 addr len = replicate (Z.to_nat len) 0.
Proof.
  unfold read_little_endian_reg. apply (nth_ext _ _ 0 0).
  { by rewrite length_map, length_seqZ, length_replicate. }
  rewrite length_map, length_seqZ. intros i Hi. rewrite nth_map_seqZ by done.
  rewrite Z.shiftr_0_l. rewrite nth_lookup, lookup_replicate_2 by done. done.
Qed.

Lemma tick_time us s : real_time (fst s) = false -> 0 <= mtime (fst s) < 2 ^ 64 ->
  mtime (fst (tick us s 0)) = mtime (fst s) /\ real_time (fst (tick us s 0)) = false.
Proof.
  intros Hr Hm. unfold tick. cbn [fst mtime with_mtime real_time]. rewrite Hr.
  split; [|done]. rewrite Z.add_0_r. by apply wrap_small.
Qed.

Lemma load_mtime us s off len : real_time (fst s) = false -> 0 <= mtime (fst s) < 2 ^ 64 ->
  0 <= off < 8 -> 0 <= len <= 8 ->
  fst (clint_load us s (MTIME_BASE + off) len) =
  Some (read_little_endian_reg 64 (mtime (fst s)) (MTIME_BASE + off) len).
Proof.
  intros Hr Hm Ho Hl. unfold clint_load, load_body. destruct (tick_time us s Hr Hm) as [Ht _].
  destruct (tick us s 0) as [c harts]. cbn [fst snd] in *. unfold MSIP_BASE, MTIMECMP_BASE, MTIME_BASE in *.
  replace (8 <? len) with false by lia.
  replace ((0 <=? 49144 + off) && (49144 + off <? 16384)) with false by lia.
  replace ((16384 <=? 49144 + off) && (49144 + off <? 49144)) with false by lia.
  replace ((49144 <=? 49144 + off) && (49144 + off <? 49144 + 8)) with true by lia.
  by rewrite Ht.
Qed.

Lemma store_mtime us s off bytes : 0 <= off < 8 -> Z.of_nat (length bytes) <= 8 ->
  clint_store us s (MTIME_BASE + off) bytes =
  (true, tick us (with_mtime (fst s) (write_little_endian_reg 64 (mtime (fst s)) (MTIME_BASE + off) bytes),
    snd s) 0).
Proof.
  intros Ho Hl. unfold clint_store, store_body. destruct s as [c harts].
  cbn [fst snd] in *. unfold MSIP_BASE, MTIMECMP_BASE, MTIME_BASE in *.
  replace (8 <? Z.of_nat (length bytes)) with false by lia.
  replace ((0 <=? 49144 + off) && (49144 + off <? 16384)) with false by lia.
  replace ((16384 <=? 49144 + off) && (49144 + off <? 49144)) with false by lia.
  by replace ((49144 <=? 49144 + off) && (49144 + off <? 49144 + 8)) with true by lia.
Qed.

(** The bit that a store to the software interrupt register takes effect with. *)
Lemma msip_word id v : 0 <= id < 4095 -> 0 <= v < 256 ->
  z2b (write_little_endian_reg 32 0 (0 + 4 * id) [v; 0; 0; 0] &! 1) = Z.odd v.
Proof.
  intros Hid Hv. set (word := write_little_endian_reg _ _ _ _).
  change 1 with (2 ^ 0). rewrite land_pow2 by lia. rewrite <- Z.bit0_odd.
  pose proof (write_little_endian_byte 4 0 (0 + 4 * id) 0 [v; 0; 0; 0] 0 ltac:(lia)
    ltac:(repeat constructor; lia) ltac:(lia) ltac:(lia) ltac:(cbn; lia) ltac:(cbn; lia) ltac:(lia)) as Hb.
  fold (write_little_endian_reg (8 * 4) 0 (0 + 4 * id) [v; 0; 0; 0]) in Hb.
  change (8 * 4) with 32 in Hb. fold word in Hb. cbv zeta in Hb.
  replace ((0 - (0 + 4 * id + 0)) mod 4) with 0 in Hb by (apply (Z.mod_unique _ _ (- id)); lia).
  assert (Hb' : byte_of word 0 = v) by (rewrite Hb; reflexivity).
  rewrite <- Hb'. unfold byte_of. rewrite wrap_testbit by lia. change (8 * 0) with 0.
  by rewrite Z.shiftr_0_r.
Qed.

Definition msip_shows (b : bool) (o : option hart_io) : Prop :=
  match o with Some h => line 3 h = b /\ hvip h &! MIP_MSIP = 0 | None => False end.

Lemma tick_msip us s id b : msip_shows b (snd s !! id) -> msip_shows b (snd (tick us s 0) !! id).
Proof.
  intros Hm. destruct (tick_spec us s 0) as (_ & _ & Hr). specialize (Hr id).
  destruct (snd s !! id), (snd (tick us s 0) !! id); try done. destruct Hr as [L C _ _], Hm as [H1 H2].
  split; [rewrite L by lia; done|]. simplify_eq C. intros. congruence.
Qed.

Lemma store_msip us c harts id h v : harts !! id = Some h -> 0 <= id < 4095 -> 0 <= v < 256 ->
  hvip h &! MIP_MSIP = 0 ->
  msip_shows (Z.odd v) (snd (snd (clint_store us (c, harts) (MSIP_BASE + 4 * id) [v; 0; 0; 0])) !! id).
Proof.
  intros Hh Hid Hv Hvip. unfold clint_store, store_body. unfold MSIP_BASE, MTIMECMP_BASE, MTIME_BASE.
  replace (8 <? Z.of_nat (length [v; 0; 0; 0])) with false by reflexivity.
  replace ((0 <=? 0 + 4 * id) && (0 + 4 * id <? 16384)) with true by lia.
  replace (Z.of_nat (length [v; 0; 0; 0]) =? 8) with false by reflexivity.
  replace ((0 + 4 * id) mod 4 =? 0) with true by (rewrite Z.add_0_l, Z.mul_comm, Z.mod_mul; lia).
  replace ((0 + 4 * id - 0) / 4) with id by (apply (Z.div_unique _ _ _ 0); lia).
  rewrite msip_word by done. apply tick_msip. cbn [snd]. rewrite lookup_alter_eq, Hh.
  split; [|done]. rewrite write_line by lia. unfold MIP_MSIP. destruct (Z.odd v); reflexivity.
Qed.

Lemma load_msip us s id b : msip_shows b (snd s !! id) -> 0 <= id < 4095 ->
  fst (clint_load us s (MSIP_BASE + 4 * id) 4) = Some [b2z b; 0; 0; 0].
Proof.
  intros Hs Hid. apply (tick_msip us) in Hs. unfold clint_load, load_body.
  destruct (tick us s 0) as [c harts]. cbn [snd] in Hs. unfold MSIP_BASE, MTIMECMP_BASE, MTIME_BASE.
  replace (8 <? 4) with false by reflexivity.
  replace ((0 <=? 0 + 4 * id) && (0 + 4 * id <? 16384)) with true by lia.
  replace (4 =? 8) with false by reflexivity.
  replace ((0 + 4 * id - 0) / 4) with id by (apply (Z.div_unique _ _ _ 0); lia).
  destruct (harts !! id) as [h|]; [|done]. destruct Hs as [Hl Hv].
  assert (Hm : z2b (mip_read h &! MIP_MSIP) = b).
  { unfold MIP_MSIP in *. rewrite land_pow2 by lia. unfold mip_read. rewrite Z.lor_spec.
    rewrite <- (land_pow2 (hvip h)) by lia. rewrite Hv, orb_false_r. exact Hl. }
  rewrite Hm. cbn [fst]. f_equal. unfold read_little_endian_reg.
  assert (Hmod : forall i, 0 <= i < 4 -> (wrap 64 (0 + 4 * id + i)) mod (32 / 8) = i).
  { intros i Hi. rewrite wrap_small by lia. change (32 / 8) with 4. symmetry.
    apply (Z.mod_unique _ _ id); lia. }
  change (seqZ 0 4) with [0; 1; 2; 3]. cbn [map]. rewrite !Hmod by lia. by destruct b.
Qed.

(** C40: The memory-mapped registers of the interruptor read back what was
    written: a doubleword or any part of a compare register of an existing
    hart, the timer in simulated time, and the lowest bit of the software
    interrupt register; a register without a hart reads as zero. *)
Theorem clint_registers us c harts id h off bytes v :
  harts !! id = Some h -> 0 <= id < 4095 -> Forall (fun b => 0 <= b < 256) bytes ->
  0 <= off < 8 -> off + Z.of_nat (length bytes) <= 8 -> 0 <= v < 256 -> hvip h &! MIP_MSIP = 0 ->
  (forall id', harts !! id' = None -> 0 <= id' < 4095 ->
    fst (clint_load us (c, harts) (MTIMECMP_BASE + 8 * id' + off) (Z.of_nat (length bytes))) =
      Some (replicate (length bytes) 0)) /\
  fst (clint_load us (snd (clint_store us (c, harts) (MTIMECMP_BASE + 8 * id + off) bytes))
        (MTIMECMP_BASE + 8 * id + off) (Z.of_nat (length bytes))) = Some bytes /\
  (real_time c = false -> 0 <= mtime c < 2 ^ 64 ->
   fst (clint_load us (snd (clint_store us (c, harts) (MTIME_BASE + off) bytes))
        (MTIME_BASE + off) (Z.of_nat (length bytes))) = Some bytes) /\
  fst (clint_load us (snd (clint_store us (c, harts) (MSIP_BASE + 4 * id) [v; 0; 0; 0]))
        (MSIP_BASE + 4 * id) 4) = Some [v mod 2; 0; 0; 0].
Proof.
  intros Hh Hid Hb Ho Hl Hv Hvip. split; [|split; [|split]].
  - intros id' Hn Hid'. rewrite load_cmp by (done || lia). cbn [snd]. rewrite Hn, read_zero.
    by rewrite Nat2Z.id.
  - rewrite (store_cmp us (c, harts) id off bytes h) by (done || lia). cbn [snd].
    rewrite load_cmp by lia. set (c' := with_mtimecmp _ _).
    destruct (tick_spec us (c', harts) 0) as (_ & Hc & Hr). specialize (Hr id).
    cbn [fst snd] in *. rewrite Hh in Hr. destruct (snd (tick us (c', harts) 0) !! id); [|done].
    unfold cmp_of at 1. rewrite Hc. cbn [mtimecmp c' with_mtimecmp]. rewrite lookup_insert_eq.
    f_equal. apply (little_endian_roundtrip 8); try done; unfold MTIMECMP_BASE; lia.
  - intros Hr Hm. rewrite store_mtime by lia. cbn [fst snd].
    set (v' := write_little_endian_reg 64 _ _ _). set (c' := with_mtime c v').
    assert (Hv' : 0 <= v' < 2 ^ 64).
    { apply write_little_endian_range; [lia|done]. }
    destruct (tick_time us (c', harts) Hr Hv') as [Ht1 Ht2]. cbn [fst mtime c' with_mtime] in Ht1.
    rewrite load_mtime; [|done|by rewrite Ht1|done|lia]. rewrite Ht1. f_equal.
    apply (little_endian_roundtrip 8); try done; unfold MTIME_BASE; lia.
  - rewrite (load_msip us _ id (Z.odd v)); [by rewrite Zmod_odd; destruct (Z.odd v)| |done].
    by apply (store_msip us c harts id h v).
Qed.

(** Writing the upper half of [mtimecmp] of hart 0. *)
Lemma clint_registers_witness :
  fst (clint_load 0 (snd (clint_store 0 (Clint 10000000 false 0 ∅, {[0 := demo_hart]}) 0x4004 [1; 2; 3; 4]))
    0x4004 4) = Some [1; 2; 3; 4].
Proof.
  exact (proj1 (proj2 (clint_registers 0 (Clint 10000000 false 0 ∅) {[0 := demo_hart]} 0 demo_hart 4
    [1; 2; 3; 4] 0 eq_refl ltac:(lia) ltac:(repeat constructor; lia) ltac:(lia) ltac:(cbn; lia)
    ltac:(lia) eq_refl))).
Defined.
