(* ===== verification/Plic.v ===== *)
(** * The platform-level interrupt controller: [src/riscv/plic.cc]

    [plic_t] gates the interrupt sources to the contexts of the harts: priorities,
    enables, pending and claimed bits, thresholds, claim and completion.  The
    claims: the source that [context_best_pending] selects is the claimable one of
    the greatest priority, the external interrupt line of every context is up
    exactly when there is one above the threshold, under every sequence of
    operations, and a claimed source is not offered again before its completion. *)

From Stdlib Require Import ZifyBool.
From stdpp Require Import gmap.
From S2P Require Import Prelude Devices Clint.
Local Open Scope cint_scope.

Definition PLIC_MAX_DEVICES : Z := 1024.
Definition PLIC_PRIO_BITS : Z := 4.
Definition PRIORITY_BASE : Z := 0.
Definition PENDING_BASE : Z := 0x1000.
Definition ENABLE_BASE : Z := 0x2000.
Definition ENABLE_PER_HART : Z := 0x80.
Definition CONTEXT_BASE : Z := 0x200000.
Definition CONTEXT_PER_HART : Z := 0x1000.
Definition CONTEXT_THRESHOLD : Z := 0.
Definition CONTEXT_CLAIM : Z := 4.
Definition REG_SIZE : Z := 0x1000000.

(** [proc] is the identifier of the hart.  The arrays of words and bytes are
    lists of their C length. *)
Record plic_context_t := PlicContext {
  proc : Z; mmode : bool;
  priority_threshold : Z;
  enable : list Z; pending : list Z; pending_priority : list Z; claimed : list Z
}.

Record plic_t := Plic {
  contexts : list plic_context_t;
  num_ids : Z; num_ids_word : Z; max_prio : Z;
  priority : list Z; level : list Z
}.

Definition words : nat := Z.to_nat (PLIC_MAX_DEVICES / 32).
Definition new_context (hart : Z) (m : bool) : plic_context_t :=
  PlicContext hart m 0 (replicate words 0) (replicate words 0)
    (replicate (Z.to_nat PLIC_MAX_DEVICES) 0) (replicate words 0).

(** The constructor; [harts] lists the harts in order, with whether they have S mode. *)
Definition new_plic (harts : list (Z * bool)) (ndev : Z) : plic_t :=
  Plic (concat (map (fun e : Z * bool => new_context (fst e) true ::
            (if snd e then [new_context (fst e) false] else [])) harts))
    (u32 (ndev + 1)) (u32 (u32 (ndev + 1) + 31) / 32) (2 ^ PLIC_PRIO_BITS - 1)
    (replicate (Z.to_nat PLIC_MAX_DEVICES) 0) (replicate words 0).

(** ** Array access *)

Definition at_ (l : list Z) (i : Z) : Z := nth (Z.to_nat i) l 0.
Definition set_at (l : list Z) (i v : Z) : list Z := <[Z.to_nat i := v]> l.

(** [word |= 1 << j] and [word &= ~(1 << j)] on a [uint32_t]. *)
Definition set_bit (word j : Z) : Z := word |! 2 ^ j.
Definition clear_bit (word j : Z) : Z := word &! u32 (Z.lnot (2 ^ j)).
Definition has_bit (word j : Z) : bool := z2b (word &! 2 ^ j).

Definition with_threshold (c : plic_context_t) (v : Z) : plic_context_t :=
  PlicContext (proc c) (mmode c) v (enable c) (pending c) (pending_priority c) (claimed c).
Definition with_enable (c : plic_context_t) (e : list Z) : plic_context_t :=
  PlicContext (proc c) (mmode c) (priority_threshold c) e (pending c) (pending_priority c) (claimed c).
Definition with_claimed (c : plic_context_t) (l : list Z) : plic_context_t :=
  PlicContext (proc c) (mmode c) (priority_threshold c) (enable c) (pending c) (pending_priority c) l.

(** A source becomes pending with its priority; it stops being pending or claimed. *)
Definition raise_pending (c : plic_context_t) (id prio : Z) : plic_context_t :=
  PlicContext (proc c) (mmode c) (priority_threshold c) (enable c)
    (set_at (pending c) (id / 32) (set_bit (at_ (pending c) (id / 32)) (id mod 32)))
    (set_at (pending_priority c) id prio) (claimed c).
Definition drop_pending (c : plic_context_t) (id : Z) : plic_context_t :=
  PlicContext (proc c) (mmode c) (priority_threshold c) (enable c)
    (set_at (pending c) (id / 32) (clear_bit (at_ (pending c) (id / 32)) (id mod 32)))
    (set_at (pending_priority c) id 0)
    (set_at (claimed c) (id / 32) (clear_bit (at_ (claimed c) (id / 32)) (id mod 32))).

(** ** Selection *)

(** The body of the inner loop, on (best_id, best_id_prio). *)
Definition best_step (num_ids : Z) (c : plic_context_t) (i : Z) (best : Z * Z) (j : Z) : Z * Z :=
  let id := i * 32 + j in
  if (num_ids <=? id) || negb (has_bit (at_ (pending c) i) j) || has_bit (at_ (claimed c) i) j then best
  else if (fst best =? 0) || (snd best <? at_ (pending_priority c) id)
  then (id, at_ (pending_priority c) id) else best.

Definition best_word (num_ids : Z) (c : plic_context_t) (best : Z * Z) (i : Z) : Z * Z :=
  if at_ (pending c) i =? 0 then best
  else fold_left (best_step num_ids c i) (seqZ 0 32) best.

Definition context_best_pending (p : plic_t) (c : plic_context_t) : Z :=
  let best := fold_left (best_word (num_ids p) c) (seqZ 0 (num_ids_word p)) (0, 0) in
  if snd best <=? priority_threshold c then 0 else fst best.

Definition context_update (p : plic_t) (c : plic_context_t) (harts : harts_t) : harts_t :=
  let mask := if mmode c then MIP_MEIP else MIP_SEIP in
  alter (backdoor_write_with_mask mask (if z2b (context_best_pending p c) then mask else 0)) (proc c) harts.

Definition put_context (p : plic_t) (n : nat) (c : plic_context_t) : plic_t :=
  Plic (<[n := c]> (contexts p)) (num_ids p) (num_ids_word p) (max_prio p) (priority p) (level p).

(** Storing a context and updating its interrupt line. *)
Definition commit (s : plic_t * harts_t) (n : nat) (c : plic_context_t) : plic_t * harts_t :=
  (put_context (fst s) n c, context_update (fst s) c (snd s)).

Definition context_claim (s : plic_t * harts_t) (n : nat) (c : plic_context_t) : Z * (plic_t * harts_t) :=
  let best_id := context_best_pending (fst s) c in
  let c := if z2b best_id
           then with_claimed c (set_at (claimed c) (best_id / 32)
                  (set_bit (at_ (claimed c) (best_id / 32)) (best_id mod 32)))
           else c in
  (best_id, commit s n c).

(** ** Registers *)

Definition valid_id (p : plic_t) (id : Z) : bool := (0 <? id) && (id <? num_ids p).

Definition priority_read (p : plic_t) (offset : Z) : Z :=
  let id := u32 (offset >>! 2) in
  if valid_id p id then at_ (priority p) id else 0.
Definition priority_write (p : plic_t) (offset val : Z) : plic_t :=
  let id := u32 (offset >>! 2) in
  if valid_id p id
  then Plic (contexts p) (num_ids p) (num_ids_word p) (max_prio p)
         (set_at (priority p) id (val &! (2 ^ PLIC_PRIO_BITS - 1))) (level p)
  else p.
Definition pending_read (p : plic_t) (offset : Z) : Z :=
  let id_word := u32 (offset >>! 2) in
  if id_word <? num_ids_word p
  then fold_left (fun v c => v |! at_ (pending c) id_word) (contexts p) 0 else 0.

Definition context_enable_read (p : plic_t) (c : plic_context_t) (offset : Z) : Z :=
  let id_word := u32 (offset >>! 2) in
  if id_word <? num_ids_word p then at_ (enable c) id_word else 0.

(** One round of the loop of [context_enable_write]. *)
Definition enable_step (p : plic_t) (id_word xor_val new_val : Z) (c : plic_context_t) (i : Z) :
    plic_context_t :=
  let id := id_word * 32 + i in
  if negb (has_bit xor_val i) then c
  else if has_bit new_val i && has_bit (at_ (level p) id_word) i then raise_pending c id (at_ (priority p) id)
  else if negb (has_bit new_val i) then drop_pending c id
  else c.
Definition context_enable_write (s : plic_t * harts_t) (n : nat) (c : plic_context_t) (offset val : Z) :
    plic_t * harts_t :=
  let p := fst s in
  let id_word := u32 (offset >>! 2) in
  if num_ids_word p <=? id_word then s else
  let old_val := at_ (enable c) id_word in
  let new_val := if id_word =? 0 then val &! u32 (Z.lnot 1) else val in
  let xor_val := old_val ^! new_val in
  let c := with_enable c (set_at (enable c) id_word new_val) in
  commit s n (fold_left (enable_step p id_word xor_val new_val) (seqZ 0 32) c).

(** An offset without a register leaves the initial zero of the caller. *)
Definition context_read (s : plic_t * harts_t) (n : nat) (c : plic_context_t) (offset : Z) :
    Z * (plic_t * harts_t) :=
  if offset =? CONTEXT_THRESHOLD then (priority_threshold c, s)
  else if offset =? CONTEXT_CLAIM then context_claim s n c
  else (0, s).

Definition context_write (s : plic_t * harts_t) (n : nat) (c : plic_context_t) (offset val : Z) :
    bool * (plic_t * harts_t) :=
  let p := fst s in
  if offset =? CONTEXT_THRESHOLD then
    let val := val &! (2 ^ PLIC_PRIO_BITS - 1) in
    if val <=? max_prio p then (true, commit s n (with_threshold c val)) else (false, s)
  else if offset =? CONTEXT_CLAIM then
    if (val <? num_ids p) && has_bit (at_ (enable c) (val / 32)) (val mod 32)
    then (true, commit s n (with_claimed c
           (set_at (claimed c) (val / 32) (clear_bit (at_ (claimed c) (val / 32)) (val mod 32)))))
    else (true, s)
  else (false, s).

(** ** Interrupt sources *)

Definition set_level (p : plic_t) (id : Z) (lvl : bool) : plic_t :=
  let w := at_ (level p) (id / 32) in
  Plic (contexts p) (num_ids p) (num_ids_word p) (max_prio p) (priority p)
    (set_at (level p) (id / 32) (if lvl then set_bit w (id mod 32) else clear_bit w (id mod 32))).

(** The first context that has the source enabled; the loop ends there. *)
Definition enabled_for (id : Z) (c : plic_context_t) : bool := has_bit (at_ (enable c) (id / 32)) (id mod 32).

Definition set_interrupt_level (s : plic_t * harts_t) (id : Z) (lvl : bool) : plic_t * harts_t :=
  if (id <=? 0) || (num_ids (fst s) <=? id) then s else
  let id_prio := at_ (priority (fst s)) id in
  let p := set_level (fst s) id lvl in
  match list_find (enabled_for id) (contexts p) with
  | Some (n, c) => commit (p, snd s) n (if lvl then raise_pending c id id_prio else drop_pending c id)
  | None => (p, snd s)
  end.

(** ** The memory-mapped interface *)

(** A word access, [addr] as given to [load]. *)
Definition load_word (s : plic_t * harts_t) (addr : Z) : option (list Z) * (plic_t * harts_t) :=
  let p := fst s in
  let give val addr s := (Some (read_little_endian_reg 32 val addr 4), s) in
  if (PRIORITY_BASE <=? addr) && (addr <? PENDING_BASE) then give (priority_read p addr) addr s
  else if (PENDING_BASE <=? addr) && (addr <? ENABLE_BASE) then
    give (pending_read p (addr - PENDING_BASE)) addr s
  else if (ENABLE_BASE <=? addr) && (addr <? CONTEXT_BASE) then
    let cntx := (addr - ENABLE_BASE) / ENABLE_PER_HART in
    let addr := addr - (cntx * ENABLE_PER_HART + ENABLE_BASE) in
    match contexts p !! Z.to_nat cntx with
    | Some c => give (context_enable_read p c addr) addr s
    | None => (None, s)
    end
  else if (CONTEXT_BASE <=? addr) && (addr <? REG_SIZE) then
    let cntx := (addr - CONTEXT_BASE) / CONTEXT_PER_HART in
    let addr := addr - (cntx * CONTEXT_PER_HART + CONTEXT_BASE) in
    match contexts p !! Z.to_nat cntx with
    | Some c => let r := context_read s (Z.to_nat cntx) c addr in give (fst r) addr (snd r)
    | None => (None, s)
    end
  else (None, s).

Definition plic_load (s : plic_t * harts_t) (addr len : Z) : option (list Z) * (plic_t * harts_t) :=
  if len =? 4 then load_word s addr
  else if len =? 8 then
    match load_word s addr with
    | (Some lo, s) => let r := load_word s (addr +! 4) in (option_map (app lo) (fst r), snd r)
    | (None, s) => (None, s)
    end
  else (None, s).

Definition store_word (s : plic_t * harts_t) (addr : Z) (bytes : list Z) : bool * (plic_t * harts_t) :=
  let p := fst s in
  let val := write_little_endian_reg 32 0 addr bytes in
  if (PRIORITY_BASE <=? addr) && (addr <? ENABLE_BASE) then (true, (priority_write p addr val, snd s))
  else if (ENABLE_BASE <=? addr) && (addr <? CONTEXT_BASE) then
    let cntx := (addr - ENABLE_BASE) / ENABLE_PER_HART in
    let addr := addr - (cntx * ENABLE_PER_HART + ENABLE_BASE) in
    match contexts p !! Z.to_nat cntx with
    | Some c => (true, context_enable_write s (Z.to_nat cntx) c addr val)
    | None => (false, s)
    end
  else if (CONTEXT_BASE <=? addr) && (addr <? REG_SIZE) then
    let cntx := (addr - CONTEXT_BASE) / CONTEXT_PER_HART in
    let addr := addr - (cntx * CONTEXT_PER_HART + CONTEXT_BASE) in
    match contexts p !! Z.to_nat cntx with
    | Some c => context_write s (Z.to_nat cntx) c addr val
    | None => (false, s)
    end
  else (false, s).

Definition plic_store (s : plic_t * harts_t) (addr : Z) (bytes : list Z) : bool * (plic_t * harts_t) :=
  let len := Z.of_nat (length bytes) in
  if len =? 4 then store_word s addr bytes
  else if len =? 8 then
    match store_word s addr (take 4 bytes) with
    | (true, s) => store_word s (addr +! 4) (drop 4 bytes)
    | (false, s) => (false, s)
    end
  else (false, s).

(** ** Words as sets of sources *)

Definition bit_of (l : list Z) (id : Z) : bool := has_bit (at_ l (id / 32)) (id mod 32).

Lemma has_bit_testbit w j : 0 <= j -> has_bit w j = Z.testbit w j.
Proof. apply land_pow2. Qed.

Lemma id_split id : 0 <= id -> 0 <= id / 32 /\ 0 <= id mod 32 < 32 /\ id = id / 32 * 32 + id mod 32.
Proof.
  intros. pose proof (Z.div_mod id 32). pose proof (Z.mod_pos_bound id 32).
  pose proof (Z.div_pos id 32). lia.
Qed.

Lemma id_join i j : 0 <= j < 32 -> (i * 32 + j) / 32 = i /\ (i * 32 + j) mod 32 = j.
Proof. intros. split; symmetry; [apply (Z.div_unique _ _ _ j)|apply (Z.mod_unique _ _ i)]; lia. Qed.

Lemma at_set l i v k : 0 <= i < Z.of_nat (length l) -> 0 <= k ->
  at_ (set_at l i v) k = if k =? i then v else at_ l k.
Proof.
  intros Hi Hk. unfold at_, set_at. rewrite !nth_lookup. destruct (Z.eqb_spec k i) as [->|].
  - by rewrite list_lookup_insert_eq by lia.
  - by rewrite list_lookup_insert_ne by lia.
Qed.

Lemma set_at_length l i v : length (set_at l i v) = length l.
Proof. apply length_insert. Qed.

Section words.
Context (l : list Z) (Hl : length l = words).

(** Changing one word changes the sources of that word only. *)
Lemma bit_of_set_word i v id : 0 <= i < 32 -> 0 <= id ->
  bit_of (set_at l i v) id = if id / 32 =? i then Z.testbit v (id mod 32) else bit_of l id.
Proof using Hl.
  intros Hi Hid. destruct (id_split id Hid) as (H1 & H2 & _). unfold bit_of.
  rewrite at_set by (rewrite ?Hl; change (Z.of_nat words) with 32; lia).
  destruct (_ =? _); [apply has_bit_testbit; lia|done].
Qed.

Lemma bit_of_set id id' : 0 <= id < 1024 -> 0 <= id' ->
  bit_of (set_at l (id / 32) (set_bit (at_ l (id / 32)) (id mod 32))) id' =
  if id' =? id then true else bit_of l id'.
Proof using Hl.
  intros Hid Hid'. destruct (id_split id) as (H1 & H2 & H3), (id_split id') as (H1' & H2' & H3'); try lia.
  rewrite bit_of_set_word by lia. unfold set_bit. rewrite Z.lor_spec, Z.pow2_bits_eqb by lia.
  destruct (Z.eqb_spec (id' / 32) (id / 32)) as [E|].
  - unfold bit_of. rewrite has_bit_testbit, E by lia.
    destruct (Z.eqb_spec (id mod 32) (id' mod 32)).
    + replace (id' =? id) with true by lia. apply orb_true_r.
    + replace (id' =? id) with false by lia. apply orb_false_r.
  - by replace (id' =? id) with false by lia.
Qed.

Lemma bit_of_clear id id' : 0 <= id < 1024 -> 0 <= id' ->
  bit_of (set_at l (id / 32) (clear_bit (at_ l (id / 32)) (id mod 32))) id' =
  if id' =? id then false else bit_of l id'.
Proof using Hl.
  intros Hid Hid'. destruct (id_split id) as (H1 & H2 & H3), (id_split id') as (H1' & H2' & H3'); try lia.
  rewrite bit_of_set_word by lia. unfold clear_bit.
  rewrite Z.land_spec, wrap_testbit, Z.lnot_spec, Z.pow2_bits_eqb by lia.
  replace (id' mod 32 <? 32) with true by lia. cbn [andb].
  destruct (Z.eqb_spec (id' / 32) (id / 32)) as [E|].
  - unfold bit_of. rewrite has_bit_testbit, E by lia.
    destruct (Z.eqb_spec (id mod 32) (id' mod 32)).
    + replace (id' =? id) with true by lia. apply andb_false_r.
    + replace (id' =? id) with false by lia. apply andb_true_r.
  - by replace (id' =? id) with false by lia.
Qed.
End words.

(** ** Well-formed contexts *)

Record wf_context (c : plic_context_t) : Prop := {
  wf_lengths : length (enable c) = words /\ length (pending c) = words /\
    length (claimed c) = words /\ length (pending_priority c) = Z.to_nat PLIC_MAX_DEVICES;
  wf_no_zero : bit_of (enable c) 0 = false;
  wf_pending : forall id, 0 <= id < 1024 -> bit_of (pending c) id = true -> bit_of (enable c) id = true;
  wf_claimed : forall id, 0 <= id < 1024 -> bit_of (claimed c) id = true -> bit_of (enable c) id = true;
  wf_prio : Forall (fun v => 0 <= v < 16) (pending_priority c);
  wf_threshold : 0 <= priority_threshold c < 16
}.

Record wf_plic (p : plic_t) : Prop := {
  wf_ids : 1 <= num_ids p <= 1024 /\ num_ids_word p = (num_ids p + 31) / 32;
  wf_arrays : length (priority p) = Z.to_nat PLIC_MAX_DEVICES /\ length (level p) = words;
  wf_priorities : Forall (fun v => 0 <= v < 16) (priority p);
  wf_contexts : Forall wf_context (contexts p);
  wf_distinct : NoDup (map (fun c => (proc c, mmode c)) (contexts p))
}.

Lemma at_bounds l i lo hi : Forall (fun v => lo <= v < hi) l -> lo <= 0 < hi -> lo <= at_ l i < hi.
Proof.
  intros Hf H0. unfold at_. rewrite nth_lookup. destruct (l !! Z.to_nat i) eqn:E; [|done].
  exact (Forall_lookup_1 _ _ _ _ Hf E).
Qed.

(** ** The best pending source *)

(** The source may be claimed by the context. *)
Definition claimable (p : plic_t) (c : plic_context_t) (id : Z) : bool :=
  (id <? num_ids p) && bit_of (pending c) id && negb (bit_of (claimed c) id).

Definition prio_of (c : plic_context_t) (id : Z) : Z := at_ (pending_priority c) id.

Definition flat_best_step (p : plic_t) (c : plic_context_t) (best : Z * Z) (id : Z) : Z * Z :=
  if claimable p c id && ((fst best =? 0) || (snd best <? prio_of c id)) then (id, prio_of c id) else best.

Lemma best_step_flat p c i best j : 0 <= j < 32 ->
  best_step (num_ids p) c i best j = flat_best_step p c best (i * 32 + j).
Proof.
  intros Hj. unfold best_step, flat_best_step, claimable, prio_of, bit_of.
  destruct (id_join i j Hj) as [-> ->].
  destruct (num_ids p <=? i * 32 + j) eqn:E1; destruct (i * 32 + j <? num_ids p) eqn:E2; try lia; cbn [orb andb];
    [done|]. destruct (has_bit (at_ (pending c) i) j), (has_bit (at_ (claimed c) i) j); reflexivity.
Qed.

Lemma best_word_flat p c best i :
  best_word (num_ids p) c best i = fold_left (flat_best_step p c) (seqZ (i * 32) 32) best.
Proof.
  unfold best_word.
  assert (Hs : seqZ (i * 32) 32 = map (fun j => i * 32 + j) (seqZ 0 32)).
  { apply (nth_ext _ _ 0 0); [by rewrite length_map, !length_seqZ|].
    rewrite length_seqZ. intros n Hn. rewrite nth_map_seqZ, nth_lookup by lia.
    rewrite lookup_seqZ_lt by lia. cbn. lia. }
  rewrite Hs. assert (Hj : Forall (fun j => 0 <= j < 32) (seqZ 0 32)).
  { apply list.Forall_forall. intros j Hj%elem_of_seqZ. lia. }
  generalize dependent (seqZ 0 32). intros js _ Hjs. revert best.
  induction Hjs as [|j js Hj Hjs IH]; intros best; cbn [map fold_left]; [by destruct (_ =? _)|].
  rewrite <- IH, best_step_flat by done. destruct (Z.eqb_spec (at_ (pending c) i) 0) as [E|]; [|done].
  unfold flat_best_step, claimable, bit_of. destruct (id_join i j Hj) as [-> ->].
  rewrite E. unfold has_bit at 1. cbn. by rewrite andb_false_r.
Qed.

Lemma best_flat p c n : 0 <= n ->
  fold_left (best_word (num_ids p) c) (seqZ 0 n) (0, 0) =
  fold_left (flat_best_step p c) (seqZ 0 (32 * n)) (0, 0).
Proof.
  intros Hn. pattern n. apply natlike_ind; [done| |done]. clear n Hn. intros n Hn IH.
  replace (32 * Z.succ n) with (32 * n + 32) by lia. rewrite <- Z.add_1_r.
  rewrite !seqZ_app by lia. rewrite !fold_left_app, IH. change (seqZ (0 + n) 1) with [0 + n].
  cbn [fold_left]. rewrite best_word_flat. do 2 f_equal. lia.
Qed.

(** What the loop knows after the sources below [m]. *)
Definition best_upto (p : plic_t) (c : plic_context_t) (m : Z) (best : Z * Z) : Prop :=
  (fst best = 0 -> snd best = 0 /\ forall id, 0 <= id < m -> claimable p c id = false) /\
  (fst best <> 0 -> 0 <= fst best < m /\ claimable p c (fst best) = true /\
    snd best = prio_of c (fst best) /\
    forall id, 0 <= id < m -> claimable p c id = true ->
      prio_of c id <= snd best /\ (prio_of c id = snd best -> fst best <= id)).

Lemma claimable_pending p c id : claimable p c id = true -> id < num_ids p /\ bit_of (pending c) id = true.
Proof. unfold claimable. destruct (bit_of (pending c) id); lia. Qed.

Lemma best_loop p c m : wf_context c -> 0 <= m -> m <= 1024 ->
  best_upto p c m (fold_left (flat_best_step p c) (seqZ 0 m) (0, 0)).
Proof.
  intros Hc Hm. pattern m. apply natlike_ind; [|clear m Hm|done].
  { intros _. split; [|done]. intros _. split; [done|]. lia. }
  intros m Hm IH Hle. specialize (IH ltac:(lia)). rewrite <- Z.add_1_r, seqZ_app by lia.
  rewrite fold_left_app. change (seqZ (0 + m) 1) with [0 + m]. cbn [fold_left]. rewrite Z.add_0_l.
  set (best := fold_left _ _ _) in *. clearbody best. destruct IH as [IH0 IH1].
  assert (H0 : claimable p c 0 = false).
  { destruct (claimable p c 0) eqn:E; [|done]. apply claimable_pending in E as [_ E].
    apply (wf_pending c Hc) in E; [|lia]. by rewrite (wf_no_zero c Hc) in E. }
  unfold flat_best_step. destruct (claimable p c m) eqn:Em; cbn [andb]; cycle 1.
  { split.
    - intros E. destruct (IH0 E) as [Hs Hn]. split; [done|]. intros id Hid.
      destruct (Z.eq_dec id m) as [->|]; [done|]. apply Hn. lia.
    - intros E. destruct (IH1 E) as (H1 & H2 & H3 & H4). split_and!; try done; try lia.
      intros id Hid Hcl. destruct (Z.eq_dec id m) as [->|]; [congruence|]. apply H4; [lia|done]. }
  assert (Hm0 : m <> 0) by congruence.
  destruct (Z.eqb_spec (fst best) 0) as [E0|E0]; cbn [orb].
  - destruct (IH0 E0) as [Hs Hn]. split; cbn [fst snd]; [done|]. intros _. split_and!; try done; try lia.
    intros id Hid Hcl. destruct (Z.eq_dec id m) as [->|]; [lia|]. rewrite Hn in Hcl by lia. done.
  - destruct (IH1 E0) as (H1 & H2 & H3 & H4).
    destruct (Z.ltb_spec (snd best) (prio_of c m)) as [Hlt|Hge]; split; cbn [fst snd]; try done; intros _.
    + split_and!; try done; try lia. intros id Hid Hcl.
      destruct (Z.eq_dec id m) as [->|]; [lia|]. specialize (H4 id ltac:(lia) Hcl). lia.
    + split_and!; try done; try lia. intros id Hid Hcl.
      destruct (Z.eq_dec id m) as [->|]; [lia|]. apply H4; [lia|done].
Qed.

Definition best_spec (p : plic_t) (c : plic_context_t) (r : Z) : Prop :=
  (r = 0 /\ forall id, 0 <= id < num_ids p -> claimable p c id = true ->
     prio_of c id <= priority_threshold c) \/
  (0 < r < num_ids p /\ claimable p c r = true /\ priority_threshold c < prio_of c r /\
   forall id, 0 <= id < num_ids p -> claimable p c id = true ->
     prio_of c id < prio_of c r \/ (prio_of c id = prio_of c r /\ r <= id)).

Lemma best_pending_spec p c : wf_plic p -> wf_context c -> best_spec p c (context_best_pending p c).
Proof.
  intros Hp Hc. destruct (wf_ids p Hp) as [Hn Hw]. unfold context_best_pending.
  assert (Hwb : 32 * num_ids_word p <= 1024 /\ num_ids p <= 32 * num_ids_word p /\ 0 <= num_ids_word p).
  { rewrite Hw. Z.to_euclidean_division_equations. lia. }
  rewrite best_flat by lia.
  pose proof (best_loop p c (32 * num_ids_word p) Hc ltac:(lia) ltac:(lia)) as [H0 H1].
  set (best := fold_left _ _ _) in *. clearbody best. pose proof (wf_threshold c Hc) as Ht.
  destruct (Z.leb_spec (snd best) (priority_threshold c)) as [Hle|Hgt].
  - left. split; [done|]. intros id Hid Hcl. destruct (Z.eq_dec (fst best) 0) as [E|E].
    + destruct (H0 E) as [_ Hno]. rewrite Hno in Hcl by lia. done.
    + destruct (H1 E) as (_ & _ & Hs & Hmax). specialize (Hmax id ltac:(lia) Hcl). lia.
  - right. destruct (Z.eq_dec (fst best) 0) as [E|E]; [destruct (H0 E); lia|].
    destruct (H1 E) as (Hr & Hcl & Hs & Hmax). pose proof (claimable_pending p c _ Hcl) as [Hlt _].
    split_and!; try done; try lia. intros id Hid Hci. specialize (Hmax id ltac:(lia) Hci). lia.
Qed.

(** ** Operations keep contexts well formed *)

(** [wf_context] with the enabled sources given from outside. *)
Record wf_with (E : Z -> bool) (c : plic_context_t) : Prop := {
  ww_lengths : length (enable c) = words /\ length (pending c) = words /\
    length (claimed c) = words /\ length (pending_priority c) = Z.to_nat PLIC_MAX_DEVICES;
  ww_pending : forall id, 0 <= id < 1024 -> bit_of (pending c) id = true -> E id = true;
  ww_claimed : forall id, 0 <= id < 1024 -> bit_of (claimed c) id = true -> E id = true;
  ww_prio : Forall (fun v => 0 <= v < 16) (pending_priority c);
  ww_threshold : 0 <= priority_threshold c < 16
}.

Lemma wf_context_with c : wf_context c <-> wf_with (bit_of (enable c)) c /\ bit_of (enable c) 0 = false.
Proof.
  split.
  - intros []. by split.
  - intros [[] ?]. by split.
Qed.

Lemma wf_with_ext E E' c : (forall id, 0 <= id < 1024 -> E id = true -> E' id = true) ->
  wf_with E c -> wf_with E' c.
Proof. intros H []. split; auto. Qed.

Lemma raise_pending_wf E c id prio : wf_with E c -> 0 <= id < 1024 -> E id = true -> 0 <= prio < 16 ->
  wf_with E (raise_pending c id prio).
Proof.
  intros [(L1 & L2 & L3 & L4) Hp Hc Hpr Ht] Hid HE Hprio. split; cbn.
  - rewrite !set_at_length. done.
  - intros id' Hid' Hb. rewrite bit_of_set in Hb by (done || lia).
    destruct (Z.eqb_spec id' id) as [->|]; auto.
  - done.
  - by apply Forall_insert.
  - done.
Qed.

Lemma drop_pending_wf E c id : wf_with E c -> 0 <= id < 1024 ->
  wf_with (fun id' => E id' && negb (id' =? id)) (drop_pending c id).
Proof.
  intros [(L1 & L2 & L3 & L4) Hp Hc Hpr Ht] Hid. split; cbn.
  - rewrite !set_at_length. done.
  - intros id' Hid' Hb. rewrite bit_of_clear in Hb by (done || lia).
    destruct (id' =? id); [done|]. rewrite Hp by done. done.
  - intros id' Hid' Hb. rewrite bit_of_clear in Hb by (done || lia).
    destruct (id' =? id); [done|]. rewrite Hc by done. done.
  - by apply Forall_insert.
  - done.
Qed.

Lemma claimed_wf E c l : wf_with E c -> length l = words ->
  (forall id, 0 <= id < 1024 -> bit_of l id = true -> E id = true) -> wf_with E (with_claimed c l).
Proof. intros [(L1 & L2 & L3 & L4) Hp Hc Hpr Ht] Hl Hb. by split. Qed.

(** The loop of [context_enable_write]: sources before [k] follow the new word,
    the others the old one. *)
Definition enabled_upto (w old new k : Z) (e : list Z) (id : Z) : bool :=
  if id / 32 =? w then Z.testbit (if k <=? id mod 32 then old else new) (id mod 32)
  else bit_of e id.

Lemma enable_step_wf p w old new e c i :
  wf_plic p -> 0 <= w < 32 -> 0 <= i < 32 ->
  wf_with (enabled_upto w old new i e) c ->
  wf_with (enabled_upto w old new (i + 1) e) (enable_step p w (old ^! new) new c i).
Proof.
  intros Hp Hw Hi Hc. destruct (id_join w i Hi) as [Hd Hm]. unfold enable_step.
  assert (Hx : has_bit (old ^! new) i = xorb (Z.testbit old i) (Z.testbit new i))
    by (rewrite has_bit_testbit by lia; apply Z.lxor_spec).
  rewrite Hx, !has_bit_testbit by lia.
  assert (Hsame : forall id, id <> w * 32 + i -> 0 <= id ->
    enabled_upto w old new (i + 1) e id = enabled_upto w old new i e id).
  { intros id Hne Hid. unfold enabled_upto. destruct (id_split id Hid) as (_ & Hr & Hs).
    destruct (Z.eqb_spec (id / 32) w) as [E|]; [|done].
    by replace (i + 1 <=? id mod 32) with (i <=? id mod 32) by lia. }
  assert (Hnew : enabled_upto w old new (i + 1) e (w * 32 + i) = Z.testbit new i).
  { unfold enabled_upto. rewrite Hd, Hm, Z.eqb_refl. by replace (i + 1 <=? i) with false by lia. }
  assert (Hold : enabled_upto w old new i e (w * 32 + i) = Z.testbit old i).
  { unfold enabled_upto. rewrite Hd, Hm, Z.eqb_refl. by replace (i <=? i) with true by lia. }
  assert (Hkeep : (Z.testbit old i = true -> Z.testbit new i = true) ->
    wf_with (enabled_upto w old new (i + 1) e) c).
  { intros Hb. eapply wf_with_ext; [|exact Hc]. intros id Hid He.
    destruct (Z.eq_dec id (w * 32 + i)) as [->|]; [rewrite Hnew; rewrite Hold in He; auto|].
    rewrite Hsame by (done || lia). done. }
  destruct (Z.testbit old i) eqn:Eo, (Z.testbit new i) eqn:En; cbn [xorb negb andb]; auto.
  - eapply wf_with_ext; [|apply drop_pending_wf; [exact Hc|lia]]. intros id Hid He.
    destruct (Z.eq_dec id (w * 32 + i)) as [->|]; [rewrite Z.eqb_refl in He; lia|].
    rewrite Hsame by (done || lia). lia.
  - destruct (Z.testbit (at_ (level p) w) i); cbn [negb]; [|auto].
    apply raise_pending_wf; [auto|lia|done|]. apply at_bounds; [exact (wf_priorities p Hp)|lia].
Qed.

Lemma enable_loop_wf p w old new e c n : wf_plic p -> 0 <= w < 32 -> 0 <= n <= 32 ->
  wf_with (enabled_upto w old new 0 e) c ->
  wf_with (enabled_upto w old new n e) (fold_left (enable_step p w (old ^! new) new) (seqZ 0 n) c).
Proof.
  intros Hp Hw [Hn Hn'] Hc. revert Hn'. pattern n. apply natlike_ind; [done| |done].
  clear n Hn. intros n Hn IH Hn'. rewrite <- Z.add_1_r, seqZ_app, fold_left_app by lia.
  change (seqZ (0 + n) 1) with [0 + n]. cbn [fold_left]. rewrite Z.add_0_l.
  apply enable_step_wf; [done|done|lia|]. apply IH. lia.
Qed.

(** The loop leaves the other fields alone. *)
Lemma enable_loop_frame p w x new js c :
  let c' := fold_left (enable_step p w x new) js c in
  proc c' = proc c /\ mmode c' = mmode c /\ enable c' = enable c.
Proof.
  cbv zeta. revert c. induction js as [|j js IH]; intros c; [done|]. cbn [fold_left].
  destruct (IH (enable_step p w x new c j)) as (-> & -> & ->). unfold enable_step.
  by repeat case_if.
Qed.

Lemma enable_write_wf p c w val : wf_plic p -> wf_context c -> 0 <= w < 32 -> 0 <= val ->
  let new_val := if w =? 0 then val &! u32 (Z.lnot 1) else val in
  wf_context (fold_left (enable_step p w (at_ (enable c) w ^! new_val) new_val) (seqZ 0 32)
    (with_enable c (set_at (enable c) w new_val))).
Proof.
  intros Hp Hc Hw Hv new_val. pose proof Hc as [Hww Hz]%wf_context_with.
  destruct Hww as [(L1 & L2 & L3 & L4) Hpe Hcl Hpr Ht].
  set (e := set_at (enable c) w new_val). set (old := at_ (enable c) w).
  assert (He : forall id, 0 <= id -> bit_of e id = if id / 32 =? w then Z.testbit new_val (id mod 32) else bit_of (enable c) id)
    by (intros; by apply bit_of_set_word).
  assert (H1 : wf_with (enabled_upto w old new_val 32 e)
      (fold_left (enable_step p w (old ^! new_val) new_val) (seqZ 0 32) (with_enable c e))).
  { apply enable_loop_wf; [done|done|lia|].
    assert (Hsub : forall id, 0 <= id < 1024 -> bit_of (enable c) id = true -> enabled_upto w old new_val 0 e id = true).
    { intros id Hid Hb. unfold enabled_upto. destruct (id_split id) as (_ & Hm & _); [lia|].
      rewrite He by lia. destruct (Z.eqb_spec (id / 32) w) as [E|]; [|done].
      replace (0 <=? id mod 32) with true by lia. unfold bit_of in Hb.
      rewrite has_bit_testbit in Hb by lia. by rewrite E in Hb. }
    split; cbn; auto. unfold e. by rewrite set_at_length. }
  destruct (enable_loop_frame p w (old ^! new_val) new_val (seqZ 0 32) (with_enable c e)) as (_ & _ & Ee).
  apply wf_context_with. rewrite Ee. change (enable (with_enable c e)) with e. split.
  - eapply wf_with_ext; [|exact H1]. intros id Hid Hb. unfold enabled_upto in Hb.
    destruct (id_split id) as (_ & Hm & _); [lia|]. rewrite He by lia.
    destruct (id / 32 =? w) eqn:E.
    + by replace (32 <=? id mod 32) with false in Hb by lia.
    + rewrite He in Hb by lia. by rewrite E in Hb.
  - rewrite He by lia. change (0 / 32) with 0. change (0 mod 32) with 0. unfold new_val.
    destruct (Z.eqb_spec 0 w) as [<-|]; [|done]. cbn [Z.eqb].
    rewrite Z.land_spec. by rewrite andb_comm.
Qed.

(** ** The external interrupt lines *)

Definition ext_line (c : plic_context_t) : Z := if mmode c then 11 else 9.

Definition line_shows (p : plic_t) (harts : harts_t) (c : plic_context_t) : Prop :=
  exists h, harts !! proc c = Some h /\ line (ext_line c) h = z2b (context_best_pending p c).

Definition plic_inv (s : plic_t * harts_t) : Prop :=
  wf_plic (fst s) /\ Forall (line_shows (fst s) (snd s)) (contexts (fst s)).

(** What the controller never changes in a hart. *)
Definition ext_only (h h' : hart_io) : Prop :=
  (forall i, 0 <= i < 64 -> i <> 9 -> i <> 11 -> line i h' = line i h) /\
  with_mip h' (mip h) = h.

Definition harts_ext (harts harts' : harts_t) : Prop :=
  forall id, match harts !! id, harts' !! id with
    | Some h, Some h' => ext_only h h' | None, None => True | _, _ => False end.

Lemma harts_ext_refl harts : harts_ext harts harts.
Proof. intros id. destruct (harts !! id) as [[]|]; done. Qed.

Lemma harts_ext_trans h1 h2 h3 : harts_ext h1 h2 -> harts_ext h2 h3 -> harts_ext h1 h3.
Proof.
  intros H12 H23 id. specialize (H12 id). specialize (H23 id).
  destruct (h1 !! id) as [a|], (h2 !! id) as [b|], (h3 !! id) as [c|]; try done.
  destruct H12 as [L1 E1], H23 as [L2 E2]. split.
  - intros. rewrite L2, L1; done.
  - rewrite <- E1, <- E2. done.
Qed.

Lemma ext_mask_line c h (b : bool) i : 0 <= i < 64 ->
  let mask := if mmode c then MIP_MEIP else MIP_SEIP in
  line i (backdoor_write_with_mask mask (if b then mask else 0) h) =
  if i =? ext_line c then b else line i h.
Proof.
  intros Hi mask. rewrite write_line by done. unfold mask, ext_line, MIP_MEIP, MIP_SEIP.
  destruct (mmode c), b; rewrite Z.pow2_bits_eqb, (Z.eqb_sym i) by lia; case_if; rewrite ?Z.bits_0; done.
Qed.

Lemma best_ext p p' c : num_ids p = num_ids p' -> num_ids_word p = num_ids_word p' ->
  context_best_pending p c = context_best_pending p' c.
Proof. intros E1 E2. unfold context_best_pending. by rewrite E1, E2. Qed.

Lemma update_ext p c harts : harts_ext harts (context_update p c harts).
Proof.
  intros id. unfold context_update.
  destruct (decide (proc c = id)) as [<-|]; [|rewrite lookup_alter_ne by done; apply harts_ext_refl].
  rewrite lookup_alter_eq. destruct (harts !! proc c) as [h|]; [|done]. cbn. split.
  - intros i Hi H9 H11. rewrite ext_mask_line by done. unfold ext_line.
    destruct (mmode c); by rewrite (proj2 (Z.eqb_neq _ _)).
  - by destruct h.
Qed.

Lemma commit_inv s n c0 c : plic_inv s -> contexts (fst s) !! n = Some c0 ->
  proc c = proc c0 -> mmode c = mmode c0 -> wf_context c ->
  plic_inv (commit s n c) /\ harts_ext (snd s) (snd (commit s n c)).
Proof.
  intros [Hp Hl] Hn Hproc Hmode Hc. destruct s as [p harts]. cbn [fst snd] in *.
  split; [|apply update_ext]. split.
  - destruct Hp as [H1 H2 H3 H4 H5]. split; cbn; try done.
    + by apply Forall_insert.
    + change (map (fun c => (proc c, mmode c)) (<[n:=c]> (contexts p)))
        with ((fun c => (proc c, mmode c)) <$> <[n:=c]> (contexts p)).
      rewrite list_fmap_insert, list_insert_id; [done|].
      rewrite list_lookup_fmap, Hn. cbn. by rewrite Hproc, Hmode.
  - apply Forall_lookup_2. intros k ck Hk. unfold commit in *. cbn [fst snd contexts put_context] in *.
    assert (Hbe : forall c', context_best_pending (put_context p n c) c' = context_best_pending p c')
      by (intros; by apply best_ext).
    unfold line_shows. rewrite Hbe. unfold context_update.
    destruct (decide (n = k)) as [<-|Hnk].
    + rewrite list_lookup_insert_eq in Hk by (by eapply lookup_lt_Some). injection Hk as <-.
      pose proof (Forall_lookup_1 _ _ _ _ Hl Hn) as (h & Hh & _). rewrite <- Hproc in Hh.
      rewrite lookup_alter_eq, Hh. eexists. split; [done|].
      rewrite ext_mask_line by (unfold ext_line; destruct (mmode c); lia). by rewrite Z.eqb_refl.
    + rewrite list_lookup_insert_ne in Hk by done.
      pose proof (Forall_lookup_1 _ _ _ _ Hl Hk) as (h & Hh & Hline).
      destruct (decide (proc c = proc ck)) as [Ep|]; [|rewrite lookup_alter_ne by done; by exists h].
      rewrite Ep, lookup_alter_eq, Hh. eexists. split; [done|].
      rewrite ext_mask_line by (unfold ext_line; destruct (mmode ck); lia).
      assert (Hm : mmode c <> mmode ck).
      { intros Em. destruct Hnk. eapply (NoDup_lookup _ n k (proc ck, mmode ck) (wf_distinct p Hp));
          change (map ?f ?l) with (f <$> l); rewrite list_lookup_fmap; [rewrite Hn|rewrite Hk]; cbn; congruence. }
      rewrite (proj2 (Z.eqb_neq _ _)); [exact Hline|]. unfold ext_line.
      destruct (mmode c), (mmode ck); try lia; by destruct Hm.
Qed.

(** ** Every operation keeps the invariant *)

Definition keeps (s s' : plic_t * harts_t) : Prop :=
  plic_inv s' /\ harts_ext (snd s) (snd s').

Lemma keeps_refl s : plic_inv s -> keeps s s.
Proof. intros H. split; [done|apply harts_ext_refl]. Qed.

Lemma keeps_trans s1 s2 s3 : keeps s1 s2 -> keeps s2 s3 -> keeps s1 s3.
Proof. intros [_ E1] [H2 E2]. split; [done|by eapply harts_ext_trans]. Qed.

Lemma inv_context s n c : plic_inv s -> contexts (fst s) !! n = Some c -> wf_context c.
Proof. intros [Hp _] Hn. exact (Forall_lookup_1 _ _ _ _ (wf_contexts _ Hp) Hn). Qed.

Lemma best_range s n c : plic_inv s -> contexts (fst s) !! n = Some c ->
  context_best_pending (fst s) c <> 0 ->
  0 < context_best_pending (fst s) c < 1024 /\ claimable (fst s) c (context_best_pending (fst s) c) = true.
Proof.
  intros Hs Hn H0. pose proof (inv_context s n c Hs Hn) as Hc. destruct Hs as [Hp _].
  pose proof (wf_ids _ Hp). destruct (best_pending_spec (fst s) c Hp Hc) as [[? _]|(Hr & Hcl & _)]; [done|].
  split; [lia|done].
Qed.

(** Changing the claimed sources to a subset of the enabled ones. *)
Lemma claimed_context c l : wf_context c -> length l = words ->
  (forall id, 0 <= id < 1024 -> bit_of l id = true -> bit_of (enable c) id = true) ->
  wf_context (with_claimed c l).
Proof.
  intros [Hc Hz]%wf_context_with Hl Hb. apply wf_context_with. split; [|done]. by apply claimed_wf.
Qed.

Lemma claim_keeps s n c : plic_inv s -> contexts (fst s) !! n = Some c ->
  keeps s (snd (context_claim s n c)).
Proof.
  intros Hs Hn. pose proof (inv_context s n c Hs Hn) as Hc. unfold context_claim. cbn [snd].
  destruct (z2b (context_best_pending (fst s) c)) eqn:Eb; [|by apply (commit_inv s n c)].
  assert (Hne : context_best_pending (fst s) c <> 0) by (intros E; by rewrite E in Eb).
  destruct (best_range s n c Hs Hn Hne) as [Hr Hcl].
  apply (commit_inv s n c); try done. pose proof (wf_lengths c Hc) as (_ & _ & L3 & _).
  apply claimed_context; [done|by rewrite set_at_length|]. intros id Hid Hb.
  rewrite bit_of_set in Hb by (done || lia).
  destruct (Z.eqb_spec id (context_best_pending (fst s) c)) as [->|]; [|by apply (wf_claimed c Hc)].
  apply (wf_pending c Hc); [lia|]. by apply claimable_pending in Hcl as [_ Hcl].
Qed.

Lemma load_word_keeps s addr : plic_inv s -> keeps s (snd (load_word s addr)).
Proof.
  intros Hs. unfold load_word. repeat case_if; try by apply keeps_refl.
  - destruct (contexts (fst s) !! _); by apply keeps_refl.
  - destruct (contexts (fst s) !! _) as [c|] eqn:En; [|by apply keeps_refl]. cbn [snd].
    unfold context_read. repeat case_if; try by apply keeps_refl. by apply claim_keeps.
Qed.

Lemma priority_write_keeps s offset val : plic_inv s -> 0 <= val ->
  keeps s (priority_write (fst s) offset val, snd s).
Proof.
  intros [Hp Hl] Hv. split; [|apply harts_ext_refl]. unfold priority_write.
  destruct (valid_id _ _); [|done]. cbn zeta. split; cbn [fst snd].
  - destruct Hp as [H1 [H2 H3] H4 H5 H6]. split; try done.
    + cbn. by rewrite set_at_length.
    + cbn. apply Forall_insert; [done|]. apply (land_range 4); [lia|]. by split.
  - cbn. eapply list.Forall_impl; [exact Hl|]. done.
Qed.

Lemma offset_word offset : 0 <= offset < ENABLE_PER_HART -> 0 <= u32 (offset >>! 2) < 32.
Proof.
  unfold ENABLE_PER_HART. intros. rewrite Z.shiftr_div_pow2 by lia. change (2 ^ 2) with 4.
  assert (0 <= offset / 4 < 32) by (split; [apply Z.div_pos|apply Z.div_lt_upper_bound]; lia).
  rewrite wrap_small; lia.
Qed.

Lemma enable_write_keeps s n c offset val : plic_inv s -> contexts (fst s) !! n = Some c ->
  0 <= offset < ENABLE_PER_HART -> 0 <= val -> keeps s (context_enable_write s n c offset val).
Proof.
  intros Hs Hn Ho Hv. pose proof (inv_context s n c Hs Hn) as Hc. unfold context_enable_write.
  destruct (_ <=? _); [by apply keeps_refl|]. pose proof (offset_word offset Ho) as Hw.
  set (w := u32 (offset >>! 2)) in *. cbv zeta. set (new_val := if w =? 0 then _ else _).
  destruct (enable_loop_frame (fst s) w (at_ (enable c) w ^! new_val) new_val (seqZ 0 32)
    (with_enable c (set_at (enable c) w new_val))) as (E1 & E2 & _).
  apply (commit_inv s n c); try done.
  by apply (enable_write_wf (fst s) c w val (proj1 Hs)).
Qed.

Lemma context_write_keeps s n c offset val : plic_inv s -> contexts (fst s) !! n = Some c ->
  0 <= val -> keeps s (snd (context_write s n c offset val)).
Proof.
  intros Hs Hn Hv. pose proof (inv_context s n c Hs Hn) as Hc. unfold context_write.
  repeat case_if; try by apply keeps_refl; cbn [snd].
  - apply (commit_inv s n c); try done. apply wf_context_with in Hc as [[(L1&L2&L3&L4) Hp Hcl Hpr Ht] Hz].
    apply wf_context_with. split; [|done]. split; try done. cbn.
    apply (land_range 4); [lia|]. by split.
  - apply (commit_inv s n c); try done. pose proof (wf_lengths c Hc) as (_ & _ & L3 & _).
    pose proof (wf_ids _ (proj1 Hs)).
    apply claimed_context; [done|by rewrite set_at_length|]. intros id Hid Hb.
    rewrite bit_of_clear in Hb by (done || lia). destruct (id =? val); [done|]. by apply (wf_claimed c Hc).
Qed.

Lemma store_word_keeps s addr bytes : plic_inv s -> keeps s (snd (store_word s addr bytes)).
Proof.
  intros Hs. unfold store_word.
  assert (Hv : 0 <= write_little_endian_reg 32 0 addr bytes)
    by (apply (write_little_endian_range 32); lia).
  set (val := write_little_endian_reg _ _ _ _) in *. clearbody val. repeat case_if; try by apply keeps_refl.
  - by apply priority_write_keeps.
  - destruct (contexts (fst s) !! _) as [c|] eqn:En; [|by apply keeps_refl]. cbn [snd].
    apply enable_write_keeps; try done. unfold ENABLE_PER_HART.
    Z.to_euclidean_division_equations. lia.
  - destruct (contexts (fst s) !! _) as [c|] eqn:En; [|by apply keeps_refl]. by apply context_write_keeps.
Qed.

Lemma set_level_keeps s id lvl : plic_inv s -> 0 <= id -> plic_inv (set_level (fst s) id lvl, snd s).
Proof.
  intros [Hp Hl] Hid. split; cbn [fst snd].
  - destruct Hp as [H1 [H2 H3] H4 H5 H6]. split; try done. cbn. by rewrite set_at_length.
  - cbn. eapply list.Forall_impl; [exact Hl|]. done.
Qed.

Lemma set_interrupt_level_keeps s id lvl : plic_inv s -> keeps s (set_interrupt_level s id lvl).
Proof.
  intros Hs. unfold set_interrupt_level. case_if; [by apply keeps_refl|].
  pose proof (wf_ids _ (proj1 Hs)). pose proof (set_level_keeps s id lvl Hs ltac:(lia)) as Hs'.
  change (contexts (set_level (fst s) id lvl)) with (contexts (fst s)).
  destruct (list_find (enabled_for id) (contexts (fst s))) as [[n c]|] eqn:Ef.
  - apply list_find_Some in Ef as (Hn & He & _).
    pose proof (inv_context s n c Hs Hn) as Hc. apply wf_context_with in Hc as [Hw Hz].
    assert (Hcc : wf_context (if lvl then raise_pending c id (at_ (priority (fst s)) id) else drop_pending c id)).
    { apply wf_context_with. destruct lvl; (split; [|done]).
      - apply raise_pending_wf; [done|lia|by apply Is_true_true_1|].
        apply at_bounds; [apply (wf_priorities _ (proj1 Hs))|lia].
      - eapply wf_with_ext; [|apply drop_pending_wf; [exact Hw|lia]]. cbn. intros. lia. }
    apply (commit_inv (set_level (fst s) id lvl, snd s) n c _ Hs' Hn); [| |exact Hcc]; by destruct lvl.
  - split; [done|apply harts_ext_refl].
Qed.

Lemma plic_load_keeps s addr len : plic_inv s -> keeps s (snd (plic_load s addr len)).
Proof.
  intros Hs. unfold plic_load. case_if; [by apply load_word_keeps|]. case_if; [|by apply keeps_refl].
  pose proof (load_word_keeps s addr Hs) as H1. destruct (load_word s addr) as [[lo|] s1]; [|done].
  cbn [snd] in *. eapply keeps_trans; [exact H1|]. apply load_word_keeps. apply H1.
Qed.

Lemma plic_store_keeps s addr bytes : plic_inv s -> keeps s (snd (plic_store s addr bytes)).
Proof.
  intros Hs. unfold plic_store. case_if; [by apply store_word_keeps|]. case_if; [|by apply keeps_refl].
  pose proof (store_word_keeps s addr (take 4 bytes) Hs) as H1.
  destruct (store_word s addr (take 4 bytes)) as [[|] s1]; [|done].
  cbn [snd] in *. eapply keeps_trans; [exact H1|]. apply store_word_keeps. apply H1.
Qed.

(** ** Sequences of operations *)

Inductive plic_op :=
  | PLoad (addr len : Z)
  | PStore (addr : Z) (bytes : list Z)
  | PLevel (id : Z) (lvl : bool).

Definition plic_step (s : plic_t * harts_t) (o : plic_op) : plic_t * harts_t :=
  match o with
  | PLoad addr len => snd (plic_load s addr len)
  | PStore addr bytes => snd (plic_store s addr bytes)
  | PLevel id lvl => set_interrupt_level s id lvl
  end.

Lemma plic_step_keeps s o : plic_inv s -> keeps s (plic_step s o).
Proof.
  intros Hs. destruct o.
  - by apply plic_load_keeps.
  - by apply plic_store_keeps.
  - by apply set_interrupt_level_keeps.
Qed.

Lemma plic_run_keeps s ops : plic_inv s -> keeps s (fold_left plic_step ops s).
Proof.
  revert s. induction ops as [|o ops IH]; intros s Hs; [by apply keeps_refl|]. cbn [fold_left].
  pose proof (plic_step_keeps s o Hs) as H1. eapply keeps_trans; [exact H1|]. apply IH, H1.
Qed.

(** *** The state after construction *)

Lemma zero_bits n id : bit_of (replicate n 0) id = false.
Proof.
  unfold bit_of, at_. rewrite nth_lookup.
  destruct (replicate n 0 !! _) as [v|] eqn:E; [apply lookup_replicate in E as [-> _]|]; done.
Qed.

Lemma new_context_wf hart m : wf_context (new_context hart m).
Proof.
  split.
  - split_and!; apply length_replicate.
  - apply zero_bits.
  - intros id _ Hb. unfold new_context in Hb. cbn [pending] in Hb. by rewrite zero_bits in Hb.
  - intros id _ Hb. unfold new_context in Hb. cbn [claimed] in Hb. by rewrite zero_bits in Hb.
  - by apply Forall_replicate.
  - done.
Qed.

Definition new_contexts (harts : list (Z * bool)) : list plic_context_t :=
  concat (map (fun e : Z * bool => new_context (fst e) true ::
    (if snd e then [new_context (fst e) false] else [])) harts).

Lemma new_contexts_elem harts c : c ∈ new_contexts harts ->
  exists e m, e ∈ harts /\ c = new_context (fst e) m.
Proof.
  unfold new_contexts. induction harts as [|e harts IH]; cbn [map concat]; intros Hc; [by apply elem_of_nil in Hc|].
  rewrite <- app_comm_cons in Hc. apply elem_of_cons in Hc as [->|Hc].
  - exists e, true. split; [by left|done].
  - apply elem_of_app in Hc as [Hc|Hc].
    + destruct (snd e); [|by apply elem_of_nil in Hc]. apply list_elem_of_singleton in Hc as ->.
      exists e, false. split; [by left|done].
    + destruct (IH Hc) as (e' & m & He & ->). exists e', m. split; [by right|done].
Qed.

Lemma new_contexts_distinct harts : NoDup (map fst harts) ->
  NoDup (map (fun c => (proc c, mmode c)) (new_contexts harts)).
Proof.
  unfold new_contexts. induction harts as [|e harts IH]; cbn [map concat]; intros Hd; [constructor|].
  apply list.NoDup_cons in Hd as [Hne Hd]. specialize (IH Hd).
  assert (Hnot : forall m, (fst e, m) ∉ map (fun c => (proc c, mmode c)) (new_contexts harts)).
  { intros m Hin. apply list_elem_of_fmap in Hin as (c & Ec & Hc).
    apply new_contexts_elem in Hc as (e' & m' & He & ->). cbn in Ec. injection Ec as Ee _.
    destruct Hne. rewrite Ee. by apply list_elem_of_fmap_2. }
  rewrite <- app_comm_cons, map_cons, map_app. apply list.NoDup_cons.
  destruct (snd e); cbn [map app].
  - split.
    + intros Hin. apply elem_of_cons in Hin as [Hin|Hin]; [done|]. by eapply Hnot.
    + apply list.NoDup_cons. split; [by apply Hnot|done].
  - split; [by apply Hnot|done].
Qed.

Definition harts_ready (harts : list (Z * bool)) (io : harts_t) : Prop :=
  Forall (fun e => exists h, io !! fst e = Some h /\ line 9 h = false /\ line 11 h = false) harts.

Lemma new_plic_inv harts ndev io : 0 <= ndev < 1024 -> NoDup (map fst harts) -> harts_ready harts io ->
  plic_inv (new_plic harts ndev, io).
Proof.
  intros Hn Hd Hr. unfold new_plic. fold (new_contexts harts).
  rewrite (wrap_small 32 (ndev + 1)), (wrap_small 32 (ndev + 1 + 31)) by lia.
  assert (Hp : wf_plic (Plic (new_contexts harts) (ndev + 1) ((ndev + 1 + 31) / 32) (2 ^ PLIC_PRIO_BITS - 1)
      (replicate (Z.to_nat PLIC_MAX_DEVICES) 0) (replicate words 0))).
  { split.
    - split; [cbn; lia|done].
    - split; apply length_replicate.
    - by apply Forall_replicate.
    - apply list.Forall_forall. intros c (e & m & _ & ->)%new_contexts_elem. apply new_context_wf.
    - by apply new_contexts_distinct. }
  split; [done|]. cbn [fst snd contexts]. apply list.Forall_forall. intros c Hc.
  apply new_contexts_elem in Hc as (e & m & He & ->).
  eapply list.Forall_forall in Hr as (h & Hh & H9 & H11); [|exact He]. exists h. split; [done|].
  destruct (best_pending_spec _ (new_context (fst e) m) Hp (new_context_wf _ _)) as [[E _]|(_ & Hcl & _)].
  - cbn [fst]. rewrite E. unfold ext_line. by destruct m.
  - apply claimable_pending in Hcl as [_ Hcl]. cbn [pending new_context] in Hcl. by rewrite zero_bits in Hcl.
Qed.

(** *** A claimed source stays claimed *)

Definition claim_addr (n : nat) : Z := CONTEXT_BASE + Z.of_nat n * CONTEXT_PER_HART + CONTEXT_CLAIM.
Definition enable_addr (n : nat) (id : Z) : Z :=
  ENABLE_BASE + Z.of_nat n * ENABLE_PER_HART + 4 * (id / 32).

(** The access reaches the word register at [a]. *)
Definition reaches (addr len a : Z) : bool := (addr <? a + 4) && (a <? addr + len).

(** The operations that may end the service of source [id] by context [n]:
    completion, a change of its enable bit, and the source going low. *)
Definition releases (n : nat) (id : Z) (o : plic_op) : bool :=
  match o with
  | PLoad _ _ => false
  | PStore addr bytes => let len := Z.of_nat (length bytes) in
    reaches addr len (claim_addr n) || reaches addr len (enable_addr n id)
  | PLevel id' lvl => (id' =? id) && negb lvl
  end.

Definition in_service (n : nat) (id : Z) (s : plic_t * harts_t) : Prop :=
  exists c, contexts (fst s) !! n = Some c /\ bit_of (claimed c) id = true.

Lemma commit_in_service s k n id c c0 : in_service n id s -> contexts (fst s) !! k = Some c0 ->
  (k = n -> bit_of (claimed c0) id = true -> bit_of (claimed c) id = true) ->
  in_service n id (commit s k c).
Proof.
  intros (cn & Hn & Hb) Hk Hc. unfold commit, in_service. cbn [fst contexts put_context].
  destruct (decide (k = n)) as [->|].
  - exists c. rewrite list_lookup_insert_eq by (by eapply lookup_lt_Some). split; [done|].
    apply Hc; congruence.
  - exists cn. by rewrite list_lookup_insert_ne.
Qed.

Lemma enable_loop_claimed p w x new js c id : length (claimed c) = words -> 0 <= w < 32 ->
  0 <= id -> id / 32 <> w -> Forall (fun j => 0 <= j < 32) js ->
  bit_of (claimed (fold_left (enable_step p w x new) js c)) id = bit_of (claimed c) id.
Proof.
  intros Hl Hw Hid Hne Hjs. revert c Hl. induction Hjs as [|j js Hj Hjs IH]; intros c Hl; [done|].
  destruct (id_join w j Hj) as [Hd Hm]. cbn [fold_left].
  assert (H : length (claimed (enable_step p w x new c j)) = words /\
    bit_of (claimed (enable_step p w x new c j)) id = bit_of (claimed c) id).
  { unfold enable_step. repeat case_if; try done. cbn. split; [by rewrite set_at_length|].
    rewrite bit_of_clear by (done || lia). rewrite (proj2 (Z.eqb_neq _ _)); [done|]. congruence. }
  rewrite IH by apply H. apply H.
Qed.

Lemma load_word_in_service s addr n id : plic_inv s -> 0 <= id < 1024 -> in_service n id s ->
  in_service n id (snd (load_word s addr)).
Proof.
  intros Hs Hid Hn. unfold load_word. repeat case_if; try done.
  - by destruct (contexts (fst s) !! _).
  - destruct (contexts (fst s) !! _) as [c|] eqn:En; [|done]. cbn [snd].
    unfold context_read. repeat case_if; try done. unfold context_claim. cbn [snd].
    eapply commit_in_service; [done|exact En|]. intros _ Hb.
    destruct (z2b (context_best_pending (fst s) c)) eqn:Eb; [|done].
    assert (Hne : context_best_pending (fst s) c <> 0) by (intros E'; by rewrite E' in Eb).
    destruct (best_range s _ c Hs En Hne) as [Hr _].
    pose proof (wf_lengths c (inv_context s _ c Hs En)) as (_ & _ & L3 & _). cbn.
    rewrite bit_of_set by (done || lia). by destruct (id =? _).
Qed.

Lemma store_word_in_service s addr bytes n id : plic_inv s -> 0 <= id < 1024 -> 0 <= addr ->
  reaches addr 4 (claim_addr n) = false -> reaches addr 4 (enable_addr n id) = false ->
  in_service n id s -> in_service n id (snd (store_word s addr bytes)).
Proof.
  intros Hs Hid Ha Hc He Hn. unfold store_word. set (val := write_little_endian_reg _ _ _ _). clearbody val.
  unfold reaches, claim_addr, enable_addr in *.
  repeat case_if; try done; cbn [snd].
  - destruct Hn as (cn & Hn & Hb). exists cn. split; [|done]. unfold priority_write. by destruct (valid_id _ _).
  - set (k := (addr - ENABLE_BASE) / ENABLE_PER_HART).
    destruct (contexts (fst s) !! Z.to_nat k) as [c|] eqn:En; [|done]. cbn [snd].
    unfold context_enable_write. case_if; [done|]. eapply commit_in_service; [done|exact En|].
    intros Ek Hb. pose proof (wf_lengths c (inv_context s _ c Hs En)) as (_ & _ & L3 & _).
    unfold ENABLE_BASE, ENABLE_PER_HART, CONTEXT_BASE, PRIORITY_BASE in *.
    assert (Hk : 0 <= k /\ 0 <= addr - (k * 128 + 8192) < 128)
      by (subst k; Z.to_euclidean_division_equations; lia).
    pose proof (offset_word (addr - (k * 128 + 8192)) ltac:(unfold ENABLE_PER_HART; lia)) as Hw.
    rewrite enable_loop_claimed; [done|done|done|lia| |].
    + rewrite wrap_small by (rewrite Z.shiftr_div_pow2 by lia; change (2 ^ 2) with 4; Z.to_euclidean_division_equations; lia).
      rewrite Z.shiftr_div_pow2 by lia. change (2 ^ 2) with 4.
      rewrite <- Ek in He. rewrite Z2Nat.id in He by lia. clear -He Hk. clearbody k.
      Z.to_euclidean_division_equations. lia.
    + apply list.Forall_forall. intros j Hj%elem_of_seqZ. lia.
  - set (k := (addr - CONTEXT_BASE) / CONTEXT_PER_HART).
    destruct (contexts (fst s) !! Z.to_nat k) as [c|] eqn:En; [|done].
    unfold context_write. case_if; [|case_if; [|done]].
    + case_if; [|done]. cbn [snd]. by eapply commit_in_service.
    + case_if; [|done]. cbn [snd]. eapply commit_in_service; [done|exact En|].
      intros Ek _. exfalso. unfold CONTEXT_BASE, CONTEXT_PER_HART, CONTEXT_CLAIM, REG_SIZE in *.
      assert (0 <= k) by (subst k; Z.to_euclidean_division_equations; lia).
      rewrite <- Ek in Hc. rewrite Z2Nat.id in Hc by lia. lia.
Qed.

Definition plic_op_ok (o : plic_op) : Prop :=
  match o with PStore addr _ => 0 <= addr < 2 ^ 63 | PLoad addr _ => 0 <= addr | PLevel _ _ => True end.

Lemma plic_store_in_service s addr bytes n id : plic_inv s -> 0 <= id < 1024 -> 0 <= addr < 2 ^ 63 ->
  releases n id (PStore addr bytes) = false -> in_service n id s ->
  in_service n id (snd (plic_store s addr bytes)).
Proof.
  intros Hs Hid Ha Hr Hn. unfold plic_store. cbn [releases] in Hr. unfold reaches in Hr.
  set (a := claim_addr n) in *. set (b := enable_addr n id) in *.
  case_if; [apply store_word_in_service; try done; unfold reaches; lia|].
  case_if; [|done]. rewrite (wrap_small 64 (addr + 4)) by lia.
  pose proof (store_word_keeps s addr (take 4 bytes) Hs) as Hk.
  pose proof (store_word_in_service s addr (take 4 bytes) n id Hs Hid ltac:(lia)) as H1.
  destruct (store_word s addr (take 4 bytes)) as [[|] s1]; cbn [snd] in *.
  - apply store_word_in_service; [apply Hk|done|lia|unfold reaches; lia|unfold reaches; lia|].
    apply H1; [unfold reaches; lia|unfold reaches; lia|done].
  - apply H1; [unfold reaches; lia|unfold reaches; lia|done].
Qed.

Lemma plic_load_in_service s addr len n id : plic_inv s -> 0 <= id < 1024 -> in_service n id s ->
  in_service n id (snd (plic_load s addr len)).
Proof.
  intros Hs Hid Hn. unfold plic_load. case_if; [by apply load_word_in_service|]. case_if; [|done].
  pose proof (load_word_keeps s addr Hs) as Hk. pose proof (load_word_in_service s addr n id Hs Hid Hn) as H1.
  destruct (load_word s addr) as [[lo|] s1]; cbn [snd] in *; [|done].
  apply load_word_in_service; [apply Hk|done|done].
Qed.

Lemma set_level_in_service s id' lvl n id : plic_inv s -> 0 <= id < 1024 ->
  (id' =? id) && negb lvl = false -> in_service n id s -> in_service n id (set_interrupt_level s id' lvl).
Proof.
  intros Hs Hid Hr Hn. unfold set_interrupt_level. case_if; [done|].
  pose proof (wf_ids _ (proj1 Hs)).
  change (contexts (set_level (fst s) id' lvl)) with (contexts (fst s)).
  destruct (list_find (enabled_for id') (contexts (fst s))) as [[k c]|] eqn:Ef; [|done].
  apply list_find_Some in Ef as (Hk & _ & _). eapply commit_in_service; [done|exact Hk|]. intros _ Hb.
  destruct lvl; [done|]. pose proof (wf_lengths c (inv_context s _ c Hs Hk)) as (_ & _ & L3 & _). cbn.
  rewrite bit_of_clear by (done || lia). by replace (id =? id') with false by lia.
Qed.

Lemma plic_run_in_service ops s n id : plic_inv s -> 0 <= id < 1024 -> Forall plic_op_ok ops ->
  existsb (releases n id) ops = false -> in_service n id s ->
  in_service n id (fold_left plic_step ops s).
Proof.
  revert s. induction ops as [|o ops IH]; intros s Hs Hid Ho Hr Hn; [done|]. cbn [fold_left existsb] in *.
  apply orb_false_iff in Hr as [Hr Hrs]. apply Forall_cons_iff in Ho as [Ho Hos].
  apply IH; try done; [by apply plic_step_keeps|].
  destruct o; cbn [plic_step].
  - by apply plic_load_in_service.
  - by apply plic_store_in_service.
  - by apply set_level_in_service.
Qed.

(** Reading the claim register. *)
Definition read_claim (s : plic_t * harts_t) (n : nat) : option (list Z) * (plic_t * harts_t) :=
  plic_load s (claim_addr n) 4.

Lemma read_claim_eq s n c : Z.of_nat n < 3584 -> contexts (fst s) !! n = Some c ->
  read_claim s n = (Some (read_little_endian_reg 32 (context_best_pending (fst s) c) CONTEXT_CLAIM 4),
    snd (context_claim s n c)).
Proof.
  intros Hn Hc. unfold read_claim, plic_load, load_word, claim_addr.
  unfold PRIORITY_BASE, PENDING_BASE, ENABLE_BASE, CONTEXT_BASE, CONTEXT_PER_HART, CONTEXT_CLAIM, REG_SIZE.
  remember (2097152 + Z.of_nat n * 4096 + 4) as a eqn:Ea.
  change (4 =? 4) with true.
  replace ((0 <=? a) && (a <? 4096)) with false by lia.
  replace ((4096 <=? a) && (a <? 8192)) with false by lia.
  replace ((8192 <=? a) && (a <? 2097152)) with false by lia.
  replace ((2097152 <=? a) && (a <? 16777216)) with true by lia.
  replace ((a - 2097152) / 4096) with (Z.of_nat n) by (apply (Z.div_unique _ _ _ 4); lia).
  rewrite Nat2Z.id, Hc. replace (a - (Z.of_nat n * 4096 + 2097152)) with 4 by lia.
  reflexivity.
Qed.

(** C20: Reading the claim register of a context returns, among the sources
    pending for it and not yet claimed whose priority exceeds its threshold, the
    one of the greatest priority and the least identifier, or 0 when there is
    none, and takes exactly that source into service. *)
Theorem plic_claim_exact s n c : plic_inv s -> contexts (fst s) !! n = Some c -> Z.of_nat n < 3584 ->
  exists r s', read_claim s n = (Some (read_little_endian_reg 32 r CONTEXT_CLAIM 4), s') /\
    best_spec (fst s) c r /\
    exists c', contexts (fst s') !! n = Some c' /\
      (forall id, 0 <= id < 1024 -> claimable (fst s') c' id = claimable (fst s) c id && negb (id =? r)) /\
      (r <> 0 -> in_service n r s').
Proof.
  intros Hs Hc Hn. pose proof (inv_context s n c Hs Hc) as Hwc. rewrite (read_claim_eq s n c Hn Hc).
  eexists _, _. split; [reflexivity|]. split; [apply best_pending_spec; [apply Hs|done]|].
  unfold context_claim, commit. cbn [snd fst contexts put_context].
  eexists. split; [apply list_lookup_insert_eq; by eapply lookup_lt_Some|].
  pose proof (wf_lengths c Hwc) as (_ & _ & L3 & _).
  destruct (Z.eq_dec (context_best_pending (fst s) c) 0) as [E|E].
  - rewrite E. split; [|done]. intros id Hid. change (z2b 0) with false. unfold claimable. cbn [num_ids put_context].
    destruct (Z.eqb_spec id 0) as [->|]; [|by rewrite andb_true_r].
    destruct (bit_of (pending c) 0) eqn:Ep; [|by rewrite !andb_false_r].
    apply (wf_pending c Hwc) in Ep; [|lia]. by rewrite (wf_no_zero c Hwc) in Ep.
  - destruct (best_range s n c Hs Hc E) as [Hr _]. unfold z2b. rewrite (proj2 (Z.eqb_neq _ _) E). cbn [negb].
    assert (Hb : forall id, 0 <= id -> bit_of (set_at (claimed c) (context_best_pending (fst s) c / 32)
        (set_bit (at_ (claimed c) (context_best_pending (fst s) c / 32)) (context_best_pending (fst s) c mod 32))) id =
        if id =? context_best_pending (fst s) c then true else bit_of (claimed c) id)
      by (intros; apply bit_of_set; done || lia).
    split.
    + intros id Hid. unfold claimable. cbn [num_ids put_context pending claimed with_claimed].
      rewrite Hb by lia. destruct (id =? _), (bit_of (claimed c) id); cbn [negb]; rewrite ?andb_false_r, ?andb_true_r; done.
    + intros _. eexists. split; [apply list_lookup_insert_eq; by eapply lookup_lt_Some|].
      cbn [claimed with_claimed]. rewrite Hb by lia. by rewrite Z.eqb_refl.
Qed.

(** One hart with machine and supervisor context, three sources; source 2 of
    priority 5 is enabled for the machine context and goes high. *)
Definition demo_plic : plic_t * harts_t :=
  fold_left plic_step [PStore 8 [5; 0; 0; 0]; PStore 0x2000 [6; 0; 0; 0]; PLevel 2 true]
    (new_plic [(0, true)] 3, {[0 := demo_hart]}).

Lemma demo_plic_inv : plic_inv demo_plic.
Proof.
  apply plic_run_keeps, new_plic_inv; [lia|by apply (bool_decide_unpack _); vm_compute|].
  constructor; [|done]. by exists demo_hart.
Qed.

Lemma plic_claim_exact_witness : fst (read_claim demo_plic 0) = Some [2; 0; 0; 0].
Proof.
  destruct (contexts (fst demo_plic) !! 0%nat) as [c|] eqn:E; [|vm_compute in E; discriminate E].
  destruct (plic_claim_exact demo_plic 0 c demo_plic_inv E ltac:(lia)) as (r & s' & Er & _).
  vm_compute. reflexivity.
Defined.

(** C21: After construction and any sequence of memory accesses and changes of
    the interrupt sources, the external interrupt of every context's hart is
    pending exactly when the context has a source it may claim with a priority
    above its threshold; no other line and no other register of a hart changes. *)
Theorem plic_lines harts ndev io ops : 0 <= ndev < 1024 -> NoDup (map fst harts) -> harts_ready harts io ->
  let s := fold_left plic_step ops (new_plic harts ndev, io) in
  Forall (fun c => exists h, snd s !! proc c = Some h /\
    (line (ext_line c) h = true <->
     exists id, 0 < id < num_ids (fst s) /\ claimable (fst s) c id = true /\
       priority_threshold c < prio_of c id)) (contexts (fst s)) /\
  harts_ext io (snd s).
Proof.
  intros Hn Hd Hr s.
  destruct (plic_run_keeps _ ops (new_plic_inv harts ndev io Hn Hd Hr)) as [Hs Hx]. fold s in Hs, Hx.
  split; [|exact Hx]. apply Forall_lookup_2. intros k c Hk. pose proof (inv_context s k c Hs Hk) as Hc.
  destruct Hs as [Hp Hl]. pose proof (Forall_lookup_1 _ _ _ _ Hl Hk) as (h & Hh & Hline).
  exists h. split; [done|]. rewrite Hline.
  destruct (best_pending_spec (fst s) c Hp Hc) as [[E Hno]|(Hrange & Hcl & Ht & _)].
  - rewrite E. split; [done|]. intros (id & Hid & Hci & Hpr). specialize (Hno id ltac:(lia) Hci). lia.
  - split; [|intros _; unfold z2b; lia]. intros _. by eexists.
Qed.

Lemma plic_lines_witness : option_map (line 11) (snd demo_plic !! 0) = Some true.
Proof.
  destruct (plic_lines [(0, true)] 3 {[0 := demo_hart]}
    [PStore 8 [5; 0; 0; 0]; PStore 0x2000 [6; 0; 0; 0]; PLevel 2 true] ltac:(lia)
    ltac:(by apply (bool_decide_unpack _); vm_compute)
    ltac:(constructor; [by exists demo_hart|done])) as [_ _].
  vm_compute. reflexivity.
Defined.

(** C17: A claimed source is not offered to the context again while it is in
    service: whatever accesses and source changes follow, until the claim
    register or the enable word of the source is written or the source goes low,
    the claim register never returns it. *)
Theorem plic_claim_exclusive s n id ops : plic_inv s -> 0 < id < 1024 -> Z.of_nat n < 3584 ->
  in_service n id s -> Forall plic_op_ok ops -> existsb (releases n id) ops = false ->
  exists r, fst (read_claim (fold_left plic_step ops s) n) =
      Some (read_little_endian_reg 32 r CONTEXT_CLAIM 4) /\ r <> id.
Proof.
  intros Hs Hid Hn Hin Ho Hr.
  pose proof (plic_run_in_service ops s n id Hs ltac:(lia) Ho Hr Hin) as (c & Hc & Hb).
  destruct (plic_run_keeps s ops Hs) as [Hs' _]. set (s' := fold_left plic_step ops s) in *.
  rewrite (read_claim_eq s' n c Hn Hc). eexists. split; [reflexivity|]. intros E.
  destruct (best_range s' n c Hs' Hc ltac:(lia)) as [_ Hcl]. rewrite E in Hcl.
  unfold claimable in Hcl. by rewrite Hb, !andb_false_r in Hcl.
Qed.

(** Source 2 in service, the threshold rewritten; the source is not offered. *)
Lemma plic_claim_exclusive_witness :
  fst (read_claim (fold_left plic_step [PStore 0x200000 [0; 0; 0; 0]] (snd (read_claim demo_plic 0))) 0) =
  Some [0; 0; 0; 0].
Proof.
  assert (Hs : plic_inv (snd (read_claim demo_plic 0))) by (apply plic_load_keeps, demo_plic_inv).
  destruct (contexts (fst (snd (read_claim demo_plic 0))) !! 0%nat) as [c|] eqn:E; [|vm_compute in E; discriminate E].
  destruct (plic_claim_exclusive (snd (read_claim demo_plic 0)) 0 2 [PStore 0x200000 [0; 0; 0; 0]] Hs
    ltac:(lia) ltac:(lia)) as (r & _ & _).
  - exists c. split; [done|]. vm_compute in E. injection E as <-. vm_compute. reflexivity.
  - repeat constructor; cbn; lia.
  - vm_compute. reflexivity.
  - vm_compute. reflexivity.
Defined.

(** A source enabled for both contexts while it is high is pending for both; when
    it goes low, the loop of [set_interrupt_level] ends at the first context that
    enables it, and the supervisor context keeps a pending interrupt from a
    source that is low. *)
Lemma plic_level_drop_missed :
  let s := fold_left plic_step
    [PStore 8 [5; 0; 0; 0]; PLevel 2 true; PStore 0x2000 [4; 0; 0; 0]; PStore 0x2080 [4; 0; 0; 0];
     PLevel 2 false] (new_plic [(0, true)] 3, {[0 := demo_hart]}) in
  option_map (line 11) (snd s !! 0) = Some false /\ option_map (line 9) (snd s !! 0) = Some true /\
  at_ (level (fst s)) 0 = 0.
Proof. vm_compute. done. Qed.
