(* ===== verification/Mmu.v ===== *)
(** * The memory management unit: [src/riscv/mmu.h], [src/riscv/mmu.cc]

    Address translation (both stages), the software TLB, the slow paths with
    misaligned accesses, memory-mapped I/O, atomics and reservations, as
    functions in the monad of instruction bodies over the state [mmu_t].

    What the MMU calls is the interface [platform]: the physical address space
    of [simif_t], the memory tracers, the timing cache model and the trigger
    module.  A host pointer is named by the physical address of the byte it
    points to: [contents] returns a pointer into the page of the address, and
    the MMU stays within that page.  The target is little-endian, as in the
    default configuration; the instruction cache (a memo of [refill_icache]) and
    the commit log are left out. *)

From Stdlib Require Import ZifyBool.
From S2P Require Import Prelude Arith Decode Hart Pmp.
Local Open Scope cint_scope.

Definition PGSHIFT : Z := 12.
Definition PGSIZE : Z := 4096.
Definition TLB_ENTRIES : Z := 256.
Definition TLB_CHECK_TRIGGERS : Z := 2 ^ 63.

Definition PTE_V : Z := 0x001.
Definition PTE_R : Z := 0x002.
Definition PTE_W : Z := 0x004.
Definition PTE_X : Z := 0x008.
Definition PTE_U : Z := 0x010.
Definition PTE_A : Z := 0x040.
Definition PTE_D : Z := 0x080.
Definition PTE_RSVD : Z := 0x1FC0000000000000.
Definition PTE_PBMT : Z := 0x6000000000000000.
Definition PTE_N : Z := 0x8000000000000000.
Definition PTE_ATTR : Z := 0xFFC0000000000000.
Definition PTE_PPN_SHIFT : Z := 10.
Definition PTE_TABLE (pte : Z) : bool := (pte &! (PTE_V |! PTE_R |! PTE_W |! PTE_X)) =? PTE_V.

Definition SATP32_MODE : Z := 0x80000000.
Definition SATP32_PPN : Z := 0x003FFFFF.
Definition SATP64_MODE : Z := 0xF000000000000000.
Definition SATP64_PPN : Z := 0x00000FFFFFFFFFFF.
Definition MSTATUS_MPP : Z := 0x00001800.
Definition MSTATUS_MPRV : Z := 0x00020000.
Definition MSTATUS_SUM : Z := 0x00040000.
Definition MSTATUS_MXR : Z := 0x00080000.
Definition MSTATUS_MPV : Z := 0x0000008000000000.
Definition HSTATUS_SPVP : Z := 0x00000100.
Definition HSTATUS_HUPMM : Z := 0x0003000000000000.
Definition MNSTATUS_NMIE : Z := 0x00000008.
Definition MENVCFG_SSE : Z := 0x00000008.
Definition MENVCFG_PMM : Z := 0x0000000300000000.
Definition MENVCFG_ADUE : Z := 0x2000000000000000.
Definition MENVCFG_PBMTE : Z := 0x4000000000000000.
Definition DEBUG_START : Z := 0x0.
Definition DEBUG_END : Z := 0x1000 - 1.

(** ** Data *)

Record tlb_entry_t := TlbEntry { host_offset : Z; target_offset : Z }.

Record xlate_flags_t := XlateFlags { forced_virt : bool; hlvx : bool; lr : bool; ss_access : bool }.
Definition no_flags : xlate_flags_t := XlateFlags false false false false.
Definition is_special_access (f : xlate_flags_t) : bool := forced_virt f || hlvx f || lr f || ss_access f.

Record mem_access_info_t := AccessInfo {
  vaddr : Z; transformed_vaddr : Z;
  effective_priv : Z; effective_virt : bool;
  flags : xlate_flags_t; type : access_type
}.
Definition split_misaligned_access (i : mem_access_info_t) (offset : Z) : mem_access_info_t :=
  AccessInfo (vaddr i +! offset) (transformed_vaddr i +! offset) (effective_priv i) (effective_virt i)
    (flags i) (type i).

Record vm_info := VmInfo { levels : Z; idxbits : Z; widenbits : Z; ptesize : Z; ptbase : Z }.
Definition vm_off : vm_info := VmInfo 0 0 0 0 0.

Inductive operation_t := OPERATION_EXECUTE | OPERATION_STORE | OPERATION_LOAD.
Definition operation_code (o : operation_t) : Z :=
  match o with OPERATION_EXECUTE => 0 | OPERATION_STORE => 1 | OPERATION_LOAD => 2 end.
Inductive timing_t := TIMING_BEFORE | TIMING_AFTER.

(** What the MMU calls.  [in_mem] is [addr_to_mem(paddr) != NULL], [host_read]
    and [host_write] are [memcpy] on the host address of a physical address. *)
Class platform (X : Type) := {
  in_mem : X -> Z -> bool;
  host_read : X -> Z -> Z -> list Z;
  host_write : X -> Z -> list Z -> X;
  sim_mmio_load : X -> Z -> Z -> option (list Z) * X;
  sim_mmio_store : X -> Z -> list Z -> bool * X;
  interested_in_range : X -> Z -> Z -> access_type -> bool;
  trace : X -> Z -> Z -> access_type -> X;
  clean_invalidate : X -> Z -> Z -> bool -> bool -> X;
  simulate_cache_access : X -> Z -> bool -> X;
  detect_memory_access_match : X -> operation_t -> Z -> option Z -> option (timing_t * Z) * X
}.

(** The registers the MMU and the memory instructions read besides those of [state].
    [sstatus] and [satp] come in pairs: [readvirt] selects. *)
Record vm_csrs := VmCsrs {
  mstatus : Z; mnstatus : option Z;
  sstatus : Z; vsstatus : Z; satp : Z; vsatp : Z; hgatp : Z; hstatus : Z;
  ssp : Z
}.
Definition sstatus_readvirt (c : vm_csrs) (v : bool) : Z := if v then vsstatus c else sstatus c.
Definition satp_readvirt (c : vm_csrs) (v : bool) : Z := if v then vsatp c else satp c.

Record mmu_t (X : Type) := Mmu {
  tlb_data : list tlb_entry_t;
  tlb_insn_tag : list Z; tlb_load_tag : list Z; tlb_store_tag : list Z;
  load_reservation_address : Z;
  check_triggers_fetch : bool; check_triggers_load : bool; check_triggers_store : bool;
  matched_trigger : option trap;
  csrs : vm_csrs;
  pmp : pmp_unit;
  misaligned : bool;
  blocksz : Z;
  ext : X
}.
Arguments Mmu {X}. Arguments tlb_data {X}. Arguments tlb_insn_tag {X}. Arguments tlb_load_tag {X}.
Arguments tlb_store_tag {X}. Arguments load_reservation_address {X}. Arguments check_triggers_fetch {X}.
Arguments check_triggers_load {X}. Arguments check_triggers_store {X}. Arguments matched_trigger {X}.
Arguments csrs {X}. Arguments pmp {X}. Arguments misaligned {X}. Arguments blocksz {X}. Arguments ext {X}.

Definition with_tlb {X} (d : list tlb_entry_t) (i l s : list Z) (m : mmu_t X) : mmu_t X :=
  Mmu d i l s (load_reservation_address m) (check_triggers_fetch m) (check_triggers_load m)
    (check_triggers_store m) (matched_trigger m) (csrs m) (pmp m) (misaligned m) (blocksz m) (ext m).
Definition with_reservation {X} (a : Z) (m : mmu_t X) : mmu_t X :=
  Mmu (tlb_data m) (tlb_insn_tag m) (tlb_load_tag m) (tlb_store_tag m) a (check_triggers_fetch m)
    (check_triggers_load m) (check_triggers_store m) (matched_trigger m) (csrs m) (pmp m)
    (misaligned m) (blocksz m) (ext m).
Definition with_matched {X} (t : option trap) (m : mmu_t X) : mmu_t X :=
  Mmu (tlb_data m) (tlb_insn_tag m) (tlb_load_tag m) (tlb_store_tag m) (load_reservation_address m)
    (check_triggers_fetch m) (check_triggers_load m) (check_triggers_store m) t (csrs m) (pmp m)
    (misaligned m) (blocksz m) (ext m).
Definition with_csrs {X} (c : vm_csrs) (m : mmu_t X) : mmu_t X :=
  Mmu (tlb_data m) (tlb_insn_tag m) (tlb_load_tag m) (tlb_store_tag m) (load_reservation_address m)
    (check_triggers_fetch m) (check_triggers_load m) (check_triggers_store m) (matched_trigger m)
    c (pmp m) (misaligned m) (blocksz m) (ext m).
Definition with_ext {X} (x : X) (m : mmu_t X) : mmu_t X :=
  Mmu (tlb_data m) (tlb_insn_tag m) (tlb_load_tag m) (tlb_store_tag m) (load_reservation_address m)
    (check_triggers_fetch m) (check_triggers_load m) (check_triggers_store m) (matched_trigger m)
    (csrs m) (pmp m) (misaligned m) (blocksz m) x.

Definition tag_at (l : list Z) (idx : Z) : Z := nth (Z.to_nat idx) l (2 ^ 64 - 1).
Definition entry_at (l : list tlb_entry_t) (idx : Z) : tlb_entry_t := nth (Z.to_nat idx) l (TlbEntry 0 0).
Definition set_tag (l : list Z) (idx v : Z) : list Z := <[Z.to_nat idx := v]> l.

(** [flush_tlb]: every tag to all ones. *)
Definition flush_tlb {X} (m : mmu_t X) : mmu_t X :=
  let t := replicate (Z.to_nat TLB_ENTRIES) (2 ^ 64 - 1) in with_tlb (tlb_data m) t t t m.

(** ** Little-endian values *)

Definition reg_from_bytes (bytes : list Z) : option Z :=
  match bytes with
  | [b0] => Some b0
  | [b0; b1] => Some (b0 |! (b1 <<! 8))
  | [b0; b1; b2; b3] => Some (b0 |! (b1 <<! 8) |! (b2 <<! 16) |! (b3 <<! 24))
  | [b0; b1; b2; b3; b4; b5; b6; b7] =>
    Some (b0 |! (b1 <<! 8) |! (b2 <<! 16) |! (b3 <<! 24) |! (b4 <<! 32) |! (b5 <<! 40) |!
          (b6 <<! 48) |! (b7 <<! 56))
  | _ => None
  end.

(** [from_target] and [to_target] of an [n]-byte integer. *)
Fixpoint from_target (bytes : list Z) : Z :=
  match bytes with [] => 0 | b :: bytes => b |! Z.shiftl (from_target bytes) 8 end.
Fixpoint to_target (n : nat) (v : Z) : list Z :=
  match n with O => [] | S n => u8 v :: to_target n (v >>! 8) end.

(** ** [decode_vm_info]; [None] is [abort] *)

Definition decode_vm_info (xlen : Z) (stage2 : bool) (prv satp : Z) : option vm_info :=
  if prv =? PRV_M then Some vm_off
  else if negb stage2 && (prv <=? PRV_S) && (xlen =? 32) then
    let mode := get_field satp SATP32_MODE in
    if mode =? 0 then Some vm_off
    else if mode =? 1 then Some (VmInfo 2 10 0 4 ((satp &! SATP32_PPN) <<! PGSHIFT))
    else None
  else if negb stage2 && (prv <=? PRV_S) && (xlen =? 64) then
    let mode := get_field satp SATP64_MODE in
    let base := (satp &! SATP64_PPN) <<! PGSHIFT in
    if mode =? 0 then Some vm_off
    else if mode =? 8 then Some (VmInfo 3 9 0 8 base)
    else if mode =? 9 then Some (VmInfo 4 9 0 8 base)
    else if mode =? 10 then Some (VmInfo 5 9 0 8 base)
    else if mode =? 11 then Some (VmInfo 6 9 0 8 base)
    else None
  else if stage2 && (xlen =? 32) then
    let mode := get_field satp SATP32_MODE in
    if mode =? 0 then Some vm_off
    else if mode =? 1 then Some (VmInfo 2 10 2 4 ((satp &! SATP32_PPN) <<! PGSHIFT))
    else None
  else if stage2 && (xlen =? 64) then
    let mode := get_field satp SATP64_MODE in
    let base := (satp &! SATP64_PPN) <<! PGSHIFT in
    if mode =? 0 then Some vm_off
    else if mode =? 8 then Some (VmInfo 3 9 2 8 base)
    else if mode =? 9 then Some (VmInfo 4 9 2 8 base)
    else if mode =? 10 then Some (VmInfo 5 9 2 8 base)
    else None
  else None.

Definition to_operation (t : access_type) : operation_t :=
  match t with FETCH => OPERATION_EXECUTE | LOAD => OPERATION_LOAD | STORE => OPERATION_STORE end.

Section mmu.
Context {X : Type} `{platform X} {E : env}.
Local Abbreviation M := (M (mmu_t X)).

Definition get_mmu {A} (f : mmu_t X -> A) : M A := gets (fun s => f (world s)).
Definition modify_mmu (f : mmu_t X -> mmu_t X) : M unit := modify (fun s => with_world (f (world s)) s).

(** An operation of the platform. *)
Definition ext_op {A} (f : X -> A * X) : M A := fun s =>
  let r := f (ext (world s)) in (inr (fst r), with_world (with_ext (snd r) (world s)) s).

Definition throw_access_exception {A} (virt : bool) (addr : Z) (type : access_type) : M A :=
  throw (match type with
         | FETCH => trap_instruction_access_fault virt addr 0 0
         | LOAD => trap_load_access_fault virt addr 0 0
         | STORE => trap_store_access_fault virt addr 0 0
         end).
Definition throw_page_fault {A} (virt : bool) (addr : Z) (type : access_type) : M A :=
  throw (match type with
         | FETCH => trap_instruction_page_fault virt addr 0 0
         | LOAD => trap_load_page_fault virt addr 0 0
         | STORE => trap_store_page_fault virt addr 0 0
         end).
Definition throw_guest_page_fault {A} (gva gpa tinst : Z) (type : access_type) : M A :=
  throw (match type with
         | FETCH => trap_instruction_guest_page_fault gva (gpa >>! 2) tinst
         | LOAD => trap_load_guest_page_fault gva (gpa >>! 2) tinst
         | STORE => trap_store_guest_page_fault gva (gpa >>! 2) tinst
         end).
Definition abort {A} : M A := throw simulator_abort.

Definition pmp_check (addr len : Z) (type : access_type) (mode : Z) (hlvx : bool) : M bool :=
  gets (fun s => pmp_ok (pmp (world s)) (mseccfg s) addr len type mode hlvx).

(** ** Memory-mapped I/O *)

(** Outside debug mode the debug region is not accessible. *)
Definition mmio_ok (paddr : Z) : M bool :=
  gets (fun s => negb ((DEBUG_START <=? paddr) && (paddr <=? DEBUG_END) && negb (debug_mode s))).

(** The loop of byte accesses of [mmio]; [fuel] is the number of bytes. *)
Fixpoint mmio_load_bytes (fuel : nat) (paddr : Z) : M (option (list Z)) :=
  match fuel with
  | O => mret (Some [])
  | S fuel =>
    ok ← mmio_ok paddr;
    if negb ok then mret None else
    r ← ext_op (fun x => sim_mmio_load x paddr 1);
    match r with
    | None => mret None
    | Some b => rest ← mmio_load_bytes fuel (paddr +! 1); mret (option_map (app b) rest)
    end
  end.
Definition mmio_load (paddr len : Z) : M (option (list Z)) :=
  let power_of_2 := (len &! (len -! 1)) =? 0 in
  let naturally_aligned := (paddr &! (len -! 1)) =? 0 in
  if power_of_2 && naturally_aligned then
    ok ← mmio_ok paddr;
    if negb ok then mret None else ext_op (fun x => sim_mmio_load x paddr len)
  else mmio_load_bytes (Z.to_nat len) paddr.

Fixpoint mmio_store_bytes (bytes : list Z) (paddr : Z) : M bool :=
  match bytes with
  | [] => mret true
  | b :: bytes =>
    ok ← mmio_ok paddr;
    if negb ok then mret false else
    r ← ext_op (fun x => sim_mmio_store x paddr [b]);
    if negb r then mret false else mmio_store_bytes bytes (paddr +! 1)
  end.
Definition mmio_store (paddr : Z) (bytes : list Z) : M bool :=
  let len := Z.of_nat (length bytes) in
  let power_of_2 := (len &! (len -! 1)) =? 0 in
  let naturally_aligned := (paddr &! (len -! 1)) =? 0 in
  if power_of_2 && naturally_aligned then
    ok ← mmio_ok paddr;
    if negb ok then mret false else ext_op (fun x => sim_mmio_store x paddr bytes)
  else mmio_store_bytes bytes paddr.

(** ** Page table entries *)

Definition pte_load (pte_paddr addr : Z) (virt : bool) (trap_type : access_type) (ptesize : Z) : M Z :=
  ok ← pmp_check pte_paddr ptesize LOAD PRV_S false;
  if negb ok then throw_access_exception virt addr trap_type else
  mem ← get_mmu (fun m => in_mem (ext m) pte_paddr);
  if (mem : bool) then get_mmu (fun m => from_target (host_read (ext m) pte_paddr ptesize))
  else r ← mmio_load pte_paddr ptesize;
       match r with
       | Some bytes => mret (from_target bytes)
       | None => throw_access_exception virt addr trap_type
       end.

Definition pte_store (pte_paddr new_pte addr : Z) (virt : bool) (trap_type : access_type) (ptesize : Z) :
    M unit :=
  ok ← pmp_check pte_paddr ptesize STORE PRV_S false;
  if negb ok then throw_access_exception virt addr trap_type else
  mem ← get_mmu (fun m => in_mem (ext m) pte_paddr);
  let bytes := to_target (Z.to_nat ptesize) new_pte in
  if (mem : bool) then modify_mmu (fun m => with_ext (host_write (ext m) pte_paddr bytes) m)
  else r ← mmio_store pte_paddr bytes;
       if (r : bool) then mret tt else throw_access_exception virt addr trap_type.

(** ** The second stage *)

(** The bits of an entry that decide a step of the walks, named as in the code. *)
Definition pte_ppn (pte : Z) : Z := (pte &! ~! PTE_ATTR) >>! PTE_PPN_SHIFT.
Definition bit (pte mask : Z) : bool := z2b (pte &! mask).

(** The checks both stages start with: reserved bits, Svnapot and Svpbmt. *)
Definition pte_reserved (svnapot pbmte : bool) (pte : Z) : bool :=
  bit pte PTE_RSVD || (negb svnapot && bit pte PTE_N) || (negb pbmte && bit pte PTE_PBMT) ||
  ((pte &! PTE_PBMT) =? PTE_PBMT).

(** The page a leaf at level [i] maps the address to; [None] for a malformed
    NAPOT encoding. *)
Definition napot_bits (pte : Z) : Z := if bit pte PTE_N then ctz (pte_ppn pte) + 1 else 0.
Definition leaf_base (pte i ptshift addr : Z) : option Z :=
  let ppn := pte_ppn pte in
  let vpn := addr >>! PGSHIFT in
  let nb := napot_bits pte in
  if (bit pte PTE_N && ((ppn =? 0) || negb (i =? 0))) || (negb (nb =? 0) && negb (nb =? 4)) then None
  else Some (((ppn &! ~! ((1 <<! nb) -! 1)) |! (vpn &! ((1 <<! nb) -! 1)) |!
              (vpn &! ((1 <<! ptshift) -! 1))) <<! PGSHIFT).

Section s2xlate.
Context (gva gpa : Z) (type trap_type : access_type) (virt hlvx is_for_vs_pt_addr : bool) (vm : vm_info).

Definition s2_tinst : Z :=
  (if is_for_vs_pt_addr then 0x2000 else 0) |!
  (if (xlen =? 64) && is_for_vs_pt_addr then 0x1000 else 0) |!
  (if is_store type && is_for_vs_pt_addr then 0x0020 else 0).
Definition s2_fault : M Z := throw_guest_page_fault gva gpa s2_tinst trap_type.

(** The loop over the levels, [n] of them left. *)
Fixpoint s2_loop (n : nat) (base : Z) : M Z :=
  match n with
  | O => s2_fault
  | S n =>
    let i := Z.of_nat n in
    let ptshift := i * idxbits vm in
    let idxbits := if i =? levels vm - 1 then idxbits vm + widenbits vm else idxbits vm in
    let idx := (gpa >>! (PGSHIFT + ptshift)) &! ((1 <<! idxbits) -! 1) in
    let pte_paddr := base +! (idx *! ptesize vm) in
    pte ← pte_load pte_paddr gva virt trap_type (ptesize vm);
    let ppn := pte_ppn pte in
    pbmte ← gets (fun s => bit (menvcfg s) MENVCFG_PBMTE);
    hade ← gets (fun s => bit (menvcfg s) MENVCFG_ADUE);
    svnapot ← ext_enabled EXT_SVNAPOT;
    mxr ← get_mmu (fun m => negb is_for_vs_pt_addr && bit (sstatus_readvirt (csrs m) false) MSTATUS_MXR);
    if pte_reserved svnapot pbmte pte then s2_fault
    else if PTE_TABLE pte then
      if bit pte (PTE_D |! PTE_A |! PTE_U |! PTE_N |! PTE_PBMT) then s2_fault
      else s2_loop n (ppn <<! PGSHIFT)
    else if negb (bit pte PTE_V) || (negb (bit pte PTE_R) && bit pte PTE_W) then s2_fault
    else if negb (bit pte PTE_U) then s2_fault
    else if (if is_fetch type || hlvx then negb (bit pte PTE_X)
             else if is_load type then negb (bit pte PTE_R) && negb (mxr && bit pte PTE_X)
             else negb (bit pte PTE_R && bit pte PTE_W)) then s2_fault
    else if negb ((ppn &! ((1 <<! ptshift) -! 1)) =? 0) then s2_fault
    else
      let ad := PTE_A |! (if is_store type then PTE_D else 0) in
      let stale := negb ((pte &! ad) =? ad) in
      if stale && negb hade then s2_fault
      else
        when stale (pte_store pte_paddr (pte |! ad) gva virt type (ptesize vm));;
        match leaf_base pte i ptshift gpa with
        | None => s2_fault
        | Some page_base => mret (page_base |! (gpa &! ((1 <<! PGSHIFT) -! 1)))
        end
  end.
End s2xlate.

Definition s2xlate (gva gpa : Z) (type trap_type : access_type) (virt hlvx is_for_vs_pt_addr : bool) : M Z :=
  if negb virt then mret gpa else
  hg ← get_mmu (fun m => hgatp (csrs m));
  match decode_vm_info xlen true 0 hg with
  | None => abort
  | Some vm =>
    if levels vm =? 0 then mret gpa else
    let maxgpabits := levels vm * idxbits vm + widenbits vm + PGSHIFT in
    let maxgpa := (1 <<! maxgpabits) -! 1 in
    if (gpa &! ~! maxgpa) =? 0
    then s2_loop gva gpa type trap_type virt hlvx is_for_vs_pt_addr vm (Z.to_nat (levels vm)) (ptbase vm)
    else s2_fault gva gpa type trap_type is_for_vs_pt_addr
  end.

(** ** The first stage: [walk] *)

Section walk.
Context (addr : Z) (type : access_type) (mode : Z) (virt hlvx ss_access : bool) (vm : vm_info).

Definition walk_fault : M Z := throw_page_fault virt addr type.

(** The enables of the walk: [henvcfg] for a guest, [menvcfg] otherwise. *)
Definition walk_cfg (mask : Z) : M bool :=
  gets (fun s => bit (if virt then henvcfg s else menvcfg s) mask).

(** A leaf whose permissions refuse the access, as the page fault cases of the
    chain after the checks for shadow stack pages. *)
Definition leaf_denied (sse mxr : bool) (pte : Z) : bool :=
  let ss_page := negb (bit pte PTE_R) && bit pte PTE_W && negb (bit pte PTE_X) in
  if is_fetch type || hlvx then negb (bit pte PTE_X)
  else if is_load type then negb (sse && ss_page) && negb (bit pte PTE_R) && negb (mxr && bit pte PTE_X)
  else negb (bit pte PTE_W).

Fixpoint walk_loop (n : nat) (base : Z) : M Z :=
  match n with
  | O => walk_fault
  | S n =>
    let i := Z.of_nat n in
    let ptshift := i * idxbits vm in
    let idx := (addr >>! (PGSHIFT + ptshift)) &! ((1 <<! idxbits vm) -! 1) in
    pte_paddr ← s2xlate addr (base +! (idx *! ptesize vm)) LOAD type virt false true;
    pte ← pte_load pte_paddr addr virt type (ptesize vm);
    let ppn := pte_ppn pte in
    pbmte ← walk_cfg MENVCFG_PBMTE;
    hade ← walk_cfg MENVCFG_ADUE;
    sse ← walk_cfg MENVCFG_SSE;
    svnapot ← ext_enabled EXT_SVNAPOT;
    sum ← get_mmu (fun m => bit (sstatus_readvirt (csrs m) virt) MSTATUS_SUM);
    mxr ← get_mmu (fun m => bit (sstatus_readvirt (csrs m) false |! sstatus_readvirt (csrs m) virt) MSTATUS_MXR);
    let s_mode := mode =? PRV_S in
    let ss_page := negb (bit pte PTE_R) && bit pte PTE_W && negb (bit pte PTE_X) in
    if pte_reserved svnapot pbmte pte then walk_fault
    else if PTE_TABLE pte then
      if bit pte (PTE_D |! PTE_A |! PTE_U |! PTE_N |! PTE_PBMT) then walk_fault
      else walk_loop n (ppn <<! PGSHIFT)
    else if (if bit pte PTE_U then s_mode && (is_fetch type || negb sum) else negb s_mode) then walk_fault
    else if negb (bit pte PTE_V) ||
            (negb (bit pte PTE_R) && bit pte PTE_W && ((negb sse && negb (bit pte PTE_X)) || bit pte PTE_X))
    then walk_fault
    else if ss_page && (is_store type && negb ss_access) then throw (trap_store_access_fault virt addr 0 0)
    else if ss_page && is_fetch type then throw (trap_instruction_access_fault virt addr 0 0)
    else if ((bit pte PTE_R && bit pte PTE_W) || bit pte PTE_X) && ss_access
    then throw (trap_store_access_fault virt addr 0 0)
    else if leaf_denied sse mxr pte then walk_fault
    else if negb ((ppn &! ((1 <<! ptshift) -! 1)) =? 0) then walk_fault
    else
      let ad := PTE_A |! (if is_store type then PTE_D else 0) in
      let stale := negb ((pte &! ad) =? ad) in
      if stale && negb hade then walk_fault
      else
        when stale (s2xlate addr (base +! (idx *! ptesize vm)) STORE type virt false true;;
                    pte_store pte_paddr (pte |! ad) addr virt type (ptesize vm));;
        match leaf_base pte i ptshift addr with
        | None => walk_fault
        | Some page_base =>
          let phys := page_base |! (addr &! ((1 <<! PGSHIFT) -! 1)) in
          p ← s2xlate addr phys type type virt hlvx false;
          mret (p &! ~! ((1 <<! PGSHIFT) -! 1))
        end
  end.
End walk.

Definition walk (info : mem_access_info_t) : M Z :=
  let addr := transformed_vaddr info in
  let virt := effective_virt info in
  let mode := effective_priv info in
  let ss := ss_access (flags info) in
  satp ← get_mmu (fun m => satp_readvirt (csrs m) virt);
  match decode_vm_info xlen false mode satp with
  | None => abort
  | Some vm =>
    if ss && (levels vm =? 0) then throw (trap_store_access_fault virt addr 0 0) else
    let type := if ss then STORE else type info in
    if levels vm =? 0 then
      p ← s2xlate addr (addr &! ((2 <<! (xlen - 1)) -! 1)) type type virt (hlvx (flags info)) false;
      mret (p &! ~! ((1 <<! PGSHIFT) -! 1))
    else
      let va_bits := PGSHIFT + levels vm * idxbits vm in
      let mask := (1 <<! (xlen - (va_bits - 1))) -! 1 in
      let masked_msbs := (addr >>! (va_bits - 1)) &! mask in
      let n := if negb (masked_msbs =? 0) && negb (masked_msbs =? mask) then 0 else levels vm in
      walk_loop addr type mode virt (hlvx (flags info)) ss vm (Z.to_nat n) (ptbase vm)
  end.

Definition translate (info : mem_access_info_t) (len : Z) : M Z :=
  let addr := transformed_vaddr info in
  page ← walk info;
  let paddr := page |! (addr &! (PGSIZE - 1)) in
  ok ← pmp_check paddr len (if ss_access (flags info) then STORE else type info)
         (effective_priv info) (hlvx (flags info));
  if (ok : bool) then mret paddr else throw_access_exception (effective_virt info) addr (type info).

(** ** The address and privilege of an access *)

Definition in_mprv (s : state (mmu_t X)) : bool :=
  let c := csrs (world s) in
  negb (match mnstatus c with Some v => get_field v MNSTATUS_NMIE =? 0 | None => false end) &&
  negb (debug_mode s) && negb (get_field (mstatus c) MSTATUS_MPRV =? 0).

(** [None] is the failing [assert]. *)
Definition get_pmlen (virt : bool) (priv : Z) (f : xlate_flags_t) (s : state (mmu_t X)) : option Z :=
  let c := csrs (world s) in
  if negb (xlen =? 64) ||
     bit (sstatus_readvirt c false |! sstatus_readvirt c virt) MSTATUS_MXR || hlvx f
  then Some 0 else
  let pmm :=
    if priv =? PRV_M then Some (get_field (mseccfg s) MSECCFG_PMM)
    else if negb virt && ((priv =? PRV_S) || (negb (extension_enabled s EXT_S) && (priv =? PRV_U)))
    then Some (get_field (menvcfg s) MENVCFG_PMM)
    else if virt && (priv =? PRV_S) then Some (get_field (henvcfg s) MENVCFG_PMM)
    else if (prv s =? PRV_U) && forced_virt f then Some (get_field (hstatus c) HSTATUS_HUPMM)
    else if priv =? PRV_U then Some (get_field (senvcfg s) MENVCFG_PMM)
    else None in
  option_map (fun pmm => if pmm =? 2 then 7 else if pmm =? 3 then 16 else 0) pmm.

Definition access_mode (ty : access_type) (f : xlate_flags_t) (s : state (mmu_t X)) : Z * bool :=
  let c := csrs (world s) in
  if is_fetch ty then (prv s, virt s) else
  let '(mode, v) :=
    if in_mprv s then
      let mode := get_field (mstatus c) MSTATUS_MPP in
      (mode, virt s || (negb (get_field (mstatus c) MSTATUS_MPV =? 0) && negb (mode =? PRV_M)))
    else (prv s, virt s) in
  if forced_virt f then (get_field (hstatus c) HSTATUS_SPVP, true) else (mode, v).

Definition generate_access_info (addr : Z) (ty : access_type) (f : xlate_flags_t) : M mem_access_info_t :=
  fun s =>
  let '(mode, v) := access_mode ty f s in
  if is_fetch ty then (inr (AccessInfo addr addr mode v f ty), s) else
  match get_pmlen v mode f s with
  | None => (inl simulator_abort, s)
  | Some pmlen =>
    let is_physical_addr :=
      (mode =? PRV_M) || (get_field (satp_readvirt (csrs (world s)) v) SATP64_MODE =? 0) in
    let t := if is_physical_addr then zext addr (xlen - pmlen) else u64 (sext addr (xlen - pmlen)) in
    (inr (AccessInfo addr t mode v f ty), s)
  end.

(** ** Triggers *)

Definition check_triggers (op : operation_t) (addr : Z) (virt : bool) (tval : Z) (data : option Z) : M unit :=
  matched ← get_mmu matched_trigger;
  match matched with
  | Some _ => mret tt
  | None =>
    match_ ← ext_op (fun x => detect_memory_access_match x op addr data);
    match match_ with
    | None => mret tt
    | Some (TIMING_BEFORE, action) => throw (trigger_matched (operation_code op) tval action virt)
    | Some (TIMING_AFTER, action) =>
      modify_mmu (with_matched (Some (trigger_matched (operation_code op) tval action virt)))
    end
  end.

(** The checks with data: a doubleword at a time, all at the address of the
    access; [fuel] is the number of bytes. *)
Fixpoint check_data_triggers (fuel : nat) (op : operation_t) (addr : Z) (virt : bool) (bytes : list Z) : M unit :=
  match fuel with
  | O => abort
  | S fuel =>
    if (8 <? Z.of_nat (length bytes)) then
      match reg_from_bytes (take 8 bytes) with
      | Some v => check_triggers op addr virt addr (Some v);;
                  check_data_triggers fuel op addr virt (drop 8 bytes)
      | None => abort
      end
    else match reg_from_bytes bytes with
         | Some v => check_triggers op addr virt addr (Some v)
         | None => abort
         end
  end.
Definition check_data (op : operation_t) (addr : Z) (virt : bool) (bytes : list Z) : M unit :=
  check_data_triggers (S (length bytes)) op addr virt bytes.

(** ** The TLB *)

Definition tlb_index (va : Z) : Z := (va >>! PGSHIFT) mod TLB_ENTRIES.
Definition without_check (tag : Z) : Z := tag &! ~! TLB_CHECK_TRIGGERS.
(** A tag of another page is invalidated. *)
Definition keep_tag (l : list Z) (idx expected : Z) : list Z :=
  if without_check (tag_at l idx) =? expected then l else set_tag l idx (2 ^ 64 - 1).

Definition refill_tlb (va paddr host_addr : Z) (ty : access_type) : M tlb_entry_t := fun s =>
  let m := world s in
  let idx := tlb_index va in
  let expected := va >>! PGSHIFT in
  let entry := TlbEntry (host_addr -! va) (paddr -! va) in
  if in_mprv s then (inr entry, s) else
  let l := keep_tag (tlb_load_tag m) idx expected in
  let st := keep_tag (tlb_store_tag m) idx expected in
  let i := keep_tag (tlb_insn_tag m) idx expected in
  let check := match ty with
    | FETCH => check_triggers_fetch m | LOAD => check_triggers_load m | STORE => check_triggers_store m end in
  let tag := if check then expected |! TLB_CHECK_TRIGGERS else expected in
  match pmp_homogeneous (pmp m) (paddr &! ~! (PGSIZE - 1)) PGSIZE with
  | None => (inl simulator_abort, s)
  | Some homogeneous =>
    let put t l := if homogeneous && bool_decide (ty = t) then set_tag l idx tag else l in
    (inr entry, with_world (with_tlb (<[Z.to_nat idx := entry]> (tlb_data m))
                              (put FETCH i) (put LOAD l) (put STORE st) m) s)
  end.

(** A physical access seen by the timing model. *)
Definition simulate (paddr : Z) (is_write : bool) : M unit :=
  modify_mmu (fun m => with_ext (simulate_cache_access (ext m) paddr is_write) m).
Definition write_mem (host : Z) (bytes : list Z) : M unit :=
  modify_mmu (fun m => with_ext (host_write (ext m) host bytes) m).
Definition read_mem (host len : Z) : M (list Z) := get_mmu (fun m => host_read (ext m) host len).

Definition reservable (paddr : Z) : M bool := get_mmu (fun m => in_mem (ext m) paddr).
Definition interested (paddr hi : Z) (ty : access_type) : M bool :=
  get_mmu (fun m => interested_in_range (ext m) paddr hi ty).
Definition trace_access (paddr len : Z) (ty : access_type) : M unit :=
  modify_mmu (fun m => with_ext (trace (ext m) paddr len ty) m).

(** Whether the tag of a page is present, checks of triggers pending or not. *)
Definition tlb_hit_slow (l : list Z) (va : Z) : bool := (va >>! PGSHIFT) =? without_check (tag_at l (tlb_index va)).
Definition tlb_hit (l : list Z) (va : Z) : bool := tag_at l (tlb_index va) =? (va >>! PGSHIFT).
Definition entry_of (m : mmu_t X) (va : Z) : tlb_entry_t := entry_at (tlb_data m) (tlb_index va).

(** ** Loads *)

Definition load_slow_path_intrapage (len : Z) (info : mem_access_info_t) : M (list Z) :=
  let addr := vaddr info in
  let va := transformed_vaddr info in
  let special := is_special_access (flags info) in
  hit ← get_mmu (fun m => negb special && tlb_hit_slow (tlb_load_tag m) va);
  if (hit : bool) then
    e ← get_mmu (fun m => entry_of m va);
    bytes ← read_mem (host_offset e +! va) len;
    simulate (target_offset e +! va) false;;
    mret bytes
  else
    paddr ← translate info len;
    r ← reservable paddr;
    if lr (flags info) && negb r then throw (trap_load_access_fault (effective_virt info) va 0 0) else
    mem ← get_mmu (fun m => in_mem (ext m) paddr);
    bytes ← (if (mem : bool) then
               bytes ← read_mem paddr len;
               traced ← interested paddr (paddr +! PGSIZE) LOAD;
               (if (traced : bool) then trace_access paddr len LOAD
                else when (negb special) (refill_tlb addr paddr paddr LOAD;; mret tt));;
               mret bytes
             else
               r ← mmio_load paddr len;
               match r with
               | Some bytes => mret bytes
               | None => throw (trap_load_access_fault (effective_virt info) va 0 0)
               end);
    simulate paddr false;;
    when (lr (flags info)) (modify_mmu (with_reservation paddr));;
    mret bytes.

Definition is_misaligned_enabled : M bool := get_mmu misaligned.

Definition load_slow_path (original_addr len : Z) (f : xlate_flags_t) : M (list Z) :=
  info ← generate_access_info original_addr LOAD f;
  let va := transformed_vaddr info in
  let gva := effective_virt info in
  check_triggers OPERATION_LOAD va gva va None;;
  bytes ← (if (va &! (len -! 1)) =? 0 then load_slow_path_intrapage len info
           else
             mis ← is_misaligned_enabled;
             if negb mis then throw (trap_load_address_misaligned gva va 0 0)
             else if lr f then throw (trap_load_access_fault gva va 0 0)
             else
               let len_page0 := Z.min len (PGSIZE - va mod PGSIZE) in
               b0 ← load_slow_path_intrapage len_page0 info;
               if len_page0 =? len then mret b0 else
               b1 ← load_slow_path_intrapage (len - len_page0) (split_misaligned_access info len_page0);
               mret (b0 ++ b1));
  check_data OPERATION_LOAD va gva bytes;;
  mret bytes.

(** [load<T>] for a [T] of [n] bytes; the value is unsigned. *)
Definition load (n : Z) (addr : Z) (f : xlate_flags_t) : M Z :=
  let aligned := (addr &! (n -! 1)) =? 0 in
  hit ← get_mmu (fun m => tlb_hit (tlb_load_tag m) addr);
  if negb (is_special_access f) && aligned && hit then
    e ← get_mmu (fun m => entry_of m addr);
    bytes ← read_mem (host_offset e +! addr) n;
    simulate (target_offset e +! addr) false;;
    mret (from_target bytes)
  else
    bytes ← load_slow_path addr n f;
    mret (from_target bytes).

Definition load_reserved (n addr : Z) : M Z := load n addr (XlateFlags false false true false).
Definition guest_load (n addr : Z) : M Z := load n addr (XlateFlags true false false false).
Definition guest_load_x (n addr : Z) : M Z := load n addr (XlateFlags true true false false).
Definition ss_flags : xlate_flags_t := XlateFlags false false false true.
Definition ss_aligned (n addr : Z) : M unit := fun s =>
  if negb ((addr &! (n -! 1)) =? 0) then throw (trap_store_access_fault (virt s) addr 0 0) s
  else (inr tt, s).
Definition ss_load (n addr : Z) : M Z := ss_aligned n addr;; load n addr ss_flags.

(** ** Stores *)

Definition store_slow_path_intrapage (len : Z) (bytes : list Z) (info : mem_access_info_t)
    (actually_store : bool) : M unit :=
  let addr := vaddr info in
  let va := transformed_vaddr info in
  let special := is_special_access (flags info) in
  hit ← get_mmu (fun m => negb special && tlb_hit_slow (tlb_store_tag m) va);
  if (hit : bool) then
    when actually_store (
      e ← get_mmu (fun m => entry_of m va);
      write_mem (host_offset e +! va) bytes;;
      simulate (target_offset e +! va) true)
  else
    paddr ← translate info len;
    when actually_store (
      mem ← get_mmu (fun m => in_mem (ext m) paddr);
      (if (mem : bool) then
         write_mem paddr bytes;;
         traced ← interested paddr (paddr +! PGSIZE) STORE;
         (if (traced : bool) then trace_access paddr len STORE
          else when (negb special) (refill_tlb addr paddr paddr STORE;; mret tt))
       else
         r ← mmio_store paddr bytes;
         if (r : bool) then mret tt
         else throw (trap_store_access_fault (effective_virt info) va 0 0));;
      simulate paddr true).

(** [bytes] holds [len] bytes when [actually_store]; it is a null pointer
    otherwise, an empty list here. *)
Definition store_slow_path (original_addr len : Z) (bytes : list Z) (f : xlate_flags_t)
    (actually_store require_alignment : bool) : M unit :=
  info ← generate_access_info original_addr STORE f;
  let va := transformed_vaddr info in
  let gva := effective_virt info in
  when actually_store (check_data OPERATION_STORE va gva bytes);;
  if negb ((va &! (len -! 1)) =? 0) then
    mis ← is_misaligned_enabled;
    if negb mis then throw (trap_store_address_misaligned gva va 0 0)
    else if require_alignment then throw (trap_store_access_fault gva va 0 0)
    else
      let len_page0 := Z.min len (PGSIZE - va mod PGSIZE) in
      store_slow_path_intrapage len_page0 (take (Z.to_nat len_page0) bytes) info actually_store;;
      when (negb (len_page0 =? len))
        (store_slow_path_intrapage (len - len_page0) (drop (Z.to_nat len_page0) bytes)
           (split_misaligned_access info len_page0) actually_store)
  else store_slow_path_intrapage len bytes info actually_store.

Definition store (n : Z) (addr val : Z) (f : xlate_flags_t) : M unit :=
  let aligned := (addr &! (n -! 1)) =? 0 in
  let bytes := to_target (Z.to_nat n) val in
  hit ← get_mmu (fun m => tlb_hit (tlb_store_tag m) addr);
  if negb (is_special_access f) && aligned && hit then
    e ← get_mmu (fun m => entry_of m addr);
    write_mem (host_offset e +! addr) bytes;;
    simulate (target_offset e +! addr) true
  else store_slow_path addr n bytes f true false.

Definition guest_store (n addr val : Z) : M unit := store n addr val (XlateFlags true false false false).
Definition ss_store (n addr val : Z) : M unit := ss_aligned n addr;; store n addr val ss_flags.

(** ** Atomics, cache-block operations, reservations *)

(** The [catch] clauses; any other exception passes. *)
Definition load_trap_to_store_trap (t : trap) : trap :=
  match t with
  | mem_trap which gva tval tval2 tinst =>
    if which =? CAUSE_MISALIGNED_LOAD then trap_store_address_misaligned gva tval tval2 tinst
    else if which =? CAUSE_LOAD_PAGE_FAULT then trap_store_page_fault gva tval tval2 tinst
    else if which =? CAUSE_LOAD_ACCESS then trap_store_access_fault gva tval tval2 tinst
    else if which =? CAUSE_LOAD_GUEST_PAGE_FAULT then trap_store_guest_page_fault tval tval2 tinst
    else t
  | _ => t
  end.
Definition convert_load_traps_to_store_traps {A} (body : M A) : M A := fun s =>
  match body s with
  | (inl t, s) => (inl (load_trap_to_store_trap t), s)
  | r => r
  end.

(** The operation reads its operand in the [catch] too. *)
Definition amo (n addr : Z) (f : Z -> M Z) : M Z :=
  convert_load_traps_to_store_traps (
    store_slow_path addr n [] no_flags false true;;
    lhs ← load n addr no_flags;
    v ← f lhs;
    store n addr v no_flags;;
    mret lhs).
Definition ssamoswap (n addr value : Z) : M Z :=
  store_slow_path addr n [] ss_flags false true;;
  data ← load n addr ss_flags;
  store n addr value ss_flags;;
  mret data.
Definition amo_compare_and_swap (n addr comp swap : Z) : M Z :=
  convert_load_traps_to_store_traps (
    store_slow_path addr n [] no_flags false true;;
    lhs ← load n addr no_flags;
    when (lhs =? comp) (store n addr swap no_flags);;
    mret lhs).

(** [store_float128] and [load_float128]; a [float128_t] is its two words. *)
Definition float128_aligned (addr : Z) (t : bool -> Z -> Z -> Z -> trap) : M unit := fun s =>
  if negb ((addr &! 15) =? 0) && negb (misaligned (world s)) then throw (t (virt s) addr 0 0) s
  else (inr tt, s).
Definition store_float128 (addr : Z) (val : Z * Z) : M unit :=
  float128_aligned addr trap_store_address_misaligned;;
  store 8 addr (fst val) no_flags;;
  store 8 (addr +! 8) (snd val) no_flags.
Definition load_float128 (addr : Z) : M (Z * Z) :=
  float128_aligned addr trap_load_address_misaligned;;
  v0 ← load 8 addr no_flags;
  v1 ← load 8 (addr +! 8) no_flags;
  mret (v0, v1).

(** [cbo_zero]: [n] bytes of the block are left. *)
Fixpoint zero_block (n : nat) (base offset va : Z) : M unit :=
  match n with
  | O => mret tt
  | S n =>
    check_triggers OPERATION_STORE (base +! offset) false va None;;
    store 1 (base +! offset) 0 no_flags;;
    zero_block n base (offset + 1) va
  end.
Definition block_base (va : Z) (s : state (mmu_t X)) : Z := va &! ~! (blocksz (world s) -! 1).
Definition cbo_zero (addr : Z) : M unit :=
  info ← generate_access_info addr STORE no_flags;
  let va := transformed_vaddr info in
  base ← gets (block_base va);
  size ← get_mmu blocksz;
  zero_block (Z.to_nat size) base 0 va.

Fixpoint check_block (n : nat) (base offset va : Z) : M unit :=
  match n with
  | O => mret tt
  | S n =>
    check_triggers OPERATION_STORE (base +! offset) false va None;;
    check_block n base (offset + 1) va
  end.
Definition clean_inval (addr : Z) (clean inval : bool) : M unit :=
  info ← generate_access_info addr LOAD no_flags;
  let va := transformed_vaddr info in
  base ← gets (block_base va);
  size ← get_mmu blocksz;
  check_block (Z.to_nat size) base 0 va;;
  convert_load_traps_to_store_traps (
    info ← generate_access_info va LOAD no_flags;
    paddr ← translate info 1;
    r ← reservable paddr;
    if (r : bool) then
      traced ← interested paddr (paddr +! PGSIZE) LOAD;
      when traced (modify_mmu (fun m => with_ext (clean_invalidate (ext m) paddr (blocksz m) clean inval) m))
    else v ← gets virt; throw (trap_store_access_fault v va 0 0)).

Definition yield_load_reservation : M unit := modify_mmu (with_reservation (2 ^ 64 - 1)).

Definition check_load_reservation (va size : Z) : M bool :=
  when (negb ((va &! (size -! 1)) =? 0)) (store_slow_path va size [] no_flags false true);;
  info ← generate_access_info va STORE no_flags;
  paddr ← translate info 1;
  r ← reservable paddr;
  if (r : bool) then get_mmu (fun m => load_reservation_address m =? paddr)
  else v ← gets virt; throw (trap_store_access_fault v va 0 0).

Definition store_conditional (n addr val : Z) : M bool :=
  have_reservation ← check_load_reservation addr n;
  when have_reservation (store n addr val no_flags);;
  yield_load_reservation;;
  mret have_reservation.

(** ** Fetches *)

(** The [tlb_entry_t] of a fetch: a host address in memory, or the one of
    [fetch_temp], which holds the bytes given. *)
Inductive fetch_entry := through (e : tlb_entry_t) | fetch_temp (parcel : list Z) (target_offset : Z).
Definition fetch_target_offset (e : fetch_entry) : Z :=
  match e with through e => target_offset e | fetch_temp _ o => o end.

Definition fetched (va : Z) (e : fetch_entry) : M Z :=
  match e with
  | through e => bytes ← read_mem (host_offset e +! va) 2; mret (from_target bytes)
  | fetch_temp bytes _ => mret (from_target bytes)
  end.

Definition mmio_fetch (paddr len : Z) : M (option (list Z)) :=
  ok ← mmio_ok paddr;
  if negb ok then mret None else ext_op (fun x => sim_mmio_load x paddr len).

Definition fetch_slow_path (va : Z) : M fetch_entry :=
  info ← generate_access_info va FETCH no_flags;
  let gva := effective_virt info in
  check_triggers OPERATION_EXECUTE va gva va None;;
  checked ← get_mmu (fun m => tag_at (tlb_insn_tag m) (tlb_index va) =? ((va >>! PGSHIFT) |! TLB_CHECK_TRIGGERS));
  result ← (if (checked : bool) then e ← get_mmu (fun m => entry_of m va); mret (through e)
            else
              paddr ← translate info 2;
              mem ← get_mmu (fun m => in_mem (ext m) paddr);
              if (mem : bool) then e ← refill_tlb va paddr paddr FETCH; mret (through e)
              else
                r ← mmio_fetch paddr 2;
                match r with
                | Some bytes => mret (fetch_temp bytes (paddr -! va))
                | None => v ← gets virt; throw (trap_instruction_access_fault v va 0 0)
                end);
  parcel ← fetched va result;
  check_triggers OPERATION_EXECUTE va gva va (Some parcel);;
  mret result.

Definition translate_insn_addr (va : Z) : M fetch_entry :=
  hit ← get_mmu (fun m => tlb_hit (tlb_insn_tag m) va);
  if (hit : bool) then e ← get_mmu (fun m => entry_of m va); mret (through e)
  else fetch_slow_path va.

Definition fetch_parcel (va : Z) : M Z := e ← translate_insn_addr va; fetched va e.

(** [fetch_jump_table] of an entry of [n] bytes.  Outside memory the code reads
    [n] bytes at the two-byte [fetch_temp], which C++ leaves undefined; the model
    stops there. *)
Definition fetch_jump_table (n va : Z) : M Z :=
  e ← translate_insn_addr va;
  match e with
  | through e => bytes ← read_mem (host_offset e +! va) n; mret (from_target bytes)
  | fetch_temp _ _ => abort
  end.

(** The instruction bits [refill_icache] reads; a tracer interested in the first
    byte is told of the fetch. *)
Definition refill_icache (addr : Z) : M Z :=
  matched ← get_mmu matched_trigger;
  match matched with
  | Some t => throw t
  | None =>
    e ← translate_insn_addr addr;
    p0 ← fetched addr e;
    let length := insn_length p0 in
    insn ← (if length =? 4 then
              p1 ← fetch_parcel (addr +! 2); mret (p0 |! (p1 <<! 16))
            else if length =? 2 then mret p0
            else if length =? 6 then
              p1 ← fetch_parcel (addr +! 2);
              p2 ← fetch_parcel (addr +! 4);
              mret (p0 |! (p1 <<! 16) |! (p2 <<! 32))
            else
              p1 ← fetch_parcel (addr +! 2);
              p2 ← fetch_parcel (addr +! 4);
              p3 ← fetch_parcel (addr +! 6);
              mret (p0 |! (p1 <<! 16) |! (p2 <<! 32) |! (p3 <<! 48)));
    let paddr := fetch_target_offset e +! addr in
    traced ← interested paddr (paddr +! 1) FETCH;
    when traced (trace_access paddr length FETCH);;
    mret insn
  end.

End mmu.
