(* ===== verification/MmuTlb.v ===== *)
(** * The TLB is transparent

    A relational program logic over the bodies of [Mmu.v]: two runs are related
    when they give the same result or exception and states that differ in the
    TLB at most.  The invariant [tlb_ok] says what a cached page promises; it is
    preserved by every access, and makes the fast paths, which skip translation,
    protection, triggers and tracing, give what the slow paths give.

    The theorems are about execution with translation off (machine mode, or a
    bare [satp]); a page table may be edited without a fence, which the cached
    pages of a translated mode then do not show. *)

From Stdlib Require Import ZifyBool.
From S2P Require Import Prelude Arith Decode Hart Pmp Mmu.
Local Open Scope cint_scope.

(** ** What the TLB asks of the platform

    The map of the address space, the tracers' interest and the armed triggers
    do not change under accesses; memory comes in pages. *)
Class platform_laws (X : Type) `{platform X} := {
  armed : X -> operation_t -> bool;
  traced : X -> access_type -> bool;
  in_mem_page : forall x a b, a / PGSIZE = b / PGSIZE -> in_mem x a = in_mem x b;
  interested_law : forall x a b ty, interested_in_range x a b ty = traced x ty;
  quiet_law : forall x op a d, armed x op = false -> detect_memory_access_match x op a d = (None, x);
  host_read_length : forall x a n, length (host_read x a n) = Z.to_nat n;
  same_map := fun x x' => (forall a, in_mem x' a = in_mem x a) /\ (forall ty, traced x' ty = traced x ty) /\
                          (forall op, armed x' op = armed x op);
  same_host_write : forall x a b, same_map x (host_write x a b);
  same_mmio_load : forall x a n, same_map x (snd (sim_mmio_load x a n));
  same_mmio_store : forall x a b, same_map x (snd (sim_mmio_store x a b));
  same_trace : forall x a n ty, same_map x (trace x a n ty);
  same_clean : forall x a n c i, same_map x (clean_invalidate x a n c i);
  same_simulate : forall x a w, same_map x (simulate_cache_access x a w);
  same_detect : forall x op a d, same_map x (snd (detect_memory_access_match x op a d))
}.

Create HintDb tlb.

(** ** Pages *)

Definition page (a : Z) : Z := a - a mod PGSIZE.
Definition in_page (a l : Z) : Prop := 0 < l /\ a mod PGSIZE + l <= PGSIZE.

Lemma page_range a : 0 <= a < 2 ^ 64 -> 0 <= page a /\ page a + PGSIZE <= 2 ^ 64 /\ page a <= a.
Proof. unfold page, PGSIZE. intros. Z.to_euclidean_division_equations; lia. Qed.

Lemma land_page a : 0 <= a < 2 ^ 64 -> a &! ~! (PGSIZE - 1) = page a.
Proof.
  intros Ha. unfold page, PGSIZE. change (4096 - 1) with (Z.ones 12).
  change 4096 with (2 ^ 12).
  replace (a - a mod 2 ^ 12) with (Z.shiftl (Z.shiftr a 12) 12)
    by (rewrite Z.shiftl_mul_pow2, Z.shiftr_div_pow2 by lia; Z.to_euclidean_division_equations; lia).
  apply Z.bits_inj'. intros i Hi. rewrite Z.land_spec, wrap_testbit, Z.lnot_spec, Z.shiftl_spec by lia.
  destruct (Z.ltb_spec i 12).
  - rewrite Z.ones_spec_low, (Z.testbit_neg_r _ (i - 12)) by lia. by rewrite !andb_false_r.
  - rewrite Z.ones_spec_high, Z.shiftr_spec by lia. replace (i - 12 + 12) with i by lia.
    destruct (Z.ltb_spec i 64); [by rewrite andb_true_r|].
    rewrite (testbit_high 64 a) by lia. done.
Qed.

Lemma land_offset a : 0 <= a -> a &! (PGSIZE - 1) = a mod PGSIZE.
Proof. intros. unfold PGSIZE. change (4096 - 1) with (Z.ones 12). by rewrite Z.land_ones by lia. Qed.

(** The two halves [translate] joins are the address. *)
Lemma join_page a : 0 <= a < 2 ^ 64 -> page a |! (a &! (PGSIZE - 1)) = a.
Proof.
  intros Ha. rewrite <- (land_page a Ha), <- Z.land_lor_distr_r.
  apply Z.bits_inj'. intros i Hi. rewrite Z.land_spec, Z.lor_spec, wrap_testbit, Z.lnot_spec by lia.
  destruct (Z.ltb_spec i 64); [|rewrite (testbit_high 64 a) by lia; done].
  destruct (Z.testbit (PGSIZE - 1) i); by rewrite ?andb_true_r, ?orb_true_r, ?andb_true_r.
Qed.

(** ** Tags *)

Definition vpn (va : Z) : Z := va >>! PGSHIFT.
Lemma vpn_range va : 0 <= va < 2 ^ 64 -> 0 <= vpn va < 2 ^ 52.
Proof.
  intros Hv. unfold vpn, PGSHIFT. rewrite Z.shiftr_div_pow2 by lia.
  split; [apply Z.div_pos; lia|apply Z.div_lt_upper_bound; lia].
Qed.

Lemma without_check_small v : 0 <= v < 2 ^ 63 -> without_check v = v.
Proof.
  intros Hv. unfold without_check, TLB_CHECK_TRIGGERS. apply Z.bits_inj'. intros i Hi.
  rewrite Z.land_spec, wrap_testbit, Z.lnot_spec, Z.pow2_bits_eqb by lia.
  destruct (Z.ltb_spec i 63).
  - replace (63 =? i) with false by lia. replace (i <? 64) with true by lia. by rewrite andb_true_r.
  - by rewrite (testbit_high 63 v) by lia.
Qed.
Lemma without_check_flag v : 0 <= v < 2 ^ 63 -> without_check (v |! TLB_CHECK_TRIGGERS) = v.
Proof.
  intros Hv. rewrite <- (without_check_small v Hv) at 2. unfold without_check.
  rewrite Z.land_lor_distr_l. change (TLB_CHECK_TRIGGERS &! ~! TLB_CHECK_TRIGGERS) with 0.
  by rewrite Z.lor_0_r.
Qed.
Lemma flag_not_vpn v va : 0 <= v -> 0 <= va < 2 ^ 64 -> v |! TLB_CHECK_TRIGGERS <> vpn va.
Proof.
  intros Hv Hva E. apply (f_equal (fun z => Z.testbit z 63)) in E.
  rewrite Z.lor_spec, (testbit_high 52 (vpn va)) in E by (apply vpn_range || lia; done).
  change (Z.testbit TLB_CHECK_TRIGGERS 63) with true in E. by rewrite orb_true_r in E.
Qed.

Lemma tlb_index_range va : 0 <= tlb_index va < TLB_ENTRIES.
Proof. unfold tlb_index, TLB_ENTRIES. apply Z.mod_pos_bound. lia. Qed.

Lemma tag_at_set l i j v : length l = Z.to_nat TLB_ENTRIES -> 0 <= i < TLB_ENTRIES -> 0 <= j < TLB_ENTRIES ->
  tag_at (set_tag l i v) j = if i =? j then v else tag_at l j.
Proof.
  intros Hl Hi Hj. unfold tag_at, set_tag. rewrite !nth_lookup.
  destruct (Z.eqb_spec i j) as [->|].
  - by rewrite list_lookup_insert_eq by lia.
  - by rewrite list_lookup_insert_ne by lia.
Qed.
Lemma set_tag_length l i v : length (set_tag l i v) = length l.
Proof. apply length_insert. Qed.
Lemma keep_tag_length l i e : length (keep_tag l i e) = length l.
Proof. unfold keep_tag. case_match; [done|apply set_tag_length]. Qed.

(** A tag that still matches after [keep_tag] is an old one of the same page. *)
Lemma keep_tag_hit l i j v e : length l = Z.to_nat TLB_ENTRIES -> 0 <= i < TLB_ENTRIES ->
  0 <= j < TLB_ENTRIES -> 0 <= v < 2 ^ 52 -> v = without_check (tag_at (keep_tag l i e) j) ->
  tag_at (keep_tag l i e) j = tag_at l j /\ (i = j -> v = e).
Proof.
  intros Hl Hi Hj Hv. unfold keep_tag. destruct (Z.eqb_spec (without_check (tag_at l i)) e) as [He|He].
  - intros Hh. split; [done|]. intros ->. congruence.
  - rewrite tag_at_set by done. destruct (Z.eqb_spec i j) as [->|Hn].
    + change (without_check (2 ^ 64 - 1)) with (2 ^ 63 - 1). lia.
    + by split.
Qed.

Section tlb.
Context {X : Type} `{platform_laws X} {E : env} (Hx : xlen = 32 \/ xlen = 64).
(** The privilege of the hart, which no access changes. *)
Context (priv : Z).
Local Abbreviation M := (M (mmu_t X)).
Local Abbreviation state := (state (mmu_t X)).

(** The physical address of an access with translation off. *)
Definition pa (va : Z) : Z := wrap xlen va.

Lemma pa_range va : 0 <= pa va < 2 ^ 64.
Proof using Hx. unfold pa. assert (Hp : 0 <= xlen) by (destruct Hx; lia). pose proof (wrap_range xlen Hp va). destruct Hx as [Hw|Hw]; rewrite Hw in *; lia. Qed.

Lemma pa_vpn va va' : va >>! PGSHIFT = va' >>! PGSHIFT ->
  pa va - pa va' = va - va' /\ page (pa va) = page (pa va').
Proof using Hx.
  unfold pa, PGSHIFT, page, PGSIZE, wrap. rewrite !Z.shiftr_div_pow2 by lia. change (2 ^ 12) with 4096.
  destruct Hx as [-> | ->]; change (2 ^ 32) with 4294967296; change (2 ^ 64) with 18446744073709551616;
    intros; Z.to_euclidean_division_equations; lia.
Qed.

Lemma pa_page va : pa va mod PGSIZE = va mod PGSIZE.
Proof using Hx.
  unfold pa, wrap, PGSIZE.
  destruct Hx as [-> | ->]; Z.to_euclidean_division_equations; lia.
Qed.

Lemma pa_idem va : pa (pa va) = pa va.
Proof using. unfold pa, wrap. by rewrite Z.mod_mod_divide by apply Z.divide_refl. Qed.

(** ** States equal but for the TLB *)

Definition erase (s : state) : state := with_world (with_tlb [] [] [] [] (world s)) s.

Definition tags (ty : access_type) (m : mmu_t X) : list Z :=
  match ty with FETCH => tlb_insn_tag m | LOAD => tlb_load_tag m | STORE => tlb_store_tag m end.

Definition check_triggers_of (m : mmu_t X) (ty : access_type) : bool :=
  match ty with FETCH => check_triggers_fetch m | LOAD => check_triggers_load m
           | STORE => check_triggers_store m end.

(** Translation is off and no access is redirected. *)
Record bare (s : state) : Prop := {
  bare_prv : decode_vm_info xlen false (prv s) (satp (csrs (world s))) = Some vm_off;
  bare_physical : (prv s =? PRV_M) || (get_field (satp (csrs (world s))) SATP64_MODE =? 0) = true;
  bare_virt : virt s = false;
  bare_mprv : in_mprv s = false;
  bare_pmlen : get_pmlen false (prv s) no_flags s = Some 0;
  bare_pmp : wf_pmp (pmp (world s))
}.

(** What a page of the TLB promises for an address [va] in it. *)
Record cached (s : state) (ty : access_type) (va : Z) : Prop := {
  cached_entry : entry_of (world s) va = TlbEntry (pa va -! va) (pa va -! va);
  cached_mem : in_mem (ext (world s)) (pa va) = true;
  cached_pmp : forall l, in_page (pa va) l ->
    pmp_ok (pmp (world s)) (mseccfg s) (pa va) l ty (prv s) false = true;
  cached_quiet : tag_at (tags ty (world s)) (tlb_index va) = va >>! PGSHIFT ->
    armed (ext (world s)) (to_operation ty) = false;
  cached_untraced : ty <> FETCH -> traced (ext (world s)) ty = false
}.

Record tlb_ok (s : state) : Prop := {
  ok_bare : bare s;
  ok_prv : prv s = priv;
  ok_data : length (tlb_data (world s)) = Z.to_nat TLB_ENTRIES;
  ok_tags : forall ty, length (tags ty (world s)) = Z.to_nat TLB_ENTRIES;
  ok_checks : forall ty, armed (ext (world s)) (to_operation ty) = true ->
    check_triggers_of (world s) ty = true;
  ok_cached : forall ty va, 0 <= va < 2 ^ 64 -> tlb_hit_slow (tags ty (world s)) va = true -> cached s ty va
}.

Definition same_but_tlb (s s' : state) : Prop := erase s = erase s' /\ tlb_ok s /\ tlb_ok s'.

(** Related bodies: the same outcome, and related states. *)
Definition rel_at {A} (s s' : state) (m m' : M A) : Prop :=
  fst (m s) = fst (m' s') /\ same_but_tlb (snd (m s)) (snd (m' s')).
Definition rel {A} (m m' : M A) : Prop := forall s s', same_but_tlb s s' -> rel_at s s' m m'.

(** ** The rules of the logic *)

Lemma rel_ret {A} (a : A) : rel (mret a) (mret a).
Proof using. intros s s' Hs. by split. Qed.
Lemma rel_throw {A} t : rel (A:=A) (throw t) (throw t).
Proof using. intros s s' Hs. by split. Qed.
Lemma rel_bind {A B} (m m' : M A) (k k' : A -> M B) :
  rel m m' -> (forall a, rel (k a) (k' a)) -> rel (m ≫= k) (m' ≫= k').
Proof using.
  intros Hm Hk s s' Hs. destruct (Hm s s' Hs) as [Hr Hs2]. unfold rel_at, mbind, M_bind.
  destruct (m s) as [r1 s1], (m' s') as [r2 s2]. simpl in *. subst r2.
  destruct r1; [by split|]. by apply Hk.
Qed.
Lemma rel_if {A} (c : bool) (m n m' n' : M A) :
  rel m m' -> rel n n' -> rel (if c then m else n) (if c then m' else n').
Proof using. by destruct c. Qed.
Lemma rel_when c (m m' : M unit) : rel m m' -> rel (when c m) (when c m').
Proof using. intros. apply rel_if; [done|apply rel_ret]. Qed.
Lemma rel_option {A B} (o : option A) (n n' : M B) (k k' : A -> M B) :
  rel n n' -> (forall a, rel (k a) (k' a)) ->
  rel (match o with Some a => k a | None => n end) (match o with Some a => k' a | None => n' end).
Proof using. by destruct o. Qed.
Lemma rel_convert {A} (m m' : M A) : rel m m' ->
  rel (convert_load_traps_to_store_traps m) (convert_load_traps_to_store_traps m').
Proof using.
  intros Hm s s' Hs. destruct (Hm s s' Hs) as [Hr Hs2]. unfold rel_at, convert_load_traps_to_store_traps.
  destruct (m s) as [[]?], (m' s') as [[]?]; simpl in *; try discriminate; split; congruence || done.
Qed.

(** A body with a reference that does not look at the TLB is related to itself. *)
Lemma rel_of_ref {A} (m m0 : M A) : rel m m0 -> rel m m.
Proof using.
  intros Hm s s' Hs. destruct (Hm s s' Hs) as [Hr [He [? ?]]].
  destruct (Hm s' s') as [Hr' [He' [? ?]]]; [by destruct Hs as (?&?&?); split_and!|].
  split; [congruence|]. split_and!; congruence || done.
Qed.

(** A body that only reads, and not the TLB. *)
Lemma rel_read {A} (m : M A) (r : state -> trap + A) :
  (forall s, m s = (r s, s)) -> (forall s, r (erase s) = r s) -> rel m m.
Proof using.
  intros Hm Hr s s' Hs. unfold rel_at. rewrite !Hm. split; [|done]. simpl.
  destruct Hs as [He _]. rewrite <- (Hr s), <- (Hr s'). by f_equal.
Qed.
Lemma rel_gets {A} (f : state -> A) : (forall s, f (erase s) = f s) -> rel (gets f) (gets f).
Proof using. intros Hf. apply (rel_read _ (fun s => inr (f s))); [done|]. intros. by rewrite Hf. Qed.

(** ** Updates outside the TLB *)

(** An update of the MMU that leaves alone what the invariant speaks of. *)
Record benign (f : mmu_t X -> mmu_t X) : Prop := {
  benign_erase : forall m, with_tlb [] [] [] [] (f m) = f (with_tlb [] [] [] [] m);
  benign_tlb : forall m, tlb_data (f m) = tlb_data m /\ (forall ty, tags ty (f m) = tags ty m);
  benign_csrs : forall m, csrs (f m) = csrs m /\ pmp (f m) = pmp m;
  benign_checks : forall m, check_triggers_fetch (f m) = check_triggers_fetch m /\
    check_triggers_load (f m) = check_triggers_load m /\ check_triggers_store (f m) = check_triggers_store m;
  benign_map : forall m, same_map (ext m) (ext (f m))
}.

Lemma same_map_refl x : same_map x x.
Proof using. split_and!; done. Qed.
Lemma same_map_trans x y z : same_map x y -> same_map y z -> same_map x z.
Proof using. intros (A1&A2&A3) (B1&B2&B3). split_and!; intros; rewrite ?B1, ?B2, ?B3; auto. Qed.

Lemma benign_with_ext (g : X -> X) : (forall x, same_map x (g x)) ->
  benign (fun m => with_ext (g (ext m)) m).
Proof using. intros Hg. constructor; intros m; simpl; auto; split_and!; try done; by intros []. Qed.
Lemma benign_reservation a : benign (with_reservation a).
Proof using. constructor; intros m; simpl; auto using same_map_refl; split_and!; try done; by intros []. Qed.
Lemma benign_matched t : benign (with_matched t).
Proof using. constructor; intros m; simpl; auto using same_map_refl; split_and!; try done; by intros []. Qed.

Lemma bare_world (s : state) w : csrs w = csrs (world s) -> pmp w = pmp (world s) -> bare s ->
  bare (with_world w s).
Proof using.
  intros Ec Ep [B1 B2 B3 B4 B5 B6]. constructor; simpl; rewrite ?Ec, ?Ep; try done.
  - rewrite <- B4. unfold in_mprv. simpl. by rewrite Ec.
  - rewrite <- B5. unfold get_pmlen. simpl. by rewrite Ec.
Qed.

Lemma benign_ok f (s : state) : benign f -> tlb_ok s -> tlb_ok (with_world (f (world s)) s).
Proof using.
  intros [_ Ht Hc Hk Hm] [K1 Kp K2 K3 K4 K5].
  destruct (Ht (world s)) as [Ed Et], (Hc (world s)) as [Ec Ep], (Hk (world s)) as (E1 & E2 & E3).
  destruct (Hm (world s)) as (M1 & M2 & M3).
  constructor; simpl.
  - by apply bare_world.
  - done.
  - by rewrite Ed.
  - intros. by rewrite Et.
  - intros ty. rewrite M3. unfold check_triggers_of. rewrite E1, E2, E3. apply K4.
  - intros ty va Hva. rewrite Et. intros Hh. destruct (K5 ty va Hva Hh) as [C1 C2 C3 C4 C5].
    constructor; simpl; rewrite ?Et, ?Ep, ?M1, ?M2, ?M3; try done.
    rewrite <- C1. unfold entry_of. by rewrite Ed.
Qed.

Lemma benign_same f s s' : benign f -> same_but_tlb s s' ->
  same_but_tlb (with_world (f (world s)) s) (with_world (f (world s')) s').
Proof using.
  intros Hf (He & Hs & Hs'). split_and!; [|by apply benign_ok..].
  pose proof (f_equal world He) as Hw. cbn in Hw. unfold erase in *. cbn [world with_world].
  rewrite !(benign_erase f Hf), Hw. apply (f_equal (with_world (f (with_tlb [] [] [] [] (world s')))) He).
Qed.

Lemma rel_modify f : benign f -> rel (modify_mmu f) (modify_mmu f).
Proof using. intros Hf s s' Hs. split; [done|]. by apply benign_same. Qed.
Lemma rel_ext (g : X -> X) : (forall x, same_map x (g x)) ->
  rel (modify_mmu (fun m => with_ext (g (ext m)) m)) (modify_mmu (fun m => with_ext (g (ext m)) m)).
Proof using. intros. by apply rel_modify, benign_with_ext. Qed.

Lemma same_world s s' : same_but_tlb s s' ->
  ext (world s) = ext (world s') /\ csrs (world s) = csrs (world s') /\ pmp (world s) = pmp (world s') /\
  prv s = prv s' /\ mseccfg s = mseccfg s' /\ matched_trigger (world s) = matched_trigger (world s').
Proof using.
  intros [He _]. pose proof (f_equal world He) as Hw. cbn in Hw.
  split_and!; first [exact (f_equal ext Hw)|exact (f_equal csrs Hw)|exact (f_equal pmp Hw)|
    exact (f_equal prv He)|exact (f_equal mseccfg He)|exact (f_equal matched_trigger Hw)].
Qed.

Lemma rel_ext_op {A} (f : X -> A * X) : (forall x, same_map x (snd (f x))) -> rel (ext_op f) (ext_op f).
Proof using.
  intros Hf s s' Hs. destruct (same_world _ _ Hs) as (Ee & _). split.
  - unfold ext_op. simpl. by rewrite Ee.
  - apply (benign_same (fun m => with_ext (snd (f (ext m))) m)); [by apply (benign_with_ext (fun x => snd (f x)))|done].
Qed.

Lemma rel_get {A} (f : mmu_t X -> A) : (forall m, f (with_tlb [] [] [] [] m) = f m) ->
  rel (get_mmu f) (get_mmu f).
Proof using. intros Hf. apply rel_gets. intros s. apply (Hf (world s)). Qed.

(** ** Bare translation *)

Lemma access_mode_bare s ty : bare s -> access_mode ty no_flags s = (prv s, false).
Proof using.
  intros [_ _ Hv Hm _ _]. unfold access_mode. rewrite Hm, Hv. by destruct ty.
Qed.

(** The flags of the accesses considered; [lr] is the only one that may be set. *)
Definition plain (f : xlate_flags_t) : Prop :=
  forced_virt f = false /\ hlvx f = false /\ ss_access f = false.
Lemma plain_no_flags : plain no_flags.
Proof using. done. Qed.

Definition info_ok (i : mem_access_info_t) : Prop :=
  pa (vaddr i) = pa (transformed_vaddr i) /\ 0 <= vaddr i < 2 ^ 64 /\ 0 <= transformed_vaddr i < 2 ^ 64 /\
  effective_priv i = priv /\ effective_virt i = false /\ plain (flags i).

Lemma translate_bare s i len : bare s -> prv s = priv -> info_ok i ->
  translate i len s =
  (if pmp_ok (pmp (world s)) (mseccfg s) (pa (vaddr i)) len (type i) priv false
   then inr (pa (vaddr i)) else fst (throw_access_exception (A:=Z) false (transformed_vaddr i) (type i) s), s).
Proof using Hx.
  intros [Hp _ Hv _ _ _] Hpr (Ha & Hr & Ht & Em & Ev & Ef & Eh & Es). rewrite Hpr in Hp.
  assert (Ew : walk i s = (inr (page (pa (vaddr i))), s)).
  { unfold walk, get_mmu, gets, mbind, M_bind. rewrite Em, Ev, Eh, Es. cbn [satp_readvirt]. rewrite Hp.
    cbn -[wrap page]. unfold mret, M_ret. rewrite Ha. change ((1 <<! PGSHIFT) -! 1) with (PGSIZE - 1).
    replace (transformed_vaddr i &! ((2 <<! (xlen - 1)) -! 1)) with (pa (transformed_vaddr i)).
    { do 2 f_equal. by apply land_page, pa_range. }
    unfold pa. destruct Hx as [Hw|Hw]; rewrite Hw.
    - change ((2 <<! (32 - 1)) -! 1) with (Z.ones 32). by rewrite Z.land_ones by lia.
    - change ((2 <<! (64 - 1)) -! 1) with (Z.ones 64). by rewrite Z.land_ones by lia. }
  unfold translate, mbind, M_bind. rewrite Ew.
  replace (page (pa (vaddr i)) |! (transformed_vaddr i &! (PGSIZE - 1))) with (pa (vaddr i)).
  - cbn -[wrap page pmp_ok]. rewrite Em, Ev, Eh, Es. by destruct (pmp_ok _ _ _ _ _ _ _).
  - rewrite <- (join_page (pa (vaddr i))) at 1 by apply pa_range. f_equal.
    rewrite !land_offset by (apply pa_range || lia). rewrite Ha. apply pa_page.
Qed.

(** ** Refilling the TLB *)

Lemma homogeneous_total P a : 0 <= a < 2 ^ 64 -> exists b, pmp_homogeneous P (page a) PGSIZE = Some b.
Proof using.
  intros Ha. unfold pmp_homogeneous. rewrite <- (land_page a Ha).
  assert (Ez : z2b ((a &! ~! (PGSIZE - 1) |! PGSIZE) &! (PGSIZE -! 1)) = false).
  { change (PGSIZE -! 1) with (PGSIZE - 1). rewrite Z.land_lor_distr_l, <- Z.land_assoc.
    change (~! (PGSIZE - 1) &! (PGSIZE - 1)) with 0. by rewrite Z.land_0_r. }
  rewrite Ez. generalize 0 at 1 as i. induction (Z.to_nat (n_pmp P)) as [|n IH]; intros i; [by exists true|].
  cbn [pmp_homogeneous_entries]. unfold subset_match. rewrite Ez.
  destruct (cfg _ &! PMP_A =? 0); [apply IH|]. destruct (negb _); [by exists false|apply IH].
Qed.

(** One allowed access to a homogeneous page allows all of them. *)
Lemma homogeneous_page (s : state) va va' l l' ty : bare s -> vpn va = vpn va' ->
  pmp_homogeneous (pmp (world s)) (page (pa va)) PGSIZE = Some true ->
  in_page (pa va) l -> pmp_ok (pmp (world s)) (mseccfg s) (pa va) l ty (prv s) false = true ->
  in_page (pa va') l' -> pmp_ok (pmp (world s)) (mseccfg s) (pa va') l' ty (prv s) false = true.
Proof using Hx.
  intros [_ _ _ _ _ Hw] Hv Hh [L1 L2] Hp [L1' L2']. destruct (pa_vpn va va' Hv) as [_ Ep].
  rewrite <- Hp. pose proof (page_range _ (pa_range va)) as (P1 & P2 & P3).
  pose proof (page_range _ (pa_range va')) as (P1' & P2' & P3').
  apply (homogeneous_pmp_ok (pmp (world s)) Hw (mseccfg s) 12 (page (pa va))); try done; try lia;
    change (2 ^ 12) with PGSIZE; rewrite ?Ep; unfold page in *; lia.
Qed.

Definition refilled (m : mmu_t X) (va : Z) (ty ty' : access_type) (homogeneous : bool) (tag : Z) : list Z :=
  let l := keep_tag (tags ty' m) (tlb_index va) (vpn va) in
  if homogeneous && bool_decide (ty = ty') then set_tag l (tlb_index va) tag else l.

Lemma refilled_hit m va va' ty ty' h tag : (forall t, length (tags t m) = Z.to_nat TLB_ENTRIES) ->
  0 <= va' < 2 ^ 64 ->
  vpn va' = without_check (tag_at (refilled m va ty ty' h tag) (tlb_index va')) ->
  tag_at (refilled m va ty ty' h tag) (tlb_index va') = tag_at (tags ty' m) (tlb_index va') /\
    (tlb_index va = tlb_index va' -> vpn va' = vpn va) \/
  tlb_index va = tlb_index va' /\ h = true /\ ty = ty' /\
    tag_at (refilled m va ty ty' h tag) (tlb_index va') = tag.
Proof using.
  intros Hl Hv. unfold refilled. pose proof (tlb_index_range va). pose proof (tlb_index_range va').
  pose proof (vpn_range va' Hv).
  destruct (h && bool_decide (ty = ty')) eqn:Ec.
  - apply andb_true_iff in Ec as [-> Et]. apply bool_decide_eq_true in Et.
    rewrite tag_at_set by (rewrite ?keep_tag_length; auto).
    destruct (Z.eqb_spec (tlb_index va) (tlb_index va')) as [Ei|Ei]; [by right|].
    intros Hh. left. by apply keep_tag_hit.
  - intros Hh. left. by apply keep_tag_hit.
Qed.

Lemma refill_ok (s : state) va ty l : tlb_ok s -> 0 <= va < 2 ^ 64 ->
  in_mem (ext (world s)) (pa va) = true ->
  in_page (pa va) l -> pmp_ok (pmp (world s)) (mseccfg s) (pa va) l ty (prv s) false = true ->
  (ty <> FETCH -> traced (ext (world s)) ty = false) ->
  let e := TlbEntry (pa va -! va) (pa va -! va) in
  exists w, refill_tlb va (pa va) (pa va) ty s = (inr e, with_world w s) /\
    with_tlb [] [] [] [] w = with_tlb [] [] [] [] (world s) /\ tlb_ok (with_world w s).
Proof using Hx.
  intros [K1 Kp K2 K3 K4 K5] Hva Hm Hl Hp Ht e. unfold refill_tlb.
  rewrite (bare_mprv _ K1), (land_page _ (pa_range va)).
  destruct (homogeneous_total (pmp (world s)) (pa va) (pa_range va)) as [h Hh]. rewrite Hh.
  set (tag := if check_triggers_of (world s) ty then vpn va |! TLB_CHECK_TRIGGERS else vpn va).
  eexists. split; [reflexivity|]. split; [done|].
  set (s' := with_world _ s).
  assert (Et : forall ty', tags ty' (world s') = refilled (world s) va ty ty' h tag) by by intros [].
  assert (Ee : forall va', 0 <= va' < 2 ^ 64 -> tlb_index va = tlb_index va' -> vpn va = vpn va' ->
    entry_of (world s') va' = TlbEntry (pa va' -! va') (pa va' -! va')).
  { intros va' _ Hi Hv. unfold entry_of. rewrite <- Hi. cbn. unfold entry_at.
    rewrite nth_lookup, list_lookup_insert_eq by (pose proof (tlb_index_range va); lia).
    destruct (pa_vpn va va' Hv) as [E1 _]. cbn. unfold e. by replace (pa va - va) with (pa va' - va') by lia. }
  constructor.
  - by apply bare_world.
  - done.
  - cbn. by rewrite length_insert.
  - intros ty'. rewrite Et. unfold refilled. cbv zeta. destruct (h && bool_decide (ty = ty')); rewrite ?set_tag_length, keep_tag_length; auto.
  - intros ty'. apply K4.
  - intros ty' va' Hva' Hh'. unfold tlb_hit_slow in Hh'. rewrite Et in Hh'. apply Z.eqb_eq in Hh'.
    destruct (refilled_hit (world s) va va' ty ty' h tag K3 Hva' Hh') as [[Eo Ev]|(Ei & -> & <- & Eo)].
    + (* an old tag *)
      destruct (K5 ty' va' Hva') as [C1 C2 C3 C4 C5].
      { unfold tlb_hit_slow. apply Z.eqb_eq. by rewrite <- Eo. }
      constructor; try done.
      * destruct (Z.eq_dec (tlb_index va) (tlb_index va')) as [Ei|Ei]; [by apply Ee; auto using eq_sym|].
        rewrite <- C1. unfold entry_of, entry_at. cbn. rewrite !nth_lookup, list_lookup_insert_ne; [done|].
        pose proof (tlb_index_range va). pose proof (tlb_index_range va'). lia.
      * rewrite Et, Eo. apply C4.
    + (* the new one *)
      rewrite Eo in Hh'. pose proof (vpn_range va Hva) as Hr.
      assert (Ev : vpn va' = vpn va).
      { unfold vpn at 1. rewrite Hh'. unfold tag. destruct (check_triggers_of _ _);
          [apply without_check_flag|apply without_check_small]; lia. }
      constructor; cbn [world with_world ext with_tlb prv mseccfg pmp]; [by apply Ee| | | |done].
      * destruct (pa_vpn va va' (eq_sym Ev)) as [_ Ep].
        rewrite <- Hm. apply in_mem_page. unfold page in Ep. pose proof (pa_range va). pose proof (pa_range va').
        unfold PGSIZE in *. Z.to_euclidean_division_equations; lia.
      * intros l' Hl'. by apply (homogeneous_page s va va' l l').
      * rewrite Et, Eo. unfold tag. destruct (check_triggers_of (world s) ty) eqn:Ec.
        { intros Hbad. exfalso. apply (flag_not_vpn (vpn va) va'); unfold vpn in *; try done; lia. }
        intros _. apply not_true_is_false. intros Ha. apply K4 in Ha. congruence.
Qed.

(** ** The accesses without a TLB *)

(** The body of [load_slow_path_intrapage] after a TLB miss, not refilling. *)
Definition load_phys (len : Z) (i : mem_access_info_t) : M (list Z) :=
  let va := transformed_vaddr i in
  paddr ← translate i len;
  r ← reservable paddr;
  if lr (flags i) && negb r then throw (trap_load_access_fault (effective_virt i) va 0 0) else
  mem ← get_mmu (fun m => in_mem (ext m) paddr);
  bytes ← (if (mem : bool) then
             bytes ← read_mem paddr len;
             t ← interested paddr (paddr +! PGSIZE) LOAD;
             when t (trace_access paddr len LOAD);;
             mret bytes
           else
             r ← mmio_load paddr len;
             match r with
             | Some bytes => mret bytes
             | None => throw (trap_load_access_fault (effective_virt i) va 0 0)
             end);
  simulate paddr false;;
  when (lr (flags i)) (modify_mmu (with_reservation paddr));;
  mret bytes.

Definition store_phys (len : Z) (bytes : list Z) (i : mem_access_info_t) (actually_store : bool) : M unit :=
  let va := transformed_vaddr i in
  paddr ← translate i len;
  when actually_store (
    mem ← get_mmu (fun m => in_mem (ext m) paddr);
    (if (mem : bool) then
       write_mem paddr bytes;;
       t ← interested paddr (paddr +! PGSIZE) STORE;
       when t (trace_access paddr len STORE)
     else
       r ← mmio_store paddr bytes;
       if (r : bool) then mret tt
       else throw (trap_store_access_fault (effective_virt i) va 0 0));;
    simulate paddr true).

Lemma is_special_plain f : plain f -> is_special_access f = lr f.
Proof using. intros (E1 & E2 & E3). unfold is_special_access. rewrite E1, E2, E3. by destruct (lr f). Qed.

(** *** What every body below is made of *)

Lemma rel_throw_access {A} v a ty : rel (A:=A) (throw_access_exception v a ty) (throw_access_exception v a ty).
Proof using. unfold throw_access_exception. by case_match; apply rel_throw. Qed.
Lemma rel_simulate a w : rel (simulate a w) (simulate a w).
Proof using. apply (rel_ext (fun x => simulate_cache_access x a w)). intros. apply same_simulate. Qed.
Lemma rel_write_mem a b : rel (write_mem a b) (write_mem a b).
Proof using. apply (rel_ext (fun x => host_write x a b)). intros. apply same_host_write. Qed.
Lemma rel_trace_access a n ty : rel (trace_access a n ty) (trace_access a n ty).
Proof using. apply (rel_ext (fun x => trace x a n ty)). intros. apply same_trace. Qed.
Lemma rel_mmio_ok a : rel (mmio_ok a) (mmio_ok a).
Proof using. by apply rel_gets. Qed.
Lemma rel_mmio_load a n : rel (mmio_load a n) (mmio_load a n).
Proof using.
  assert (Hl : forall n a, rel (mmio_load_bytes n a) (mmio_load_bytes n a)).
  { clear. intros n. induction n as [|n IH]; intros a; [apply rel_ret|]. cbn [mmio_load_bytes].
    apply rel_bind; [apply rel_mmio_ok|]. intros ok. apply rel_if; [apply rel_ret|].
    apply rel_bind; [apply rel_ext_op; intros; apply same_mmio_load|]. intros [b|]; [|apply rel_ret].
    apply rel_bind; [apply IH|]. intros. apply rel_ret. }
  unfold mmio_load. apply rel_if; [|apply Hl]. apply rel_bind; [apply rel_mmio_ok|]. intros ok.
  apply rel_if; [apply rel_ret|]. apply rel_ext_op. intros. apply same_mmio_load.
Qed.
Lemma rel_mmio_store a b : rel (mmio_store a b) (mmio_store a b).
Proof using.
  assert (Hl : forall b a, rel (mmio_store_bytes b a) (mmio_store_bytes b a)).
  { clear. intros n. induction n as [|n l IH]; intros a; [apply rel_ret|]. cbn [mmio_store_bytes].
    apply rel_bind; [apply rel_mmio_ok|]. intros ok. apply rel_if; [apply rel_ret|].
    apply rel_bind; [apply rel_ext_op; intros; apply same_mmio_store|]. intros r.
    apply rel_if; [apply rel_ret|apply IH]. }
  unfold mmio_store. apply rel_if; [|apply Hl]. apply rel_bind; [apply rel_mmio_ok|]. intros ok.
  apply rel_if; [apply rel_ret|]. apply rel_ext_op. intros. apply same_mmio_store.
Qed.
Lemma rel_check_triggers op a v tval d : rel (check_triggers op a v tval d) (check_triggers op a v tval d).
Proof using.
  apply rel_bind; [by apply rel_get|]. intros [t|]; [apply rel_ret|].
  apply rel_bind; [apply rel_ext_op; intros; apply same_detect|].
  intros [[[] act]|]; [apply rel_throw|apply rel_modify, benign_matched|apply rel_ret].
Qed.
Lemma rel_check_data op a v b : rel (check_data op a v b) (check_data op a v b).
Proof using.
  unfold check_data. generalize (S (length b)) as n. intros n. revert b.
  induction n as [|n IH]; intros b; [apply rel_throw|]. cbn [check_data_triggers]. apply rel_if.
  - case_match; [|apply rel_throw]. apply rel_bind; [apply rel_check_triggers|]. intros. apply IH.
  - case_match; [apply rel_check_triggers|apply rel_throw].
Qed.

#[local] Hint Resolve rel_ret rel_throw rel_when rel_if rel_throw_access rel_simulate rel_write_mem
  rel_trace_access rel_mmio_ok rel_mmio_load rel_mmio_store rel_check_triggers rel_check_data : tlb.

Lemma rel_translate i len : info_ok i -> rel (translate i len) (translate i len).
Proof using Hx.
  intros Hi s s' Hs. destruct (same_world _ _ Hs) as (_ & _ & Ep & _ & Em & _).
  destruct Hs as (He & Hs & Hs'). unfold rel_at.
  rewrite !translate_bare by (done || apply ok_bare || apply ok_prv; done). cbn [fst snd].
  rewrite Ep, Em. split; [|done]. by case_match.
Qed.

Lemma info_bare s a ty f : tlb_ok s -> 0 <= a < 2 ^ 64 -> plain f ->
  generate_access_info a ty f s =
  (inr (AccessInfo a (if is_fetch ty then a else pa a) priv false f ty), s).
Proof using Hx.
  intros [K1 Kp _ _ _ _] Ha (Ef & Eh & Es). unfold generate_access_info.
  pose proof (access_mode_bare s ty K1) as Em. unfold access_mode in *. cbn [forced_virt no_flags] in Em.
  rewrite Ef, Em, Kp. destruct (is_fetch ty); [done|].
  pose proof (bare_pmlen _ K1) as El. unfold get_pmlen in *. cbn [forced_virt hlvx no_flags] in El.
  rewrite Ef, Eh, <- Kp, El. cbn [satp_readvirt]. rewrite (bare_physical _ K1), Kp.
  rewrite Z.sub_0_r, zext_wrap; [done|]. destruct Hx; lia.
Qed.

Lemma rel_info {A} a ty f (k k' : mem_access_info_t -> M A) : 0 <= a < 2 ^ 64 -> plain f ->
  (forall i, info_ok i -> vaddr i = a -> (ty <> FETCH -> transformed_vaddr i = pa a) ->
     (ty = FETCH -> transformed_vaddr i = a) -> flags i = f -> type i = ty -> rel (k i) (k' i)) ->
  rel (generate_access_info a ty f ≫= k) (generate_access_info a ty f ≫= k').
Proof using Hx.
  intros Ha Hf Hk s s' Hs. pose proof Hs as (_ & K & K'). unfold rel_at, mbind, M_bind.
  rewrite !info_bare by done. apply Hk; [|done|by destruct ty|by destruct ty|done|done|done].
  pose proof (pa_range a).
  split_and!; cbn; try done; destruct (is_fetch ty); rewrite ?pa_idem; done || lia.
Qed.

(** *** Loads and stores within a page *)

Lemma bind_get {A B} (f : mmu_t X -> A) (k : A -> M B) s : (get_mmu f ≫= k) s = k (f (world s)) s.
Proof using. done. Qed.
Lemma bind_eq {A B} (m : M A) (k : A -> M B) s a s' : m s = (inr a, s') -> (m ≫= k) s = k a s'.
Proof using. unfold mbind, M_bind. intros Hm. by rewrite Hm. Qed.
Lemma bind_throw {A B} (m : M A) (k : A -> M B) s t s' : m s = (inl t, s') -> (m ≫= k) s = (inl t, s').
Proof using. unfold mbind, M_bind. intros Hm. by rewrite Hm. Qed.
Lemma bind_congr {A B} (m m' : M A) (k : A -> M B) s s' : m s = m' s' -> (m ≫= k) s = (m' ≫= k) s'.
Proof using. unfold mbind, M_bind. intros Hm. by rewrite Hm. Qed.
Lemma bind_assoc {A B C} (m : M A) (k : A -> M B) (k' : B -> M C) s :
  ((m ≫= k) ≫= k') s = (m ≫= (fun a => k a ≫= k')) s.
Proof using. unfold mbind, M_bind. by destruct (m s) as [[]?]. Qed.

Lemma add_back a va : 0 <= a < 2 ^ 64 -> (a -! va) +! va = a.
Proof using. intros Ha. rewrite wrap_add_l by lia. rewrite wrap_small by lia. lia. Qed.

Lemma rel_assoc {A B C} (m : M A) (k : A -> M B) (k' : B -> M C) m' :
  rel ((m ≫= k) ≫= k') m' -> rel (m ≫= (fun a => k a ≫= k')) m'.
Proof using. intros Hr s s' Hs. unfold rel_at. rewrite <- bind_assoc. by apply Hr. Qed.

(** The end of a load, the same with and without a TLB. *)
Definition load_end (i : mem_access_info_t) (bytes : list Z) : M (list Z) :=
  simulate (pa (vaddr i)) false;;
  when (lr (flags i)) (modify_mmu (with_reservation (pa (vaddr i))));;
  mret bytes.
Lemma rel_load_end i b : rel (load_end i b) (load_end i b).
Proof using.
  apply rel_bind; [auto with tlb|]. intros ?. apply rel_bind; [|auto with tlb].
  apply rel_when, rel_modify, benign_reservation.
Qed.

Lemma load_hit len i s : tlb_ok s -> info_ok i -> is_special_access (flags i) = false ->
  tlb_hit_slow (tlb_load_tag (world s)) (transformed_vaddr i) = true ->
  load_slow_path_intrapage len i s =
  load_end i (host_read (ext (world s)) (pa (vaddr i)) len) s.
Proof using Hx.
  intros K (Ha & _ & Ht & _ & _ & Hp) Hs Hh. unfold load_slow_path_intrapage.
  rewrite bind_get, Hs, Hh. cbn [negb andb].
  destruct (ok_cached _ K LOAD _ Ht Hh) as [C1 _ _ _ _]. rewrite bind_get, C1. cbn [host_offset target_offset].
  rewrite !add_back by apply pa_range. rewrite <- Ha. unfold read_mem. rewrite bind_get.
  unfold load_end. rewrite is_special_plain in Hs by done. by rewrite Hs.
Qed.

(** An access that is allowed, in memory and not traced, without a TLB. *)
Lemma load_phys_quiet len i s : tlb_ok s -> info_ok i -> type i = LOAD ->
  pmp_ok (pmp (world s)) (mseccfg s) (pa (vaddr i)) len LOAD priv false = true ->
  in_mem (ext (world s)) (pa (vaddr i)) = true -> traced (ext (world s)) LOAD = false ->
  load_phys len i s = load_end i (host_read (ext (world s)) (pa (vaddr i)) len) s.
Proof using Hx.
  intros K Hi Hty Hp Hm Ht. unfold load_phys.
  rewrite (bind_eq _ _ _ (pa (vaddr i)) s)
    by (rewrite translate_bare, Hty, Hp by (done || apply ok_bare || apply ok_prv; done); done).
  unfold reservable, read_mem, interested. rewrite !bind_get, Hm. cbn [negb]. rewrite andb_false_r.
  rewrite bind_get, Hm, !bind_assoc, bind_get, bind_assoc, bind_get, interested_law, Ht. done.
Qed.

(** Past the translation, the access is known to be allowed. *)
Lemma rel_translated {A} i len (k k' : Z -> M A) s s' : info_ok i -> same_but_tlb s s' ->
  (pmp_ok (pmp (world s)) (mseccfg s) (pa (vaddr i)) len (type i) (prv s) false = true ->
   rel_at s s' (k (pa (vaddr i))) (k' (pa (vaddr i)))) ->
  rel_at s s' (translate i len ≫= k) (translate i len ≫= k').
Proof using Hx.
  intros Hi Hs Hk. pose proof Hs as (_ & K & K').
  destruct (same_world _ _ Hs) as (_ & _ & Ep & Epr & Em & _).
  unfold rel_at, mbind, M_bind.
  rewrite !translate_bare by (done || apply ok_bare || apply ok_prv; done). rewrite <- Ep, <- Em.
  rewrite (ok_prv _ K) in Hk. destruct (pmp_ok _ _ _ _ _ _ _); [by apply Hk|].
  unfold throw_access_exception, throw. destruct (type i); by split.
Qed.

(** A refill is not seen. *)
Lemma rel_refill {A} i len ty (k : tlb_entry_t -> M A) (k' : M A) s s' : info_ok i -> same_but_tlb s s' -> in_page (pa (vaddr i)) len ->
  pmp_ok (pmp (world s)) (mseccfg s) (pa (vaddr i)) len ty (prv s) false = true ->
  in_mem (ext (world s)) (pa (vaddr i)) = true -> (ty <> FETCH -> traced (ext (world s)) ty = false) ->
  (forall e, rel (k e) k') ->
  rel_at s s' (refill_tlb (vaddr i) (pa (vaddr i)) (pa (vaddr i)) ty ≫= k) k'.
Proof using Hx.
  intros Hi Hs Hl Hp Hm Ht Hk. pose proof Hs as (He & K & K').
  destruct (refill_ok s (vaddr i) ty len) as (w & Ew & Hw1 & Hw2); try done; [by apply Hi|].
  unfold rel_at. rewrite (bind_eq _ _ _ _ _ Ew). apply Hk.
  split_and!; try done. rewrite <- He. unfold erase. cbn. by rewrite Hw1.
Qed.

Lemma rel_load_intrapage len i : info_ok i -> type i = LOAD -> in_page (pa (vaddr i)) len ->
  rel (load_slow_path_intrapage len i) (load_phys len i).
Proof using Hx.
  intros Hi Hty Hl s s' Hs. pose proof Hs as (_ & K & K'). pose proof Hi as (Ha & _ & Ht & _ & _ & Hpl).
  destruct (same_world _ _ Hs) as (Ee & _ & Ep & _ & Em & _).
  destruct (negb (is_special_access (flags i)) && tlb_hit_slow (tlb_load_tag (world s)) (transformed_vaddr i))
    eqn:Eh.
  - apply andb_true_iff in Eh as [Esp Eh]. apply negb_true_iff in Esp.
    destruct (ok_cached _ K LOAD _ Ht Eh) as [_ C2 C3 _ C5].
    rewrite <- Ha in C2, C3. rewrite (ok_prv _ K), Ep, Em in C3. rewrite Ee in C2, C5.
    specialize (C5 ltac:(done)).
    unfold rel_at. rewrite load_hit, load_phys_quiet by auto. rewrite Ee. by apply rel_load_end.
  - unfold load_slow_path_intrapage, rel_at. rewrite bind_get, Eh. apply rel_translated; [done..|].
    intros Hp. unfold reservable, rel_at. rewrite !bind_get, <- !Ee.
    destruct (lr (flags i) && _); [by apply rel_throw|]. rewrite !bind_get, <- !Ee.
    destruct (in_mem (ext (world s)) (pa (vaddr i))) eqn:Emem.
    + unfold read_mem, interested.
      rewrite !bind_assoc, !bind_get, !bind_assoc, !bind_get, <- !Ee, !interested_law, !bind_assoc.
      pose proof (rel_load_end i (host_read (ext (world s)) (pa (vaddr i)) len)) as Hend.
      unfold load_end in Hend. destruct (traced (ext (world s)) LOAD) eqn:Etr.
      * apply (rel_bind (trace_access _ _ LOAD) (trace_access _ _ LOAD)); [auto with tlb|intros ?; apply Hend|done].
      * rewrite is_special_plain by done. destruct (lr (flags i)) eqn:Elr; cbn [negb when].
        { apply Hend; done. }
        rewrite !bind_assoc. apply (rel_refill i len LOAD); try done; by rewrite <- Hty.
    + apply (rel_bind (mmio_load (pa (vaddr i)) len ≫= _) (mmio_load (pa (vaddr i)) len ≫= _)); [| |done].
      * apply rel_bind; [auto with tlb|]. intros [b|]; auto with tlb.
      * intros b. apply rel_load_end.
Qed.

(** An update, and the state it reaches. *)
Lemma rel_modify_then {A} f (k k' : M A) s s' : benign f -> same_but_tlb s s' ->
  (forall s1 s1', same_but_tlb s1 s1' -> same_map (ext (world s)) (ext (world s1)) ->
     pmp (world s1) = pmp (world s) -> mseccfg s1 = mseccfg s -> prv s1 = prv s -> rel_at s1 s1' k k') ->
  rel_at s s' (modify_mmu f;; k) (modify_mmu f;; k').
Proof using.
  intros Hf Hs Hk. destruct (rel_modify f Hf s s' Hs) as [_ Hs1].
  apply (Hk _ _ Hs1); try done; apply Hf.
Qed.
Lemma benign_write a b : benign (fun m => with_ext (host_write (ext m) a b) m).
Proof using. apply (benign_with_ext (fun x => host_write x a b)). intros. apply same_host_write. Qed.
Lemma benign_simulate a w : benign (fun m => with_ext (simulate_cache_access (ext m) a w) m).
Proof using. apply (benign_with_ext (fun x => simulate_cache_access x a w)). intros. apply same_simulate. Qed.

Lemma rel_store_intrapage len b i c : info_ok i -> type i = STORE -> lr (flags i) = false ->
  in_page (pa (vaddr i)) len -> rel (store_slow_path_intrapage len b i c) (store_phys len b i c).
Proof using Hx.
  intros Hi Hty Hlr Hl s s' Hs. pose proof Hs as (_ & K & K'). pose proof Hi as (Ha & _ & Ht & _ & _ & Hpl).
  destruct (same_world _ _ Hs) as (Ee & _ & Ep & _ & Em & _).
  assert (Esp : is_special_access (flags i) = false) by by rewrite is_special_plain.
  unfold store_slow_path_intrapage, rel_at. rewrite bind_get, Esp. cbn [negb andb].
  destruct (tlb_hit_slow (tlb_store_tag (world s)) (transformed_vaddr i)) eqn:Eh.
  - destruct (ok_cached _ K STORE _ Ht Eh) as [C1 C2 C3 _ C5].
    rewrite <- Ha in C2, C3. rewrite (ok_prv _ K), Ep, Em in C3.
    specialize (C5 ltac:(done)). unfold store_phys.
    rewrite (bind_eq (translate i len) _ _ (pa (vaddr i)) s')
      by (rewrite translate_bare, Hty, C3 by (done || apply ok_bare || apply ok_prv; done); done).
    destruct c; [|done]. cbn [when]. rewrite bind_get, C1. cbn [host_offset target_offset].
    rewrite !add_back, <- Ha by apply pa_range. rewrite bind_get, <- Ee, C2. unfold interested.
    rewrite !bind_assoc. apply rel_modify_then; [apply benign_write|done|]. intros s1 s1' Hs1 (_ & Htr & _) _ _ _.
    destruct (same_world _ _ Hs1) as (Ee1 & _). unfold rel_at.
    rewrite !bind_assoc, bind_get, interested_law, <- Ee1, Htr, C5. by apply rel_simulate.
  - unfold store_phys. apply rel_translated; [done..|]. intros Hp. destruct c; [|by apply rel_ret].
    cbn [when]. unfold rel_at. rewrite !bind_get, <- !Ee.
    destruct (in_mem (ext (world s)) (pa (vaddr i))) eqn:Emem.
    + rewrite !bind_assoc. apply rel_modify_then; [apply benign_write|done|].
      intros s1 s1' Hs1 (Hm1 & Htr & _) Hp1 Hms1 Hpr1. destruct (same_world _ _ Hs1) as (Ee1 & _).
      unfold rel_at, interested. rewrite !bind_assoc, !bind_get, !interested_law, <- !Ee1.
      destruct (traced (ext (world s1)) STORE) eqn:Etr.
      * apply (rel_bind (trace_access _ _ STORE) (trace_access _ _ STORE)); auto with tlb.
      * cbn [negb when]. rewrite bind_assoc.
        apply (rel_refill i len STORE); try done; [by rewrite Hp1, Hms1, Hpr1, <- Hty|by rewrite Hm1|].
        intros e. apply rel_simulate.
    + apply (rel_bind (mmio_store (pa (vaddr i)) b ≫= _) (mmio_store (pa (vaddr i)) b ≫= _)); [| |done].
      * apply rel_bind; [auto with tlb|]. intros []; auto with tlb.
      * intros ?. auto with tlb.
Qed.

(** *** Accesses of any alignment *)

Definition access_size (n : Z) : Prop := n = 1 \/ n = 2 \/ n = 4 \/ n = 8 \/ n = 16.

Lemma pa_add x o : pa (pa x +! o) = pa (x +! o).
Proof using Hx.
  unfold pa, wrap. destruct Hx as [-> | ->]; Z.to_euclidean_division_equations; lia.
Qed.

Lemma aligned_land a n : access_size n -> 0 <= a < 2 ^ 64 ->
  ((a &! (n -! 1)) =? 0) = (a mod n =? 0).
Proof using.
  intros Hn Ha. assert (Hp : exists k, 0 <= k <= 4 /\ n = 2 ^ k).
  { destruct Hn as [-> |[-> |[-> |[-> | ->]]]]; [exists 0|exists 1|exists 2|exists 3|exists 4]; done. }
  destruct Hp as (k & Hk & ->). assert (1 <= 2 ^ k <= 16).
  { change 16 with (2 ^ 4). split; [apply (Z.pow_le_mono_r 2 0)|apply Z.pow_le_mono_r]; lia. }
  rewrite (wrap_small 64) by lia. rewrite <- (Z.land_ones a k) by lia. by rewrite Z.ones_equiv.
Qed.

Lemma aligned_in_page a n : access_size n -> a mod n = 0 -> in_page a n.
Proof using.
  unfold in_page, PGSIZE. intros [-> |[-> |[-> |[-> | ->]]]] Ha; Z.to_euclidean_division_equations; lia.
Qed.
Lemma pa_aligned a n : access_size n -> (pa a mod n =? 0) = (a mod n =? 0).
Proof using Hx.
  unfold pa, wrap. intros Hn.
  destruct Hx as [Hw|Hw]; rewrite Hw; destruct Hn as [-> |[-> |[-> |[-> | ->]]]];
    Z.to_euclidean_division_equations; lia.
Qed.

Definition piece0 (va len : Z) : Z := Z.min len (PGSIZE - va mod PGSIZE).
Lemma piece0_in_page va len : 0 < len -> in_page va (piece0 va len).
Proof using. unfold in_page, piece0, PGSIZE. Z.to_euclidean_division_equations; lia. Qed.
Lemma piece1_in_page va len : access_size len -> piece0 va len <> len ->
  in_page (va + piece0 va len) (len - piece0 va len).
Proof using.
  unfold in_page, piece0, PGSIZE. intros [-> |[-> |[-> |[-> | ->]]]]; Z.to_euclidean_division_equations; lia.
Qed.
Lemma split_info_ok i o : info_ok i -> info_ok (split_misaligned_access i o).
Proof using Hx.
  intros (Ha & Hr & Ht & Hrest). split_and!; cbn; try apply wrap_range; try lia; try apply Hrest.
  by rewrite <- (pa_add (vaddr i)), Ha, pa_add.
Qed.
Lemma in_page_wrap a l : in_page a l -> in_page (pa (wrap 64 a)) l.
Proof using Hx.
  unfold in_page. rewrite pa_page. unfold wrap, PGSIZE. intros. Z.to_euclidean_division_equations; lia.
Qed.

(** The slow paths over accesses without a TLB. *)
Definition load_slow_phys (original_addr len : Z) (f : xlate_flags_t) : M (list Z) :=
  info ← generate_access_info original_addr LOAD f;
  let va := transformed_vaddr info in
  let gva := effective_virt info in
  check_triggers OPERATION_LOAD va gva va None;;
  bytes ← (if (va &! (len -! 1)) =? 0 then load_phys len info
           else
             mis ← is_misaligned_enabled;
             if negb mis then throw (trap_load_address_misaligned gva va 0 0)
             else if lr f then throw (trap_load_access_fault gva va 0 0)
             else
               b0 ← load_phys (piece0 va len) info;
               if piece0 va len =? len then mret b0 else
               b1 ← load_phys (len - piece0 va len) (split_misaligned_access info (piece0 va len));
               mret (b0 ++ b1));
  check_data OPERATION_LOAD va gva bytes;;
  mret bytes.

Definition store_slow_phys (original_addr len : Z) (bytes : list Z) (f : xlate_flags_t)
    (actually_store require_alignment : bool) : M unit :=
  info ← generate_access_info original_addr STORE f;
  let va := transformed_vaddr info in
  let gva := effective_virt info in
  when actually_store (check_data OPERATION_STORE va gva bytes);;
  if negb ((va &! (len -! 1)) =? 0) then
    mis ← is_misaligned_enabled;
    if negb mis then throw (trap_store_address_misaligned gva va 0 0)
    else if require_alignment then throw (trap_store_access_fault gva va 0 0)
    else
      store_phys (piece0 va len) (take (Z.to_nat (piece0 va len)) bytes) info actually_store;;
      when (negb (piece0 va len =? len))
        (store_phys (len - piece0 va len) (drop (Z.to_nat (piece0 va len)) bytes)
           (split_misaligned_access info (piece0 va len)) actually_store)
  else store_phys len bytes info actually_store.

Lemma rel_load_slow_path a n f : 0 <= a < 2 ^ 64 -> access_size n -> plain f ->
  rel (load_slow_path a n f) (load_slow_phys a n f).
Proof using Hx.
  intros Ha Hn Hf. apply rel_info; [done..|]. intros i Hi Ev Et _ <- Hty. specialize (Et ltac:(done)).
  pose proof (pa_range a) as Hr. assert (Hpos : 0 < n) by (destruct Hn; lia).
  assert (Ep : pa (vaddr i) = pa a) by by rewrite Ev.
  cbv zeta. rewrite Et. apply rel_bind; [auto with tlb|]. intros ?. apply rel_bind.
  - rewrite aligned_land, pa_aligned by done. destruct (Z.eqb_spec (a mod n) 0) as [E0|E0].
    + apply rel_load_intrapage; [done..|]. rewrite Ep. apply aligned_in_page; [done|].
      apply Z.eqb_eq. rewrite pa_aligned by done. lia.
    + apply rel_bind; [by apply rel_get|]. intros []; cbn [negb]; [|auto with tlb].
      destruct (lr (flags i)); [auto with tlb|]. apply rel_bind.
      * apply rel_load_intrapage; [done..|]. rewrite Ep. by apply piece0_in_page.
      * intros b0. fold (piece0 (pa a) n). destruct (Z.eqb_spec (piece0 (pa a) n) n) as [|En]; [auto with tlb|].
        apply rel_bind; [|auto with tlb]. apply rel_load_intrapage; [by apply split_info_ok|done|].
        cbn. rewrite <- pa_add, Ep. apply in_page_wrap. by apply piece1_in_page.
  - intros b. apply rel_bind; auto with tlb.
Qed.

Lemma rel_store_slow_path a n b f c r : 0 <= a < 2 ^ 64 -> access_size n -> plain f -> lr f = false ->
  rel (store_slow_path a n b f c r) (store_slow_phys a n b f c r).
Proof using Hx.
  intros Ha Hn Hf Hlr. apply rel_info; [done..|]. intros i Hi Ev Et _ <- Hty. specialize (Et ltac:(done)).
  pose proof (pa_range a) as Hr. assert (Hpos : 0 < n) by (destruct Hn; lia).
  assert (Ep : pa (vaddr i) = pa a) by by rewrite Ev.
  cbv zeta. rewrite Et. apply rel_bind; [auto with tlb|]. intros ?.
  rewrite aligned_land, pa_aligned by done. destruct (Z.eqb_spec (a mod n) 0) as [E0|E0]; cbn [negb].
  - apply rel_store_intrapage; [done..|]. rewrite Ep. apply aligned_in_page; [done|].
    apply Z.eqb_eq. rewrite pa_aligned by done. lia.
  - apply rel_bind; [by apply rel_get|]. intros []; cbn [negb]; [|auto with tlb].
    destruct r; [auto with tlb|]. apply rel_bind.
    + apply rel_store_intrapage; [done..|]. rewrite Ep. by apply piece0_in_page.
    + intros ?. fold (piece0 (pa a) n). destruct (Z.eqb_spec (piece0 (pa a) n) n) as [|En]; [apply rel_ret|].
      apply rel_store_intrapage; [by apply split_info_ok|done|done|].
      cbn. rewrite <- pa_add, Ep. apply in_page_wrap. by apply piece1_in_page.
Qed.

(** *** The fast paths *)

Lemma check_triggers_quiet op a v t d s : armed (ext (world s)) op = false ->
  check_triggers op a v t d s = (inr tt, s).
Proof using.
  intros Hq. unfold check_triggers. rewrite bind_get. case_match; [done|].
  rewrite (bind_eq _ _ _ None s); [done|].
  unfold ext_op. rewrite quiet_law by done. by destruct s as [? ? ? ? ? ? ? ? ? ? ? ? ? []].
Qed.

Lemma reg_from_bytes_some b : (length b = 1 \/ length b = 2 \/ length b = 4 \/ length b = 8)%nat ->
  exists v, reg_from_bytes b = Some v.
Proof using.
  intros Hl. destruct b as [|b0 [|b1 [|b2 [|b3 [|b4 [|b5 [|b6 [|b7 [|]]]]]]]]]; cbn in *; try lia; by eexists.
Qed.

Lemma check_data_quiet op a v b s n : access_size n -> length b = Z.to_nat n ->
  armed (ext (world s)) op = false -> check_data op a v b s = (inr tt, s).
Proof using Hx.
  intros Hn Hl Hq.
  assert (Hs : forall b fuel, access_size (Z.of_nat (length b)) -> length b <> 16%nat ->
    check_data_triggers (S fuel) op a v b s = (inr tt, s)).
  { clear -Hq. intros b fuel Hb H16. cbn [check_data_triggers].
    replace (8 <? Z.of_nat (length b)) with false by (unfold access_size in Hb; lia).
    destruct (reg_from_bytes_some b) as [w ->]; [unfold access_size in Hb; lia|]. by apply check_triggers_quiet. }
  unfold check_data. destruct (decide (length b = 16%nat)) as [E16|E16].
  - cbn [check_data_triggers].
    replace (8 <? Z.of_nat (length b)) with true by (by rewrite E16).
    destruct (reg_from_bytes_some (take 8 b)) as [w ->]; [rewrite length_take, E16; lia|].
    rewrite (bind_eq _ _ _ tt s) by by apply check_triggers_quiet.
    rewrite E16. apply (Hs _ 15%nat); rewrite length_drop, E16; [do 3 right; by left|done].
  - apply Hs; [|done]. rewrite Hl. destruct Hn as [-> |[-> |[-> |[-> | ->]]]]; by vm_compute; tauto.
Qed.

Lemma tlb_hit_is_slow l a : 0 <= a < 2 ^ 64 -> tlb_hit l a = true -> tlb_hit_slow l a = true.
Proof using.
  unfold tlb_hit, tlb_hit_slow. intros Ha Hh. apply Z.eqb_eq in Hh. rewrite Hh.
  pose proof (vpn_range a Ha). rewrite without_check_small by (unfold vpn in *; lia). apply Z.eqb_refl.
Qed.

Definition load_ref (n a : Z) (f : xlate_flags_t) : M Z := bytes ← load_slow_phys a n f; mret (from_target bytes).
Definition store_ref (n a v : Z) (f : xlate_flags_t) : M unit :=
  store_slow_phys a n (to_target (Z.to_nat n) v) f true false.

(** An allowed aligned load from quiet memory takes no branch of the slow path. *)
Lemma load_slow_quiet n a f s : tlb_ok s -> 0 <= a < 2 ^ 64 -> access_size n -> plain f -> lr f = false ->
  (a mod n =? 0) = true -> armed (ext (world s)) OPERATION_LOAD = false ->
  pmp_ok (pmp (world s)) (mseccfg s) (pa a) n LOAD priv false = true ->
  in_mem (ext (world s)) (pa a) = true -> traced (ext (world s)) LOAD = false ->
  let b := host_read (ext (world s)) (pa a) n in
  load_slow_phys a n f s = (simulate (pa a) false;; check_data OPERATION_LOAD (pa a) false b;; mret b) s.
Proof using Hx.
  intros K Ha Hn Hf Hlr Hal Hq Hp Hm Ht b. unfold load_slow_phys.
  rewrite (bind_eq _ _ _ _ _ (info_bare _ a LOAD f K Ha Hf)). cbv zeta.
  cbn [transformed_vaddr effective_virt is_fetch].
  rewrite (bind_eq _ _ _ tt s) by by apply check_triggers_quiet.
  rewrite aligned_land, pa_aligned, Hal by (done || apply pa_range).
  set (i := AccessInfo _ _ _ _ _ _).
  assert (Hi : info_ok i) by (pose proof (pa_range a); split_and!; cbn; rewrite ?pa_idem; done || lia).
  unfold mbind at 1, M_bind at 1. rewrite (load_phys_quiet n i s K Hi eq_refl Hp Hm Ht).
  unfold load_end. cbn [flags i]. rewrite Hlr. done.
Qed.

Lemma rel_load n a f : 0 <= a < 2 ^ 64 -> access_size n -> plain f -> rel (load n a f) (load_ref n a f).
Proof using Hx.
  intros Ha Hn Hf s s' Hs. pose proof Hs as (_ & K & K').
  destruct (same_world _ _ Hs) as (Ee & _ & Ep & _ & Em & _).
  unfold load, rel_at. rewrite bind_get.
  destruct (negb (is_special_access f) && ((a &! (n -! 1)) =? 0) && tlb_hit (tlb_load_tag (world s)) a) eqn:Eh.
  2:{ apply (rel_bind (load_slow_path a n f) (load_slow_phys a n f)); [by apply rel_load_slow_path| |done].
      intros. apply rel_ret. }
  apply andb_true_iff in Eh as [Eh Et]. apply andb_true_iff in Eh as [Esp Eal].
  apply negb_true_iff in Esp. rewrite is_special_plain in Esp by done.
  pose proof Et as Et'. unfold tlb_hit in Et'. apply Z.eqb_eq in Et'.
  destruct (ok_cached _ K LOAD _ Ha (tlb_hit_is_slow _ _ Ha Et)) as [C1 C2 C3 C4 C5].
  specialize (C4 Et'). specialize (C5 ltac:(done)). rewrite (ok_prv _ K), Ep, Em in C3. rewrite Ee in C2, C4, C5.
  rewrite aligned_land in Eal by done.
  assert (Hin : in_page (pa a) n).
  { apply aligned_in_page; [done|]. apply Z.eqb_eq. by rewrite pa_aligned. }
  rewrite bind_get, C1. cbn [host_offset target_offset]. rewrite !add_back by apply pa_range.
  unfold read_mem. rewrite bind_get, Ee. unfold load_ref.
  rewrite (bind_congr (load_slow_phys a n f) _ _ s' s' (load_slow_quiet n a f s' K' Ha Hn Hf Esp Eal C4
    (C3 n Hin) C2 C5)), !bind_assoc.
  apply rel_modify_then; [apply benign_simulate|done|]. intros s1 s1' Hs1 (_ & _ & Hq) _ _ _.
  destruct (same_world _ _ Hs1) as (Ee1 & _). unfold rel_at.
  rewrite bind_assoc, (bind_eq (check_data _ _ _ _) _ _ tt s1'); [done|].
  apply (check_data_quiet _ _ _ _ _ n); [done|apply host_read_length|].
  rewrite <- Ee1, Hq, Ee. exact C4.
Qed.

(** The same for stores: the triggers come first. *)
Lemma store_slow_quiet n a b f s : tlb_ok s -> 0 <= a < 2 ^ 64 -> access_size n -> plain f -> lr f = false ->
  (a mod n =? 0) = true -> armed (ext (world s)) OPERATION_STORE = false -> length b = Z.to_nat n ->
  pmp_ok (pmp (world s)) (mseccfg s) (pa a) n STORE priv false = true ->
  in_mem (ext (world s)) (pa a) = true -> traced (ext (world s)) STORE = false ->
  store_slow_phys a n b f true false s = (write_mem (pa a) b;; simulate (pa a) true) s.
Proof using Hx.
  intros K Ha Hn Hf Hlr Hal Hq Hl Hp Hm Ht. unfold store_slow_phys.
  rewrite (bind_eq _ _ _ _ _ (info_bare _ a STORE f K Ha Hf)). cbv zeta.
  cbn [transformed_vaddr effective_virt is_fetch when].
  rewrite (bind_eq _ _ _ tt s) by by apply (check_data_quiet _ _ _ _ _ n).
  rewrite aligned_land, pa_aligned, Hal by (done || apply pa_range). cbn [negb].
  set (i := AccessInfo _ _ _ _ _ _).
  assert (Hi : info_ok i) by (pose proof (pa_range a); split_and!; cbn; rewrite ?pa_idem; done || lia).
  unfold store_phys. rewrite (bind_eq (translate i n) _ _ (pa a) s)
    by (rewrite translate_bare by (done || apply ok_bare || apply ok_prv; done); cbn [vaddr type i]; by rewrite Hp).
  cbn [when]. rewrite bind_get, Hm, bind_assoc. unfold interested.
  set (s1 := with_world (with_ext (host_write (ext (world s)) (pa a) b) (world s)) s).
  rewrite !(bind_eq (write_mem (pa a) b) _ s tt s1) by done.
  rewrite bind_assoc, bind_get, interested_law. cbn [s1 world with_world ext with_ext].
  destruct (same_host_write (ext (world s)) (pa a) b) as (_ & Htr & _). by rewrite Htr, Ht.
Qed.

Lemma to_target_length n v : length (to_target n v) = n.
Proof using. revert v. induction n as [|n IH]; intros v; [done|]. cbn. by rewrite IH. Qed.

Lemma rel_store n a v f : 0 <= a < 2 ^ 64 -> access_size n -> plain f -> lr f = false ->
  rel (store n a v f) (store_ref n a v f).
Proof using Hx.
  intros Ha Hn Hf Hlr s s' Hs. pose proof Hs as (_ & K & K').
  destruct (same_world _ _ Hs) as (Ee & _ & Ep & _ & Em & _).
  unfold store, rel_at. rewrite bind_get.
  destruct (negb (is_special_access f) && ((a &! (n -! 1)) =? 0) && tlb_hit (tlb_store_tag (world s)) a) eqn:Eh;
    [|by apply rel_store_slow_path].
  apply andb_true_iff in Eh as [Eh Et]. apply andb_true_iff in Eh as [_ Eal].
  pose proof Et as Et'. unfold tlb_hit in Et'. apply Z.eqb_eq in Et'.
  destruct (ok_cached _ K STORE _ Ha (tlb_hit_is_slow _ _ Ha Et)) as [C1 C2 C3 C4 C5].
  specialize (C4 Et'). specialize (C5 ltac:(done)). rewrite (ok_prv _ K), Ep, Em in C3. rewrite Ee in C2, C4, C5.
  rewrite aligned_land in Eal by done.
  assert (Hin : in_page (pa a) n).
  { apply aligned_in_page; [done|]. apply Z.eqb_eq. by rewrite pa_aligned. }
  rewrite bind_get, C1. cbn [host_offset target_offset]. rewrite !add_back by apply pa_range.
  unfold store_ref. rewrite store_slow_quiet; auto using to_target_length.
  apply (rel_bind (write_mem _ _) (write_mem _ _)); auto with tlb.
Qed.

(** ** Fetches *)

(** The entry of a page, as a refill makes it. *)
Definition entry_for (va : Z) : tlb_entry_t := TlbEntry (pa va -! va) (pa va -! va).

(** What [fetch_slow_path] does between its two checks of the triggers, without a TLB. *)
Definition fetch_phys (i : mem_access_info_t) : M fetch_entry :=
  let va := vaddr i in
  paddr ← translate i 2;
  mem ← get_mmu (fun m => in_mem (ext m) paddr);
  if (mem : bool) then mret (through (entry_for va))
  else
    r ← mmio_fetch paddr 2;
    match r with
    | Some bytes => mret (fetch_temp bytes (paddr -! va))
    | None => v ← gets virt; throw (trap_instruction_access_fault v va 0 0)
    end.

Definition fetch_ref (va : Z) : M fetch_entry :=
  info ← generate_access_info va FETCH no_flags;
  let gva := effective_virt info in
  check_triggers OPERATION_EXECUTE va gva va None;;
  result ← fetch_phys info;
  parcel ← fetched va result;
  check_triggers OPERATION_EXECUTE va gva va (Some parcel);;
  mret result.

Lemma rel_fetched va e : rel (fetched va e) (fetched va e).
Proof using. destruct e; [|apply rel_ret]. apply rel_bind; [by apply rel_get|intros; apply rel_ret]. Qed.
Lemma rel_mmio_fetch a n : rel (mmio_fetch a n) (mmio_fetch a n).
Proof using.
  apply rel_bind; [auto with tlb|]. intros ok. apply rel_if; [auto with tlb|].
  apply rel_ext_op. intros. apply same_mmio_load.
Qed.

Lemma even_in_page va : va mod 2 = 0 -> in_page (pa va) 2.
Proof using Hx.
  intros Hv. apply aligned_in_page; [right; by left|]. apply Z.eqb_eq. rewrite pa_aligned by (right; by left). lia.
Qed.

Lemma fetch_phys_mem i s : tlb_ok s -> info_ok i -> type i = FETCH ->
  pmp_ok (pmp (world s)) (mseccfg s) (pa (vaddr i)) 2 FETCH priv false = true ->
  in_mem (ext (world s)) (pa (vaddr i)) = true ->
  fetch_phys i s = (inr (through (entry_for (vaddr i))), s).
Proof using Hx.
  intros K Hi Hty Hp Hm. unfold fetch_phys. rewrite (bind_eq (translate i 2) _ _ (pa (vaddr i)) s)
    by (rewrite translate_bare by (done || apply ok_bare || apply ok_prv; done); by rewrite Hty, Hp).
  by rewrite bind_get, Hm.
Qed.

Lemma rel_fetch_slow_path va : 0 <= va < 2 ^ 64 -> va mod 2 = 0 -> rel (fetch_slow_path va) (fetch_ref va).
Proof using Hx.
  intros Hv He. apply rel_info; [done..|]. intros i Hi <- _ Et _ Hty. specialize (Et eq_refl).
  apply rel_bind; [auto with tlb|]. intros ?.
  pose (checked (m : mmu_t X) := tag_at (tlb_insn_tag m) (tlb_index (vaddr i)) =?
    ((vaddr i >>! PGSHIFT) |! TLB_CHECK_TRIGGERS)).
  assert (Hmid : rel (c ← get_mmu checked;
    if (c : bool) then e ← get_mmu (fun m => entry_of m (vaddr i)); mret (through e)
    else paddr ← translate i 2; mem ← get_mmu (fun m => in_mem (ext m) paddr);
      if (mem : bool) then e ← refill_tlb (vaddr i) paddr paddr FETCH; mret (through e)
      else r ← mmio_fetch paddr 2;
        match r with
        | Some bytes => mret (fetch_temp bytes (paddr -! vaddr i))
        | None => v ← gets virt; throw (trap_instruction_access_fault v (vaddr i) 0 0)
        end) (fetch_phys i)).
  { intros s s' Hs. pose proof Hs as (_ & K & K'). destruct (same_world _ _ Hs) as (Ee & _ & Ep & _ & Em & _).
    unfold rel_at. rewrite bind_get. destruct (checked (world s)) eqn:Ec.
    - unfold checked in Ec. apply Z.eqb_eq in Ec.
      assert (Hh : tlb_hit_slow (tlb_insn_tag (world s)) (vaddr i) = true).
      { unfold tlb_hit_slow. rewrite Ec. pose proof (vpn_range (vaddr i) Hv).
        rewrite without_check_flag by (unfold vpn in *; lia). apply Z.eqb_refl. }
      destruct (ok_cached _ K FETCH _ Hv Hh) as [C1 C2 C3 _ _].
      rewrite (ok_prv _ K), Ep, Em in C3. rewrite Ee in C2.
      rewrite bind_get, C1, fetch_phys_mem by auto using even_in_page. by split.
    - apply rel_translated; [done..|]. intros Hp. unfold rel_at. rewrite !bind_get, <- !Ee.
      destruct (in_mem _ _) eqn:Emem.
      + destruct (refill_ok s (vaddr i) FETCH 2) as (w & Ew & Hw1 & Hw2); try done;
          [by apply even_in_page|by rewrite <- Hty|]. rewrite (bind_eq _ _ _ _ _ Ew). split; [done|].
        destruct Hs as [Hs _]. split_and!; try done. cbn. rewrite <- Hs. unfold erase. cbn. by rewrite Hw1.
      + apply (rel_bind (mmio_fetch _ _) (mmio_fetch _ _)); [apply rel_mmio_fetch| |done].
        intros [b|]; [auto with tlb|]. apply rel_bind; [by apply rel_gets|auto with tlb]. }
  apply rel_assoc, rel_bind; [exact Hmid|]. intros e. apply rel_bind; [apply rel_fetched|]. intros parcel.
  apply rel_bind; [apply rel_check_triggers|]. intros. apply rel_ret.
Qed.

Lemma rel_translate_insn_addr va : 0 <= va < 2 ^ 64 -> va mod 2 = 0 ->
  rel (translate_insn_addr va) (fetch_ref va).
Proof using Hx.
  intros Hv He s s' Hs. pose proof Hs as (_ & K & K').
  destruct (same_world _ _ Hs) as (Ee & _ & Ep & _ & Em & _).
  unfold translate_insn_addr, rel_at. rewrite bind_get.
  destruct (tlb_hit (tlb_insn_tag (world s)) va) eqn:Et; [|by apply rel_fetch_slow_path].
  pose proof Et as Et'. unfold tlb_hit in Et'. apply Z.eqb_eq in Et'.
  destruct (ok_cached _ K FETCH _ Hv (tlb_hit_is_slow _ _ Hv Et)) as [C1 C2 C3 C4 _].
  specialize (C4 Et'). rewrite (ok_prv _ K), Ep, Em in C3. rewrite Ee in C2, C4.
  rewrite bind_get, C1. unfold fetch_ref.
  rewrite (bind_eq _ _ _ _ _ (info_bare _ va FETCH no_flags K' Hv plain_no_flags)). cbv zeta.
  cbn [effective_virt]. rewrite (bind_eq _ _ _ tt s') by by apply check_triggers_quiet.
  set (i := AccessInfo _ _ _ _ _ _).
  assert (Hi : info_ok i) by (split_and!; cbn; rewrite ?pa_idem; done || lia).
  rewrite (bind_eq _ _ _ _ _ (fetch_phys_mem i s' K' Hi eq_refl (C3 2 (even_in_page va He)) C2)).
  unfold fetched, read_mem. rewrite bind_assoc, bind_get.
  rewrite (bind_eq (mret _) _ s' _ s' eq_refl).
  rewrite (bind_eq (check_triggers _ _ _ _ _) _ _ tt s') by by apply check_triggers_quiet. by split.
Qed.

(** ** Every access *)

Lemma rel_load_self n a f : 0 <= a < 2 ^ 64 -> access_size n -> plain f -> rel (load n a f) (load n a f).
Proof using Hx. intros. by eapply rel_of_ref, rel_load. Qed.
Lemma rel_store_self n a v : 0 <= a < 2 ^ 64 -> access_size n -> rel (store n a v no_flags) (store n a v no_flags).
Proof using Hx. intros. by eapply rel_of_ref, rel_store. Qed.
Lemma rel_probe n a : 0 <= a < 2 ^ 64 -> access_size n ->
  rel (store_slow_path a n [] no_flags false true) (store_slow_path a n [] no_flags false true).
Proof using Hx. intros. by eapply rel_of_ref, rel_store_slow_path. Qed.
Lemma rel_entry va : 0 <= va < 2 ^ 64 -> va mod 2 = 0 -> rel (translate_insn_addr va) (translate_insn_addr va).
Proof using Hx. intros. by eapply rel_of_ref, rel_translate_insn_addr. Qed.

#[local] Hint Resolve rel_load_self rel_store_self rel_probe rel_fetched plain_no_flags benign_reservation : tlb.

Lemma rel_amo n a f : 0 <= a < 2 ^ 64 -> access_size n -> (forall v, rel (f v) (f v)) ->
  rel (amo n a f) (amo n a f).
Proof using Hx.
  intros Ha Hn Hf. apply rel_convert, rel_bind; [auto with tlb|]. intros ?.
  apply rel_bind; [auto with tlb|]. intros lhs. apply rel_bind; [apply Hf|]. intros v.
  apply rel_bind; [auto with tlb|]. intros ?. apply rel_ret.
Qed.
Lemma rel_amo_compare_and_swap n a c w : 0 <= a < 2 ^ 64 -> access_size n ->
  rel (amo_compare_and_swap n a c w) (amo_compare_and_swap n a c w).
Proof using Hx.
  intros Ha Hn. apply rel_convert, rel_bind; [auto with tlb|]. intros ?.
  apply rel_bind; [auto with tlb|]. intros lhs.
  apply rel_bind; [apply rel_when; auto with tlb|]. intros ?. apply rel_ret.
Qed.

Lemma rel_check_load_reservation a n : 0 <= a < 2 ^ 64 -> access_size n ->
  rel (check_load_reservation a n) (check_load_reservation a n).
Proof using Hx.
  intros Ha Hn. apply rel_bind; [apply rel_when; auto with tlb|]. intros ?.
  apply rel_info; [done..|]. intros i Hi _ _ _ _ _. apply rel_bind; [by apply rel_translate|]. intros p.
  apply rel_bind; [by apply rel_get|]. intros []; [by apply rel_get|].
  apply rel_bind; [by apply rel_gets|]. intros. apply rel_throw.
Qed.
Lemma rel_store_conditional n a v : 0 <= a < 2 ^ 64 -> access_size n ->
  rel (store_conditional n a v) (store_conditional n a v).
Proof using Hx.
  intros Ha Hn. apply rel_bind; [by apply rel_check_load_reservation|]. intros c.
  apply rel_bind; [apply rel_when; auto with tlb|]. intros ?.
  apply rel_bind; [apply rel_modify; auto with tlb|]. intros ?. apply rel_ret.
Qed.

Lemma rel_zero_block n base o va : rel (zero_block n base o va) (zero_block n base o va).
Proof using Hx.
  revert o. induction n as [|n IH]; intros o; [apply rel_ret|]. cbn [zero_block].
  apply rel_bind; [auto with tlb|]. intros ?. apply rel_bind; [|intros; apply IH].
  apply rel_store_self; [by apply wrap_range|by left].
Qed.
Lemma rel_check_block n base o va : rel (check_block n base o va) (check_block n base o va).
Proof using.
  revert o. induction n as [|n IH]; intros o; [apply rel_ret|]. cbn [check_block].
  apply rel_bind; [auto with tlb|]. intros ?. apply IH.
Qed.
Lemma rel_cbo_zero a : 0 <= a < 2 ^ 64 -> rel (cbo_zero a) (cbo_zero a).
Proof using Hx.
  intros Ha. apply rel_info; [done..|]. intros i Hi _ _ _ _ _.
  apply rel_bind; [by apply rel_gets|]. intros base. apply rel_bind; [by apply rel_get|]. intros size.
  apply rel_zero_block.
Qed.
Lemma rel_clean_inval a c v : 0 <= a < 2 ^ 64 -> rel (clean_inval a c v) (clean_inval a c v).
Proof using Hx.
  intros Ha. apply rel_info; [done..|]. intros i Hi _ _ _ _ _.
  apply rel_bind; [by apply rel_gets|]. intros base. apply rel_bind; [by apply rel_get|]. intros size.
  apply rel_bind; [apply rel_check_block|]. intros ?. apply rel_convert.
  apply rel_info; [apply Hi|done|]. intros i' Hi' _ _ _ _ _.
  apply rel_bind; [by apply rel_translate|]. intros p. apply rel_bind; [by apply rel_get|]. intros [].
  - apply rel_bind; [|intros t; apply rel_when, rel_modify].
    + unfold interested. intros s s' Hs. destruct (same_world _ _ Hs) as (Ee & _). split; [|done].
      unfold get_mmu, gets. cbn. by rewrite Ee.
    + constructor; intros m; cbn; auto using same_clean; split_and!; try done; by intros [].
  - apply rel_bind; [by apply rel_gets|]. intros. apply rel_throw.
Qed.

Lemma even_add va k : va mod 2 = 0 -> k mod 2 = 0 -> (va +! k) mod 2 = 0.
Proof using. unfold wrap. intros. Z.to_euclidean_division_equations; lia. Qed.
Lemma rel_fetch_parcel va : 0 <= va < 2 ^ 64 -> va mod 2 = 0 -> rel (fetch_parcel va) (fetch_parcel va).
Proof using Hx. intros. apply rel_bind; [by apply rel_entry|]. intros e. apply rel_fetched. Qed.
Lemma rel_parcel_at va k : va mod 2 = 0 -> k mod 2 = 0 -> rel (fetch_parcel (va +! k)) (fetch_parcel (va +! k)).
Proof using Hx. intros. apply rel_fetch_parcel; [by apply wrap_range|by apply even_add]. Qed.
Lemma rel_refill_icache a : 0 <= a < 2 ^ 64 -> a mod 2 = 0 -> rel (refill_icache a) (refill_icache a).
Proof using Hx.
  intros Ha He. apply rel_bind; [by apply rel_get|]. intros [t|]; [apply rel_throw|].
  apply rel_bind; [by apply rel_entry|]. intros e. apply rel_bind; [apply rel_fetched|]. intros p0. cbv zeta.
  apply rel_bind.
  - repeat (apply rel_if || apply rel_ret || (apply rel_bind; [by apply rel_parcel_at|intros ?])).
  - intros insn. apply rel_bind; [by apply rel_get|]. intros t.
    apply rel_bind; [apply rel_when; auto with tlb|]. intros ?. apply rel_ret.
Qed.

(** ** Runs of accesses *)

Inductive access :=
  | Load (n a : Z) | LoadReserved (n a : Z) | Store (n a v : Z) | StoreConditional (n a v : Z)
  | Amo (n a : Z) (f : Z -> Z) | CompareAndSwap (n a c w : Z)
  | Fetch (a : Z) | CboZero (a : Z) | CleanInval (a : Z) (clean inval : bool).

Definition perform (o : access) : M Z :=
  match o with
  | Load n a => load n a no_flags
  | LoadReserved n a => load_reserved n a
  | Store n a v => store n a v no_flags;; mret 0
  | StoreConditional n a v => c ← store_conditional n a v; mret (b2z c)
  | Amo n a f => amo n a (fun lhs => mret (f lhs))
  | CompareAndSwap n a c w => amo_compare_and_swap n a c w
  | Fetch a => refill_icache a
  | CboZero a => cbo_zero a;; mret 0
  | CleanInval a c i => clean_inval a c i;; mret 0
  end.

Definition access_fits (o : access) : Prop :=
  match o with
  | Load n a | LoadReserved n a | Store n a _ | StoreConditional n a _ | Amo n a _
  | CompareAndSwap n a _ _ => 0 <= a < 2 ^ 64 /\ access_size n
  | Fetch a => 0 <= a < 2 ^ 64 /\ a mod 2 = 0
  | CboZero a | CleanInval a _ _ => 0 <= a < 2 ^ 64
  end.

Definition flush (s : state) : state := with_world (flush_tlb (world s)) s.

(** The outcomes of a list of accesses, each in the state the one before left,
    with the TLB flushed before each of them or never. *)
Fixpoint run (flushing : bool) (os : list access) (s : state) : list (trap + Z) * state :=
  match os with
  | [] => ([], s)
  | o :: os =>
    let '(r, s1) := perform o (if flushing then flush s else s) in
    let '(rs, s2) := run flushing os s1 in
    (r :: rs, s2)
  end.

Lemma rel_perform o : access_fits o -> rel (perform o) (perform o).
Proof using Hx.
  intros Ho. destruct o; cbn [perform access_fits] in *; destruct Ho as [Ha Hn].
  - by apply rel_load_self.
  - by apply rel_load_self.
  - apply rel_bind; [by apply rel_store_self|]. intros ?. apply rel_ret.
  - apply rel_bind; [by apply rel_store_conditional|]. intros ?. apply rel_ret.
  - by apply rel_amo.
  - by apply rel_amo_compare_and_swap.
  - by apply rel_refill_icache.
  - apply rel_bind; [by apply rel_cbo_zero|]. intros ?. apply rel_ret.
  - apply rel_bind; [by apply rel_clean_inval|]. intros ?. apply rel_ret.
Qed.

Lemma flushed_tag va : 0 <= va < 2 ^ 64 ->
  tlb_hit_slow (replicate (Z.to_nat TLB_ENTRIES) (2 ^ 64 - 1)) va = false.
Proof using.
  intros Hv. unfold tlb_hit_slow, tag_at. rewrite nth_lookup. pose proof (tlb_index_range va).
  rewrite lookup_replicate_2 by lia. apply Z.eqb_neq.
  change (without_check _) with (2 ^ 63 - 1) at 1. pose proof (vpn_range va Hv). unfold vpn in *. lia.
Qed.

Lemma flush_same s : tlb_ok s -> same_but_tlb s (flush s).
Proof using.
  intros K. pose proof K as [K1 Kp K2 K3 K4 K5]. split_and!; [done|done|].
  constructor; try done; [by apply bare_world|intros []; apply length_replicate|].
  intros ty va Hv Hh. destruct ty; destruct (eq_true_false_abs _ Hh (flushed_tag va Hv)).
Qed.

Lemma run_same os s s' : same_but_tlb s s' -> Forall access_fits os ->
  fst (run false os s) = fst (run true os s') /\ same_but_tlb (snd (run false os s)) (snd (run true os s')).
Proof using Hx.
  intros Hs Hos. revert s s' Hs. induction Hos as [|o os Ho Hos IH]; intros s s' Hs; [by split|].
  cbn [run]. assert (Hf : same_but_tlb s (flush s')).
  { pose proof Hs as (He & K & K'). destruct (flush_same s' K') as (He' & _ & Kf). split_and!; congruence || done. }
  destruct (rel_perform o Ho s (flush s') Hf) as [Hr Hs1].
  destruct (perform o s) as [r1 s1], (perform o (flush s')) as [r2 s2]. cbn [fst snd] in *. subst r2.
  destruct (IH s1 s2 Hs1) as [Hrs Hs2].
  destruct (run false os s1), (run true os s2). cbn [fst snd] in *. by subst.
Qed.
End tlb.

#[export] Hint Resolve rel_ret rel_throw rel_when rel_if rel_throw_access rel_simulate rel_write_mem
  rel_trace_access rel_mmio_ok rel_mmio_load rel_mmio_store rel_check_triggers rel_check_data : tlb.

(** ** A platform of plain memory

    [size] bytes at [base], a whole number of pages; no devices, no tracers, no
    triggers. *)

Record ram := Ram { base_page : Z; pages : Z; byte_at : Z -> Z }.
Definition ram_in_mem (x : ram) (a : Z) : bool :=
  (base_page x <=? a / PGSIZE) && (a / PGSIZE <? base_page x + pages x).
Definition ram_read (x : ram) (a n : Z) : list Z := map (fun k => u8 (byte_at x (a + k))) (seqZ 0 n).
Definition ram_write (x : ram) (a : Z) (b : list Z) : ram :=
  Ram (base_page x) (pages x)
    (fun i => if (a <=? i) && (i <? a + Z.of_nat (length b)) then nth (Z.to_nat (i - a)) b 0 else byte_at x i).

#[global] Instance ram_platform : platform ram := {
  in_mem := ram_in_mem; host_read := ram_read; host_write := ram_write;
  sim_mmio_load x _ _ := (None, x); sim_mmio_store x _ _ := (false, x);
  interested_in_range _ _ _ _ := false; trace x _ _ _ := x; clean_invalidate x _ _ _ _ := x;
  simulate_cache_access x _ _ := x; detect_memory_access_match x _ _ _ := (None, x)
}.
#[global] Instance ram_laws : platform_laws ram.
Proof.
  refine {| armed := fun _ _ => false; traced := fun _ _ => false |}; try done.
  - intros x a b Hp. cbn. unfold ram_in_mem. by rewrite Hp.
  - intros x a n. cbn. unfold ram_read. by rewrite length_map, length_seqZ.
Defined.

(** A hart in machine mode over one page of memory at [0x80000000], with the TLB empty. *)
Definition ram_state (mis : bool) : state (mmu_t ram) :=
  State (replicate 32 0) 0 0 PRV_M false false false (DcsrBits false false false false false) 0 0 0 0
    (fun _ => true)
    (flush_tlb (Mmu (replicate 256 (TlbEntry 0 0)) [] [] [] (2 ^ 64 - 1) false false false None
       (VmCsrs 0 None 0 0 0 0 0 0 0) hole_pmp mis 64 (Ram 0x80000 1 (fun a => a mod 256)))).
#[global] Instance rv64 : env := Env 64 false 0 0.

Lemma ram_state_ok mis : tlb_ok PRV_M (ram_state mis).
Proof.
  assert (Hb : bare (ram_state mis)) by (constructor; try reflexivity; exact hole_pmp_wf).
  constructor; try done; [by intros []|].
  intros ty va Hv Hh. destruct ty; destruct (eq_true_false_abs _ Hh (flushed_tag va Hv)).
Qed.

(** C9: The TLB is transparent.  With translation off, any sequence of loads,
    stores, reservations, conditional stores, atomics, fetches and cache-block
    operations, aligned or not, gives the same results and the same exceptions,
    one by one, as when the TLB is flushed before every access, and ends in the
    same registers, memory, devices, timing and reservation: a fast path never
    skips a protection check, a trigger or a tracer that the slow path would
    have run.  The invariant of the TLB holds again at the end. *)
Theorem tlb_transparent {X} `{platform_laws X} {E : env} priv os (s : state (mmu_t X)) :
  xlen = 32 \/ xlen = 64 -> tlb_ok priv s -> Forall access_fits os ->
  fst (run false os s) = fst (run true os s) /\
  erase (snd (run false os s)) = erase (snd (run true os s)) /\
  tlb_ok priv (snd (run false os s)).
Proof.
  intros Hx K Hos. destruct (run_same Hx priv os s s) as [Hr (He & K1 & _)]; try done.
Qed.

Definition demo_accesses : list access :=
  [Store 4 0x80000010 0xdeadbeef; Load 4 0x80000010; Load 8 0x80000013; Load 1 0x80001000;
   LoadReserved 8 0x80000010; StoreConditional 8 0x80000010 7; Fetch 0x80000010;
   Amo 4 0x80000010 (fun v => v + 1); Load 2 0x80000010].

(** The load outside memory faults; the misaligned load, the conditional store
    and the atomic succeed, and the instruction fetched is what was stored. *)
Example demo_accesses_run : fst (run false demo_accesses (ram_state true)) =
  [inr 0; inr 0xdeadbeef; inr 1880560806837687518; inl (trap_load_access_fault false 0x80001000 0 0);
   inr 0x17161514deadbeef; inr 1; inr 7; inr 7; inr 8].
Proof. vm_compute. reflexivity. Qed.

Lemma tlb_transparent_witness :
  fst (run false demo_accesses (ram_state true)) = fst (run true demo_accesses (ram_state true)).
Proof.
  assert (Hos : Forall access_fits demo_accesses) by
    (repeat apply List.Forall_cons; try apply List.Forall_nil; unfold access_fits, access_size;
      (lia || (split; [lia|reflexivity]))).
  destruct (tlb_transparent PRV_M demo_accesses (ram_state true)) as [Hr _];
    [by right|apply ram_state_ok|exact Hos|exact Hr].
Defined.
