(* ===== verification/Memory.v ===== *)
(** * Memory as the instructions see it

    With translation off, the loads, stores, reservations and atomics of
    [Mmu.v] against a flat array of bytes: values are little-endian, misaligned
    accesses that cross a page are two accesses, a conditional store succeeds
    exactly when the reservation is for the same physical address, and atomics
    report their traps as store traps. *)

From Stdlib Require Import ZifyBool.
From S2P Require Import Prelude Arith Decode Hart Pmp Mmu MmuTlb.
Local Open Scope cint_scope.

(** ** The bytes behind a platform *)

Class memory_laws (X : Type) `{platform_laws X} := {
  mem_at : X -> Z -> Z;
  byte_range : forall x a, 0 <= mem_at x a < 2 ^ 8;
  host_read_law : forall x a n, host_read x a n = map (fun k => mem_at x (a + k)) (seqZ 0 n);
  host_write_law : forall x a b i, Forall (fun v => 0 <= v < 2 ^ 8) b ->
    mem_at (host_write x a b) i =
    if (a <=? i) && (i <? a + Z.of_nat (length b)) then nth (Z.to_nat (i - a)) b 0 else mem_at x i;
  mem_trace : forall x a n ty i, mem_at (trace x a n ty) i = mem_at x i;
  mem_simulate : forall x a w i, mem_at (simulate_cache_access x a w) i = mem_at x i
}.

(** ** Little-endian values *)

Fixpoint le (n : nat) (f : Z -> Z) (a : Z) : Z :=
  match n with O => 0 | S n => f a + 2 ^ 8 * le n f (a + 1) end.

Lemma le_range n f a : (forall i, 0 <= f i < 2 ^ 8) -> 0 <= le n f a < 2 ^ (8 * Z.of_nat n).
Proof.
  intros Hf. revert a. induction n as [|n IH]; intros a; [done|]. cbn [le].
  specialize (IH (a + 1)). specialize (Hf a).
  replace (8 * Z.of_nat (S n)) with (8 + 8 * Z.of_nat n) by lia. rewrite Z.pow_add_r by lia. lia.
Qed.

Lemma from_target_cons b l : 0 <= b < 2 ^ 8 -> from_target (b :: l) = b + 2 ^ 8 * from_target l.
Proof. intros Hb. cbn [from_target]. rewrite Z.lor_comm, lor_shiftl_add by lia. lia. Qed.

Lemma from_target_le f n : (forall i, 0 <= f i < 2 ^ 8) -> forall a,
  from_target (map (fun k => f (a + k)) (seqZ 0 (Z.of_nat n))) = le n f a.
Proof.
  intros Hf. induction n as [|n IH]; intros a; [done|].
  rewrite seqZ_cons by lia. cbn [map le]. rewrite from_target_cons by apply Hf.
  rewrite Z.add_0_r. f_equal. f_equal. rewrite <- IH.
  replace (Z.pred (Z.of_nat (S n))) with (Z.of_nat n) by lia.
  f_equal. change (Z.succ 0) with (1 + 0). rewrite <- fmap_add_seqZ, map_map.
  apply map_ext. intros k. f_equal. lia.
Qed.

Lemma to_target_byte n v k : (k < n)%nat -> nth k (to_target n v) 0 = u8 (v >>! (8 * Z.of_nat k)).
Proof.
  revert n v. induction k as [|k IH]; intros [|n] v Hk; try lia; cbn [to_target nth].
  - by rewrite Z.shiftr_0_r.
  - rewrite IH by lia. f_equal. rewrite Z.shiftr_shiftr by lia. f_equal. lia.
Qed.
Lemma to_target_range n v : Forall (fun b => 0 <= b < 2 ^ 8) (to_target n v).
Proof. revert v. induction n; intros v; cbn [to_target]; constructor; [by apply wrap_range|done]. Qed.

Lemma le_ext n f g a : (forall k, 0 <= k < Z.of_nat n -> f (a + k) = g (a + k)) -> le n f a = le n g a.
Proof.
  revert a. induction n as [|n IH]; intros a He; [done|]. cbn [le].
  rewrite <- (Z.add_0_r a) at 1 3. rewrite He by lia. f_equal. f_equal. apply IH.
  intros k Hk. replace (a + 1 + k) with (a + (1 + k)) by lia. apply He. lia.
Qed.

(** The bytes of a value read back as the value. *)
Lemma le_bytes n v a : le n (fun i => u8 (v >>! (8 * (i - a)))) a = wrap (8 * Z.of_nat n) v.
Proof.
  revert v a. induction n as [|n IH]; intros v a; [unfold wrap; by rewrite Z.mod_1_r|]. cbn [le].
  rewrite Z.sub_diag, Z.shiftr_0_r.
  rewrite (le_ext n _ (fun i => u8 ((v >>! 8) >>! (8 * (i - (a + 1)))))).
  2:{ intros k Hk. f_equal. rewrite Z.shiftr_shiftr by lia. f_equal. lia. }
  rewrite IH. unfold wrap. rewrite Z.shiftr_div_pow2 by lia.
  replace (8 * Z.of_nat (S n)) with (8 + 8 * Z.of_nat n) by lia. rewrite Z.pow_add_r by lia.
  rewrite Z.rem_mul_r by lia. lia.
Qed.

Section memory.
Context {X : Type} `{memory_laws X} {E : env} (Hx : xlen = 32 \/ xlen = 64) (priv : Z).
Local Abbreviation M := (M (mmu_t X)).
Local Abbreviation state := (state (mmu_t X)).

Definition mem (s : state) : Z -> Z := mem_at (ext (world s)).

(** The bytes of an access are in memory and open to accesses of the type. *)
Definition open (s : state) (ty : access_type) (a n : Z) : Prop :=
  forall k, 0 <= k < n ->
    in_mem (ext (world s)) (pa (a + k)) = true /\
    forall l, in_page (pa (a + k)) l ->
      pmp_ok (pmp (world s)) (mseccfg s) (pa (a + k)) l ty priv false = true.

(** What accesses leave alone. *)
Record static (s s1 : state) : Prop := {
  static_pmp : pmp (world s1) = pmp (world s);
  static_mseccfg : mseccfg s1 = mseccfg s;
  static_misaligned : misaligned (world s1) = misaligned (world s);
  static_map : same_map (ext (world s)) (ext (world s1));
  static_virt : virt s1 = virt s;
  static_reservation : load_reservation_address (world s1) = load_reservation_address (world s)
}.
Lemma static_refl s : static s s.
Proof using. constructor; auto using same_map_refl. Qed.
Lemma static_trans s1 s2 s3 : static s1 s2 -> static s2 s3 -> static s1 s3.
Proof using. intros [] []. constructor; try congruence. by eapply same_map_trans. Qed.

Lemma open_static s s1 ty a n : static s s1 -> open s ty a n -> open s1 ty a n.
Proof using.
  intros [Ep Ec _ (Em & _) _ _] Ho k Hk. destruct (Ho k Hk) as [H1' H2']. by rewrite Ep, Ec, Em.
Qed.
Lemma armed_static s s1 op : static s s1 -> armed (ext (world s1)) op = armed (ext (world s)) op.
Proof using. intros [_ _ _ (_ & _ & Ea) _ _]. apply Ea. Qed.
Lemma open_sub s ty a n o m : 0 <= o -> o + m <= n -> open s ty a n -> open s ty (a + o) m.
Proof using. intros Ho Hm Hop k Hk. rewrite <- Z.add_assoc. apply Hop. lia. Qed.

(** Flat addresses within a page. *)
Lemma pa_within a k l : in_page (pa a) l -> 0 <= k < l -> pa (a + k) = pa a + k.
Proof using Hx.
  unfold in_page, pa, wrap, PGSIZE. intros.
  destruct Hx as [Hw|Hw]; rewrite Hw in *; Z.to_euclidean_division_equations; lia.
Qed.
Lemma pa_wrap64 a : pa (wrap 64 a) = pa a.
Proof using Hx. unfold pa, wrap. destruct Hx as [Hw|Hw]; rewrite Hw; Z.to_euclidean_division_equations; lia. Qed.
Lemma open_wrap s ty a n : open s ty a n -> open s ty (wrap 64 a) n.
Proof using Hx.
  intros Ho k Hk. replace (pa (wrap 64 a + k)) with (pa (a + k)); [by apply Ho|].
  by rewrite <- (pa_wrap64 (wrap 64 a + k)), wrap_add_l, pa_wrap64 by lia.
Qed.

(** The bytes an access reads. *)
Definition bytes_of (f : Z -> Z) (a n : Z) : list Z := map (fun k => f (pa (a + k))) (seqZ 0 n).

Lemma bytes_of_app f a n m : 0 <= n -> 0 <= m ->
  bytes_of f a (n + m) = bytes_of f a n ++ bytes_of f (a + n) m.
Proof using.
  intros Hn Hm. unfold bytes_of. rewrite seqZ_app by done. rewrite map_app. f_equal.
  rewrite <- (fmap_add_seqZ n 0 m), Z.add_0_l || rewrite Z.add_0_l.
  replace n with (n + 0) at 1 by lia. rewrite <- fmap_add_seqZ, map_map. apply map_ext.
  intros k. by rewrite Z.add_assoc.
Qed.
Lemma bytes_of_wrap f a n : bytes_of f (wrap 64 a) n = bytes_of f a n.
Proof using Hx.
  unfold bytes_of. apply map_ext. intros k. f_equal.
  by rewrite <- (pa_wrap64 (wrap 64 a + k)), wrap_add_l, pa_wrap64 by lia.
Qed.
Lemma host_read_bytes x a n : in_page (pa a) n -> host_read x (pa a) n = bytes_of (mem_at x) a n.
Proof using Hx.
  intros Hp. rewrite host_read_law. apply map_ext_in. intros k Hk.
  apply list_elem_of_In, elem_of_seqZ in Hk. by rewrite (pa_within a k n) by (done || lia).
Qed.

(** States that differ neither in that nor in memory. *)
Definition quiet (s s1 : state) : Prop := static s s1 /\ forall i, mem s1 i = mem s i.
Lemma quiet_trans s1 s2 s3 : quiet s1 s2 -> quiet s2 s3 -> quiet s1 s3.
Proof using.
  intros [A1 A2] [B1 B2]. split; [by eapply static_trans|]. intros i. by rewrite B2.
Qed.
Lemma quiet_ext (g : X -> X) s : (forall x, same_map x (g x)) -> (forall x i, mem_at (g x) i = mem_at x i) ->
  quiet s (with_world (with_ext (g (ext (world s))) (world s)) s).
Proof using. intros Hg Hm. split; [|intros i; apply Hm]. by constructor. Qed.

Lemma quiet_trace c p len ty s : exists s1, when c (trace_access p len ty) s = (inr tt, s1) /\ quiet s s1.
Proof using.
  destruct c; eexists; (split; [reflexivity|]); [|split; [apply static_refl|done]].
  apply (quiet_ext (fun x => trace x p len ty)); [intros; apply same_trace|intros; apply mem_trace].
Qed.
Lemma quiet_simulate p w s : exists s1, simulate p w s = (inr tt, s1) /\ quiet s s1.
Proof using.
  eexists; split; [reflexivity|].
  apply (quiet_ext (fun x => simulate_cache_access x p w)); [intros; apply same_simulate|intros; apply mem_simulate].
Qed.

(** *** One access within a page *)

Lemma self_same s : tlb_ok priv s -> same_but_tlb priv s s.
Proof using. by intros K. Qed.

Lemma translate_open i len s : tlb_ok priv s -> info_ok priv i -> in_page (pa (vaddr i)) len ->
  open s (type i) (vaddr i) len ->
  translate i len s = (inr (pa (vaddr i)), s) /\ in_mem (ext (world s)) (pa (vaddr i)) = true.
Proof using Hx.
  intros K Hi Hp Ho. destruct (Ho 0 ltac:(unfold in_page in Hp; lia)) as [Hm Hpmp].
  rewrite Z.add_0_r in Hm, Hpmp. split; [|done].
  rewrite (translate_bare Hx priv) by (done || apply (ok_bare priv) || apply (ok_prv priv); done).
  by rewrite (Hpmp len Hp).
Qed.

(** The state of the MMU with a reservation made if the access asks for it. *)
Definition reserve_if (c : bool) (p : Z) (s : state) : state :=
  if c then with_world (with_reservation p (world s)) s else s.

Lemma load_phys_open len i s : tlb_ok priv s -> info_ok priv i -> type i = LOAD ->
  in_page (pa (vaddr i)) len -> open s LOAD (vaddr i) len ->
  exists s1, let s2 := reserve_if (lr (flags i)) (pa (vaddr i)) s1 in
    load_phys len i s = (inr (bytes_of (mem s) (vaddr i) len), s2) /\ quiet s s1 /\ tlb_ok priv s2.
Proof using Hx.
  intros K Hi Hty Hp Ho. pose proof (self_same s K) as Hs.
  destruct (rel_load_intrapage Hx priv len i Hi Hty Hp s s Hs) as [_ (_ & _ & K1)]. destruct (translate_open i len s) as [Et Hm]; try done; [by rewrite Hty|].
  destruct (quiet_trace (traced (ext (world s)) LOAD) (pa (vaddr i)) len LOAD s) as (s1 & E1 & Q1).
  destruct (quiet_simulate (pa (vaddr i)) false s1) as (s2 & E2 & Q2).
  assert (El : load_phys len i s =
    (inr (bytes_of (mem s) (vaddr i) len), reserve_if (lr (flags i)) (pa (vaddr i)) s2));
    [|rewrite El in K1; exists s2; split_and!; try done; by apply (quiet_trans s s1)].
  unfold load_phys, reservable, read_mem, interested.
  rewrite (bind_eq _ _ _ _ _ Et), bind_get, Hm. cbn [negb]. rewrite andb_false_r, bind_get, Hm, !bind_assoc.
  rewrite bind_get, bind_assoc, bind_get, interested_law, host_read_bytes, bind_assoc by done.
  rewrite (bind_eq _ _ _ _ _ E1), (bind_eq (mret _) _ s1 _ s1 eq_refl), (bind_eq _ _ _ _ _ E2).
  by destruct (lr (flags i)).
Qed.

(** What a write leaves in memory. *)
Definition stored (f : Z -> Z) (p : Z) (b : list Z) (i : Z) : Z :=
  if (p <=? i) && (i <? p + Z.of_nat (length b)) then nth (Z.to_nat (i - p)) b 0 else f i.

Lemma store_phys_open len b i s : tlb_ok priv s -> info_ok priv i -> type i = STORE ->
  lr (flags i) = false -> Forall (fun v => 0 <= v < 2 ^ 8) b ->
  in_page (pa (vaddr i)) len -> open s STORE (vaddr i) len ->
  exists s1, store_phys len b i true s = (inr tt, s1) /\ static s s1 /\
    (forall a, mem s1 a = stored (mem s) (pa (vaddr i)) b a) /\ tlb_ok priv s1.
Proof using Hx.
  intros K Hi Hty Hlr Hb Hp Ho. pose proof (self_same s K) as Hs.
  destruct (rel_store_intrapage Hx priv len b i true Hi Hty Hlr Hp s s Hs) as [_ (_ & _ & K1)]. destruct (translate_open i len s) as [Et Hm]; try done; [by rewrite Hty|].
  set (P := pa (vaddr i)) in *.
  pose (s0 := with_world (with_ext (host_write (ext (world s)) P b) (world s)) s).
  destruct (quiet_trace (traced (ext (world s0)) STORE) P len STORE s0) as (s1 & E1 & Q1).
  destruct (quiet_simulate P true s1) as (s2 & E2 & Q2). destruct (quiet_trans _ _ _ Q1 Q2) as [Q Qm].
  assert (El : store_phys len b i true s = (inr tt, s2)); [|rewrite El in K1; exists s2; split_and!; try done].
  - unfold store_phys. rewrite (bind_eq _ _ _ _ _ Et). cbn [when]. rewrite bind_get, Hm, bind_assoc.
    rewrite (bind_eq (write_mem P b) _ s tt s0) by done. unfold interested.
    by rewrite bind_assoc, bind_get, interested_law, (bind_eq _ _ _ _ _ E1), E2.
  - apply (static_trans _ s0); [|done]. constructor; try done. apply same_host_write.
  - intros a. rewrite Qm. unfold mem, s0. cbn. by apply host_write_law.
Qed.

(** *** Accesses of any alignment *)

(** The access is aligned, or the platform takes misaligned ones. *)
Definition alignment_ok (s : state) (a n : Z) : Prop := misaligned (world s) = true \/ a mod n = 0.

Lemma piece0_pa a n : piece0 (pa a) n = piece0 a n.
Proof using Hx. unfold piece0. by rewrite pa_page. Qed.
Lemma piece0_range a n : 0 < n -> 0 < piece0 a n <= n.
Proof using. unfold piece0, PGSIZE. Z.to_euclidean_division_equations; lia. Qed.
Lemma piece_in_page a n : access_size n -> a mod n = 0 -> in_page (pa a) n.
Proof using Hx.
  intros Hn Ha. apply aligned_in_page; [done|]. apply Z.eqb_eq. rewrite pa_aligned by done. lia.
Qed.
Lemma second_in_page a n : access_size n -> piece0 a n <> n ->
  in_page (pa (wrap 64 (a + piece0 a n))) (n - piece0 a n).
Proof using Hx. intros. apply in_page_wrap; [done|]. by apply piece1_in_page. Qed.

Lemma load_slow_open a n s : tlb_ok priv s -> 0 <= a < 2 ^ 64 -> access_size n ->
  armed (ext (world s)) OPERATION_LOAD = false -> alignment_ok s a n -> open s LOAD a n ->
  exists s1, load_slow_phys a n no_flags s = (inr (bytes_of (mem s) a n), s1) /\ quiet s s1.
Proof using Hx.
  intros K Ha Hn Hq Hal Ho. assert (Hpos : 0 < n) by (unfold access_size in Hn; lia).
  unfold load_slow_phys. rewrite (bind_eq _ _ _ _ _ (info_bare Hx priv _ a LOAD no_flags K Ha plain_no_flags)).
  cbv zeta. cbn [transformed_vaddr effective_virt is_fetch].
  rewrite (bind_eq _ _ _ tt s) by by apply check_triggers_quiet.
  rewrite aligned_land, pa_aligned by (done || apply (pa_range Hx)).
  set (i := AccessInfo _ _ _ _ _ _).
  assert (Hi : info_ok priv i) by (pose proof (pa_range Hx a); split_and!; cbn; rewrite ?pa_idem; done || lia).
  assert (Hend : forall b s1, length b = Z.to_nat n -> quiet s s1 ->
    (check_data OPERATION_LOAD (pa a) false b;; mret b) s1 = (inr b, s1)).
  { intros b s1 Hl [Hst _]. rewrite (bind_eq _ _ _ tt s1); [done|].
    apply (check_data_quiet Hx _ _ _ _ _ n); [done..|]. by rewrite (armed_static s s1). }
  assert (Hlen : length (bytes_of (mem s) a n) = Z.to_nat n)
    by (unfold bytes_of; by rewrite length_map, length_seqZ).
  destruct (Z.eqb_spec (a mod n) 0) as [E0|E0].
  - destruct (load_phys_open n i s) as (s1 & E1 & Q1 & _); try done; [by apply piece_in_page|].
    exists s1. split; [|done]. rewrite (bind_eq _ _ _ _ _ E1). by apply Hend.
  - destruct Hal as [Hmis|]; [|done]. unfold is_misaligned_enabled. rewrite bind_assoc, bind_get, Hmis.
    cbn [negb lr no_flags]. rewrite piece0_pa. pose proof (piece0_range a n Hpos) as Hr.
    destruct (load_phys_open (piece0 a n) i s) as (s1 & E1 & Q1 & K1); try done.
    { cbn. rewrite <- piece0_pa. apply piece0_in_page; done. }
    { intros k Hk. apply Ho. lia. }
    rewrite bind_assoc, (bind_eq _ _ _ _ _ E1).
    destruct (Z.eqb_spec (piece0 a n) n) as [En|En].
    { exists s1. split; [|done]. cbn [vaddr i]. rewrite En, (bind_eq (mret _) _ s1 _ s1 eq_refl). by apply Hend. }
    destruct (load_phys_open (n - piece0 a n) (split_misaligned_access i (piece0 a n)) s1)
      as (s2 & E2 & Q2 & _); try done.
    { by apply split_info_ok. }
    { cbn. by apply second_in_page. }
    { cbn. apply open_wrap. apply (open_sub _ _ _ n); [lia..|]. by apply (open_static s); [apply Q1|]. }
    exists s2. split; [|by apply (quiet_trans s s1)].
    rewrite bind_assoc, (bind_eq _ _ _ _ _ E2), (bind_eq (mret _) _ s2 _ s2 eq_refl). cbn [vaddr split_misaligned_access i].
    rewrite bytes_of_wrap.
    replace (bytes_of (mem s1) (a + piece0 a n) (n - piece0 a n))
      with (bytes_of (mem s) (a + piece0 a n) (n - piece0 a n)) by (apply map_ext; intros; by rewrite (proj2 Q1)).
    rewrite <- bytes_of_app by lia. replace (piece0 a n + (n - piece0 a n)) with n by lia.
    apply Hend; [done|]. by apply (quiet_trans s s1).
Qed.

(** Memory with a list of bytes put at an address. *)
Fixpoint put (f : Z -> Z) (a : Z) (b : list Z) : Z -> Z :=
  match b with [] => f | v :: b => put (fun i => if i =? pa a then v else f i) (a + 1) b end.

Lemma put_app f a b c : put f a (b ++ c) = put (put f a b) (a + Z.of_nat (length b)) c.
Proof using.
  revert f a. induction b as [|v b IH]; intros f a; cbn [put app length]; [f_equal; lia|].
  rewrite IH. f_equal. lia.
Qed.
Lemma put_ext f g a b i : (forall j, f j = g j) -> put f a b i = put g a b i.
Proof using.
  revert f g a. induction b as [|v b IH]; intros f g a He; cbn [put]; [apply He|].
  apply IH. intros j. by rewrite He.
Qed.
Lemma put_wrap f a b i : put f (wrap 64 a) b i = put f a b i.
Proof using Hx.
  revert f a. assert (Hg : forall b f a a' i, pa a = pa a' -> (forall k, pa (a + k) = pa (a' + k)) ->
    put f a b i = put f a' b i).
  { clear b i. induction b as [|v b IH]; intros f a a' i E0 Ek; [done|]. cbn [put]. rewrite E0. apply IH.
    - apply Ek.
    - intros k. rewrite <- !Z.add_assoc. apply Ek. }
  intros f a. apply Hg; [apply pa_wrap64|]. intros k.
  by rewrite <- (pa_wrap64 (wrap 64 a + k)), wrap_add_l, pa_wrap64 by lia.
Qed.
Lemma stored_put f a b i : in_page (pa a) (Z.of_nat (length b)) -> stored f (pa a) b i = put f a b i.
Proof using Hx.
  intros Hp. assert (Hg : forall c f k, (length c + k <= length b)%nat ->
    stored f (pa a + Z.of_nat k) c i = put f (a + Z.of_nat k) c i).
  { induction c as [|v c IH]; intros g k Hk; cbn [put length] in *.
    - unfold stored. cbn. by replace (_ && _) with false by lia.
    - replace (a + Z.of_nat k + 1) with (a + Z.of_nat (S k)) by lia. rewrite <- IH by lia.
      rewrite (pa_within a (Z.of_nat k) (Z.of_nat (length b))) by (done || lia).
      unfold stored. cbn [length]. destruct (Z.eqb_spec i (pa a + Z.of_nat k)) as [->|Hn].
      + replace (_ && _) with true by lia. replace (_ && _) with false by lia. by rewrite Z.sub_diag.
      + destruct ((pa a + Z.of_nat (S k) <=? i) && (i <? pa a + Z.of_nat (S k) + Z.of_nat (length c))) eqn:Ec.
        * replace (_ && _) with true by lia.
          replace (Z.to_nat (i - (pa a + Z.of_nat k))) with (S (Z.to_nat (i - (pa a + Z.of_nat (S k))))) by lia.
          done.
        * by replace (_ && _) with false by lia. }
  specialize (Hg b f 0%nat ltac:(lia)). by rewrite !Z.add_0_r in Hg.
Qed.

Lemma store_slow_open a n b s : tlb_ok priv s -> 0 <= a < 2 ^ 64 -> access_size n ->
  length b = Z.to_nat n -> Forall (fun v => 0 <= v < 2 ^ 8) b ->
  armed (ext (world s)) OPERATION_STORE = false -> alignment_ok s a n -> open s STORE a n ->
  exists s1, store_slow_phys a n b no_flags true false s = (inr tt, s1) /\ static s s1 /\
    forall i, mem s1 i = put (mem s) a b i.
Proof using Hx.
  intros K Ha Hn Hl Hb Hq Hal Ho. assert (Hpos : 0 < n) by (unfold access_size in Hn; lia).
  unfold store_slow_phys. rewrite (bind_eq _ _ _ _ _ (info_bare Hx priv _ a STORE no_flags K Ha plain_no_flags)).
  cbv zeta. cbn [transformed_vaddr effective_virt is_fetch when].
  rewrite (bind_eq _ _ _ tt s) by by apply (check_data_quiet Hx _ _ _ _ _ n).
  rewrite aligned_land, pa_aligned by (done || apply (pa_range Hx)).
  set (i := AccessInfo _ _ _ _ _ _).
  assert (Hi : info_ok priv i) by (pose proof (pa_range Hx a); split_and!; cbn; rewrite ?pa_idem; done || lia).
  destruct (Z.eqb_spec (a mod n) 0) as [E0|E0]; cbn [negb].
  - destruct (store_phys_open n b i s) as (s1 & E1 & Q1 & Hm & _); try done; [by apply piece_in_page|].
    exists s1. split_and!; [done|done|]. intros j. rewrite Hm. apply stored_put.
    rewrite Hl, Z2Nat.id by lia. by apply piece_in_page.
  - destruct Hal as [Hmis|]; [|done]. unfold is_misaligned_enabled. rewrite bind_get, Hmis.
    cbn [negb]. rewrite piece0_pa. pose proof (piece0_range a n Hpos) as Hr.
    set (b0 := take (Z.to_nat (piece0 a n)) b). set (b1 := drop (Z.to_nat (piece0 a n)) b).
    assert (Hl0 : length b0 = Z.to_nat (piece0 a n)) by (unfold b0; rewrite length_take; lia).
    assert (Hl1 : length b1 = Z.to_nat (n - piece0 a n)) by (unfold b1; rewrite length_drop; lia).
    assert (Hp0 : in_page (pa a) (piece0 a n)) by (rewrite <- piece0_pa; by apply piece0_in_page).
    destruct (store_phys_open (piece0 a n) b0 i s) as (s1 & E1 & Q1 & Hm1 & K1); try done.
    { by apply Forall_take. }
    { intros k Hk. apply Ho. lia. }
    rewrite (bind_eq _ _ _ _ _ E1).
    assert (Hput0 : forall j, mem s1 j = put (mem s) a b0 j).
    { intros j. rewrite Hm1. apply stored_put. by rewrite Hl0, Z2Nat.id by lia. }
    destruct (Z.eqb_spec (piece0 a n) n) as [En|En]; cbn [negb when].
    { exists s1. split_and!; [done|done|]. intros j. rewrite Hput0. unfold b0.
      by rewrite En, take_ge by lia. }
    destruct (store_phys_open (n - piece0 a n) b1 (split_misaligned_access i (piece0 a n)) s1)
      as (s2 & E2 & Q2 & Hm2 & _); try done.
    { by apply split_info_ok. }
    { by apply Forall_drop. }
    { cbn. by apply second_in_page. }
    { cbn. apply open_wrap. apply (open_sub _ _ _ n); [lia..|]. by apply (open_static s). }
    exists s2. split_and!; [done|by apply (static_trans _ s1)|]. intros j. rewrite Hm2. cbn.
    rewrite stored_put by (rewrite Hl1, Z2Nat.id by lia; by apply second_in_page).
    rewrite put_wrap, (put_ext _ _ _ _ _ Hput0), <- (take_drop (Z.to_nat (piece0 a n)) b), put_app.
    fold b0 b1. by rewrite Hl0, Z2Nat.id by lia.
Qed.

(** *** Loads and stores as instructions on a flat memory *)

Definition le_bytes_of (n v : Z) : list Z := map (fun k => u8 (v >>! (8 * k))) (seqZ 0 n).
Lemma to_target_bytes n v : 0 <= n -> to_target (Z.to_nat n) v = le_bytes_of n v.
Proof using.
  intros Hn. unfold le_bytes_of. apply (nth_ext _ _ 0 0).
  - by rewrite to_target_length, length_map, length_seqZ.
  - intros k Hk. rewrite to_target_length in Hk. rewrite to_target_byte by done.
    rewrite (nth_indep _ 0 (u8 (v >>! (8 * 0)))) by (rewrite length_map, length_seqZ; lia).
    rewrite (map_nth (fun k => u8 (v >>! (8 * k)))), nth_lookup, lookup_seqZ_lt by lia. cbn.
    f_equal; f_equal; lia.
Qed.
Lemma from_target_bytes f a n : 0 <= n -> (forall i, 0 <= f i < 2 ^ 8) ->
  from_target (bytes_of f a n) = le (Z.to_nat n) (fun i => f (pa i)) a.
Proof using.
  intros Hn Hf. rewrite <- (Z2Nat.id n Hn) at 1.
  by apply (from_target_le (fun i => f (pa i)) (Z.to_nat n)).
Qed.

(** The flat machine: the bytes and the reservation. *)
Definition flat : Type := (Z -> Z) * Z.
Definition value (f : Z -> Z) (n a : Z) : Z := le (Z.to_nat n) (fun i => f (pa i)) a.
Definition flat_step (m : flat) (o : access) : Z * flat :=
  let '(f, r) := m in
  match o with
  | Load n a => (value f n a, (f, r))
  | Store n a v => (0, (put f a (le_bytes_of n v), r))
  | LoadReserved n a => (value f n a, (f, pa a))
  | StoreConditional n a v =>
    if r =? pa a then (1, (put f a (le_bytes_of n v), 2 ^ 64 - 1)) else (0, (f, 2 ^ 64 - 1))
  | Amo n a g => (value f n a, (put f a (le_bytes_of n (g (value f n a))), r))
  | CompareAndSwap n a c w =>
    (value f n a, (if value f n a =? c then put f a (le_bytes_of n w) else f, r))
  | _ => (0, m)
  end.
Fixpoint flat_run (os : list access) (m : flat) : list Z * flat :=
  match os with
  | [] => ([], m)
  | o :: os => let '(r, m1) := flat_step m o in let '(rs, m2) := flat_run os m1 in (r :: rs, m2)
  end.

(** An access of open memory that the alignment rules admit. *)
Definition op_open (s : state) (o : access) : Prop :=
  match o with
  | Load n a => 0 <= a < 2 ^ 64 /\ access_size n /\ alignment_ok s a n /\ open s LOAD a n
  | Store n a _ => 0 <= a < 2 ^ 64 /\ access_size n /\ alignment_ok s a n /\ open s STORE a n
  | LoadReserved n a => 0 <= a < 2 ^ 64 /\ access_size n /\ a mod n = 0 /\ open s LOAD a n
  | StoreConditional n a _ => 0 <= a < 2 ^ 64 /\ access_size n /\ a mod n = 0 /\ open s STORE a n
  | Amo n a _ | CompareAndSwap n a _ _ =>
    (0 <= a < 2 ^ 64 /\ access_size n /\ a mod n = 0) /\ open s LOAD a n /\ open s STORE a n
  | _ => False
  end.
Definition untriggered (s : state) : Prop :=
  armed (ext (world s)) OPERATION_LOAD = false /\ armed (ext (world s)) OPERATION_STORE = false.

(** The flat machine a state shows, up to pointwise equality of the bytes. *)
Definition shows (s : state) (m : flat) : Prop :=
  (forall i, mem s i = fst m i) /\ load_reservation_address (world s) = snd m.
Definition fixed (s s1 : state) : Prop :=
  pmp (world s1) = pmp (world s) /\ mseccfg s1 = mseccfg s /\ misaligned (world s1) = misaligned (world s) /\
  same_map (ext (world s)) (ext (world s1)).
Lemma static_fixed s s1 : static s s1 -> fixed s s1.
Proof using. by intros []. Qed.
Lemma fixed_trans s1 s2 s3 : fixed s1 s2 -> fixed s2 s3 -> fixed s1 s3.
Proof using. intros (?&?&?&?) (?&?&?&?). split_and!; try congruence. by eapply same_map_trans. Qed.

Lemma open_fixed s s1 ty a n : fixed s s1 -> open s ty a n -> open s1 ty a n.
Proof using. intros (Ep & Ec & _ & (Em & _)) Ho k Hk. destruct (Ho k Hk). by rewrite Ep, Ec, Em. Qed.
Lemma alignment_fixed s s1 a n : fixed s s1 -> alignment_ok s a n -> alignment_ok s1 a n.
Proof using. intros (_ & _ & Em & _) [Ha|Ha]; [left; by rewrite Em|by right]. Qed.
Lemma op_open_fixed s s1 o : fixed s s1 -> op_open s o -> op_open s1 o.
Proof using.
  intros Hs. destruct o; try done; cbn.
  1,3: intros (Hr & Hn & Hal & Ho);
    exact (conj Hr (conj Hn (conj (alignment_fixed s s1 _ _ Hs Hal) (open_fixed s s1 _ _ _ Hs Ho)))).
  1,2: intros (Hr & Hn & Hal & Ho); exact (conj Hr (conj Hn (conj Hal (open_fixed s s1 _ _ _ Hs Ho)))).
  all: intros (Hr & Hl & Ho); exact (conj Hr (conj (open_fixed s s1 _ _ _ Hs Hl) (open_fixed s s1 _ _ _ Hs Ho))).
Qed.
Lemma untriggered_fixed s s1 : fixed s s1 -> untriggered s -> untriggered s1.
Proof using. intros (_ & _ & _ & (_ & _ & Ea)) [Hl Hst]. split; by rewrite Ea. Qed.

(** From a reference run to the run with the TLB. *)
Lemma by_reference {A} (m m0 : M A) s r s2 : rel priv m m0 -> tlb_ok priv s -> m0 s = (inr r, s2) ->
  exists s1, m s = (inr r, s1) /\ tlb_ok priv s1 /\ erase s1 = erase s2.
Proof using.
  intros Hm K E0. destruct (Hm s s (self_same s K)) as [Hr (He & K1 & _)]. rewrite E0 in Hr, He.
  destruct (m s) as [r1 s1]. cbn [fst snd] in *. subst r1. by exists s1.
Qed.

Lemma erase_fixed s s1 s2 : erase s1 = erase s2 -> fixed s s2 -> fixed s s1.
Proof using.
  intros He (E1 & E2 & E3 & E4). pose proof (f_equal world He) as Hw. cbn in Hw.
  pose proof (f_equal ext Hw) as Ee. pose proof (f_equal pmp Hw) as Ep.
  pose proof (f_equal misaligned Hw) as Em. pose proof (f_equal mseccfg He) as Ec. cbn in *.
  unfold fixed. by rewrite Ee, Ep, Em, Ec.
Qed.
Lemma erase_shows s1 s2 m : erase s1 = erase s2 -> shows s2 m -> shows s1 m.
Proof using.
  intros He [Hm Hr]. pose proof (f_equal world He) as Hw. cbn in Hw.
  pose proof (f_equal ext Hw) as Ee. pose proof (f_equal load_reservation_address Hw) as Er. cbn in *.
  split; unfold mem; by rewrite ?Ee, ?Er.
Qed.

(** A body takes a state that shows [m] to the result [r] and a state that shows [m1]. *)
Definition does {A} (b : M A) (s : state) (r : A) (m1 : flat) : Prop :=
  exists s1, b s = (inr r, s1) /\ tlb_ok priv s1 /\ fixed s s1 /\ shows s1 m1.

Lemma does_bind {A B} (b : M A) (k : A -> M B) s r m1 r2 m2 : does b s r m1 ->
  (forall s1, tlb_ok priv s1 -> fixed s s1 -> shows s1 m1 -> does (k r) s1 r2 m2) -> does (b ≫= k) s r2 m2.
Proof using.
  intros (s1 & E1 & K1 & F1 & S1) Hk. destruct (Hk s1 K1 F1 S1) as (s2 & E2 & K2 & F2 & S2).
  exists s2. split_and!; try done; [|by apply (fixed_trans s s1)|apply S2..].
  unfold mbind, M_bind. by rewrite E1.
Qed.
Lemma does_ret {A} (a : A) s m : tlb_ok priv s -> shows s m -> does (mret a) s a m.
Proof using. intros K S. exists s. split_and!; try done; apply S || apply static_fixed, static_refl. Qed.
Lemma does_when c (b : M unit) s m m1 : tlb_ok priv s -> shows s m ->
  (c = true -> does b s tt m1) -> does (when c b) s tt (if c then m1 else m).
Proof using. intros K S Hb. destruct c; [by apply Hb|by apply does_ret]. Qed.

Lemma shows_value s m n a : shows s m -> 0 <= n -> from_target (bytes_of (mem s) a n) = value (fst m) n a.
Proof using.
  intros [Hm _] Hn. rewrite from_target_bytes by (done || (intros; apply byte_range)).
  apply le_ext. intros k _. apply Hm.
Qed.
Lemma size_pos n : access_size n -> 0 < n.
Proof using. unfold access_size. lia. Qed.

Lemma does_load n a s m : tlb_ok priv s -> untriggered s -> shows s m ->
  0 <= a < 2 ^ 64 -> access_size n -> alignment_ok s a n -> open s LOAD a n ->
  does (load n a no_flags) s (value (fst m) n a) m.
Proof using Hx.
  intros K [Ql _] S Ha Hn Hal Ho. pose proof (size_pos n Hn).
  destruct (load_slow_open a n s K Ha Hn Ql Hal Ho) as (s2 & E2 & [Q2 Hm2]).
  destruct (by_reference (load n a no_flags) (load_ref n a no_flags) s (value (fst m) n a) s2)
    as (s1 & E1 & K1 & He); [by apply rel_load|done| |].
  - unfold load_ref. rewrite (bind_eq _ _ _ _ _ E2). unfold mret, M_ret. by rewrite (shows_value s m) by (done || lia).
  - exists s1. split_and!; [done|done|by apply (erase_fixed _ _ _ He), static_fixed|].
    apply (erase_shows _ _ _ He). destruct S as [S1 S2]. split; [intros i; by rewrite Hm2|].
    by rewrite (static_reservation _ _ Q2).
Qed.

Lemma does_store n a v s m : tlb_ok priv s -> untriggered s -> shows s m ->
  0 <= a < 2 ^ 64 -> access_size n -> alignment_ok s a n -> open s STORE a n ->
  does (store n a v no_flags) s tt (put (fst m) a (le_bytes_of n v), snd m).
Proof using Hx.
  intros K [_ Qs] S Ha Hn Hal Ho. pose proof (size_pos n Hn).
  destruct (store_slow_open a n (to_target (Z.to_nat n) v) s K Ha Hn) as (s2 & E2 & Q2 & Hm2); try done.
  { apply to_target_length. }
  { apply to_target_range. }
  destruct (by_reference (store n a v no_flags) (store_ref n a v no_flags) s tt s2)
    as (s1 & E1 & K1 & He); [by apply rel_store|done|done|].
  exists s1. split_and!; [done|done|by apply (erase_fixed _ _ _ He), static_fixed|].
  apply (erase_shows _ _ _ He). destruct S as [S1 S2]. split.
  - intros i. rewrite Hm2, to_target_bytes by lia. by apply put_ext.
  - by rewrite (static_reservation _ _ Q2).
Qed.

Lemma does_load_reserved n a s m : tlb_ok priv s -> untriggered s -> shows s m ->
  0 <= a < 2 ^ 64 -> access_size n -> a mod n = 0 -> open s LOAD a n ->
  does (load_reserved n a) s (value (fst m) n a) (fst m, pa a).
Proof using Hx.
  intros K [Ql _] S Ha Hn Hal Ho. pose proof (size_pos n Hn).
  set (f := XlateFlags false false true false). assert (Hf : plain f) by done.
  pose (i := AccessInfo a (pa a) priv false f LOAD).
  assert (Hi : info_ok priv i) by (pose proof (pa_range Hx a); split_and!; cbn; rewrite ?pa_idem; done || lia).
  destruct (load_phys_open n i s) as (s1 & E1 & [Q1 Hm1] & K1); try done; [by apply piece_in_page|].
  set (s2 := reserve_if _ _ _) in *. cbn [lr flags i f reserve_if] in s2.
  assert (E2 : load_slow_phys a n f s = (inr (bytes_of (mem s) a n), s2)).
  { unfold load_slow_phys. rewrite (bind_eq _ _ _ _ _ (info_bare Hx priv _ a LOAD f K Ha Hf)). cbv zeta.
    cbn [transformed_vaddr effective_virt is_fetch].
    rewrite (bind_eq _ _ _ tt s) by by apply check_triggers_quiet.
    rewrite aligned_land, pa_aligned, Hal by (done || apply (pa_range Hx)). rewrite Z.eqb_refl.
    rewrite (bind_eq _ _ _ _ _ E1), (bind_eq _ _ _ tt s2); [done|].
    apply (check_data_quiet Hx _ _ _ _ _ n); [done| |].
    - unfold bytes_of. by rewrite length_map, length_seqZ.
    - rewrite <- Ql. apply (armed_static s s1 OPERATION_LOAD Q1). }
  destruct (by_reference (load n a f) (load_ref n a f) s (value (fst m) n a) s2)
    as (s3 & E3 & K3 & He); [by apply rel_load|done| |].
  { unfold load_ref. rewrite (bind_eq _ _ _ _ _ E2). unfold mret, M_ret. by rewrite (shows_value s m) by (done || lia). }
  exists s3. split_and!; [done|done| |].
  - apply (erase_fixed _ _ _ He). apply (static_fixed s s1 Q1).
  - apply (erase_shows _ _ _ He). split; [|done]. intros j. cbn. rewrite <- (proj1 S). apply Hm1.
Qed.

(** The probe of the atomics, and the reservation check, change nothing. *)
Lemma does_probe n a s m : tlb_ok priv s -> shows s m ->
  0 <= a < 2 ^ 64 -> access_size n -> a mod n = 0 -> open s STORE a n ->
  does (store_slow_path a n [] no_flags false true) s tt m.
Proof using Hx.
  intros K S Ha Hn Hal Ho.
  destruct (by_reference (store_slow_path a n [] no_flags false true) (store_slow_phys a n [] no_flags false true)
    s tt s) as (s1 & E1 & K1 & He); [by apply rel_store_slow_path|done| |].
  - unfold store_slow_phys. rewrite (bind_eq _ _ _ _ _ (info_bare Hx priv _ a STORE no_flags K Ha plain_no_flags)).
    cbv zeta. cbn [transformed_vaddr effective_virt is_fetch when].
    rewrite (bind_eq (mret tt) _ s tt s eq_refl), aligned_land, pa_aligned, Hal by (done || apply (pa_range Hx)).
    rewrite Z.eqb_refl. cbn [negb]. set (i := AccessInfo _ _ _ _ _ _).
    assert (Hi : info_ok priv i) by (pose proof (pa_range Hx a); split_and!; cbn; rewrite ?pa_idem; done || lia).
    destruct (translate_open i n s K Hi) as [Et _]; [by apply piece_in_page|done|].
    unfold store_phys. by rewrite (bind_eq _ _ _ _ _ Et).
  - exists s1. split_and!; [done|done| |by apply (erase_shows _ _ _ He)].
    apply (erase_fixed _ _ _ He), static_fixed, static_refl.
Qed.

Lemma does_check_reservation n a s m : tlb_ok priv s -> shows s m ->
  0 <= a < 2 ^ 64 -> access_size n -> a mod n = 0 -> open s STORE a n ->
  does (check_load_reservation a n) s (snd m =? pa a) m.
Proof using Hx.
  intros K S Ha Hn Hal Ho. exists s. split_and!; [|done|apply static_fixed, static_refl|apply S..].
  unfold check_load_reservation. rewrite aligned_land, Hal by done. rewrite Z.eqb_refl. cbn [negb when].
  rewrite (bind_eq (mret tt) _ s tt s eq_refl).
  rewrite (bind_eq _ _ _ _ _ (info_bare Hx priv _ a STORE no_flags K Ha plain_no_flags)). cbn [is_fetch].
  set (i := AccessInfo _ _ _ _ _ _).
  assert (Hi : info_ok priv i) by (pose proof (pa_range Hx a); split_and!; cbn; rewrite ?pa_idem; done || lia).
  destruct (translate_open i 1 s K Hi) as [Et Hm].
  { apply piece_in_page; [by left|apply Z.mod_1_r]. }
  { intros k Hk. apply Ho. pose proof (size_pos n Hn). lia. }
  rewrite (bind_eq _ _ _ _ _ Et). unfold reservable. cbn [vaddr i]. rewrite bind_get. cbn [vaddr i] in Hm. rewrite Hm.
  unfold get_mmu, gets. by rewrite (proj2 S).
Qed.

Lemma does_yield s m : tlb_ok priv s -> shows s m -> does yield_load_reservation s tt (fst m, 2 ^ 64 - 1).
Proof using.
  intros K S. eexists. split; [reflexivity|]. split; [|split].
  - apply (benign_ok priv (with_reservation _)); [apply benign_reservation|done].
  - split_and!; done || apply same_map_refl.
  - split; [apply S|done].
Qed.

Lemma does_store_conditional n a v s m : tlb_ok priv s -> untriggered s -> shows s m ->
  0 <= a < 2 ^ 64 -> access_size n -> a mod n = 0 -> open s STORE a n ->
  does (store_conditional n a v) s (snd m =? pa a)
    (if snd m =? pa a then put (fst m) a (le_bytes_of n v) else fst m, 2 ^ 64 - 1).
Proof using Hx.
  intros K U S Ha Hn Hal Ho. eapply does_bind; [by apply (does_check_reservation n a s m)|].
  intros s1 K1 F1 S1. eapply (does_bind _ _ _ tt (if snd m =? pa a then (put (fst m) a (le_bytes_of n v), snd m) else m)).
  - apply does_when; [done..|]. intros _. apply does_store; try done; [by apply (untriggered_fixed s)|by right|].
    by apply (open_fixed s).
  - intros s2 K2 F2 S2. eapply does_bind; [by apply does_yield|]. intros s3 K3 F3 S3.
    replace (if snd m =? pa a then _ else _) with
      (fst (if snd m =? pa a then (put (fst m) a (le_bytes_of n v), snd m) else m)) by by destruct (snd m =? pa a).
    by apply does_ret.
Qed.

Lemma does_convert {A} (b : M A) s r m : does b s r m -> does (convert_load_traps_to_store_traps b) s r m.
Proof using. intros (s1 & E1 & Hs). exists s1. split; [|done]. unfold convert_load_traps_to_store_traps. by rewrite E1. Qed.

(** What the two atomics share: the probe, the load, then a store of [w]. *)
Lemma does_amo n a g s m : tlb_ok priv s -> untriggered s -> shows s m ->
  0 <= a < 2 ^ 64 -> access_size n -> a mod n = 0 -> open s LOAD a n -> open s STORE a n ->
  does (amo n a (fun lhs => mret (g lhs))) s (value (fst m) n a)
    (put (fst m) a (le_bytes_of n (g (value (fst m) n a))), snd m).
Proof using Hx.
  intros K U S Ha Hn Hal Hl Ho. apply does_convert. eapply does_bind; [by apply (does_probe n a s m)|].
  intros s1 K1 F1 S1. assert (Al : alignment_ok s1 a n) by by right.
  assert (Al2 : forall s, alignment_ok s a n) by by right.
  eapply does_bind; [apply (does_load n a s1 m); try done; [by apply (untriggered_fixed s)|by apply (open_fixed s)]|].
  intros s2 K2 F2 S2. eapply does_bind; [by apply does_ret|]. intros s3 K3 F3 S3.
  assert (F : fixed s s3) by (eapply fixed_trans; [done|]; by eapply fixed_trans).
  eapply does_bind; [apply does_store; try done; [by apply (untriggered_fixed s)|by apply (open_fixed s)]|].
  intros s4 K4 F4 S4. by apply does_ret.
Qed.

Lemma does_compare_and_swap n a c w s m : tlb_ok priv s -> untriggered s -> shows s m ->
  0 <= a < 2 ^ 64 -> access_size n -> a mod n = 0 -> open s LOAD a n -> open s STORE a n ->
  does (amo_compare_and_swap n a c w) s (value (fst m) n a)
    (if value (fst m) n a =? c then put (fst m) a (le_bytes_of n w) else fst m, snd m).
Proof using Hx.
  intros K U S Ha Hn Hal Hl Ho. apply does_convert. eapply does_bind; [by apply (does_probe n a s m)|].
  intros s1 K1 F1 S1. assert (Al : forall s, alignment_ok s a n) by by right.
  eapply does_bind; [apply (does_load n a s1 m); try done; [by apply (untriggered_fixed s)|by apply (open_fixed s)]|].
  intros s2 K2 F2 S2. assert (F : fixed s s2) by by eapply fixed_trans.
  eapply (does_bind _ _ _ tt (if value (fst m) n a =? c then (put (fst m) a (le_bytes_of n w), snd m) else m)).
  - apply does_when; [done..|]. intros _. apply does_store; try done; [by apply (untriggered_fixed s)|].
    by apply (open_fixed s).
  - intros s3 K3 F3 S3. destruct m as [f r]. cbn [fst snd] in *.
    destruct (value f n a =? c); by apply does_ret.
Qed.

Lemma perform_open s o m : tlb_ok priv s -> untriggered s -> shows s m -> op_open s o ->
  does (perform o) s (fst (flat_step m o)) (snd (flat_step m o)).
Proof using Hx.
  intros K U S Ho. destruct m as [f r]. destruct o; try done; cbn [op_open] in Ho; cbn [perform flat_step].
  - destruct Ho as (Ha & Hn & Hal & Ho). by apply (does_load n a s (f, r)).
  - destruct Ho as (Ha & Hn & Hal & Ho). by apply (does_load_reserved n a s (f, r)).
  - destruct Ho as (Ha & Hn & Hal & Ho). eapply does_bind; [by apply (does_store n a v s (f, r))|].
    intros s1 K1 F1 S1. by apply does_ret.
  - destruct Ho as (Ha & Hn & Hal & Ho).
    eapply does_bind; [by apply (does_store_conditional n a v s (f, r))|]. intros s1 K1 F1 S1.
    cbn [fst snd] in *. destruct (r =? pa a); by apply does_ret.
  - destruct Ho as ((Ha & Hn & Hal) & Hl & Ho). by apply (does_amo n a f0 s (f, r)).
  - destruct Ho as ((Ha & Hn & Hal) & Hl & Ho). by apply (does_compare_and_swap n a c w s (f, r)).
Qed.

Lemma run_open os : forall s m, tlb_ok priv s -> untriggered s -> shows s m -> Forall (op_open s) os ->
  fst (run false os s) = map inr (fst (flat_run os m)) /\ shows (snd (run false os s)) (snd (flat_run os m)).
Proof using Hx.
  induction os as [|o os IH]; intros s m K U S Ho; [by split|].
  apply Forall_cons_iff in Ho as [Ho Hos]. cbn [run flat_run].
  destruct (perform_open s o m K U S Ho) as (s1 & E1 & K1 & F1 & S1). rewrite E1.
  destruct (flat_step m o) as [r m1]. cbn [fst snd] in *.
  destruct (IH s1 m1 K1) as [Hr Hm]; [by apply (untriggered_fixed s)|done| |].
  { apply (list.Forall_impl _ _ _ Hos). intros. by apply (op_open_fixed s). }
  destruct (run false os s1), (flat_run os m1). cbn [fst snd map] in *. by subst.
Qed.
End memory.

#[global] Instance ram_memory : memory_laws ram.
Proof.
  refine {| mem_at := fun x a => u8 (byte_at x a) |}; try done.
  - intros. by apply wrap_range.
  - intros x a b i Hb. cbn. destruct (_ && _) eqn:Ei; [|done]. apply wrap_small.
    rewrite list.Forall_forall in Hb. apply Hb. rewrite nth_lookup.
    destruct (b !! Z.to_nat (i - a)) eqn:El; [by apply (list_elem_of_lookup_2 _ _ _ El)|].
    apply lookup_ge_None_1 in El. lia.
Defined.

(** C1: With translation off the MMU is a flat little-endian memory with one
    reservation.  Any sequence of loads, stores, reservations, conditional
    stores, atomics and compare-and-swaps of open memory (in RAM, allowed by
    PMP, without watchpoints), whatever the TLB holds, returns the values and
    leaves the bytes and the reservation of the flat machine [flat_run]:
    misaligned accesses that cross a page are joined from both pages, a store
    is read back, a conditional store succeeds exactly when the reservation is
    for the same physical address, and the reservation is gone after it. *)
Theorem mmu_refines_memory {X} `{memory_laws X} {E : env} priv os (s : state (mmu_t X)) :
  xlen = 32 \/ xlen = 64 -> tlb_ok priv s -> untriggered s -> Forall (op_open priv s) os ->
  let m := (mem s, load_reservation_address (world s)) in
  fst (run false os s) = map inr (fst (flat_run os m)) /\ shows (snd (run false os s)) (snd (flat_run os m)).
Proof.
  intros Hx K U Ho m. by apply (run_open Hx priv os s m).
Qed.

Definition demo_ops : list access :=
  [Store 8 0x80000ffc 0x1122334455667788; Load 4 0x80000ffe; LoadReserved 4 0x80000ffc;
   StoreConditional 4 0x80000ffc 5; StoreConditional 4 0x80000ffc 6; Amo 4 0x80000ffc (fun v => v + 1);
   CompareAndSwap 4 0x80000ffc 6 9; Load 8 0x80000ffc].

(** Two pages of memory and no PMP entries. *)
Definition two_pages : state (mmu_t ram) :=
  with_world (Mmu (replicate 256 (TlbEntry 0 0)) (replicate 256 (2 ^ 64 - 1)) (replicate 256 (2 ^ 64 - 1))
    (replicate 256 (2 ^ 64 - 1)) (2 ^ 64 - 1) false false false None (VmCsrs 0 None 0 0 0 0 0 0 0)
    (PmpUnit (replicate 64 (Pmpaddr 0 0)) 0 2) true 64 (Ram 0x80000 2 (fun a => 0))) (ram_state true).

Lemma two_pages_ok : tlb_ok PRV_M two_pages.
Proof.
  assert (Hb : bare two_pages).
  { constructor; try reflexivity. constructor; try done. cbn [pmpaddr]. apply Forall_replicate.
    constructor; done. }
  constructor; try done; [by intros []|].
  intros ty va Hv Hh. destruct ty; destruct (eq_true_false_abs _ Hh (flushed_tag va Hv)).
Qed.

Lemma two_pages_open ty a n : 0x80000000 <= a -> 0 < n -> a + n <= 0x80002000 -> open PRV_M two_pages ty a n.
Proof.
  intros Ha Hn Hb k Hk. assert (Ep : pa (a + k) = a + k) by
    (unfold pa; cbn [xlen rv64]; apply wrap_small; lia).
  rewrite Ep. split; [|done].
  cbn. unfold ram_in_mem. cbn [base_page pages]. unfold PGSIZE.
  apply andb_true_iff. rewrite Z.leb_le, Z.ltb_lt. Z.to_euclidean_division_equations; lia.
Qed.

Lemma mmu_refines_memory_witness :
  fst (run false demo_ops two_pages) = map inr (fst (flat_run demo_ops (mem two_pages, 2 ^ 64 - 1))).
Proof.
  apply (mmu_refines_memory PRV_M demo_ops two_pages); [by right|apply two_pages_ok|done|].
  repeat apply List.Forall_cons; try apply List.Forall_nil; cbn [op_open];
    split_and!; first [lia | reflexivity | apply two_pages_open; lia | unfold access_size; lia | left; reflexivity].
Defined.

(** The values of the run: the load crosses the page boundary, the second
    conditional store fails. *)
Example demo_ops_run : fst (flat_run demo_ops (fun _ => 0, 2 ^ 64 - 1)) =
  [0; 0x33445566; 0x55667788; 1; 0; 5; 6; 0x1122334400000009].
Proof. vm_compute. reflexivity. Qed.
