(* ===== verification/MmuWalk.v ===== *)
(** * The page table walk

    [walk] of [Mmu.v] for a hart that is not a guest, against the rules of the
    privileged architecture: which leaf the tables give for an address, which
    accesses a leaf allows, and what a successful walk returns and writes. *)

From Stdlib Require Import ZifyBool.
From S2P Require Import Prelude Arith Decode Hart Pmp Mmu MmuTlb.
Local Open Scope cint_scope.

Section walk_spec.
Context {X : Type} `{platform X} {E : env}.
Local Abbreviation M := (M (mmu_t X)).
Local Abbreviation state := (state (mmu_t X)).
Context (addr : Z) (type : access_type) (mode : Z) (vm : vm_info).

(** The slot of the level-[i] table at [base] for the address. *)
Definition slot (i : nat) (base : Z) : Z :=
  base +! (((addr >>! (PGSHIFT + Z.of_nat i * idxbits vm)) &! ((1 <<! idxbits vm) -! 1)) *! ptesize vm).
Definition read_pte (i : nat) (base : Z) : M Z := pte_load (slot i base) addr false type (ptesize vm).

Definition reserved (s : state) (pte : Z) : bool :=
  pte_reserved (extension_enabled s EXT_SVNAPOT) (bit (menvcfg s) MENVCFG_PBMTE) pte.

(** An entry that points to the next table. *)
Definition is_pointer (s : state) (pte : Z) : Prop :=
  reserved s pte = false /\ PTE_TABLE pte = true /\
  bit pte (PTE_D |! PTE_A |! PTE_U |! PTE_N |! PTE_PBMT) = false.

(** [leads s n base i pte base' s']: the tables, read from the state [s] and a
    table of level [n - 1] at [base], lead to the leaf [pte] at level [i] in the
    table at [base'], and reading them left the state [s']. *)
Inductive leads : state -> nat -> Z -> nat -> Z -> Z -> state -> Prop :=
  | leads_leaf s n base pte s' :
      read_pte n base s = (inr pte, s') -> PTE_TABLE pte = false ->
      leads s (S n) base n pte base s'
  | leads_table s n base pte s1 i leaf base' s' :
      read_pte n base s = (inr pte, s1) -> is_pointer s1 pte ->
      leads s1 n (pte_ppn pte <<! PGSHIFT) i leaf base' s' ->
      leads s (S n) base i leaf base' s'.

(** The accesses a leaf allows. *)
Definition allows (s : state) (pte : Z) : bool :=
  let R := bit pte PTE_R in let W := bit pte PTE_W in let X := bit pte PTE_X in
  let sum := bit (sstatus (csrs (world s))) MSTATUS_SUM in
  let mxr := bit (sstatus (csrs (world s))) MSTATUS_MXR in
  let sse := bit (menvcfg s) MENVCFG_SSE in
  bit pte PTE_V &&
  (if bit pte PTE_U then negb (mode =? PRV_S) || (sum && negb (is_fetch type)) else mode =? PRV_S) &&
  match type with
  | FETCH => X && (R || negb W)
  | LOAD => if W && negb R then sse && negb X (* a shadow stack page *) else R || (mxr && X)
  | STORE => R && W
  end.

Definition needed_bits : Z := PTE_A |! (if is_store type then PTE_D else 0).

(** What a walk that found the leaf does: the bits A and D are there, or the
    hardware may set them and has done so. *)
Inductive marks (i : nat) (base pte : Z) (s s' : state) : Prop :=
  | marked : (pte &! needed_bits) = needed_bits -> s' = s -> marks i base pte s s'
  | set_marks : (pte &! needed_bits) <> needed_bits -> bit (menvcfg s) MENVCFG_ADUE = true ->
      pte_store (slot i base) (pte |! needed_bits) addr false type (ptesize vm) s = (inr tt, s') ->
      marks i base pte s s'.

Record grants (i : nat) (pte base p : Z) (s s' : state) : Prop := {
  grants_reserved : reserved s pte = false;
  grants_allows : allows s pte = true;
  grants_aligned : (pte_ppn pte &! ((1 <<! (Z.of_nat i * idxbits vm)) -! 1)) = 0;
  grants_marks : marks i base pte s s';
  grants_page : exists b, leaf_base pte (Z.of_nat i) (Z.of_nat i * idxbits vm) addr = Some b /\
    p = (b |! (addr &! (PGSIZE - 1))) &! ~! (PGSIZE - 1)
}.

(** The chain of conditions of [walk_loop] for a leaf, as one condition. *)
Lemma allows_chain s pte : PTE_TABLE pte = false ->
  let R := bit pte PTE_R in let W := bit pte PTE_W in let X := bit pte PTE_X in
  let sum := bit (sstatus (csrs (world s))) MSTATUS_SUM in
  let mxr := bit (sstatus (csrs (world s)) |! sstatus (csrs (world s))) MSTATUS_MXR in
  let sse := bit (menvcfg s) MENVCFG_SSE in
  let ss_page := negb R && W && negb X in
  allows s pte =
  negb ((if bit pte PTE_U then (mode =? PRV_S) && (is_fetch type || negb sum) else negb (mode =? PRV_S)) ||
        (negb (bit pte PTE_V) || (negb R && W && ((negb sse && negb X) || X))) ||
        (ss_page && (is_store type && negb false)) || (ss_page && is_fetch type) ||
        (((R && W) || X) && false) || leaf_denied type false sse mxr pte).
Proof using.
  intros _. cbv zeta. unfold allows, leaf_denied. rewrite Z.lor_diag.
  destruct type, (bit pte PTE_R), (bit pte PTE_W), (bit pte PTE_X), (bit pte PTE_V), (bit pte PTE_U),
    (bit (sstatus (csrs (world s))) MSTATUS_SUM), (bit (sstatus (csrs (world s))) MSTATUS_MXR),
    (bit (menvcfg s) MENVCFG_SSE), (mode =? PRV_S); reflexivity.
Qed.

(** *** The loop, a step at a time *)

Lemma bind_run {A B} (m : M A) (k : A -> M B) s a s1 : m s = (inr a, s1) -> (m ≫= k) s = k a s1.
Proof using. intros Hm. unfold mbind, M_bind. by rewrite Hm. Qed.
Lemma bind_success {A B} (m : M A) (k : A -> M B) s b s' :
  (m ≫= k) s = (inr b, s') -> exists a s1, m s = (inr a, s1) /\ k a s1 = (inr b, s').
Proof using. unfold mbind, M_bind. destruct (m s) as [[t|a] s1]; [done|eauto]. Qed.

Definition faults (m : M Z) : Prop := forall s, exists t, m s = (inl t, s).
Lemma faults_walk : faults (walk_fault addr type false).
Proof using. intros s. unfold walk_fault, throw_page_fault, throw. eauto. Qed.
Lemma faults_throw t : faults (throw t).
Proof using. intros s. eexists. reflexivity. Qed.

(** A condition of the chain is passed on success. *)
Lemma success_if (c : bool) (m k : M Z) s p s' : faults m ->
  (if c then m else k) s = (inr p, s') <-> c = false /\ k s = (inr p, s').
Proof using. intros Hm. destruct c; [|tauto]. destruct (Hm s) as [t ->]. split; [done|by intros []]. Qed.

Lemma read_pte_run n base (k : Z -> M Z) s : (* the address of the entry is physical: no second stage *)
  (s2xlate addr (slot n base) LOAD type false false true ≫=
    fun a => pte_load a addr false type (ptesize vm) ≫= k) s = (read_pte n base ≫= k) s.
Proof using. reflexivity. Qed.

(** What is left of a walk that found a leaf it may use. *)
Definition finish (n : nat) (base pte : Z) : M Z :=
  when (negb ((pte &! needed_bits) =? needed_bits))
    (s2xlate addr (slot n base) STORE type false false true;;
     pte_store (slot n base) (pte |! needed_bits) addr false type (ptesize vm));;
  match leaf_base pte (Z.of_nat n) (Z.of_nat n * idxbits vm) addr with
  | None => walk_fault addr type false
  | Some b =>
    p ← s2xlate addr (b |! (addr &! ((1 <<! PGSHIFT) -! 1))) type type false false false;
    mret (p &! ~! ((1 <<! PGSHIFT) -! 1))
  end.

Lemma finish_exact n base pte p s s' :
  (negb ((pte &! needed_bits) =? needed_bits) && negb (bit (menvcfg s) MENVCFG_ADUE) = false /\
   finish n base pte s = (inr p, s')) <->
  marks n base pte s s' /\
  exists b, leaf_base pte (Z.of_nat n) (Z.of_nat n * idxbits vm) addr = Some b /\
    p = (b |! (addr &! (PGSIZE - 1))) &! ~! (PGSIZE - 1).
Proof using.
  unfold finish. set (lb := leaf_base _ _ _ _). split.
  - intros [Hc Hf]. apply bind_success in Hf as ([] & s1 & Hm & Hf). destruct lb as [b|]; [|done].
    assert (s1 = s' /\ p = (b |! (addr &! (PGSIZE - 1))) &! ~! (PGSIZE - 1)) as [-> ->].
    { revert Hf. cbn. by intros [= <- <-]. }
    split; [|eauto]. destruct (Z.eqb_spec (pte &! needed_bits) needed_bits) as [E1|E1]; cbn in Hm.
    + apply marked; [done|]. by injection Hm.
    + apply set_marks; [done| |done]. cbn in Hc. by destruct (bit _ _).
  - intros [Hm (b & Eb & ->)]. rewrite Eb. destruct Hm as [E1 ->|E1 Hh Hs].
    + rewrite E1, Z.eqb_refl. by split.
    + rewrite (proj2 (Z.eqb_neq _ _) E1), Hh. split; [done|]. cbn [negb when].
      rewrite (bind_run _ _ s tt s'); [done|]. rewrite <- Hs. reflexivity.
Qed.

Lemma walk_loop_leaf n base pte s s1 p s' : read_pte n base s = (inr pte, s1) -> PTE_TABLE pte = false ->
  walk_loop addr type mode false false false vm (S n) base s = (inr p, s') <-> grants n pte base p s1 s'.
Proof using.
  intros Hr Ht. pose proof (allows_chain s1 pte Ht) as Hall. cbv zeta in Hall.
  cbn [walk_loop]. erewrite (bind_run _ _ s (slot n base) s) by reflexivity.
  erewrite (bind_run _ _ s pte s1 Hr).
  do 6 (erewrite (bind_run _ _ s1 _ s1) by reflexivity; cbv beta). rewrite Ht.
  rewrite !success_if by first [apply faults_walk|apply faults_throw].
  fold needed_bits. fold (slot n base).
  change (sstatus_readvirt (csrs (world s1)) false) with (sstatus (csrs (world s1))).
  pose proof (finish_exact n base pte p s1 s') as Hfin. unfold finish in Hfin. cbv zeta in Hfin |- *.
  rewrite Hfin, negb_false_iff, Z.eqb_eq. clear Hfin Hr. split.
  - intros (Hr & H1 & H2 & H3 & H4 & H5 & H6 & Ha & Hm & Hp). constructor; try done.
    rewrite Hall, H1, H2, H3, H4, H5, H6. reflexivity.
  - intros [Hr Hal Ha Hm Hp]. rewrite Hall, negb_true_iff, !orb_false_iff in Hal.
    destruct Hal as (((((H1 & H2) & H3) & H4) & H5) & H6). rewrite orb_false_iff. tauto.
Qed.

Lemma walk_loop_pointer n base pte s s1 p s' : read_pte n base s = (inr pte, s1) -> PTE_TABLE pte = true ->
  walk_loop addr type mode false false false vm (S n) base s = (inr p, s') <->
  is_pointer s1 pte /\ walk_loop addr type mode false false false vm n (pte_ppn pte <<! PGSHIFT) s1 = (inr p, s').
Proof using.
  intros Hr Ht. cbn [walk_loop]. erewrite (bind_run _ _ s (slot n base) s) by reflexivity.
  erewrite (bind_run _ _ s pte s1 Hr).
  do 6 (erewrite (bind_run _ _ s1 _ s1) by reflexivity; cbv beta). rewrite Ht.
  rewrite !success_if by apply faults_walk. unfold is_pointer, reserved. tauto.
Qed.

Lemma leads_inv n base s pte s1 i leaf base' s2 : read_pte n base s = (inr pte, s1) ->
  leads s (S n) base i leaf base' s2 <->
  if PTE_TABLE pte then is_pointer s1 pte /\ leads s1 n (pte_ppn pte <<! PGSHIFT) i leaf base' s2
  else i = n /\ leaf = pte /\ base' = base /\ s2 = s1.
Proof using.
  intros Er. destruct (PTE_TABLE pte) eqn:Et.
  - split; [|intros [Hp Hl]; by eapply leads_table].
    intros Hl. inversion Hl as [? ? ? ? ? Er' Et'|? ? ? ? ? ? ? ? ? Er' Hp Hl']; subst;
      rewrite Er in Er'; simplify_eq; [congruence|]. done.
  - split; [|intros (-> & -> & -> & ->); by constructor].
    intros Hl. inversion Hl as [? ? ? ? ? Er' Et'|? ? ? ? ? ? ? ? ? Er' (_ & Hp & _) Hl']; subst;
      rewrite Er in Er'; simplify_eq; [done|congruence].
Qed.

(** The walk succeeds exactly when the tables lead to a leaf that grants the access. *)
Lemma walk_loop_exact n : forall base s p s',
  walk_loop addr type mode false false false vm n base s = (inr p, s') <->
  exists i pte base' s1, leads s n base i pte base' s1 /\ grants i pte base' p s1 s'.
Proof using.
  induction n as [|n IH]; intros base s p s'.
  { split; [|by intros (? & ? & ? & ? & Hl & _); inversion Hl].
    cbn [walk_loop]. destruct (faults_walk s) as [t ->]. done. }
  destruct (read_pte n base s) as [[t|pte] s1] eqn:Er.
  { split; [|intros (? & ? & ? & ? & Hl & _); inversion Hl; congruence].
    cbn [walk_loop]. erewrite (bind_run _ _ s (slot n base) s) by reflexivity.
    intros Hf. apply bind_success in Hf as (a & s2 & Hf & _). unfold read_pte in Er. congruence. }
  setoid_rewrite (leads_inv _ _ _ _ _ _ _ _ _ Er). destruct (PTE_TABLE pte) eqn:Et.
  - rewrite (walk_loop_pointer _ _ _ _ _ _ _ Er Et), IH. split.
    + intros (Hp & i & leaf & base' & s2 & Hl & Hg). eauto 10.
    + intros (i & leaf & base' & s2 & [Hp Hl] & Hg). eauto 10.
  - rewrite (walk_loop_leaf _ _ _ _ _ _ _ Er Et). split; [eauto 10|].
    intros (? & ? & ? & ? & (-> & -> & -> & ->) & Hg). done.
Qed.
End walk_spec.

(** ** The page of a leaf *)

Lemma mask_ones k : 0 <= k < 64 -> (1 <<! k) -! 1 = Z.ones k.
Proof.
  intros Hk. rewrite wrap_sub_l, Z.ones_equiv, Z.shiftl_1_l. apply wrap_small.
  pose proof (Z.pow_lt_mono_r 2 k 64). pose proof (Z.pow_pos_nonneg 2 k). lia.
Qed.

Lemma clear_low x k : 0 <= k < 64 -> 0 <= x < 2 ^ 64 ->
  x &! ~! ((1 <<! k) -! 1) = x - x mod 2 ^ k.
Proof.
  intros Hk Hx. rewrite mask_ones by done.
  transitivity (Z.ldiff x (Z.ones k)).
  - apply Z.bits_inj'. intros i Hi. rewrite Z.land_spec, Z.ldiff_spec, wrap_testbit, lnot_spec' by lia.
    destruct (Z.ltb_spec i 64); [done|]. by rewrite (testbit_high 64 x i).
  - rewrite Z.ldiff_ones_r, Z.shiftr_div_pow2, Z.shiftl_mul_pow2 by lia.
    pose proof (Z.div_mod x (2 ^ k)). pose proof (Z.pow_pos_nonneg 2 k). lia.
Qed.

Lemma lor_low x y k : 0 <= k -> x mod 2 ^ k = 0 -> x |! (y mod 2 ^ k) = x + y mod 2 ^ k.
Proof.
  intros Hk Hx. pose proof (Z.pow_pos_nonneg 2 k ltac:(lia) Hk). apply disjoint_lor_add.
  apply Z.bits_inj'. intros i Hi. rewrite Z.land_spec, Z.bits_0.
  destruct (Z.ltb_spec i k).
  - rewrite <- (Z.mod_pow2_bits_low x k i), Hx, Z.bits_0 by lia. done.
  - rewrite (Z.mod_pow2_bits_high y k i) by lia. apply andb_false_r.
Qed.

Lemma pte_ppn_range pte : 0 <= pte_ppn pte < 2 ^ 64.
Proof.
  unfold pte_ppn. apply shiftr_range; [unfold PTE_PPN_SHIFT; lia|].
  apply (land_range 64); [lia|]. by apply wrap_range.
Qed.

(** The page number a leaf of level [i] (a page of [2 ^ k] small pages) gives the
    virtual page number [v]: a superpage keeps the low [k] bits of [v]; a NAPOT leaf, of
    64 KiB, is marked by the lowest bit set of its page number being bit 3, and
    keeps four bits of [v]. *)
Definition leaf_page (pte : Z) (i k v : Z) : option Z :=
  if bit pte PTE_N then
    if (i =? 0) && (pte_ppn pte mod 16 =? 8) then Some (pte_ppn pte - 8 + v mod 16) else None
  else Some (pte_ppn pte + v mod 2 ^ k).

Lemma ctz_is_3 x : 0 < x < 2 ^ 64 -> ctz x = 3 <-> x mod 16 = 8.
Proof.
  intros Hx. destruct (ctz_zeros x Hx) as (Hc & Hm & Hb). split.
  - intros Ec. rewrite Ec in *. change (2 ^ 3) with 8 in Hm.
    apply Z.testbit_true in Hb; [|lia]. change (2 ^ 3) with 8 in Hb. Z.to_euclidean_division_equations; lia.
  - intros E8. destruct (Z.lt_trichotomy (ctz x) 3) as [Hl|[->|Hl]]; [|done|].
    + assert (Hz : Z.testbit x (ctz x) = false); [|congruence].
      rewrite <- (Z.mod_pow2_bits_low x 4) by lia. change (2 ^ 4) with 16. rewrite E8.
      assert (ctz x = 0 \/ ctz x = 1 \/ ctz x = 2) as [->|[->| ->]] by lia; reflexivity.
    + assert (x mod 2 ^ 4 = 0); [|change (2 ^ 4) with 16 in *; lia].
      apply Z.mod_divide; [done|]. transitivity (2 ^ ctz x); [|by apply Z.mod_divide; [lia|]].
      exists (2 ^ (ctz x - 4)). rewrite <- Z.pow_add_r by lia. f_equal. lia.
Qed.

Lemma leaf_base_exact pte i k addr : 0 <= addr < 2 ^ 64 -> 0 <= k < 64 -> (i = 0 -> k = 0) ->
  pte_ppn pte mod 2 ^ k = 0 ->
  leaf_base pte i k addr = option_map (fun q => q <<! PGSHIFT) (leaf_page pte i k (addr / PGSIZE)).
Proof.
  intros Ha Hk Hi Hal. pose proof (pte_ppn_range pte) as Hp. unfold leaf_base, leaf_page, napot_bits.
  change PGSIZE with (2 ^ PGSHIFT). rewrite <- Z.shiftr_div_pow2 by (unfold PGSHIFT; lia).
  set (v := addr >>! PGSHIFT). rewrite !(mask_ones k), !(Z.land_ones v k) by lia. destruct (bit pte PTE_N).
  - destruct (Z.eqb_spec (pte_ppn pte) 0) as [E0|E0].
    { rewrite E0. cbn. by rewrite andb_false_r. }
    destruct (Z.eqb_spec i 0) as [-> |]; [|done]. specialize (Hi eq_refl) as ->. cbn [negb andb orb].
    rewrite Z.mod_1_r, Z.lor_0_r. pose proof (ctz_is_3 (pte_ppn pte) ltac:(lia)) as H3.
    destruct (ctz_zeros (pte_ppn pte) ltac:(lia)) as [Hc _].
    destruct (Z.eqb_spec (ctz (pte_ppn pte) + 1) 0); [lia|].
    destruct (Z.eqb_spec (ctz (pte_ppn pte) + 1) 4), (Z.eqb_spec (pte_ppn pte mod 16) 8); try lia; [|done].
    replace (ctz (pte_ppn pte) + 1) with 4 by lia. cbn [negb andb option_map]. do 2 f_equal.
    rewrite clear_low, mask_ones, Z.land_ones by lia. change (2 ^ 4) with 16 in *.
    rewrite (lor_low _ v 4), e0; [done|lia|]. change (2 ^ 4) with 16. Z.to_euclidean_division_equations; lia.
  - cbn [andb orb negb Z.eqb option_map]. do 2 f_equal. rewrite clear_low, mask_ones, Z.land_ones by lia.
    rewrite !Z.mod_1_r, Z.sub_0_r, Z.lor_0_r, lor_low by (lia || done). done.
Qed.

(** Clearing the offset of a page that starts at a page boundary. *)
Lemma page_start b addr : b mod PGSIZE = 0 -> 0 <= b < 2 ^ 64 ->
  (b |! (addr &! (PGSIZE - 1))) &! ~! (PGSIZE - 1) = b.
Proof.
  intros Hb Hr. change (PGSIZE - 1) with (Z.ones 12). rewrite Z.land_ones by lia.
  change PGSIZE with (2 ^ 12) in Hb. pose proof (Z.mod_pos_bound addr (2 ^ 12) ltac:(lia)).
  rewrite lor_low by (lia || done). change (~! Z.ones 12) with (~! ((1 <<! 12) -! 1)).
  set (r := addr mod 2 ^ 12) in *. clearbody r. change (2 ^ 12) with 4096 in *. change (2 ^ 64) with 18446744073709551616 in *.
  rewrite clear_low; [|lia|]; change (2 ^ 12) with 4096; change (2 ^ 64) with 18446744073709551616;
    Z.to_euclidean_division_equations; lia.
Qed.

(** ** The walk *)

(** A leaf of level [i] in the table at [base] lets the access through to the
    page that starts at [p], and leaves the state [s']. *)
Record leaf_grants {X} `{platform X} (addr : Z) (type : access_type) (mode : Z) (vm : vm_info)
    (i : nat) (pte base p : Z) (s s' : state (mmu_t X)) : Prop := {
  leaf_reserved : reserved s pte = false;
  leaf_allows : allows type mode s pte = true;
  leaf_aligned : pte_ppn pte mod 2 ^ (Z.of_nat i * idxbits vm) = 0;
  leaf_maps : exists q, leaf_page pte (Z.of_nat i) (Z.of_nat i * idxbits vm) (addr / PGSIZE) = Some q /\
    p = q <<! PGSHIFT;
  leaf_marks : marks addr type vm i base pte s s'
}.

Lemma grants_exact {X} `{platform X} addr type mode vm i pte base p (s s' : state (mmu_t X)) :
  0 <= addr < 2 ^ 64 -> 0 <= Z.of_nat i * idxbits vm < 64 ->
  grants addr type mode vm i pte base p s s' <-> leaf_grants addr type mode vm i pte base p s s'.
Proof.
  intros Ha Hk. assert (Hal : pte_ppn pte &! ((1 <<! (Z.of_nat i * idxbits vm)) -! 1) =
    pte_ppn pte mod 2 ^ (Z.of_nat i * idxbits vm)) by (rewrite mask_ones, Z.land_ones by lia; done).
  assert (Hb : pte_ppn pte mod 2 ^ (Z.of_nat i * idxbits vm) = 0 -> forall p,
    (exists b, leaf_base pte (Z.of_nat i) (Z.of_nat i * idxbits vm) addr = Some b /\
       p = (b |! (addr &! (PGSIZE - 1))) &! ~! (PGSIZE - 1)) <->
    exists q, leaf_page pte (Z.of_nat i) (Z.of_nat i * idxbits vm) (addr / PGSIZE) = Some q /\ p = q <<! PGSHIFT).
  { intros H0 p'. rewrite leaf_base_exact by (done || lia || (intros; lia)).
    assert (Hpg : forall q, ((q <<! PGSHIFT) |! (addr &! (PGSIZE - 1))) &! ~! (PGSIZE - 1) = q <<! PGSHIFT).
    { intros q. apply page_start; [|by apply wrap_range]. unfold wrap. rewrite Z.shiftl_mul_pow2 by done.
      change (2 ^ PGSHIFT) with 4096. change PGSIZE with 4096. Z.to_euclidean_division_equations; lia. }
    destruct (leaf_page _ _ _ _) as [q|]; cbn [option_map].
    - split; intros (b & [= <-] & ->); eexists; (split; [done|]); by rewrite Hpg.
    - split; by intros (? & ? & _). }
  split; intros [? ? Hg ? ?]; rewrite ?Hal in Hg; constructor; rewrite ?Hal; try done; by apply Hb.
Qed.

Section levels.
Context {X : Type} `{platform X} {E : env} (addr : Z) (type : access_type) (vm : vm_info).
Lemma leads_level (s : state (mmu_t X)) n base i pte base' s' :
  leads addr type vm s n base i pte base' s' -> (i < n)%nat.
Proof using. induction 1; lia. Qed.
End levels.

(** Bits [va_bits - 1] to [xlen - 1] of the address are equal. *)
Definition canonical {E : env} (vm : vm_info) (addr : Z) : Prop :=
  let b := PGSHIFT + levels vm * idxbits vm - 1 in
  forall j, b <= j < xlen -> Z.testbit addr j = Z.testbit addr b.

Lemma same_bits x w : 0 < w < 64 ->
  (x &! Z.ones w = 0 \/ x &! Z.ones w = Z.ones w) <-> forall j, 0 <= j < w -> Z.testbit x j = Z.testbit x 0.
Proof.
  intros Hw. split.
  - intros Hx j Hj. assert (Hb : forall k, 0 <= k < w -> Z.testbit (x &! Z.ones w) k = Z.testbit x k).
    { intros k Hk. rewrite Z.land_spec, Z.ones_spec_low by lia. apply andb_true_r. }
    rewrite <- !Hb by lia. destruct Hx as [-> | ->]; [by rewrite !Z.bits_0|].
    by rewrite !Z.ones_spec_low by lia.
  - intros Hj. destruct (Z.testbit x 0) eqn:E0; [right|left]; apply Z.bits_inj'; intros k Hk;
      rewrite Z.land_spec, ?Z.bits_0; (destruct (Z.ltb_spec k w); [|by rewrite Z.ones_spec_high, andb_false_r by lia]).
    + by rewrite Hj, Z.ones_spec_low by lia.
    + by rewrite Hj by lia.
Qed.

Lemma canonical_exact {E : env} vm addr : let b := PGSHIFT + levels vm * idxbits vm in
  let mask := (1 <<! (xlen - (b - 1))) -! 1 in let msbs := (addr >>! (b - 1)) &! mask in
  0 < b <= xlen -> xlen - b < 63 ->
  negb (msbs =? 0) && negb (msbs =? mask) = false <-> canonical vm addr.
Proof.
  cbv zeta. unfold canonical. set (b := PGSHIFT + levels vm * idxbits vm). intros Hb Hx.
  rewrite mask_ones, andb_false_iff, !negb_false_iff, !Z.eqb_eq, same_bits by lia. split.
  - intros Hj j Hr. specialize (Hj (j - (b - 1)) ltac:(lia)). rewrite !Z.shiftr_spec in Hj by lia.
    rewrite <- (Z.sub_add (b - 1) j), Hj. done.
  - intros Hj j Hr. rewrite !Z.shiftr_spec by lia. rewrite Hj by lia. done.
Qed.

(** The address spaces of [satp]: Sv32, Sv39, Sv48, Sv57. *)
Lemma decode_vm_shape {E : env} mode satp vm : xlen = 32 \/ xlen = 64 ->
  decode_vm_info xlen false mode satp = Some vm -> 0 < levels vm -> levels vm <= 5 ->
  let b := PGSHIFT + levels vm * idxbits vm in
  0 < b <= xlen /\ xlen - b < 63 /\ 0 < idxbits vm <= 10.
Proof.
  intros Hx Hd Hl H5. unfold decode_vm_info in Hd. cbn [negb andb] in Hd.
  repeat (case_match; [|try discriminate]); simplify_eq; cbn in *; unfold PGSHIFT; try lia.
Qed.

(** C6: The page walk is exact.  For an access that is not a guest's, a
    hypervisor's or a shadow stack's, under Sv32, Sv39, Sv48 or Sv57, [walk]
    returns the page [p] and leaves the state [s'] exactly when the address is
    canonical and the tables in memory lead from the root in [satp], pointer by
    pointer, to a leaf that has no reserved bits, allows the access for this
    privilege, SUM, MXR and shadow-stack setting, is aligned as a superpage, maps the
    address to [p] (as a page, superpage or 64 KiB NAPOT page), and whose
    accessed and dirty bits are set already, or are set by the walk under ADUE.
    Every other walk raises an exception. *)
Theorem walk_exact {X} `{platform X} {E : env} (info : mem_access_info_t) vm (s s' : state (mmu_t X)) p :
  xlen = 32 \/ xlen = 64 ->
  effective_virt info = false -> hlvx (flags info) = false -> ss_access (flags info) = false ->
  0 <= transformed_vaddr info < 2 ^ 64 ->
  decode_vm_info xlen false (effective_priv info) (satp (csrs (world s))) = Some vm ->
  0 < levels vm -> levels vm <= 5 ->
  let addr := transformed_vaddr info in
  walk info s = (inr p, s') <->
  canonical vm addr /\
  exists i pte base s1,
    leads addr (type info) vm s (Z.to_nat (levels vm)) (ptbase vm) i pte base s1 /\
    leaf_grants addr (type info) (effective_priv info) vm i pte base p s1 s'.
Proof.
  intros Hx Hv Hh Hs Ha Hd Hl H5 addr. destruct (decode_vm_shape _ _ _ Hx Hd Hl H5) as (Hb & Hb' & Hi).
  unfold walk. fold addr. rewrite Hv, Hh, Hs, (bind_run _ _ s (satp (csrs (world s))) s), Hd by done.
  cbn [andb]. replace (levels vm =? 0) with false by lia.
  pose proof (canonical_exact vm addr Hb Hb') as Hc. cbv zeta in Hc |- *. case_match eqn:Ec.
  - change (walk_loop addr (type info) (effective_priv info) false false false vm (Z.to_nat 0) (ptbase vm) s)
      with (walk_fault addr (type info) false s). destruct (faults_walk addr (type info) s) as [t ->].
    split; [done|]. intros [Hcan _]. by apply Hc in Hcan.
  - pose proof (proj1 Hc eq_refl) as Hcan. rewrite walk_loop_exact. split.
    + intros (i & pte & base & s1 & Hle & Hg). split; [done|]. exists i, pte, base, s1. split; [done|].
      apply leads_level in Hle as Hlt. apply grants_exact; [done|nia|done].
    + intros (_ & i & pte & base & s1 & Hle & Hg). exists i, pte, base, s1. split; [done|].
      apply leads_level in Hle as Hlt. apply grants_exact; [done|nia|done].
Qed.

(** Three levels of tables at [0x80000000], and a page at [0x80003000] that may be
    read and written but is not yet marked as accessed. *)
Definition walk_demo_word (a : Z) : Z :=
  if a =? 0x80000008 then 0x20000401 else if a =? 0x80001008 then 0x20000801
  else if a =? 0x80002008 then 0x20000c07 else 0.
Definition walk_demo (adue : bool) : state (mmu_t ram) :=
  State (replicate 32 0) 0 0 PRV_S false false false (DcsrBits false false false false false)
    (if adue then MENVCFG_ADUE else 0) 0 0 0 (fun _ => true)
    (flush_tlb (Mmu (replicate 256 (TlbEntry 0 0)) [] [] [] (2 ^ 64 - 1) false false false None
       (VmCsrs 0 None 0 0 0x8000000000080000 0 0 0 0) (PmpUnit [] 0 2) true 64
       (Ram 0x80000 4 (fun a => (walk_demo_word (a - a mod 8) >>! (8 * (a mod 8))) mod 256)))).
Definition walk_demo_info : mem_access_info_t := AccessInfo 0x40201abc 0x40201abc PRV_S false no_flags STORE.

(** Without ADUE the store faults; with it the leaf is marked accessed and dirty. *)
Example walk_demo_run :
  fst (walk walk_demo_info (walk_demo false)) = inl (trap_store_page_fault false 0x40201abc 0 0) /\
  fst (walk walk_demo_info (walk_demo true)) = inr 0x80003000 /\
  from_target (ram_read (ext (world (snd (walk walk_demo_info (walk_demo true))))) 0x80002008 8) = 0x20000cc7.
Proof. split_and!; vm_compute; reflexivity. Qed.

Lemma walk_exact_witness :
  exists i pte base s1,
    leads 0x40201abc STORE (VmInfo 3 9 0 8 0x80000000) (walk_demo true) 3 0x80000000 i pte base s1 /\
    leaf_grants 0x40201abc STORE PRV_S (VmInfo 3 9 0 8 0x80000000) i pte base 0x80003000 s1
      (snd (walk walk_demo_info (walk_demo true))).
Proof.
  refine (proj2 (proj1 (walk_exact walk_demo_info (VmInfo 3 9 0 8 0x80000000) (walk_demo true)
    (snd (walk walk_demo_info (walk_demo true))) 0x80003000 _ _ _ _ _ _ _ _) _));
    [by right|done|done|done|by split|vm_compute; reflexivity|done|done|].
  rewrite (surjective_pairing (walk walk_demo_info (walk_demo true))) at 1.
  apply f_equal2; [vm_compute; reflexivity|reflexivity].
Defined.
