(* ===== verification/MmuFrame.v ===== *)
(** * What the MMU leaves alone

    A unary logic of frames: a body that only changes the world of a hart (memory,
    TLB, reservation, devices), and what can be said of its result.  Every
    operation of [Mmu.v] is such a body; a load of [n] bytes gives a value of [n]
    bytes.  [WellFormed.v] and [Zcmp.v] build on it. *)

From Stdlib Require Import ZifyBool.
From S2P Require Import Prelude Arith Decode Hart Pmp Mmu.
Local Open Scope cint_scope.

(** [n] values of type [uint8_t]. *)
Definition bytes_n (n : Z) (b : list Z) : Prop := length b = Z.to_nat n /\ Forall (fun x => 0 <= x < 2 ^ 8) b.
(** The platform hands out bytes, as many as asked for. *)
Definition typed_platform (X : Type) `{platform X} : Prop :=
  (forall x a n, bytes_n n (host_read x a n)) /\
  (forall x a n b, fst (sim_mmio_load x a n) = Some b -> bytes_n n b).

Lemma bytes_n_app n m a b : 0 <= n -> 0 <= m -> bytes_n n a -> bytes_n m b -> bytes_n (n + m) (a ++ b).
Proof.
  intros Hn Hm [La Fa] [Lb Fb]. split; [|by apply Forall_app].
  rewrite length_app, La, Lb. lia.
Qed.

Lemma from_target_range n b : bytes_n n b -> 0 <= from_target b < 2 ^ (8 * Z.of_nat (Z.to_nat n)).
Proof.
  intros [<- Fb]. induction Fb as [|x b Hx Fb IH]; [done|].
  cbn [from_target length]. rewrite Z.lor_comm, (lor_shiftl_add 8) by lia.
  replace (8 * Z.of_nat (S (length b))) with (8 * Z.of_nat (length b) + 8) by lia. rewrite Z.pow_add_r by lia.
  set (v := from_target b) in *. set (P := 2 ^ (8 * Z.of_nat (length b))) in *. change (2 ^ 8) with 256 in *. nia.
Qed.

Create HintDb frame.

Section frame.
Context {X : Type} `{platform X} {E : env}.
Local Abbreviation M := (M (mmu_t X)).
Local Abbreviation state := (state (mmu_t X)).

Definition frame {A} (m : M A) (Q : A -> Prop) : Prop := forall s,
  snd (m s) = with_world (world (snd (m s))) s /\ forall a, fst (m s) = inr a -> Q a.
Local Abbreviation keeps m := (frame m (fun _ => True)).

Lemma frame_ret {A} (a : A) (Q : A -> Prop) : Q a -> frame (mret a) Q.
Proof using. intros Ha s. split; [by destruct s|]. cbn. by intros ? [= <-]. Qed.
Lemma frame_throw {A} t (Q : A -> Prop) : frame (throw t) Q.
Proof using. intros s. split; [by destruct s|done]. Qed.
Lemma frame_weaken {A} (m : M A) (R Q : A -> Prop) : frame m R -> (forall a, R a -> Q a) -> frame m Q.
Proof using. intros Hm HQ s. destruct (Hm s). split; auto. Qed.
Lemma frame_bind {A B} (m : M A) (k : A -> M B) R Q :
  frame m R -> (forall a, R a -> frame (k a) Q) -> frame (m ≫= k) Q.
Proof using.
  intros Hm Hk s. destruct (Hm s) as [Hs Hr]. unfold mbind, M_bind.
  destruct (m s) as [[t|a] s1]; cbn [fst snd] in *; [by split|].
  destruct (Hk a (Hr a eq_refl) s1) as [Hs1 Hr1]. split; [|done]. rewrite Hs1, Hs. reflexivity.
Qed.
Lemma frame_seq {A B} (m : M A) (k : A -> M B) Q : keeps m -> (forall a, frame (k a) Q) -> frame (m ≫= k) Q.
Proof using. intros Hm Hk. eapply frame_bind; [apply Hm|]. auto. Qed.
Lemma frame_gets {A} (f : state -> A) (Q : A -> Prop) : (forall s, Q (f s)) -> frame (gets f) Q.
Proof using. intros HQ s. split; [by destruct s|]. cbn. by intros ? [= <-]. Qed.
Lemma frame_get_mmu {A} (f : mmu_t X -> A) (Q : A -> Prop) : (forall m, Q (f m)) -> frame (get_mmu f) Q.
Proof using. intros HQ. by apply frame_gets. Qed.
Lemma frame_modify_mmu f (Q : unit -> Prop) : Q tt -> frame (modify_mmu f) Q.
Proof using. intros HQ s. split; [done|]. by intros []. Qed.
Lemma frame_ext_op {A} (f : X -> A * X) (Q : A -> Prop) : (forall x, Q (fst (f x))) -> frame (ext_op f) Q.
Proof using. intros HQ s. split; [done|]. cbn. by intros ? [= <-]. Qed.
Lemma frame_if {A} (c : bool) (m n : M A) Q : frame m Q -> frame n Q -> frame (if c then m else n) Q.
Proof using. by destruct c. Qed.
Lemma frame_when (c : bool) (m : M unit) : keeps m -> keeps (when c m).
Proof using. intros. apply frame_if; [done|by apply frame_ret]. Qed.
Lemma frame_keeps {A} (m : M A) Q : frame m Q -> keeps m.
Proof using. intros Hm. by apply (frame_weaken m Q). Qed.

(** Takes a body apart; a result is forgotten. *)
Ltac frame_step :=
  match goal with
  | |- frame (if _ then _ else _) _ => apply frame_if
  | |- frame (when _ _) _ => apply frame_when
  | |- frame (mret _) _ => apply frame_ret
  | |- frame (throw _) _ => apply frame_throw
  | |- frame (gets _) _ => apply frame_gets; intros
  | |- frame (get_mmu _) _ => apply frame_get_mmu; intros
  | |- frame (modify_mmu _) _ => apply frame_modify_mmu
  | |- frame (ext_op _) _ => apply frame_ext_op; intros
  | |- frame (match ?o with _ => _ end) _ => destruct o
  | |- frame (_ ≫= _) _ => apply frame_seq; [|intros]
  end.
Ltac frames := repeat (first [by auto with frame | frame_step | done]).

Lemma frame_throw_access {A} v a ty (Q : A -> Prop) : frame (throw_access_exception v a ty) Q.
Proof using. apply frame_throw. Qed.
Lemma frame_throw_page {A} v a ty (Q : A -> Prop) : frame (throw_page_fault v a ty) Q.
Proof using. apply frame_throw. Qed.
Lemma frame_throw_guest {A} a p t ty (Q : A -> Prop) : frame (throw_guest_page_fault a p t ty) Q.
Proof using. apply frame_throw. Qed.
Lemma frame_abort {A} (Q : A -> Prop) : frame abort Q.
Proof using. apply frame_throw. Qed.
Lemma frame_ext_enabled e : keeps (ext_enabled e).
Proof using. by apply frame_gets. Qed.
Lemma frame_pmp_check a l ty m h : keeps (pmp_check a l ty m h).
Proof using. by apply frame_gets. Qed.
Lemma frame_mmio_ok a : keeps (mmio_ok a).
Proof using. by apply frame_gets. Qed.
#[local] Hint Resolve frame_throw frame_throw_access frame_throw_page frame_throw_guest frame_abort
  frame_ext_enabled frame_pmp_check frame_mmio_ok : frame.

(** The bytes of a device, when the platform is typed. *)
Definition maybe_bytes (n : Z) (o : option (list Z)) : Prop :=
  typed_platform X -> forall b, o = Some b -> bytes_n n b.
Definition are_bytes (n : Z) (b : list Z) : Prop := typed_platform X -> bytes_n n b.

Lemma frame_mmio_load_bytes n : forall a, frame (mmio_load_bytes n a) (maybe_bytes (Z.of_nat n)).
Proof using.
  induction n as [|n IH]; intros a; cbn [mmio_load_bytes].
  - apply frame_ret. intros _ b [= <-]. by split.
  - apply frame_seq; [auto with frame|]. intros ok. apply frame_if; [by apply frame_ret|].
    apply (frame_bind _ _ (maybe_bytes 1)).
    { apply frame_ext_op. intros x Ht b. by apply (proj2 Ht). }
    intros [b|] Hb; [|by apply frame_ret]. eapply frame_bind; [apply IH|]. intros r Hr. apply frame_ret.
    intros Ht b' Hb'. destruct r as [r|]; [|done]. injection Hb' as <-.
    replace (Z.of_nat (S n)) with (1 + Z.of_nat n) by lia.
    apply bytes_n_app; [lia|lia|by apply Hb|by apply Hr].
Qed.

Lemma frame_mmio_load a n : 0 <= n -> frame (mmio_load a n) (maybe_bytes n).
Proof using.
  intros Hn. apply frame_if.
  - apply frame_seq; [auto with frame|]. intros ok. apply frame_if; [by apply frame_ret|].
    apply frame_ext_op. intros x Ht b. by apply (proj2 Ht).
  - rewrite <- (Z2Nat.id n) at 2 by done. apply frame_mmio_load_bytes.
Qed.
Lemma frame_mmio_load_any a n : keeps (mmio_load a n).
Proof using.
  apply frame_if; [|eapply frame_keeps, frame_mmio_load_bytes]. frames.
Qed.
Lemma frame_mmio_store_bytes b : forall a, keeps (mmio_store_bytes b a).
Proof using. induction b; intros a'; cbn [mmio_store_bytes]; frames. Qed.
#[local] Hint Resolve frame_mmio_load_any frame_mmio_store_bytes : frame.
Lemma frame_mmio_store a b : keeps (mmio_store a b).
Proof using. unfold mmio_store. frames. Qed.
#[local] Hint Resolve frame_mmio_store : frame.
Lemma frame_pte_load p a v t n : keeps (pte_load p a v t n).
Proof using. unfold pte_load. frames. Qed.
Lemma frame_pte_store p w a v t n : keeps (pte_store p w a v t n).
Proof using. unfold pte_store. frames. Qed.
#[local] Hint Resolve frame_pte_load frame_pte_store : frame.

(** ** Translation *)

Lemma frame_s2_loop g p ty tt' v h fv vm n : forall base, keeps (s2_loop g p ty tt' v h fv vm n base).
Proof using.
  induction n as [|n IH]; intros base; cbn [s2_loop]; [apply frame_throw|].
  apply frame_seq; [auto with frame|]. intros pte. cbv zeta. unfold s2_fault, leaf_base. frames.
Qed.
#[local] Hint Resolve frame_s2_loop : frame.
Lemma frame_s2xlate g p ty tt' v h fv : keeps (s2xlate g p ty tt' v h fv).
Proof using. unfold s2xlate, s2_fault. frames. Qed.
#[local] Hint Resolve frame_s2xlate : frame.
Lemma frame_walk_loop a ty md v h ss vm n : forall base, keeps (walk_loop a ty md v h ss vm n base).
Proof using.
  induction n as [|n IH]; intros base; cbn [walk_loop]; [apply frame_throw|].
  do 2 (apply frame_seq; [auto with frame|intros]). cbv zeta. unfold walk_fault, walk_cfg, leaf_base. frames.
Qed.
#[local] Hint Resolve frame_walk_loop : frame.
Lemma frame_walk i : keeps (walk i).
Proof using. unfold walk. frames. Qed.
#[local] Hint Resolve frame_walk : frame.
Lemma frame_translate i n : keeps (translate i n).
Proof using. unfold translate. frames. Qed.
Lemma frame_access_info a ty f : keeps (generate_access_info a ty f).
Proof using.
  intros s. split; [|done]. unfold generate_access_info. destruct (access_mode ty f s) as [mode v].
  destruct (is_fetch ty); [by destruct s|]. destruct (get_pmlen v mode f s); by destruct s.
Qed.
#[local] Hint Resolve frame_translate frame_access_info : frame.

(** ** Triggers and the TLB *)

Lemma frame_check_triggers op a v t d : keeps (check_triggers op a v t d).
Proof using. unfold check_triggers. frames. Qed.
#[local] Hint Resolve frame_check_triggers : frame.
Lemma frame_check_data_triggers op a v n : forall b, keeps (check_data_triggers n op a v b).
Proof using. induction n as [|n IH]; intros b; cbn [check_data_triggers]; [apply frame_throw|]. frames. Qed.
Lemma frame_check_data op a v b : keeps (check_data op a v b).
Proof using. apply frame_check_data_triggers. Qed.
Lemma frame_refill_tlb va p h ty : keeps (refill_tlb va p h ty).
Proof using.
  intros s. split; [|done]. unfold refill_tlb. destruct (in_mprv s); [by destruct s|].
  destruct (pmp_homogeneous _ _ _); [done|by destruct s].
Qed.
Lemma frame_simulate p w : keeps (simulate p w).
Proof using. by apply frame_modify_mmu. Qed.
Lemma frame_write_mem a b : keeps (write_mem a b).
Proof using. by apply frame_modify_mmu. Qed.
Lemma frame_trace a n ty : keeps (trace_access a n ty).
Proof using. by apply frame_modify_mmu. Qed.
Lemma frame_read_mem a n : frame (read_mem a n) (are_bytes n).
Proof using. apply frame_get_mmu. intros m Ht. apply (proj1 Ht). Qed.
Lemma frame_read_mem_any a n : keeps (read_mem a n).
Proof using. by apply frame_get_mmu. Qed.
Lemma frame_reservable a : keeps (reservable a).
Proof using. by apply frame_get_mmu. Qed.
Lemma frame_interested a b ty : keeps (interested a b ty).
Proof using. by apply frame_get_mmu. Qed.
Lemma frame_misaligned : keeps is_misaligned_enabled.
Proof using. by apply frame_get_mmu. Qed.
#[local] Hint Resolve frame_check_data frame_refill_tlb frame_simulate frame_write_mem frame_trace
  frame_read_mem_any frame_reservable frame_interested frame_misaligned : frame.

(** ** Loads *)

Lemma frame_load_intrapage n i : 0 <= n -> frame (load_slow_path_intrapage n i) (are_bytes n).
Proof using.
  intros Hn. unfold load_slow_path_intrapage. apply frame_seq; [frames|]. intros hit. apply frame_if.
  - apply frame_seq; [frames|]. intros e. eapply frame_bind; [apply frame_read_mem|]. intros b Hb.
    apply frame_seq; [frames|]. intros _u. by apply frame_ret.
  - apply frame_seq; [frames|]. intros paddr. apply frame_seq; [frames|]. intros r.
    apply frame_if; [frames|]. apply frame_seq; [frames|]. intros mm.
    apply (frame_bind _ _ (are_bytes n)).
    + apply frame_if.
      * eapply frame_bind; [apply frame_read_mem|]. intros b Hb. apply frame_seq; [frames|]. intros tr.
        apply frame_seq; [frames|]. intros _u. by apply frame_ret.
      * eapply frame_bind; [by apply frame_mmio_load|]. intros [b|] Hb; [|frames].
        apply frame_ret. intros Ht. by apply Hb.
    + intros b Hb. apply frame_seq; [frames|]. intros _u. apply frame_seq; [frames|]. intros _v. by apply frame_ret.
Qed.

Lemma frame_load_slow_path a n f : 0 <= n -> frame (load_slow_path a n f) (are_bytes n).
Proof using.
  intros Hn. unfold load_slow_path. apply frame_seq; [frames|]. intros i.
  apply frame_seq; [frames|]. intros _u. apply (frame_bind _ _ (are_bytes n)).
  - apply frame_if; [by apply frame_load_intrapage|]. apply frame_seq; [frames|]. intros mis.
    apply frame_if; [frames|]. apply frame_if; [frames|]. cbv zeta.
    set (n0 := Z.min n _). assert (H0 : 0 <= n0) by (unfold n0, PGSIZE; Z.to_euclidean_division_equations; lia).
    assert (Hle : n0 <= n) by (unfold n0; lia).
    eapply frame_bind; [by apply frame_load_intrapage|]. intros b0 Hb0.
    destruct (Z.eqb_spec n0 n) as [->|]; [by apply frame_ret|].
    eapply frame_bind; [apply frame_load_intrapage; lia|]. intros b1 Hb1. apply frame_ret. intros Ht.
    replace n with (n0 + (n - n0)) by lia. apply bytes_n_app; [lia|lia|by apply Hb0|by apply Hb1].
  - intros b Hb. apply frame_seq; [frames|]. intros _v. by apply frame_ret.
Qed.

(** The value of a load of [n] bytes. *)
Definition is_value (n : Z) (v : Z) : Prop := typed_platform X -> 0 <= v < 2 ^ (8 * n).
Lemma are_value n b : 0 <= n -> are_bytes n b -> is_value n (from_target b).
Proof using. intros Hn Hb Ht. rewrite <- (Z2Nat.id n) by done. by apply from_target_range, Hb. Qed.

Lemma frame_load n a f : 0 <= n -> frame (load n a f) (is_value n).
Proof using.
  intros Hn. unfold load. apply frame_seq; [frames|]. intros hit. apply frame_if.
  - apply frame_seq; [frames|]. intros e. eapply frame_bind; [apply frame_read_mem|]. intros b Hb.
    apply frame_seq; [frames|]. intros _u. apply frame_ret. by apply are_value.
  - eapply frame_bind; [by apply frame_load_slow_path|]. intros b Hb. apply frame_ret. by apply are_value.
Qed.
Lemma frame_ss_aligned n a : keeps (ss_aligned n a).
Proof using. intros s. split; [|done]. unfold ss_aligned. case_match; by destruct s. Qed.
Lemma frame_ss_load n a : 0 <= n -> frame (ss_load n a) (is_value n).
Proof using. intros Hn. apply frame_seq; [apply frame_ss_aligned|]. intros _u. by apply frame_load. Qed.

(** ** Stores, atomics, cache blocks, reservations *)

Lemma frame_store_intrapage n b i act : keeps (store_slow_path_intrapage n b i act).
Proof using. unfold store_slow_path_intrapage. frames. Qed.
#[local] Hint Resolve frame_store_intrapage frame_ss_aligned : frame.
Lemma frame_store_slow_path a n b f act al : keeps (store_slow_path a n b f act al).
Proof using. unfold store_slow_path. frames. Qed.
#[local] Hint Resolve frame_store_slow_path : frame.
Lemma frame_store n a v f : keeps (store n a v f).
Proof using. unfold store. frames. Qed.
#[local] Hint Resolve frame_store : frame.
Lemma frame_ss_store n a v : keeps (ss_store n a v).
Proof using. unfold ss_store. frames. Qed.

Lemma frame_convert {A} (m : M A) Q : frame m Q -> frame (convert_load_traps_to_store_traps m) Q.
Proof using.
  intros Hm s. destruct (Hm s) as [Hs Hr]. unfold convert_load_traps_to_store_traps.
  by destruct (m s) as [[t|a] s1].
Qed.
Lemma frame_amo n a f : 0 <= n -> (forall v, keeps (f v)) -> frame (amo n a f) (is_value n).
Proof using.
  intros Hn Hf. apply frame_convert. apply frame_seq; [frames|]. intros _u.
  eapply frame_bind; [by apply frame_load|]. intros v Hv. apply frame_seq; [apply Hf|]. intros w.
  apply frame_seq; [frames|]. intros _v. by apply frame_ret.
Qed.
Lemma frame_ssamoswap n a v : 0 <= n -> frame (ssamoswap n a v) (is_value n).
Proof using.
  intros Hn. apply frame_seq; [frames|]. intros _u. eapply frame_bind; [by apply frame_load|]. intros w Hw.
  apply frame_seq; [frames|]. intros _v. by apply frame_ret.
Qed.
Lemma frame_compare_and_swap n a c w : 0 <= n -> frame (amo_compare_and_swap n a c w) (is_value n).
Proof using.
  intros Hn. apply frame_convert. apply frame_seq; [frames|]. intros _u.
  eapply frame_bind; [by apply frame_load|]. intros v Hv. apply frame_seq; [frames|]. intros _v. by apply frame_ret.
Qed.
Lemma frame_zero_block n b v : forall o, keeps (zero_block n b o v).
Proof using. induction n; intros o; cbn [zero_block]; frames. Qed.
Lemma frame_check_block n b v : forall o, keeps (check_block n b o v).
Proof using. induction n; intros o; cbn [check_block]; frames. Qed.
#[local] Hint Resolve frame_zero_block frame_check_block frame_convert : frame.
Lemma frame_cbo_zero a : keeps (Mmu.cbo_zero a).
Proof using. unfold Mmu.cbo_zero. frames. Qed.
Lemma frame_clean_inval a c i : keeps (clean_inval a c i).
Proof using. unfold clean_inval. do 4 (apply frame_seq; [frames|intros]). apply frame_convert. frames. Qed.
Lemma frame_check_load_reservation a n : keeps (check_load_reservation a n).
Proof using. unfold check_load_reservation. frames. Qed.
Lemma frame_yield : keeps yield_load_reservation.
Proof using. by apply frame_modify_mmu. Qed.
#[local] Hint Resolve frame_check_load_reservation frame_yield : frame.
Lemma frame_store_conditional n a v : keeps (store_conditional n a v).
Proof using. unfold store_conditional. frames. Qed.

(** ** Fetches *)

Lemma frame_fetched a e : keeps (fetched a e).
Proof using. unfold fetched. frames. Qed.
#[local] Hint Resolve frame_fetched : frame.
Lemma frame_fetch_slow_path a : keeps (fetch_slow_path a).
Proof using. unfold fetch_slow_path, mmio_fetch. frames. Qed.
#[local] Hint Resolve frame_fetch_slow_path : frame.
Lemma frame_translate_insn_addr a : keeps (translate_insn_addr a).
Proof using. unfold translate_insn_addr. frames. Qed.
#[local] Hint Resolve frame_translate_insn_addr : frame.
Lemma frame_fetch_parcel a : keeps (fetch_parcel a).
Proof using. unfold fetch_parcel. frames. Qed.
#[local] Hint Resolve frame_fetch_parcel : frame.
Lemma frame_refill_icache a : keeps (refill_icache a).
Proof using. unfold refill_icache. frames. Qed.
Lemma frame_fetch_jump_table n a : keeps (fetch_jump_table n a).
Proof using. unfold fetch_jump_table. frames. Qed.
End frame.

(** ** Consequences *)

Section consequences.
Context {X : Type} `{platform X} {E : env}.

Lemma frame_XPR {A} (m : M (mmu_t X) A) Q s : frame m Q -> XPR (snd (m s)) = XPR s.
Proof using. intros Hm. destruct (Hm s) as [-> _]. done. Qed.
Lemma frame_npc {A} (m : M (mmu_t X) A) Q s : frame m Q -> npc (snd (m s)) = npc s.
Proof using. intros Hm. destruct (Hm s) as [-> _]. done. Qed.
(** A frame preserves the well-formedness of the hart. *)
Lemma frame_yields {A} (m : M (mmu_t X) A) Q : frame m Q -> yields xlen m Q.
Proof using.
  intros Hm s Hs. destruct (Hm s) as [Hk Hr]. split; [|done]. rewrite Hk. by destruct Hs.
Qed.
End consequences.
