(* ===== verification/InsnsA.v ===== *)
(** * Memory instructions: [src/riscv/insns/]

    The loads, stores, atomics, hypervisor accesses and cache-block operations:
    one definition per instruction file, over the MMU of [Mmu.v].  Each body
    reads its registers, makes one call of the MMU and writes its result; the
    theorems that tie them to memory are in [Memory.v]. *)

From Stdlib Require Import ZifyBool.
From S2P Require Import Prelude Arith Decode Hart Pmp Mmu.
Local Open Scope cint_scope.

Definition HSTATUS_HU : Z := 0x00000200.
Definition MENVCFG_CBIE : Z := 0x00000030.
Definition MENVCFG_CBCFE : Z := 0x00000040.
Definition MENVCFG_CBZE : Z := 0x00000080.

Section insns.
Context {X : Type} `{platform X} {E : env}.
Local Abbreviation M := (M (mmu_t X)).

(** ** Loads and stores: [RVI] *)

Definition lb : M unit :=
  WRITE_RD (a ← RS1; v ← load 1 (a +! insn_i_imm insn) no_flags; mret (s8 v)).

Definition lbu : M unit :=
  WRITE_RD (a ← RS1; v ← load 1 (a +! insn_i_imm insn) no_flags; mret v).

Definition lh : M unit :=
  WRITE_RD (a ← RS1; v ← load 2 (a +! insn_i_imm insn) no_flags; mret (s16 v)).

Definition lhu : M unit :=
  WRITE_RD (a ← RS1; v ← load 2 (a +! insn_i_imm insn) no_flags; mret v).

Definition lw : M unit :=
  WRITE_RD (a ← RS1; v ← load 4 (a +! insn_i_imm insn) no_flags; mret (s32 v)).

Definition lwu : M unit :=
  require_rv64;; WRITE_RD (a ← RS1; load 4 (a +! insn_i_imm insn) no_flags).

Definition ld : M unit :=
  z ← ext_enabled EXT_ZILSD;
  require ((xlen =? 64) || z);;
  let value := a ← RS1; v ← load 8 (a +! insn_i_imm insn) no_flags; mret (s64 v) in
  if xlen =? 32 then WRITE_RD_PAIR value else WRITE_RD value.

Definition sb : M unit :=
  a ← RS1; b ← RS2; store 1 (a +! insn_s_imm insn) b no_flags.

Definition sh : M unit :=
  a ← RS1; b ← RS2; store 2 (a +! insn_s_imm insn) b no_flags.

Definition sw : M unit :=
  a ← RS1; b ← RS2; store 4 (a +! insn_s_imm insn) b no_flags.

Definition sd : M unit :=
  z ← ext_enabled EXT_ZILSD;
  require ((xlen =? 64) || z);;
  a ← RS1;
  b ← (if xlen =? 32 then RS2_PAIR else RS2);
  store 8 (a +! insn_s_imm insn) b no_flags.

(** ** Load-acquire and store-release: [Zalasr] *)

Definition lb_aq : M unit :=
  require_extension EXT_ZALASR;;
  WRITE_RD (a ← RS1; v ← load 1 a no_flags; mret (s8 v)).

Definition lh_aq : M unit :=
  require_extension EXT_ZALASR;;
  WRITE_RD (a ← RS1; v ← load 2 a no_flags; mret (s16 v)).

Definition lw_aq : M unit :=
  require_extension EXT_ZALASR;;
  WRITE_RD (a ← RS1; v ← load 4 a no_flags; mret (s32 v)).

Definition ld_aq : M unit :=
  require_rv64;;
  require_extension EXT_ZALASR;;
  WRITE_RD (a ← RS1; v ← load 8 a no_flags; mret (s64 v)).

Definition sb_rl : M unit :=
  require_extension EXT_ZALASR;;
  a ← RS1; b ← RS2; store 1 a b no_flags.

Definition sh_rl : M unit :=
  require_extension EXT_ZALASR;;
  a ← RS1; b ← RS2; store 2 a b no_flags.

Definition sw_rl : M unit :=
  require_extension EXT_ZALASR;;
  a ← RS1; b ← RS2; store 4 a b no_flags.

Definition sd_rl : M unit :=
  require_rv64;;
  require_extension EXT_ZALASR;;
  a ← RS1; b ← RS2; store 8 a b no_flags.

(** ** Load-reserved and store-conditional *)

Definition lr_w : M unit :=
  require_extension EXT_A;;
  WRITE_RD (a ← RS1; v ← load_reserved 4 a; mret (s32 v)).

Definition lr_d : M unit :=
  require_extension EXT_A;;
  require_rv64;;
  WRITE_RD (a ← RS1; v ← load_reserved 8 a; mret (s64 v)).

Definition sc_w : M unit :=
  require_extension EXT_A;;
  have_reservation ← (a ← RS1; b ← RS2; store_conditional 4 a b);
  WRITE_RD (mret (b2z (negb have_reservation))).

Definition sc_d : M unit :=
  require_extension EXT_A;;
  require_rv64;;
  have_reservation ← (a ← RS1; b ← RS2; store_conditional 8 a b);
  WRITE_RD (mret (b2z (negb have_reservation))).

(** ** Atomic memory operations: [A], [Zabha]

    The operation's argument and result have the types of the lambda; the model
    passes the value loaded as unsigned and stores the low bytes of the result. *)

Definition amoadd_b : M unit :=
  require_extension EXT_ZABHA;;
  WRITE_RD (a ← RS1; v ← amo 1 a (fun lhs => b ← RS2; mret (u64 (s8 lhs) +! b)); mret (s8 v)).

Definition amoadd_h : M unit :=
  require_extension EXT_ZABHA;;
  WRITE_RD (a ← RS1; v ← amo 2 a (fun lhs => b ← RS2; mret (u64 (s16 lhs) +! b)); mret (s16 v)).

Definition amoadd_w : M unit :=
  require_extension EXT_A;;
  WRITE_RD (a ← RS1; v ← amo 4 a (fun lhs => b ← RS2; mret (lhs +! b)); mret (sext32 v)).

Definition amoadd_d : M unit :=
  require_extension EXT_A;;
  require_rv64;;
  WRITE_RD (a ← RS1; v ← amo 8 a (fun lhs => b ← RS2; mret (lhs +! b)); mret v).

Definition amoand_b : M unit :=
  require_extension EXT_ZABHA;;
  WRITE_RD (a ← RS1; v ← amo 1 a (fun lhs => b ← RS2; mret (u64 (s8 lhs) &! b)); mret (s8 v)).

Definition amoand_h : M unit :=
  require_extension EXT_ZABHA;;
  WRITE_RD (a ← RS1; v ← amo 2 a (fun lhs => b ← RS2; mret (u64 (s16 lhs) &! b)); mret (s16 v)).

Definition amoand_w : M unit :=
  require_extension EXT_A;;
  WRITE_RD (a ← RS1; v ← amo 4 a (fun lhs => b ← RS2; mret (lhs &! b)); mret (sext32 v)).

Definition amoand_d : M unit :=
  require_extension EXT_A;;
  require_rv64;;
  WRITE_RD (a ← RS1; v ← amo 8 a (fun lhs => b ← RS2; mret (lhs &! b)); mret v).

Definition amomax_b : M unit :=
  require_extension EXT_ZABHA;;
  WRITE_RD (a ← RS1; v ← amo 1 a (fun lhs => b ← RS2; mret (Z.max (s8 lhs) (s8 b))); mret (s8 v)).

Definition amomax_h : M unit :=
  require_extension EXT_ZABHA;;
  WRITE_RD (a ← RS1; v ← amo 2 a (fun lhs => b ← RS2; mret (Z.max (s16 lhs) (s16 b))); mret (s16 v)).

Definition amomax_w : M unit :=
  require_extension EXT_A;;
  WRITE_RD (a ← RS1; v ← amo 4 a (fun lhs => b ← RS2; mret (Z.max (s32 lhs) (s32 b))); mret (sext32 v)).

Definition amomax_d : M unit :=
  require_extension EXT_A;;
  require_rv64;;
  WRITE_RD (a ← RS1; v ← amo 8 a (fun lhs => b ← RS2; mret (Z.max (s64 lhs) (s64 b))); mret v).

Definition amomaxu_b : M unit :=
  require_extension EXT_ZABHA;;
  WRITE_RD (a ← RS1; v ← amo 1 a (fun lhs => b ← RS2; mret (Z.max lhs (u8 b))); mret (s8 v)).

Definition amomaxu_h : M unit :=
  require_extension EXT_ZABHA;;
  WRITE_RD (a ← RS1; v ← amo 2 a (fun lhs => b ← RS2; mret (Z.max lhs (u16 b))); mret (s16 v)).

Definition amomaxu_w : M unit :=
  require_extension EXT_A;;
  WRITE_RD (a ← RS1; v ← amo 4 a (fun lhs => b ← RS2; mret (Z.max lhs (u32 b))); mret (sext32 v)).

Definition amomaxu_d : M unit :=
  require_extension EXT_A;;
  require_rv64;;
  WRITE_RD (a ← RS1; v ← amo 8 a (fun lhs => b ← RS2; mret (Z.max lhs b)); mret v).

Definition amomin_b : M unit :=
  require_extension EXT_ZABHA;;
  WRITE_RD (a ← RS1; v ← amo 1 a (fun lhs => b ← RS2; mret (Z.min (s8 lhs) (s8 b))); mret (s8 v)).

Definition amomin_h : M unit :=
  require_extension EXT_ZABHA;;
  WRITE_RD (a ← RS1; v ← amo 2 a (fun lhs => b ← RS2; mret (Z.min (s16 lhs) (s16 b))); mret (s16 v)).

Definition amomin_w : M unit :=
  require_extension EXT_A;;
  WRITE_RD (a ← RS1; v ← amo 4 a (fun lhs => b ← RS2; mret (Z.min (s32 lhs) (s32 b))); mret (sext32 v)).

Definition amomin_d : M unit :=
  require_extension EXT_A;;
  require_rv64;;
  WRITE_RD (a ← RS1; v ← amo 8 a (fun lhs => b ← RS2; mret (Z.min (s64 lhs) (s64 b))); mret v).

Definition amominu_b : M unit :=
  require_extension EXT_ZABHA;;
  WRITE_RD (a ← RS1; v ← amo 1 a (fun lhs => b ← RS2; mret (Z.min lhs (u8 b))); mret (s8 v)).

Definition amominu_h : M unit :=
  require_extension EXT_ZABHA;;
  WRITE_RD (a ← RS1; v ← amo 2 a (fun lhs => b ← RS2; mret (Z.min lhs (u16 b))); mret (s16 v)).

Definition amominu_w : M unit :=
  require_extension EXT_A;;
  WRITE_RD (a ← RS1; v ← amo 4 a (fun lhs => b ← RS2; mret (Z.min lhs (u32 b))); mret (sext32 v)).

Definition amominu_d : M unit :=
  require_extension EXT_A;;
  require_rv64;;
  WRITE_RD (a ← RS1; v ← amo 8 a (fun lhs => b ← RS2; mret (Z.min lhs b)); mret v).

Definition amoor_b : M unit :=
  require_extension EXT_ZABHA;;
  WRITE_RD (a ← RS1; v ← amo 1 a (fun lhs => b ← RS2; mret (u64 (s8 lhs) |! b)); mret (s8 v)).

Definition amoor_h : M unit :=
  require_extension EXT_ZABHA;;
  WRITE_RD (a ← RS1; v ← amo 2 a (fun lhs => b ← RS2; mret (u64 (s16 lhs) |! b)); mret (s16 v)).

Definition amoor_w : M unit :=
  require_extension EXT_A;;
  WRITE_RD (a ← RS1; v ← amo 4 a (fun lhs => b ← RS2; mret (lhs |! b)); mret (sext32 v)).

Definition amoor_d : M unit :=
  require_extension EXT_A;;
  require_rv64;;
  WRITE_RD (a ← RS1; v ← amo 8 a (fun lhs => b ← RS2; mret (lhs |! b)); mret v).

Definition amoswap_b : M unit :=
  require_extension EXT_ZABHA;;
  WRITE_RD (a ← RS1; v ← amo 1 a (fun _ => b ← RS2; mret b); mret (s8 v)).

Definition amoswap_h : M unit :=
  require_extension EXT_ZABHA;;
  WRITE_RD (a ← RS1; v ← amo 2 a (fun _ => b ← RS2; mret b); mret (s16 v)).

Definition amoswap_w : M unit :=
  require_extension EXT_A;;
  WRITE_RD (a ← RS1; v ← amo 4 a (fun _ => b ← RS2; mret b); mret (sext32 v)).

Definition amoswap_d : M unit :=
  require_extension EXT_A;;
  require_rv64;;
  WRITE_RD (a ← RS1; v ← amo 8 a (fun _ => b ← RS2; mret b); mret v).

Definition amoxor_b : M unit :=
  require_extension EXT_ZABHA;;
  WRITE_RD (a ← RS1; v ← amo 1 a (fun lhs => b ← RS2; mret (u64 (s8 lhs) ^! b)); mret (s8 v)).

Definition amoxor_h : M unit :=
  require_extension EXT_ZABHA;;
  WRITE_RD (a ← RS1; v ← amo 2 a (fun lhs => b ← RS2; mret (u64 (s16 lhs) ^! b)); mret (s16 v)).

Definition amoxor_w : M unit :=
  require_extension EXT_A;;
  WRITE_RD (a ← RS1; v ← amo 4 a (fun lhs => b ← RS2; mret (lhs ^! b)); mret (sext32 v)).

Definition amoxor_d : M unit :=
  require_extension EXT_A;;
  require_rv64;;
  WRITE_RD (a ← RS1; v ← amo 8 a (fun lhs => b ← RS2; mret (lhs ^! b)); mret v).

(** ** Compare and swap: [Zacas] *)

Definition amocas_b : M unit :=
  require_extension EXT_ZACAS;;
  require_extension EXT_ZABHA;;
  WRITE_RD (a ← RS1; c ← RD; b ← RS2; v ← amo_compare_and_swap 1 a (u8 c) b; mret (s8 v)).

Definition amocas_h : M unit :=
  require_extension EXT_ZACAS;;
  require_extension EXT_ZABHA;;
  WRITE_RD (a ← RS1; c ← RD; b ← RS2; v ← amo_compare_and_swap 2 a (u16 c) b; mret (s16 v)).

Definition amocas_w : M unit :=
  require_extension EXT_ZACAS;;
  WRITE_RD (a ← RS1; c ← RD; b ← RS2; v ← amo_compare_and_swap 4 a (u32 c) b; mret (sext32 v)).

(** Two 32-bit registers as one 64-bit operand; the pair of register 0 reads as
    zero.  The target is little-endian. *)
Definition amocas_pair (w r : Z) : M Z :=
  if r =? 0 then mret 0 else
  lo ← READ_REG r; hi ← READ_REG (r + 1);
  mret (wrap w lo |! Z.shiftl hi w).

Definition amocas_d : M unit :=
  require_extension EXT_ZACAS;;
  if xlen =? 32 then
    require_align (insn_rd insn) 2;;
    require_align (insn_rs2 insn) 2;;
    comp ← amocas_pair 32 (insn_rd insn);
    swap ← amocas_pair 32 (insn_rs2 insn);
    a ← RS1;
    res ← amo_compare_and_swap 8 a (u64 comp) swap;
    when (negb (insn_rd insn =? 0)) (
      WRITE_REG (insn_rd insn) (mret (sext32 (u32 res)));;
      WRITE_REG (insn_rd insn + 1) (mret (sext32 (res >>! 32))))
  else
    WRITE_RD (a ← RS1; c ← RD; b ← RS2; amo_compare_and_swap 8 a c b).

Definition amocas_q : M unit :=
  require_extension EXT_ZACAS;;
  require_rv64;;
  require_align (insn_rd insn) 2;;
  require_align (insn_rs2 insn) 2;;
  comp ← amocas_pair 64 (insn_rd insn);
  swap ← amocas_pair 64 (insn_rs2 insn);
  a ← RS1;
  res ← amo_compare_and_swap 16 a comp swap;
  when (negb (insn_rd insn =? 0)) (
    WRITE_REG (insn_rd insn) (mret res);;
    WRITE_REG (insn_rd insn + 1) (mret (res >>! 64))).

(** ** Shadow stack: [Zicfiss] *)

Definition ssamoswap_w : M unit :=
  require_extension EXT_ZICFISS;;
  require_extension EXT_A;;
  require_envcfg MENVCFG_SSE;;
  WRITE_RD (a ← RS1; b ← RS2; v ← ssamoswap 4 a b; mret (sext32 v)).
Definition ssamoswap_d : M unit :=
  require_extension EXT_ZICFISS;;
  require_extension EXT_A;;
  require_rv64;;
  require_envcfg MENVCFG_SSE;;
  WRITE_RD (a ← RS1; b ← RS2; ssamoswap 8 a b).

(** ** Hypervisor loads and stores *)

(** The checks these files share, after [require_extension('H')]. *)
Definition hypervisor_access : M unit :=
  require_novirt;;
  hs ← get_mmu (fun m : mmu_t X => hstatus (csrs m));
  require_privilege (if negb (get_field hs HSTATUS_HU =? 0) then PRV_U else PRV_S).

Definition hlv_b : M unit :=
  require_extension EXT_H;;
  hypervisor_access;;
  WRITE_RD (a ← RS1; v ← guest_load 1 a; mret (s8 v)).

Definition hlv_bu : M unit :=
  require_extension EXT_H;;
  hypervisor_access;;
  WRITE_RD (a ← RS1; guest_load 1 a).

Definition hlv_h : M unit :=
  require_extension EXT_H;;
  hypervisor_access;;
  WRITE_RD (a ← RS1; v ← guest_load 2 a; mret (s16 v)).

Definition hlv_hu : M unit :=
  require_extension EXT_H;;
  hypervisor_access;;
  WRITE_RD (a ← RS1; guest_load 2 a).

Definition hlv_w : M unit :=
  require_extension EXT_H;;
  hypervisor_access;;
  WRITE_RD (a ← RS1; v ← guest_load 4 a; mret (s32 v)).

Definition hlv_wu : M unit :=
  require_extension EXT_H;;
  require_rv64;;
  hypervisor_access;;
  WRITE_RD (a ← RS1; guest_load 4 a).

Definition hlv_d : M unit :=
  require_extension EXT_H;;
  require_rv64;;
  hypervisor_access;;
  WRITE_RD (a ← RS1; v ← guest_load 8 a; mret (s64 v)).

Definition hlvx_hu : M unit :=
  require_extension EXT_H;;
  hypervisor_access;;
  WRITE_RD (a ← RS1; guest_load_x 2 a).

Definition hlvx_wu : M unit :=
  require_extension EXT_H;;
  hypervisor_access;;
  WRITE_RD (a ← RS1; v ← guest_load_x 4 a; mret (sext_xlen v)).

Definition hsv_b : M unit :=
  require_extension EXT_H;;
  hypervisor_access;;
  a ← RS1; b ← RS2; guest_store 1 a b.

Definition hsv_h : M unit :=
  require_extension EXT_H;;
  hypervisor_access;;
  a ← RS1; b ← RS2; guest_store 2 a b.

Definition hsv_w : M unit :=
  require_extension EXT_H;;
  hypervisor_access;;
  a ← RS1; b ← RS2; guest_store 4 a b.

Definition hsv_d : M unit :=
  require_extension EXT_H;;
  require_rv64;;
  hypervisor_access;;
  a ← RS1; b ← RS2; guest_store 8 a b.

(** ** Cache-block operations *)

Definition cbo_clean : M unit :=
  require_extension EXT_ZICBOM;;
  require_envcfg MENVCFG_CBCFE;;
  a ← RS1; clean_inval a true false.
Definition cbo_flush : M unit :=
  require_extension EXT_ZICBOM;;
  require_envcfg MENVCFG_CBCFE;;
  a ← RS1; clean_inval a true true.
Definition cbo_inval : M unit :=
  require_extension EXT_ZICBOM;;
  require_envcfg MENVCFG_CBIE;;
  flush ← gets (fun s : state (mmu_t X) =>
    let mCBIE := z2b (get_field (menvcfg s) MENVCFG_CBIE) in
    let sCBIE := z2b (get_field (senvcfg s) MENVCFG_CBIE) in
    let hCBIE := z2b (get_field (henvcfg s) MENVCFG_CBIE) in
    (negb (prv s =? PRV_M) && mCBIE) ||
    (negb (virt s) && (prv s =? PRV_U) && sCBIE) ||
    (virt s && (hCBIE || ((prv s =? PRV_U) && sCBIE))));
  a ← RS1;
  clean_inval a flush true.
Definition cbo_zero : M unit :=
  require_extension EXT_ZICBOZ;;
  require_envcfg MENVCFG_CBZE;;
  a ← RS1; Mmu.cbo_zero a.

End insns.
