(* ===== verification/Zicfiss.v ===== *)
(** * Shadow stacks: [src/riscv/zicfiss.h] and the Zicfiss instructions

    The shadow stack pointer is the register [ssp]; pushes and pops go through the
    shadow-stack accesses of the MMU. *)

From Stdlib Require Import ZifyBool.
From S2P Require Import Prelude Arith Decode Hart Pmp InsnsIM Mmu MmuTlb.
Local Open Scope cint_scope.

Definition SHADOW_STACK_FAULT : Z := 3.
Definition HENVCFG_SSE : Z := 0x8.
Definition SENVCFG_SSE : Z := 0x8.

Section zicfiss.
Context {X : Type} `{platform X} {E : env}.
Local Abbreviation M := (M (mmu_t X)).

Definition xSSE : M bool := gets (fun s =>
  negb (prv s =? PRV_M) && negb (get_field (menvcfg s) MENVCFG_SSE =? 0) && extension_enabled s EXT_S &&
  ((virt s && negb (get_field (henvcfg s) HENVCFG_SSE =? 0)) || negb (virt s)) &&
  (((prv s =? PRV_U) && negb (get_field (senvcfg s) SENVCFG_SSE =? 0)) || negb (prv s =? PRV_U))).

(** [ssp_csr_t]: the bits of the register that can be written. *)
Definition ssp_mask : Z := u64 (- (xlen / 8)).
Definition ssp_read : M Z := get_mmu (fun m : mmu_t X => ssp (csrs m)).
Definition ssp_write (val : Z) : M unit := modify_mmu (fun m =>
  let c := csrs m in
  with_csrs (VmCsrs (mstatus c) (mnstatus c) (sstatus c) (vsstatus c) (satp c) (vsatp c) (hgatp c) (hstatus c)
    ((ssp c &! ~! ssp_mask) |! (val &! ssp_mask))) m).

Definition PUSH_VALUE_TO_SS (value : M Z) : M unit :=
  push_value ← value;
  p ← ssp_read;
  let push_ssp_addr := p -! xlen / 8 in
  (if xlen =? 32 then ss_store 4 push_ssp_addr (u32 push_value) else ss_store 8 push_ssp_addr push_value);;
  ssp_write push_ssp_addr.

(** The value loaded is unsigned, of 32 bits on RV32. *)
Definition POP_VALUE_FROM_SS_AND_CHECK (value : M Z) : M unit :=
  p ← ssp_read;
  shadow_return_addr ← (if xlen =? 32 then ss_load 4 p else ss_load 8 p);
  v ← value;
  software_check (v =? shadow_return_addr) SHADOW_STACK_FAULT;;
  p ← ssp_read;
  ssp_write (p +! xlen / 8).

Definition sspopchk_x1 : M unit :=
  e ← xSSE; if (e : bool) then POP_VALUE_FROM_SS_AND_CHECK RS1 else mop_r_N.
Definition sspopchk_x5 : M unit := sspopchk_x1.
Definition sspush_x1 : M unit :=
  e ← xSSE; if (e : bool) then PUSH_VALUE_TO_SS RS2 else mop_rr_N.
Definition sspush_x5 : M unit := sspush_x1.
Definition ssrdp : M unit :=
  e ← xSSE; if (e : bool) then WRITE_RD ssp_read else mop_r_N.

Definition c_sspush_x1 : M unit :=
  e ← xSSE; when e (PUSH_VALUE_TO_SS (READ_REG X_RA)).
Definition c_sspopchk_x5 : M unit :=
  e ← xSSE; when e (POP_VALUE_FROM_SS_AND_CHECK (READ_REG X_T0)).
End zicfiss.

(** ** A shadow stack on RV32

    An address space with one 4 MiB shadow stack page at address zero. *)
Definition ss_word (a : Z) : Z := if a =? 0x80000000 then 0x200000c5 else 0.
Definition ss_demo (ra satp : Z) : state (mmu_t ram) :=
  State (<[1%nat := ra]> (replicate 32 0)) 0 0 PRV_S false false false (DcsrBits false false false false false)
    MENVCFG_SSE 0 0 0 (fun _ => true)
    (flush_tlb (Mmu (replicate 256 (TlbEntry 0 0)) [] [] [] (2 ^ 64 - 1) false false false None
       (VmCsrs 0 None 0 0 satp 0 0 0 0x1800) (PmpUnit [] 0 2) true 64
       (Ram 0x80000 4 (fun a => (ss_word (a - a mod 4) >>! (8 * (a mod 4))) mod 256)))).

(** [sspush x1; sspopchk x1] *)
Definition push_pop (xlen : Z) : M (mmu_t ram) unit :=
  @sspush_x1 _ _ (Env xlen false 0x00100000 0x80000000);; @sspopchk_x1 _ _ (Env xlen false 0x00008000 0x80000004).

(** A return address below [2 ^ 31] is checked, but one above it, held
    sign-extended in the register, is compared with the zero-extended word and
    raises a software check. *)
Example rv32_popchk_spurious :
  fst (push_pop 32 (ss_demo 0x70000004 0x80080000)) = inr tt /\
  fst (push_pop 32 (ss_demo 0xffffffff80000004 0x80080000)) = inl (trap_software_check SHADOW_STACK_FAULT).
Proof. split; vm_compute; reflexivity. Qed.
