(* ===== verification/InsnsC.v ===== *)
(** * Compressed instructions: [src/riscv/insns/c_*.h], [cm_*.h]

    The integer compressed instructions (Zca, Zcb, Zcmop, Zclsd) and the pushes,
    pops and moves of Zcmp, one definition per instruction file.  The theorem of
    the first part says that each 16-bit instruction does what the 32-bit
    instruction it abbreviates does; [Zcmp.v] is about the pushes and pops. *)

From Stdlib Require Import ZifyBool.
From S2P Require Import Prelude Arith Decode Hart Pmp InsnsIM InsnsB Mmu MmuTlb InsnsA Zicfiss.
Local Open Scope cint_scope.

Section insns.
Context {X : Type} `{platform X} {E : env}.
Local Abbreviation M := (M (mmu_t X)).

(** ** Zca: registers *)

Definition c_add : M unit :=
  require_extension EXT_ZCA;;
  require (negb (rvc_rs2 insn =? 0));;
  WRITE_RD (a ← RVC_RS1; b ← RVC_RS2; mret (sext_xlen (a +! b))).

Definition c_addi : M unit :=
  require_extension EXT_ZCA;;
  WRITE_RD (a ← RVC_RS1; mret (sext_xlen (a +! rvc_imm insn))).

Definition c_addi4spn : M unit :=
  require_extension EXT_ZCA;;
  require (negb (rvc_addi4spn_imm insn =? 0));;
  WRITE_RVC_RS2S (a ← RVC_SP; mret (sext_xlen (a +! rvc_addi4spn_imm insn))).

Definition c_addw : M unit :=
  require_extension EXT_ZCA;;
  require_rv64;;
  WRITE_RVC_RS1S (a ← RVC_RS1S; b ← RVC_RS2S; mret (sext32 (a +! b))).

Definition c_and : M unit :=
  require_extension EXT_ZCA;;
  WRITE_RVC_RS1S (a ← RVC_RS1S; b ← RVC_RS2S; mret (a &! b)).

Definition c_andi : M unit :=
  require_extension EXT_ZCA;;
  WRITE_RVC_RS1S (a ← RVC_RS1S; mret (a &! rvc_imm insn)).

Definition c_li : M unit :=
  require_extension EXT_ZCA;;
  WRITE_RD (mret (rvc_imm insn)).

Definition c_mv : M unit :=
  require_extension EXT_ZCA;;
  require (negb (rvc_rs2 insn =? 0));;
  WRITE_RD RVC_RS2.

Definition c_or : M unit :=
  require_extension EXT_ZCA;;
  WRITE_RVC_RS1S (a ← RVC_RS1S; b ← RVC_RS2S; mret (a |! b)).

Definition c_slli : M unit :=
  require_extension EXT_ZCA;;
  require (rvc_zimm insn <? xlen);;
  WRITE_RD (a ← RVC_RS1; mret (sext_xlen (a <<! rvc_zimm insn))).

Definition c_srai : M unit :=
  require_extension EXT_ZCA;;
  require (rvc_zimm insn <? xlen);;
  WRITE_RVC_RS1S (a ← RVC_RS1S; mret (sext_xlen (sext_xlen a >>! rvc_zimm insn))).

Definition c_srli : M unit :=
  require_extension EXT_ZCA;;
  require (rvc_zimm insn <? xlen);;
  WRITE_RVC_RS1S (a ← RVC_RS1S; mret (sext_xlen (zext_xlen a >>! rvc_zimm insn))).

Definition c_sub : M unit :=
  require_extension EXT_ZCA;;
  WRITE_RVC_RS1S (a ← RVC_RS1S; b ← RVC_RS2S; mret (sext_xlen (a -! b))).

Definition c_subw : M unit :=
  require_extension EXT_ZCA;;
  require_rv64;;
  WRITE_RVC_RS1S (a ← RVC_RS1S; b ← RVC_RS2S; mret (sext32 (a -! b))).

Definition c_xor : M unit :=
  require_extension EXT_ZCA;;
  WRITE_RVC_RS1S (a ← RVC_RS1S; b ← RVC_RS2S; mret (a ^! b)).

Definition c_mop_N : M unit :=
  require_extension EXT_ZCA;;
  require_extension EXT_ZCMOP.

(** [rvc_imm() << 12] on [int64_t]. *)
Definition c_lui : M unit :=
  require_extension EXT_ZCA;;
  if rvc_rd insn =? 2 then
    require (negb (rvc_addi16sp_imm insn =? 0));;
    WRITE_REG X_SP (a ← RVC_SP; mret (sext_xlen (a +! rvc_addi16sp_imm insn)))
  else if negb (rvc_imm insn =? 0) then
    WRITE_RD (mret (s64 (Z.shiftl (rvc_imm insn) 12)))
  else if (rvc_rd insn &! 0x11) =? 1 then
    ss ← ext_enabled EXT_ZICFISS;
    if (rvc_rd insn =? 5) && ss then c_sspopchk_x5
    else if (rvc_rd insn =? 1) && ss then c_sspush_x1
    else c_mop_N
  else require false.

(** ** Zca: control flow *)

Definition c_beqz : M unit :=
  require_extension EXT_ZCA;;
  a ← RVC_RS1S; when (a =? 0) (set_pc (pc +! rvc_b_imm insn)).

Definition c_bnez : M unit :=
  require_extension EXT_ZCA;;
  a ← RVC_RS1S; when (negb (a =? 0)) (set_pc (pc +! rvc_b_imm insn)).

Definition c_j : M unit :=
  require_extension EXT_ZCA;;
  set_pc (pc +! rvc_j_imm insn).

Definition c_jal : M unit :=
  require_extension EXT_ZCA;;
  if xlen =? 32 then
    tmp ← gets npc;
    set_pc (pc +! rvc_j_imm insn);;
    WRITE_REG X_RA (mret tmp)
  else
    require (negb (rvc_rd insn =? 0));;
    WRITE_RD (a ← RVC_RS1; mret (sext32 (a +! rvc_imm insn))).

Definition c_jalr : M unit :=
  require_extension EXT_ZCA;;
  require (negb (rvc_rs1 insn =? 0));;
  tmp ← gets npc;
  a ← RVC_RS1; set_pc (a &! ~! 1);;
  WRITE_REG X_RA (mret tmp);;
  expect_landing_pad (rvc_rs1 insn).

Definition c_jr : M unit :=
  require_extension EXT_ZCA;;
  require (negb (rvc_rs1 insn =? 0));;
  a ← RVC_RS1; set_pc (a &! ~! 1);;
  expect_landing_pad (rvc_rs1 insn).

Definition c_ebreak : M unit :=
  require_extension EXT_ZCA;;
  c ← gets (fun s : state (mmu_t X) =>
    negb (debug_mode s) && (
      (negb (virt s) && (prv s =? PRV_M) && ebreakm (dcsr s)) ||
      (negb (virt s) && (prv s =? PRV_S) && ebreaks (dcsr s)) ||
      (negb (virt s) && (prv s =? PRV_U) && ebreaku (dcsr s)) ||
      (virt s && (prv s =? PRV_S) && ebreakvs (dcsr s)) ||
      (virt s && (prv s =? PRV_U) && ebreakvu (dcsr s))));
  if (c : bool) then throw trap_debug_mode
  else v ← gets virt; throw (trap_breakpoint v pc).

(** ** Zca: memory *)

Definition c_lw : M unit :=
  require_extension EXT_ZCA;;
  WRITE_RVC_RS2S (a ← RVC_RS1S; v ← load 4 (a +! rvc_lw_imm insn) no_flags; mret (s32 v)).

Definition c_lwsp : M unit :=
  require_extension EXT_ZCA;;
  require (negb (rvc_rd insn =? 0));;
  WRITE_RD (a ← RVC_SP; v ← load 4 (a +! rvc_lwsp_imm insn) no_flags; mret (s32 v)).

Definition c_sw : M unit :=
  require_extension EXT_ZCA;;
  a ← RVC_RS1S; v ← RVC_RS2S; store 4 (a +! rvc_lw_imm insn) v no_flags.

Definition c_swsp : M unit :=
  require_extension EXT_ZCA;;
  a ← RVC_SP; v ← RVC_RS2; store 4 (a +! rvc_swsp_imm insn) v no_flags.

(** [require((xlen == 64) || p->extension_enabled(EXT_ZCMLSD))] *)
Definition require_doubleword : M unit :=
  c ← ext_enabled EXT_ZCMLSD; require ((xlen =? 64) || c).

Definition c_ld : M unit :=
  require_extension EXT_ZCA;;
  require_doubleword;;
  let value := a ← RVC_RS1S; v ← load 8 (a +! rvc_ld_imm insn) no_flags; mret (s64 v) in
  if xlen =? 32 then WRITE_RVC_RS2S_PAIR value else WRITE_RVC_RS2S value.

Definition c_ldsp : M unit :=
  require_extension EXT_ZCA;;
  require_doubleword;;
  require (negb (rvc_rd insn =? 0));;
  let value := a ← RVC_SP; v ← load 8 (a +! rvc_ldsp_imm insn) no_flags; mret (s64 v) in
  if xlen =? 32 then WRITE_RD_PAIR value else WRITE_RD value.

Definition c_sd : M unit :=
  require_extension EXT_ZCA;;
  require_doubleword;;
  a ← RVC_RS1S;
  v ← (if xlen =? 32 then RVC_RS2S_PAIR else RVC_RS2S);
  store 8 (a +! rvc_ld_imm insn) v no_flags.

Definition c_sdsp : M unit :=
  require_extension EXT_ZCA;;
  require_doubleword;;
  a ← RVC_SP;
  v ← (if xlen =? 32 then RVC_RS2_PAIR else RVC_RS2);
  store 8 (a +! rvc_sdsp_imm insn) v no_flags.

(** ** Zcb *)

Definition c_lbu : M unit :=
  require_extension EXT_ZCB;;
  WRITE_RVC_RS2S (a ← RVC_RS1S; load 1 (a +! rvc_lbimm insn) no_flags).

Definition c_lh : M unit :=
  require_extension EXT_ZCB;;
  WRITE_RVC_RS2S (a ← RVC_RS1S; v ← load 2 (a +! rvc_lhimm insn) no_flags; mret (s16 v)).

Definition c_lhu : M unit :=
  require_extension EXT_ZCB;;
  WRITE_RVC_RS2S (a ← RVC_RS1S; load 2 (a +! rvc_lhimm insn) no_flags).

Definition c_sb : M unit :=
  require_extension EXT_ZCB;;
  a ← RVC_RS1S; v ← RVC_RS2S; store 1 (a +! rvc_lbimm insn) v no_flags.

Definition c_sh : M unit :=
  require_extension EXT_ZCB;;
  a ← RVC_RS1S; v ← RVC_RS2S; store 2 (a +! rvc_lhimm insn) v no_flags.

Definition c_mul : M unit :=
  require_extension EXT_ZCB;;
  require_either_extension EXT_M EXT_ZMMUL;;
  WRITE_RVC_RS1S (a ← RVC_RS1S; b ← RVC_RS2S; mret (sext_xlen (a *! b))).

Definition c_not : M unit :=
  require_extension EXT_ZCB;;
  WRITE_RVC_RS1S (a ← RVC_RS1S; mret (sext_xlen (~! a))).

Definition c_sext_b : M unit :=
  require_extension EXT_ZCB;;
  require_extension EXT_ZBB;;
  WRITE_RVC_RS1S (a ← RVC_RS1S; mret (s8 a)).

Definition c_sext_h : M unit :=
  require_extension EXT_ZCB;;
  require_extension EXT_ZBB;;
  WRITE_RVC_RS1S (a ← RVC_RS1S; mret (s16 a)).

Definition c_zext_b : M unit :=
  require_extension EXT_ZCB;;
  WRITE_RVC_RS1S (a ← RVC_RS1S; mret (u8 a)).

Definition c_zext_h : M unit :=
  require_extension EXT_ZCB;;
  require_extension EXT_ZBB;;
  WRITE_RVC_RS1S (a ← RVC_RS1S; mret (u16 a)).

Definition c_zext_w : M unit :=
  require_extension EXT_ZCB;;
  require_extension EXT_ZBA;;
  require_rv64;;
  WRITE_RVC_RS1S (a ← RVC_RS1S; mret (u32 a)).

(** ** Zcmp *)

Definition cm_mva01s : M unit :=
  require_extension EXT_ZCMP;;
  WRITE_REG X_A0 (READ_REG RVC_R1S);;
  WRITE_REG X_A1 (READ_REG RVC_R2S).

Definition cm_mvsa01 : M unit :=
  require_extension EXT_ZCMP;;
  require (negb (rvc_r1sc insn =? rvc_r2sc insn));;
  WRITE_REG RVC_R1S (READ_REG X_A0);;
  WRITE_REG RVC_R2S (READ_REG X_A1).

Definition in_regmask (i : Z) : bool := z2b (zcmp_regmask insn &! Z.shiftl 1 i).

(** The loops run [i] from [Sn(11)] down to 0: [n] is [i + 1]. *)
Fixpoint push_loop (n : nat) (addr : Z) : M unit :=
  match n with
  | O => mret tt
  | S n =>
    let i := Z.of_nat n in
    if in_regmask i then
      let addr := addr -! xlen / 8 in
      v ← READ_REG i;
      (if xlen =? 32 then store 4 addr v no_flags else store 8 addr v no_flags);;
      push_loop n addr
    else push_loop n addr
  end.

Definition cm_push : M unit :=
  require_zcmp_pushpop;;
  sp ← READ_REG X_SP;
  let new_sp := sp -! zcmp_stack_adjustment insn xlen in
  push_loop (S (Z.to_nat (Sn 11))) sp;;
  WRITE_REG X_SP (mret new_sp).

Fixpoint pop_loop (n : nat) (addr : Z) : M unit :=
  match n with
  | O => mret tt
  | S n =>
    let i := Z.of_nat n in
    if in_regmask i then
      let addr := addr -! xlen / 8 in
      (if xlen =? 32 then WRITE_REG i (v ← load 4 addr no_flags; mret (s32 v))
       else WRITE_REG i (v ← load 8 addr no_flags; mret (s64 v)));;
      pop_loop n addr
    else pop_loop n addr
  end.

Definition cm_pop : M unit :=
  require_zcmp_pushpop;;
  sp ← READ_REG X_SP;
  let new_sp := sp +! zcmp_stack_adjustment insn xlen in
  pop_loop (S (Z.to_nat (Sn 11))) new_sp;;
  WRITE_REG X_SP (mret new_sp).

(** [set_pc(RA)]: unlike [c_jr], bit 0 of the address is not cleared. *)
Definition cm_popret : M unit :=
  cm_pop;; ra ← READ_REG X_RA; set_pc ra.

Definition cm_popretz : M unit :=
  cm_popret;; WRITE_REG X_A0 (mret 0).
End insns.
Section expansion.
Context {X : Type} `{platform X}.
Local Abbreviation M := (M (mmu_t X)).
Local Abbreviation state := (state (mmu_t X)).

(** ** Expansion

    The operands of the 32-bit instruction [w] that a 16-bit instruction [c]
    abbreviates, per format; [c] is read by the extractors of the compressed formats. *)
Definition ops_r (rd rs1 rs2 : Z -> Z) (c w : Z) : Prop :=
  insn_rd w = rd c /\ insn_rs1 w = rs1 c /\ insn_rs2 w = rs2 c.
Definition ops_i (rd rs1 imm : Z -> Z) (c w : Z) : Prop :=
  insn_rd w = rd c /\ insn_rs1 w = rs1 c /\ insn_i_imm w = imm c.
Definition ops_shift (rd rs1 sh : Z -> Z) (c w : Z) : Prop :=
  insn_rd w = rd c /\ insn_rs1 w = rs1 c /\ insn_i_imm w &! 0x3F = sh c.
Definition ops_s (rs1 rs2 imm : Z -> Z) (c w : Z) : Prop :=
  insn_rs1 w = rs1 c /\ insn_rs2 w = rs2 c /\ insn_s_imm w = imm c.
Definition ops_b (rs1 rs2 imm : Z -> Z) (c w : Z) : Prop :=
  insn_rs1 w = rs1 c /\ insn_rs2 w = rs2 c /\ insn_sb_imm w = imm c.
Definition ops_j (rd imm : Z -> Z) (c w : Z) : Prop := insn_rd w = rd c /\ insn_uj_imm w = imm c.
Definition ops_u (rd imm : Z -> Z) (c w : Z) : Prop := insn_rd w = rd c /\ insn_u_imm w = imm c.
Definition ops_none (c w : Z) : Prop := True.

Definition no (r : Z) (c : Z) : Z := r.

Record entry := Entry {
  compressed : forall {E : env}, M unit;
  expansion : forall {E : env}, M unit;
  width : Z -> bool;              (* the values of xlen *)
  applies : Z -> bool;            (* the encodings [c], where one opcode has several uses *)
  needs : state -> bool;          (* the extensions *)
  legal : Z -> Z -> bool;         (* the encodings that are not reserved, by xlen *)
  operands : Z -> Z -> Prop
}.
Definition any (x : Z) : bool := true.
Definition ext1 (e : extension) (s : state) : bool := extension_enabled s e.
Definition ext2 (e f : extension) (s : state) : bool := extension_enabled s e && extension_enabled s f.
Definition rv (n : Z) (x c : Z) : bool := x =? n.
Definition nz (r : Z -> Z) (x c : Z) : bool := negb (r c =? 0).
Definition ok (x c : Z) : bool := true.
Definition shift_fits (x c : Z) : bool := rvc_zimm c <? x.
Definition is_32 (x : Z) : bool := x =? 32.
Definition is_64 (x : Z) : bool := x =? 64.

Definition table_registers : list entry := [
  Entry (fun E => c_add) (fun E => add) any any (ext1 EXT_ZCA) (nz rvc_rs2) (ops_r rvc_rd rvc_rs1 rvc_rs2);
  Entry (fun E => c_mv) (fun E => add) any any (ext1 EXT_ZCA) (nz rvc_rs2) (ops_r rvc_rd (no 0) rvc_rs2);
  Entry (fun E => c_addi) (fun E => addi) any any (ext1 EXT_ZCA) ok (ops_i rvc_rd rvc_rs1 rvc_imm);
  Entry (fun E => c_li) (fun E => addi) any any (ext1 EXT_ZCA) ok (ops_i rvc_rd (no 0) rvc_imm);
  Entry (fun E => c_addi4spn) (fun E => addi) any any (ext1 EXT_ZCA) (nz rvc_addi4spn_imm)
    (ops_i rvc_rs2s (no 2) rvc_addi4spn_imm);
  Entry (fun E => c_lui) (fun E => addi) any (fun c => rvc_rd c =? 2) (ext1 EXT_ZCA) (nz rvc_addi16sp_imm)
    (ops_i (no 2) (no 2) rvc_addi16sp_imm);
  Entry (fun E => c_lui) (fun E => lui) any (fun c => negb (rvc_rd c =? 2) && negb (rvc_imm c =? 0)) (ext1 EXT_ZCA) ok
    (ops_u rvc_rd (fun c => rvc_imm c * 2 ^ 12));
  Entry (fun E => c_and) (fun E => and) any any (ext1 EXT_ZCA) ok (ops_r rvc_rs1s rvc_rs1s rvc_rs2s);
  Entry (fun E => c_or) (fun E => or) any any (ext1 EXT_ZCA) ok (ops_r rvc_rs1s rvc_rs1s rvc_rs2s);
  Entry (fun E => c_xor) (fun E => xor) any any (ext1 EXT_ZCA) ok (ops_r rvc_rs1s rvc_rs1s rvc_rs2s);
  Entry (fun E => c_sub) (fun E => sub) any any (ext1 EXT_ZCA) ok (ops_r rvc_rs1s rvc_rs1s rvc_rs2s);
  Entry (fun E => c_addw) (fun E => addw) any any (ext1 EXT_ZCA) (rv 64) (ops_r rvc_rs1s rvc_rs1s rvc_rs2s);
  Entry (fun E => c_subw) (fun E => subw) any any (ext1 EXT_ZCA) (rv 64) (ops_r rvc_rs1s rvc_rs1s rvc_rs2s);
  Entry (fun E => c_andi) (fun E => andi) any any (ext1 EXT_ZCA) ok (ops_i rvc_rs1s rvc_rs1s rvc_imm);
  Entry (fun E => c_slli) (fun E => slli) any any (ext1 EXT_ZCA) shift_fits (ops_shift rvc_rd rvc_rs1 rvc_zimm);
  Entry (fun E => c_srli) (fun E => srli) any any (ext1 EXT_ZCA) shift_fits (ops_shift rvc_rs1s rvc_rs1s rvc_zimm);
  Entry (fun E => c_srai) (fun E => srai) any any (ext1 EXT_ZCA) shift_fits (ops_shift rvc_rs1s rvc_rs1s rvc_zimm);
  Entry (fun E => c_jal) (fun E => addiw) is_64 any (ext1 EXT_ZCA) (nz rvc_rd) (ops_i rvc_rd rvc_rs1 rvc_imm)
].

Definition table_control : list entry := [
  Entry (fun E => c_j) (fun E => jal) any any (ext1 EXT_ZCA) ok (ops_j (no 0) rvc_j_imm);
  Entry (fun E => c_jal) (fun E => jal) is_32 any (ext1 EXT_ZCA) ok (ops_j (no 1) rvc_j_imm);
  Entry (fun E => c_jr) (fun E => jalr) any any (ext1 EXT_ZCA) (nz rvc_rs1) (ops_i (no 0) rvc_rs1 (no 0));
  Entry (fun E => c_jalr) (fun E => jalr) any any (ext1 EXT_ZCA) (nz rvc_rs1) (ops_i (no 1) rvc_rs1 (no 0));
  Entry (fun E => c_beqz) (fun E => beq) any any (ext1 EXT_ZCA) ok (ops_b rvc_rs1s (no 0) rvc_b_imm);
  Entry (fun E => c_bnez) (fun E => bne) any any (ext1 EXT_ZCA) ok (ops_b rvc_rs1s (no 0) rvc_b_imm);
  Entry (fun E => c_ebreak) (fun E => ebreak) any any (ext1 EXT_ZCA) ok ops_none
].

Definition table_memory : list entry := [
  Entry (fun E => c_lw) (fun E => lw) any any (ext1 EXT_ZCA) ok (ops_i rvc_rs2s rvc_rs1s rvc_lw_imm);
  Entry (fun E => c_lwsp) (fun E => lw) any any (ext1 EXT_ZCA) (nz rvc_rd) (ops_i rvc_rd (no 2) rvc_lwsp_imm);
  Entry (fun E => c_ld) (fun E => ld) is_64 any (ext1 EXT_ZCA) ok (ops_i rvc_rs2s rvc_rs1s rvc_ld_imm);
  Entry (fun E => c_ldsp) (fun E => ld) is_64 any (ext1 EXT_ZCA) (nz rvc_rd) (ops_i rvc_rd (no 2) rvc_ldsp_imm);
  Entry (fun E => c_sw) (fun E => sw) any any (ext1 EXT_ZCA) ok (ops_s rvc_rs1s rvc_rs2s rvc_lw_imm);
  Entry (fun E => c_swsp) (fun E => sw) any any (ext1 EXT_ZCA) ok (ops_s (no 2) rvc_rs2 rvc_swsp_imm);
  Entry (fun E => c_sd) (fun E => sd) is_64 any (ext1 EXT_ZCA) ok (ops_s rvc_rs1s rvc_rs2s rvc_ld_imm);
  Entry (fun E => c_sdsp) (fun E => sd) is_64 any (ext1 EXT_ZCA) ok (ops_s (no 2) rvc_rs2 rvc_sdsp_imm);
  Entry (fun E => c_lbu) (fun E => lbu) any any (ext1 EXT_ZCB) ok (ops_i rvc_rs2s rvc_rs1s rvc_lbimm);
  Entry (fun E => c_lh) (fun E => lh) any any (ext1 EXT_ZCB) ok (ops_i rvc_rs2s rvc_rs1s rvc_lhimm);
  Entry (fun E => c_lhu) (fun E => lhu) any any (ext1 EXT_ZCB) ok (ops_i rvc_rs2s rvc_rs1s rvc_lhimm);
  Entry (fun E => c_sb) (fun E => sb) any any (ext1 EXT_ZCB) ok (ops_s rvc_rs1s rvc_rs2s rvc_lbimm);
  Entry (fun E => c_sh) (fun E => sh) any any (ext1 EXT_ZCB) ok (ops_s rvc_rs1s rvc_rs2s rvc_lhimm)
].

Definition mul_enabled (s : state) : bool :=
  extension_enabled s EXT_ZCB && (extension_enabled s EXT_M || extension_enabled s EXT_ZMMUL).
Definition table_zcb : list entry := [
  Entry (fun E => c_mul) (fun E => mul) any any mul_enabled ok (ops_r rvc_rs1s rvc_rs1s rvc_rs2s);
  Entry (fun E => c_not) (fun E => xori) any any (ext1 EXT_ZCB) ok (ops_i rvc_rs1s rvc_rs1s (no (-1)));
  Entry (fun E => c_sext_b) (fun E => sext_b) any any (ext2 EXT_ZCB EXT_ZBB) ok (ops_i rvc_rs1s rvc_rs1s (no 0x604));
  Entry (fun E => c_sext_h) (fun E => sext_h) any any (ext2 EXT_ZCB EXT_ZBB) ok (ops_i rvc_rs1s rvc_rs1s (no 0x605));
  Entry (fun E => c_zext_b) (fun E => andi) any any (ext1 EXT_ZCB) ok (ops_i rvc_rs1s rvc_rs1s (no 255));
  Entry (fun E => c_zext_h) (fun E => pack) is_32 any (ext2 EXT_ZCB EXT_ZBB) ok (ops_r rvc_rs1s rvc_rs1s (no 0));
  Entry (fun E => c_zext_h) (fun E => packw) is_64 any (ext2 EXT_ZCB EXT_ZBB) ok (ops_r rvc_rs1s rvc_rs1s (no 0));
  Entry (fun E => c_zext_w) (fun E => add_uw) any any (ext2 EXT_ZCB EXT_ZBA) (rv 64) (ops_r rvc_rs1s rvc_rs1s (no 0))
].

Definition expands (e : entry) : Prop := forall x c w pc (s : state),
  x = 32 \/ x = 64 -> width e x = true -> applies e c = true -> operands e c w -> wf_state x s ->
  @compressed e (Env x false c pc) s =
  if needs e s && legal e x c then @expansion e (Env x false w pc) s
  else (inl (trap_illegal_instruction c), s).

Lemma run_require {E : env} {A} (b : bool) (k : M A) s :
  (require b;; k) s = if b then k s else (inl (trap_illegal_instruction insn), s).
Proof using. by destruct b. Qed.
Lemma run_require_extension {E : env} {A} e (k : M A) s :
  (require_extension e;; k) s = if extension_enabled s e then k s else (inl (trap_illegal_instruction insn), s).
Proof using. unfold require_extension, mbind, M_bind. cbn. by destruct (extension_enabled s e). Qed.

(** Two writes of values that agree as 64-bit words. *)
Lemma write_same (E E' : env) r (m m' : M Z) s v v' : @rve E = false -> @rve E' = false ->
  m s = (inr v, s) -> m' s = (inr v', s) -> u64 v = u64 v' ->
  @WRITE_REG _ E r m s = @WRITE_REG _ E' r m' s.
Proof using.
  intros H1 H2 Hm Hm' Hv. unfold WRITE_REG, CHECK_REG, mbind, M_bind. rewrite H1, H2. cbn.
  by rewrite Hm, Hm', Hv.
Qed.

Ltac macros := unfold WRITE_RVC_RS1S, WRITE_RVC_RS2S, WRITE_RD, RVC_RS1S, RVC_RS2S, RVC_RS1, RVC_RS2, RVC_SP, RS1, RS2,
  SHAMT, BRANCH_TARGET, JUMP_TARGET, require_rv64, CHECK_RD, X_SP, X_RA.
Ltac requirements := rewrite ?run_require_extension, ?run_require; cbn [insn xlen pc];
  rewrite ?run_require_extension, ?run_require; cbn [insn xlen pc];
  rewrite ?run_require_extension, ?run_require; cbn [insn xlen pc].
Ltac cases_of_requirements :=
  repeat match goal with
  | |- context [extension_enabled ?s ?e] => destruct (extension_enabled s e); cbn [andb orb]; try done
  end;
  repeat match goal with
  | |- context [?a <? ?b] => destruct (a <? b); cbn [andb orb]; try done
  | |- context [?a =? 0] => destruct (a =? 0); cbn [andb orb negb]; try done
  end.
Ltac expansion_start f g :=
  intros x c w pc s Hx Hw Ha Ho Hs;
  cbn [width applies operands needs legal compressed expansion] in *;
  unfold any, is_32, is_64, ext1, ext2, ok, rv, nz, shift_fits, no, ops_r, ops_i, ops_shift, ops_s, ops_b, ops_j,
    ops_u, ops_none, rvc_rd, rvc_rs1 in *;
  unfold f, g; macros; unfold rvc_rd, rvc_rs1; requirements;
  repeat match goal with H : _ /\ _ |- _ => destruct H end;
  repeat match goal with E : _ w = _ |- _ => rewrite !E | E : _ &! _ = _ |- _ => rewrite !E end.

Ltac expand f g := expansion_start f g; cases_of_requirements.
Ltac expand_at f g :=
  expansion_start f g; match goal with E : (_ =? _) = true |- _ => apply Z.eqb_eq in E; subst end; cbn [Z.eqb Pos.eqb]; requirements; cases_of_requirements.
Ltac by_value := eapply write_same; [reflexivity..|].

Lemma read_canon x (s : state) r : x = 32 \/ x = 64 -> wf_state x s -> canon x (regfile_get (XPR s) r).
Proof using. intros Hx Hs. apply (@wf_get _ (Env x false 0 0) Hx s r Hs). Qed.

Lemma sext_canon x v : x = 32 \/ x = 64 -> canon x v -> u64 (sext v x) = v.
Proof using. intros Hx Hv. rewrite sext_swrap by lia. done. Qed.

Lemma read_x0 x (s : state) : wf_state x s -> regfile_get (XPR s) 0 = 0.
Proof using. by intros []. Qed.

Lemma sext_small x v : x = 32 \/ x = 64 -> - 2 ^ 31 <= v < 2 ^ 31 -> u64 (sext (u64 v) x) = u64 v.
Proof using.
  intros Hx Hv. rewrite sext_swrap by lia. apply (canon_signed32 x Hx v Hv).
Qed.
Lemma rvc_imm_range c : - 32 <= rvc_imm c < 32.
Proof using. apply (fmt_decode_range FmtCI c). Qed.

Lemma registers_expand : Forall expands table_registers.
Proof using.
  unfold table_registers. repeat apply List.Forall_cons; try apply List.Forall_nil.
  - expand @c_add @add.
  - expand @c_mv @add. by_value. cbn. pose proof (read_canon x s (rvc_rs2 c) Hx Hs) as Hc.
    rewrite (read_x0 x), Z.add_0_l by done. unfold sext_xlen. cbn [xlen].
    rewrite !(wrap_small 64 (regfile_get _ _)) by by apply (canon_range x). by rewrite sext_canon.
  - expand @c_addi @addi.
  - expand @c_li @addi. by_value. cbn. rewrite (read_x0 x), Z.add_0_l by done. pose proof (rvc_imm_range c).
    unfold sext_xlen. cbn [xlen]. by rewrite sext_small by lia.
  - expand @c_addi4spn @addi.
  - expansion_start @c_lui @addi. rewrite Ha. requirements. cases_of_requirements.
  - expansion_start @c_lui @lui. apply andb_true_iff in Ha as [Ha1 Ha2]. rewrite negb_true_iff in Ha1.
    rewrite Ha1, Ha2. cases_of_requirements. by_value. cbn. pose proof (rvc_imm_range c).
    rewrite Z.shiftl_mul_pow2 by lia. by rewrite swrap_small by lia.
  - expand @c_and @and.
  - expand @c_or @or.
  - expand @c_xor @xor.
  - expand @c_sub @sub.
  - expand @c_addw @addw. by destruct (x =? 64).
  - expand @c_subw @subw. by destruct (x =? 64).
  - expand @c_andi @andi. by_value. cbn. by rewrite Z.land_comm.
  - expand @c_slli @slli.
  - expand @c_srli @srli.
  - expand @c_srai @srai.
  - expand_at @c_jal @addiw. by_value. cbn. by rewrite (Z.add_comm (rvc_imm c)).
Qed.

(** A write to [x0] does nothing. *)
Lemma write_x0 (E : env) (m : M unit) v s : @rve E = false ->
  (m;; @WRITE_REG _ E 0 (mret v)) s = m s.
Proof using.
  intros Hr. unfold WRITE_REG, CHECK_REG, mbind, M_bind. rewrite Hr. destruct (m s) as [[t|[]] s1]; [done|].
  cbn. by destruct s1.
Qed.

Lemma run_read {A} x c pc r (k : Z -> M A) s :
  (@READ_REG _ (Env x false c pc) r ≫= k) s = k (regfile_get (XPR s) r) s.
Proof using. reflexivity. Qed.
Lemma add_zero x (s : state) r : x = 32 \/ x = 64 -> wf_state x s ->
  regfile_get (XPR s) r +! 0 = regfile_get (XPR s) r.
Proof using. intros Hx Hs. rewrite Z.add_0_r. apply wrap_small, (canon_range x). by apply read_canon. Qed.
(** The tail of a jump through a register is the same whatever the encoding. *)
Lemma jump_tail (E E' : env) a r (k k' : M unit) s : @xlen E = @xlen E' -> (forall s, k s = k' s) ->
  (@set_pc _ E a;; k;; expect_landing_pad r) s = (@set_pc _ E' a;; k';; expect_landing_pad r) s.
Proof using.
  intros Hx Hk. assert (Hp : @set_pc _ E a s = @set_pc _ E' a s) by
    (unfold set_pc, sext_xlen, check_pc_alignment; by rewrite Hx).
  unfold mbind, M_bind. rewrite Hp. destruct (@set_pc _ E' a s) as [[t|[]] s1]; [done|]. by rewrite Hk.
Qed.

Lemma control_expand : Forall expands table_control.
Proof using.
  unfold table_control. repeat apply List.Forall_cons; try apply List.Forall_nil.
  - expand @c_j @jal. symmetry.
    exact (write_x0 (Env x false w pc) (@set_pc _ (Env x false w pc) (pc +! rvc_j_imm c)) (npc s) s eq_refl).
  - expand_at @c_jal @jal.
  - expand @c_jr @jalr. rewrite run_read. symmetry.
    change (((fun a => @set_pc _ (Env x false w pc) ((a +! 0) &! ~! 1);; @WRITE_REG _ (Env x false w pc) 0 (mret (npc s));;
      expect_landing_pad (insn_rd c)) (regfile_get (XPR s) (insn_rd c))) s =
      (@set_pc _ (Env x false c pc) (regfile_get (XPR s) (insn_rd c) &! ~! 1);; mret tt;;
      expect_landing_pad (insn_rd c)) s).
    cbv beta. rewrite (add_zero x) by done. apply jump_tail; [done|]. intros s1.
    exact (write_x0 (Env x false w pc) (mret tt) (npc s) s1 eq_refl).
  - expand @c_jalr @jalr. symmetry.
    change (((fun a => @set_pc _ (Env x false w pc) ((a +! 0) &! ~! 1);; @WRITE_REG _ (Env x false w pc) 1 (mret (npc s));;
      expect_landing_pad (insn_rd c)) (regfile_get (XPR s) (insn_rd c))) s =
      (@set_pc _ (Env x false c pc) (regfile_get (XPR s) (insn_rd c) &! ~! 1);;
      @WRITE_REG _ (Env x false c pc) 1 (mret (npc s));;
      expect_landing_pad (insn_rd c)) s).
    cbv beta. rewrite (add_zero x) by done. by apply jump_tail.
  - expand @c_beqz @beq. rewrite !run_read. cbn. by rewrite (read_x0 x).
  - expand @c_bnez @bne. rewrite !run_read. cbn. by rewrite (read_x0 x).
  - expand @c_ebreak @ebreak.
Qed.
Lemma write_cong (E E' : env) r (m m' : M Z) s : @rve E = false -> @rve E' = false -> m s = m' s ->
  @WRITE_REG _ E r m s = @WRITE_REG _ E' r m' s.
Proof using.
  intros H1 H2 Hm. unfold WRITE_REG, CHECK_REG, mbind, M_bind. rewrite H1, H2. cbn. by rewrite Hm.
Qed.
Lemma bind_ret (m : M Z) s : (m ≫= fun v => mret v) s = m s.
Proof using. unfold mbind, M_bind. by destruct (m s) as [[]?]. Qed.

Lemma memory_expand : Forall expands table_memory.
Proof using.
  unfold table_memory. repeat apply List.Forall_cons; try apply List.Forall_nil.
  - expand @c_lw @lw.
  - expand @c_lwsp @lw.
  - expand_at @c_ld @ld.
  - expand_at @c_ldsp @ld.
  - expand @c_sw @sw.
  - expand @c_swsp @sw.
  - expand_at @c_sd @sd.
  - expand_at @c_sdsp @sd.
  - expand @c_lbu @lbu. apply write_cong; [done..|]. rewrite !run_read. by rewrite bind_ret.
  - expand @c_lh @lh.
  - expand @c_lhu @lhu. apply write_cong; [done..|]. rewrite !run_read. by rewrite bind_ret.
  - expand @c_sb @sb.
  - expand @c_sh @sh.
Qed.
Lemma run_require_either {E : env} {A} e f (k : M A) s :
  (require_either_extension e f;; k) s =
  if extension_enabled s e || extension_enabled s f then k s else (inl (trap_illegal_instruction insn), s).
Proof using.
  unfold require_either_extension, mbind, M_bind. cbn. by destruct (_ || _).
Qed.

Lemma run_ext_enabled {A} e (k : bool -> M A) s : (ext_enabled e ≫= k) s = k (extension_enabled s e) s.
Proof using. reflexivity. Qed.

Lemma low_halfword v : (wrap 32 (v <<! 16)) >>! 16 = wrap 16 v.
Proof using.
  apply Z.bits_inj'. intros i Hi. rewrite Z.shiftr_spec, !wrap_testbit, Z.shiftl_spec by lia.
  replace (i + 16 - 16) with i by lia. destruct (Z.ltb_spec i 16).
  - replace (i + 16 <? 32) with true by lia. by replace (i + 16 <? 64) with true by lia.
  - by replace (i + 16 <? 32) with false by lia.
Qed.
Lemma not_canon x v : x = 32 \/ x = 64 -> canon x v -> u64 (sext (~! v) x) = u64 (-1 ^! v).
Proof using.
  intros Hx Hv. rewrite Z.lxor_comm, Z.lxor_m1_r. rewrite sext_swrap by lia. apply (canon_lnot x Hx v Hv).
Qed.

Lemma zcb_expand : Forall expands table_zcb.
Proof using.
  unfold table_zcb. repeat apply List.Forall_cons; try apply List.Forall_nil.
  - expansion_start @c_mul @mul. unfold mul_enabled. rewrite !run_require_either. cases_of_requirements.
  - expand @c_not @xori. by_value. cbn. apply not_canon; [done|]. by apply read_canon.
  - expand @c_sext_b @sext_b. by_value. cbn. set (v := regfile_get _ _).
    pose proof (swrap_range 8 ltac:(lia) v). by rewrite (swrap_small 64) by lia.
  - expand @c_sext_h @sext_h. by_value. cbn. set (v := regfile_get _ _).
    pose proof (swrap_range 16 ltac:(lia) v). by rewrite (swrap_small 64) by lia.
  - expand @c_zext_b @andi. by_value. cbn. rewrite Z.land_comm. change 255 with (Z.ones 8). by rewrite Z.land_ones.
  - expansion_start @c_zext_h @pack. apply Z.eqb_eq in Hw. subst x. rewrite !run_ext_enabled, run_require.
    destruct (extension_enabled s EXT_ZCB), (extension_enabled s EXT_ZBB); try done.
    cbn [andb orb Z.eqb Pos.eqb]. rewrite !run_read. by_value. cbv beta. rewrite (read_x0 32) by done.
    unfold sext_xlen, zext_xlen. cbn [xlen]. change (32 / 2) with 16.
    rewrite !zext_wrap, low_halfword, Z.lor_0_r by lia.
    set (v := regfile_get _ _). pose proof (wrap_range 16 ltac:(lia) v).
    rewrite sext_swrap, (swrap_small 32) by lia. done.
  - expansion_start @c_zext_h @packw. apply Z.eqb_eq in Hw. subst x. rewrite !run_ext_enabled, run_require.
    destruct (extension_enabled s EXT_ZCB), (extension_enabled s EXT_ZBB); try done.
    cbn [andb orb Z.eqb Pos.eqb]. rewrite run_require, !run_read. by_value. cbv beta. rewrite (read_x0 64) by done.
    rewrite !zext32_wrap, low_halfword, Z.lor_0_r, sext32_swrap.
    set (v := regfile_get _ _). pose proof (wrap_range 16 ltac:(lia) v). by rewrite (swrap_small 32) by lia.
  - expand @c_zext_w @add_uw. destruct (Z.eqb_spec x 64) as [-> |]; [|done]. by_value. cbn.
    rewrite (read_x0 64), Z.add_0_r, zext32_wrap by done. unfold sext_xlen. cbn [xlen].
    set (v := regfile_get _ _). pose proof (wrap_range 32 ltac:(lia) v).
    rewrite (wrap_small 64 (wrap 32 v)) by lia.
    rewrite sext_swrap by lia. by rewrite wrap_swrap, (wrap_small 64 (wrap 32 v)) by lia.
Qed.

(** C13: Compressed instructions are abbreviations.  For every integer
    instruction of Zca and Zcb, every encoding [c] and every 32-bit word [w]
    with the operands the ISA manual gives for it (registers and immediate), a
    run of the 16-bit body on a hart with canonical registers is, result and
    state, the run of the 32-bit body, with its loads, stores, jumps, landing
    pads and exceptions; and it raises an illegal instruction with [c] as value
    exactly when the extension is missing or the encoding is reserved. *)
Theorem compressed_expansion : Forall expands (table_registers ++ table_control ++ table_memory ++ table_zcb).
Proof using.
  rewrite !Forall_app. split_and!;
    [apply registers_expand|apply control_expand|apply memory_expand|apply zcb_expand].
Qed.
End expansion.

(** The words an assembler gives for some of them. *)
Example expansion_words :
  ops_r rvc_rd rvc_rs1 rvc_rs2 0x952e 0x00b50533 (* c.add a0,a1: add a0,a0,a1 *) /\
  ops_i rvc_rd rvc_rs1 rvc_imm 0x157d 0xfff50513 (* c.addi a0,-1: addi a0,a0,-1 *) /\
  ops_i (no 2) (no 2) rvc_addi16sp_imm 0x7139 0xfc010113 (* c.addi16sp -64: addi sp,sp,-64 *) /\
  ops_u rvc_rd (fun c => rvc_imm c * 2 ^ 12) 0x6505 0x00001537 (* c.lui a0,1: lui a0,1 *) /\
  ops_shift rvc_rs1s rvc_rs1s rvc_zimm 0x850d 0x40355513 (* c.srai a0,3: srai a0,a0,3 *) /\
  ops_i rvc_rs2s rvc_rs1s rvc_lw_imm 0x41c8 0x0045a503 (* c.lw a0,4(a1): lw a0,4(a1) *) /\
  ops_s rvc_rs1s rvc_rs2s rvc_lw_imm 0xc1c8 0x00a5a223 (* c.sw a0,4(a1): sw a0,4(a1) *) /\
  ops_j (no 0) rvc_j_imm 0xa801 0x0100006f (* c.j 16: jal x0,16 *) /\
  ops_b rvc_rs1s (no 0) rvc_b_imm 0xc501 0x00050463 (* c.beqz a0,8: beq a0,x0,8 *).
Proof.
  unfold ops_r, ops_i, ops_u, ops_shift, ops_s, ops_j, ops_b. split_and!; vm_compute; reflexivity.
Qed.

(** [c.lw a0,4(a1)] loads the word at [0x80000014], as [lw a0,4(a1)] does. *)
Definition lw_state : state (mmu_t ram) := with_XPR (<[11%nat := 0x80000010]> (replicate 32 0)) (ram_state true).

Definition c_lw_entry : entry (X:=ram) :=
  Entry (fun E => c_lw) (fun E => lw) any any (ext1 EXT_ZCA) ok (ops_i rvc_rs2s rvc_rs1s rvc_lw_imm).
Example c_lw_loads : regfile_get (XPR (snd (@c_lw _ _ (Env 64 false 0x41c8 0x80000000) lw_state))) 10 = 0x17161514.
Proof. vm_compute. reflexivity. Qed.

Lemma compressed_expansion_witness :
  needs c_lw_entry lw_state && legal c_lw_entry 64 0x41c8 = true /\
  @compressed _ c_lw_entry (Env 64 false 0x41c8 0x80000000) lw_state =
  if needs c_lw_entry lw_state && legal c_lw_entry 64 0x41c8
  then @expansion _ c_lw_entry (Env 64 false 0x0045a503 0x80000000) lw_state
  else (inl (trap_illegal_instruction 0x41c8), lw_state).
Proof.
  split; [reflexivity|].
  assert (Hop : ops_i rvc_rs2s rvc_rs1s rvc_lw_imm 0x41c8 0x0045a503)
    by (unfold ops_i; split_and!; vm_compute; reflexivity).
  assert (Hwf : wf_state 64 lw_state).
  { constructor; [done|done| |vm_compute; reflexivity].
    apply Forall_insert; [apply Forall_replicate|]; vm_compute; reflexivity. }
  exact (proj1 (List.Forall_forall _ _) (@compressed_expansion ram _) c_lw_entry ltac:(cbn; tauto)
    64 0x41c8 0x0045a503 0x80000000 lw_state (or_intror eq_refl) eq_refl eq_refl Hop Hwf).
Defined.
