(* ===== verification/WellFormed.v ===== *)
(** * Registers stay well formed

    [wf_state] of [Hart.v], under which the instruction theorems are stated, is an
    invariant: 32 registers, [x0] zero, and every register and the next program
    counter the sign extension of an [xlen]-bit value.  Every body of the
    instruction files preserves it, whatever the instruction word, the memory and
    the devices, also when it leaves by an exception. *)

From Stdlib Require Import ZifyBool.
From stdpp Require Import relations.
From S2P Require Import Prelude Arith Decode Hart Pmp InsnsIM InsnsB InsnsK Mmu MmuTlb MmuFrame InsnsA Zicfiss InsnsC.
Local Open Scope cint_scope.

(** ** Values that are canonical *)

Section values.
Context (w : Z) (Hw : w = 32 \/ w = 64).

Lemma canon_any x : w = 64 -> canon w (u64 x).
Proof using Hw. intros ->. unfold canon. by rewrite wrap_swrap, wrap_wrap by lia. Qed.
Lemma canon_small x : 0 <= x < 2 ^ 31 -> canon w (u64 x).
Proof using Hw. intros Hx. apply canon_signed32; [done|lia]. Qed.
Lemma canon_s n x : 0 < n <= 32 -> canon w (u64 (swrap n x)).
Proof using Hw. intros Hn. apply canon_swrap_u64; lia. Qed.
Lemma canon_s64 x : canon w (u64 x) -> canon w (u64 (s64 x)).
Proof using. by rewrite wrap_swrap by lia. Qed.
Lemma sext32_canon x : canon w (u64 (sext32 x)).
Proof using Hw. rewrite sext32_swrap. apply canon_s. lia. Qed.
Lemma canon_wrap n x : 0 < n <= 31 -> canon w (u64 (wrap n x)).
Proof using Hw.
  intros Hn. apply canon_small. pose proof (wrap_range n ltac:(lia) x).
  pose proof (Z.pow_le_mono_r 2 n 31). lia.
Qed.
Lemma u64_land a b : u64 (a &! b) = u64 a &! u64 b.
Proof using.
  apply Z.bits_inj'. intros i Hi. rewrite Z.land_spec, !wrap_testbit, Z.land_spec by lia.
  by destruct (i <? 64).
Qed.
Lemma u64_lor a b : u64 (a |! b) = u64 a |! u64 b.
Proof using.
  apply Z.bits_inj'. intros i Hi. rewrite Z.lor_spec, !wrap_testbit, Z.lor_spec by lia.
  by destruct (i <? 64).
Qed.
Lemma u64_lxor a b : u64 (a ^! b) = u64 a ^! u64 b.
Proof using.
  apply Z.bits_inj'. intros i Hi. rewrite Z.lxor_spec, !wrap_testbit, Z.lxor_spec by lia.
  by destruct (i <? 64).
Qed.
Lemma canon_u64_land a b : canon w (u64 a) -> canon w (u64 b) -> canon w (u64 (a &! b)).
Proof using Hw. rewrite u64_land. by apply canon_land. Qed.
Lemma canon_u64_lor a b : canon w (u64 a) -> canon w (u64 b) -> canon w (u64 (a |! b)).
Proof using Hw. rewrite u64_lor. by apply canon_lor. Qed.
Lemma canon_u64_lxor a b : canon w (u64 a) -> canon w (u64 b) -> canon w (u64 (a ^! b)).
Proof using Hw. rewrite u64_lxor. by apply canon_lxor. Qed.
Lemma canon_u64_lnot a : canon w a -> canon w (u64 (~! a)).
Proof using Hw. intros Ha. apply canon_u64. by apply canon_lnot. Qed.
Lemma canon_u64_if (c : bool) a b : canon w (u64 a) -> canon w (u64 b) -> canon w (u64 (if c then a else b)).
Proof using. by destruct c. Qed.
Lemma imm_canon f b : fmt_signed (fmt_layout f) = true -> fmt_width (fmt_layout f) <= 32 ->
  canon w (u64 (fmt_decode f b)).
Proof using Hw.
  intros Hf Hn. pose proof (fmt_decode_range f b) as Hr. cbv zeta in Hr. rewrite Hf in Hr.
  apply canon_signed32; [done|]. pose proof (Z.pow_le_mono_r 2 (fmt_width (fmt_layout f) - 1) 31). lia.
Qed.
Lemma canon_max : canon w (u64 UINT64_MAX).
Proof using Hw. destruct Hw as [-> | ->]; reflexivity. Qed.
Lemma canon_i_imm b : canon w (u64 (insn_i_imm b)).
Proof using Hw. by apply (imm_canon FmtI). Qed.
Lemma canon_u_imm b : canon w (u64 (insn_u_imm b)).
Proof using Hw. by apply (imm_canon FmtU). Qed.
Lemma canon_rvc_imm b : canon w (u64 (rvc_imm b)).
Proof using Hw. by apply (imm_canon FmtCI). Qed.
Lemma canon_rvc_lui b : canon w (u64 (s64 (Z.shiftl (rvc_imm b) 12))).
Proof using Hw.
  apply canon_s64, canon_signed32; [done|]. pose proof (fmt_decode_range FmtCI b) as Hr. cbn in Hr.
  rewrite Z.shiftl_mul_pow2 by lia. lia.
Qed.
Lemma canon_u64_self a : canon w a -> canon w (u64 a).
Proof using. apply canon_u64. Qed.
End values.

#[export] Hint Resolve canon_s canon_s64 sext32_canon canon_wrap canon_u64_land canon_u64_lor canon_u64_lxor
  canon_u64_lnot canon_u64_if canon_max canon_i_imm canon_u_imm canon_rvc_imm canon_rvc_lui : hart.
#[export] Hint Extern 2 (_ <= _) => lia : hart.
#[export] Hint Extern 2 (_ < _) => lia : hart.
#[export] Hint Extern 2 (_ < _ <= _) => lia : hart.

(** ** Bodies *)

Section bodies.
Context {X : Type} `{platform X} (Ht : typed_platform X).

Lemma yields_npc {E : env} : yields (W:=mmu_t X) xlen (gets npc) (canon xlen).
Proof using. apply yields_gets. by intros s []. Qed.
Lemma yields_software_check {E : env} c v : yields (W:=mmu_t X) xlen (software_check c v) (fun _ => True).
Proof using. unfold software_check. destruct c; [by apply yields_ret|apply yields_throw]. Qed.
Lemma yields_elp {E : env} e : yields (W:=mmu_t X) xlen (modify (with_elp e)) (fun _ => True).
Proof using. apply yields_modify; [|done]. by intros s []. Qed.
Lemma yields_cond {E : env} {A} (c : bool) (m n : M (mmu_t X) A) Q :
  (c = true -> yields xlen m Q) -> (c = false -> yields xlen n Q) -> yields xlen (if c then m else n) Q.
Proof using. destruct c; auto. Qed.
Lemma rd_nonneg b : 0 <= insn_rd b.
Proof using. apply insn_x_nonneg. Qed.
Lemma rvc_nonneg x : 0 <= 8 +! x.
Proof using. by apply wrap_range. Qed.
Lemma Sn_nonneg b lo n : 0 <= Sn (insn_x b lo n).
Proof using. pose proof (insn_x_nonneg b lo n). unfold Sn, X_S0, X_Sn. case_match; lia. Qed.
#[local] Hint Resolve rd_nonneg : hart.
#[local] Hint Extern 1 (0 <= rvc_rs1s _) => apply rvc_nonneg : hart.
#[local] Hint Extern 1 (0 <= rvc_rs2s _) => apply rvc_nonneg : hart.
#[local] Hint Extern 1 (0 <= RVC_R1S) => apply Sn_nonneg : hart.
#[local] Hint Extern 1 (0 <= RVC_R2S) => apply Sn_nonneg : hart.

Lemma rd_next b : 0 <= insn_rd b + 1.
Proof using. pose proof (rd_nonneg b). lia. Qed.
#[local] Hint Resolve rd_next : hart.
#[local] Hint Extern 1 (0 <= X_SP) => done : hart.
#[local] Hint Extern 1 (0 <= X_RA) => done : hart.
#[local] Hint Extern 1 (0 <= X_A0) => done : hart.
#[local] Hint Extern 1 (0 <= X_A1) => done : hart.

(** *** Macros and MMU operations *)

Lemma yields_require_envcfg {E : env} f : yields (W:=mmu_t X) xlen (require_envcfg f) (fun _ => True).
Proof using. intros s Hs. unfold require_envcfg. repeat case_match; by split. Qed.
Lemma yields_pushpop {E : env} : yields (W:=mmu_t X) xlen require_zcmp_pushpop (fun _ => True).
Proof using.
  unfold require_zcmp_pushpop. eapply yields_bind; [apply yields_require_extension|intros].
  eapply yields_bind; [apply yields_require|intros]. eapply yields_bind; [apply yields_ext|intros].
  apply yields_if; [eapply yields_weaken; [apply yields_require|done]|by apply yields_ret].
Qed.
Lemma yields_novirt {E : env} : yields (W:=mmu_t X) xlen require_novirt (fun _ => True).
Proof using.
  eapply yields_bind; [by apply (yields_gets _ (fun _ => True))|]. intros v _.
  apply yields_if; [apply yields_throw|by apply yields_ret].
Qed.
Lemma yields_hypervisor {E : env} : yields xlen (hypervisor_access (X:=X)) (fun _ => True).
Proof using.
  unfold hypervisor_access. eapply yields_bind; [apply yields_novirt|intros].
  eapply yields_bind; [by apply (yields_gets _ (fun _ => True))|intros].
  eapply yields_bind; [by apply (yields_gets _ (fun _ => True))|intros].
  eapply yields_weaken; [apply yields_require|done].
Qed.

Definition in_range (n v : Z) : Prop := 0 <= v < 2 ^ (8 * n).
Lemma yields_value {E : env} n (m : M (mmu_t X) Z) : frame m (is_value n) -> yields xlen m (in_range n).
Proof using Ht. intros Hm. eapply yields_weaken; [by apply frame_yields|]. intros v Hv. by apply Hv. Qed.
Lemma yields_load {E : env} n a f : 0 <= n -> yields xlen (load n a f) (in_range n).
Proof using Ht. intros. by apply yields_value, frame_load. Qed.
Lemma yields_ss_load {E : env} n a : 0 <= n -> yields xlen (ss_load n a) (in_range n).
Proof using Ht. intros. by apply yields_value, frame_ss_load. Qed.
Lemma yields_cas {E : env} n a c w : 0 <= n -> yields xlen (amo_compare_and_swap n a c w) (in_range n).
Proof using Ht. intros. by apply yields_value, frame_compare_and_swap. Qed.
Lemma yields_ssamoswap {E : env} n a w : 0 <= n -> yields xlen (ssamoswap n a w) (in_range n).
Proof using Ht. intros. by apply yields_value, frame_ssamoswap. Qed.
Lemma frame_RS2 {E : env} (f : Z -> Z) : frame (b ← RS2 (W:=mmu_t X); mret (f b)) (fun _ => True).
Proof using.
  apply frame_seq; [|intros; by apply frame_ret]. apply frame_seq; [|intros; by apply frame_gets].
  apply frame_if; [apply frame_if; [by apply frame_ret|apply frame_throw]|by apply frame_ret].
Qed.
Lemma yields_amo {E : env} n a (f : Z -> Z -> Z) : 0 <= n ->
  yields xlen (amo n a (fun lhs => b ← RS2; mret (f lhs b))) (in_range n).
Proof using Ht. intros. apply yields_value, frame_amo; [done|]. intros v. apply frame_RS2. Qed.
Lemma yields_store {E : env} n a v f : yields (W:=mmu_t X) xlen (store n a v f) (fun _ => True).
Proof using. apply frame_yields, frame_store. Qed.
Lemma yields_ss_store {E : env} n a v : yields (W:=mmu_t X) xlen (ss_store n a v) (fun _ => True).
Proof using. apply frame_yields, frame_ss_store. Qed.
Lemma yields_store_conditional {E : env} n a v : yields (W:=mmu_t X) xlen (store_conditional n a v) (fun _ => True).
Proof using. apply frame_yields, frame_store_conditional. Qed.
Lemma yields_clean {E : env} a c i : yields (W:=mmu_t X) xlen (clean_inval a c i) (fun _ => True).
Proof using. apply frame_yields, frame_clean_inval. Qed.
Lemma yields_zero {E : env} a : yields (W:=mmu_t X) xlen (Mmu.cbo_zero a) (fun _ => True).
Proof using. apply frame_yields, frame_cbo_zero. Qed.
Lemma yields_ssp_read {E : env} : yields (W:=mmu_t X) xlen ssp_read (fun _ => True).
Proof using. by apply yields_gets. Qed.
Lemma yields_ssp_write {E : env} v : yields (W:=mmu_t X) xlen (ssp_write v) (fun _ => True).
Proof using. by apply frame_yields, frame_modify_mmu. Qed.
Lemma yields_xSSE {E : env} : yields (W:=mmu_t X) xlen xSSE (fun _ => True).
Proof using. by apply yields_gets. Qed.

Lemma canon_high {E : env} v : xlen = 32 \/ xlen = 64 -> canon xlen (u64 (s64 v >>! 32)).
Proof using.
  intros Hx. apply canon_signed32; [done|]. pose proof (swrap_range 64 ltac:(lia) v) as Hr.
  rewrite Z.shiftr_div_pow2 by lia. change (2 ^ (64 - 1)) with (2 ^ 31 * 2 ^ 32) in Hr.
  split; [apply Z.div_le_lower_bound; lia|apply Z.div_lt_upper_bound; lia].
Qed.
Lemma yields_WRITE_REG_PAIR {E : env} r (m : M (mmu_t X) Z) : xlen = 32 \/ xlen = 64 -> 0 <= r ->
  yields xlen m (fun _ => True) -> yields xlen (WRITE_REG_PAIR r m) (fun _ => True).
Proof using.
  intros Hx Hr Hm. apply yields_when. eapply yields_bind; [apply yields_require|intros].
  eapply yields_bind; [apply Hm|]. intros v _. eapply yields_bind.
  - apply yields_WRITE_REG; [done|]. apply yields_ret. by apply sext32_canon.
  - intros _u _. apply yields_WRITE_REG; [lia|]. apply yields_ret. by apply canon_high.
Qed.

Definition safe (body : forall E : env, M (mmu_t X) unit) : Prop :=
  forall E : env, xlen = 32 \/ xlen = 64 -> yields xlen (body E) (fun _ => True).

Ltac leaf := first
  [ apply yields_npc | apply yields_software_check | apply yields_elp
  | apply yields_require | apply yields_require_extension | apply yields_require_either | apply yields_ext
  | apply yields_CHECK_REG | apply yields_READ_REG; assumption | apply yields_set_pc; assumption
  | apply yields_serialize; assumption | apply yields_landing_pad; assumption | apply yields_throw
  | apply yields_load; lia | apply yields_store | apply yields_amo; lia | apply yields_cas; lia
  | apply yields_ssamoswap; lia | apply yields_ss_load; lia | apply yields_ss_store
  | apply yields_store_conditional | apply yields_clean | apply yields_zero | apply yields_require_envcfg
  | apply yields_hypervisor | apply yields_ssp_read | apply yields_ssp_write | apply yields_xSSE | apply yields_pushpop
  | apply yields_gets; intros; exact I ].
Ltac value := first
  [ exact I | solve [match goal with Hr : in_range _ ?v |- canon _ (u64 ?v) =>
        unfold in_range in Hr; apply canon_small; [assumption|cbn in Hr; lia] end] | solve [match goal with |- context [xlen =? 64] => destruct (Z.eqb_spec xlen 64) end;
        [by apply canon_any|eauto 8 with hart]] | solve [apply canon_any; first [assumption | lia]] | solve [eauto 8 with hart] ].
Ltac step :=
  match goal with
  | |- yields _ (WRITE_REG _ _) _ => apply yields_WRITE_REG; [solve [auto with hart]|]
  | |- yields _ (WRITE_REG_PAIR _ _) _ => apply yields_WRITE_REG_PAIR; [assumption|solve [auto with hart]|]
  | |- yields _ (mret _) _ => apply yields_ret; try value
  | |- yields _ (throw _) _ => apply yields_throw
  | |- yields _ (gets _) (fun _ => True) => apply yields_gets; intros; exact I
  | |- yields _ (when _ _) _ => apply yields_when
  | |- yields _ (if _ then _ else _) _ => apply yields_cond; intros
  | |- yields _ (_ ≫= _) _ => eapply yields_bind; [leaf|intros; cbv beta in *]
  | |- yields _ (_ ≫= _) _ => eapply (yields_bind _ _ (fun _ => True)); [|intros; cbv beta in *]
  | |- yields _ _ (fun _ => True) => first [leaf | eapply yields_weaken; [leaf|done]]
  | |- yields _ _ (fun v => canon _ (u64 v)) => eapply yields_weaken; [leaf|intros; cbv beta in *; value]
  end.
Ltac macros := unfold WRITE_RD, CHECK_RD, RD, RS1, RS2, WRITE_RVC_RS1S, WRITE_RVC_RS2S, RVC_RS1, RVC_RS2, RVC_SP,
  RVC_RS1S, RVC_RS2S, require_rv64, require_rv32, RD, WRITE_RD_PAIR, WRITE_RVC_RS2S_PAIR, RS2_PAIR, RVC_RS2_PAIR, RVC_RS2S_PAIR,
  READ_REG_PAIR, require_align, require_doubleword, load_reserved, guest_load, guest_load_x, guest_store, amocas_pair,
  c_sspopchk_x5, c_sspush_x1, c_mop_N, mop_r_N, mop_rr_N, sspopchk_x1, sspush_x1,
  PUSH_VALUE_TO_SS, POP_VALUE_FROM_SS_AND_CHECK.
Ltac body f := intros E Hx; unfold f; macros; macros; macros; cbv zeta; repeat step.

Definition base_bodies : list (forall E : env, M (mmu_t X) unit) :=
  [ (fun E => InsnsIM.add); (fun E => InsnsIM.addi); (fun E => InsnsIM.addiw); (fun E => InsnsIM.addw);
    (fun E => InsnsIM.and); (fun E => InsnsIM.andi); (fun E => InsnsIM.auipc); (fun E => InsnsIM.lui);
    (fun E => InsnsIM.or); (fun E => InsnsIM.ori); (fun E => InsnsIM.sll); (fun E => InsnsIM.slli);
    (fun E => InsnsIM.slliw); (fun E => InsnsIM.sllw); (fun E => InsnsIM.slt); (fun E => InsnsIM.slti);
    (fun E => InsnsIM.sltiu); (fun E => InsnsIM.sltu); (fun E => InsnsIM.sra); (fun E => InsnsIM.srai);
    (fun E => InsnsIM.sraiw); (fun E => InsnsIM.sraw); (fun E => InsnsIM.srl); (fun E => InsnsIM.srli);
    (fun E => InsnsIM.srliw); (fun E => InsnsIM.srlw); (fun E => InsnsIM.sub); (fun E => InsnsIM.subw);
    (fun E => InsnsIM.xor); (fun E => InsnsIM.xori); (fun E => InsnsIM.beq); (fun E => InsnsIM.bge);
    (fun E => InsnsIM.bgeu); (fun E => InsnsIM.blt); (fun E => InsnsIM.bltu); (fun E => InsnsIM.bne);
    (fun E => InsnsIM.jal); (fun E => InsnsIM.jalr); (fun E => InsnsIM.lpad); (fun E => InsnsIM.fence);
    (fun E => InsnsIM.ecall); (fun E => InsnsIM.ebreak); (fun E => InsnsIM.czero_eqz); (fun E => InsnsIM.czero_nez);
    (fun E => InsnsIM.mop_r_N); (fun E => InsnsIM.mop_rr_N); (fun E => InsnsIM.div); (fun E => InsnsIM.divu);
    (fun E => InsnsIM.divuw); (fun E => InsnsIM.divw); (fun E => InsnsIM.mul); (fun E => InsnsIM.mulh);
    (fun E => InsnsIM.mulhsu); (fun E => InsnsIM.mulhu); (fun E => InsnsIM.mulw); (fun E => InsnsIM.rem);
    (fun E => InsnsIM.remu); (fun E => InsnsIM.remuw); (fun E => InsnsIM.remw) ].

Lemma base_safe : Forall safe base_bodies.
Proof using.
  repeat apply List.Forall_cons; try apply List.Forall_nil.
  - body @InsnsIM.add.
  - body @InsnsIM.addi.
  - body @InsnsIM.addiw.
  - body @InsnsIM.addw.
  - body @InsnsIM.and.
  - body @InsnsIM.andi.
  - body @InsnsIM.auipc.
  - body @InsnsIM.lui.
  - body @InsnsIM.or.
  - body @InsnsIM.ori.
  - body @InsnsIM.sll.
  - body @InsnsIM.slli.
  - body @InsnsIM.slliw.
  - body @InsnsIM.sllw.
  - body @InsnsIM.slt.
  - body @InsnsIM.slti.
  - body @InsnsIM.sltiu.
  - body @InsnsIM.sltu.
  - body @InsnsIM.sra.
  - body @InsnsIM.srai.
  - body @InsnsIM.sraiw.
  - body @InsnsIM.sraw.
  - body @InsnsIM.srl.
  - body @InsnsIM.srli.
  - body @InsnsIM.srliw.
  - body @InsnsIM.srlw.
  - body @InsnsIM.sub.
  - body @InsnsIM.subw.
  - body @InsnsIM.xor.
  - body @InsnsIM.xori.
  - body @InsnsIM.beq.
  - body @InsnsIM.bge.
  - body @InsnsIM.bgeu.
  - body @InsnsIM.blt.
  - body @InsnsIM.bltu.
  - body @InsnsIM.bne.
  - body @InsnsIM.jal.
  - body @InsnsIM.jalr.
  - body @InsnsIM.lpad.
  - body @InsnsIM.fence.
  - body @InsnsIM.ecall.
  - body @InsnsIM.ebreak.
  - body @InsnsIM.czero_eqz.
  - body @InsnsIM.czero_nez.
  - body @InsnsIM.mop_r_N.
  - body @InsnsIM.mop_rr_N.
  - body @InsnsIM.div.
  - body @InsnsIM.divu.
  - body @InsnsIM.divuw.
  - body @InsnsIM.divw.
  - body @InsnsIM.mul.
  - body @InsnsIM.mulh.
  - body @InsnsIM.mulhsu.
  - body @InsnsIM.mulhu.
  - body @InsnsIM.mulw.
  - body @InsnsIM.rem.
  - body @InsnsIM.remu.
  - body @InsnsIM.remuw.
  - body @InsnsIM.remw.
Qed.

Definition bitmanip_bodies : list (forall E : env, M (mmu_t X) unit) :=
  [ (fun E => InsnsB.add_uw); (fun E => InsnsB.sh1add); (fun E => InsnsB.sh1add_uw); (fun E => InsnsB.sh2add);
    (fun E => InsnsB.sh2add_uw); (fun E => InsnsB.sh3add); (fun E => InsnsB.sh3add_uw); (fun E => InsnsB.slli_uw);
    (fun E => InsnsB.bclr); (fun E => InsnsB.bclri); (fun E => InsnsB.bext); (fun E => InsnsB.bexti);
    (fun E => InsnsB.binv); (fun E => InsnsB.binvi); (fun E => InsnsB.bset); (fun E => InsnsB.bseti);
    (fun E => InsnsB.andn); (fun E => InsnsB.orn); (fun E => InsnsB.xnor); (fun E => InsnsB.max);
    (fun E => InsnsB.maxu); (fun E => InsnsB.min); (fun E => InsnsB.minu); (fun E => InsnsB.sext_b);
    (fun E => InsnsB.sext_h); (fun E => InsnsB.rol); (fun E => InsnsB.rolw); (fun E => InsnsB.ror);
    (fun E => InsnsB.rori); (fun E => InsnsB.roriw); (fun E => InsnsB.rorw); (fun E => InsnsB.clz);
    (fun E => InsnsB.clzw); (fun E => InsnsB.ctz); (fun E => InsnsB.ctzw); (fun E => InsnsB.cpop);
    (fun E => InsnsB.cpopw); (fun E => InsnsB.clmul); (fun E => InsnsB.clmulh); (fun E => InsnsB.clmulr);
    (fun E => InsnsB.pack); (fun E => InsnsB.packh); (fun E => InsnsB.packw); (fun E => InsnsB.gorci);
    (fun E => InsnsB.grevi); (fun E => InsnsB.shfli); (fun E => InsnsB.unshfli); (fun E => InsnsB.xperm4);
    (fun E => InsnsB.xperm8) ].

Lemma bitmanip_safe : Forall safe bitmanip_bodies.
Proof using.
  repeat apply List.Forall_cons; try apply List.Forall_nil.
  - body @InsnsB.add_uw.
  - body @InsnsB.sh1add.
  - body @InsnsB.sh1add_uw.
  - body @InsnsB.sh2add.
  - body @InsnsB.sh2add_uw.
  - body @InsnsB.sh3add.
  - body @InsnsB.sh3add_uw.
  - body @InsnsB.slli_uw.
  - body @InsnsB.bclr.
  - body @InsnsB.bclri.
  - body @InsnsB.bext.
  - body @InsnsB.bexti.
  - body @InsnsB.binv.
  - body @InsnsB.binvi.
  - body @InsnsB.bset.
  - body @InsnsB.bseti.
  - body @InsnsB.andn.
  - body @InsnsB.orn.
  - body @InsnsB.xnor.
  - body @InsnsB.max.
  - body @InsnsB.maxu.
  - body @InsnsB.min.
  - body @InsnsB.minu.
  - body @InsnsB.sext_b.
  - body @InsnsB.sext_h.
  - body @InsnsB.rol.
  - body @InsnsB.rolw.
  - body @InsnsB.ror.
  - body @InsnsB.rori.
  - body @InsnsB.roriw.
  - body @InsnsB.rorw.
  - body @InsnsB.clz.
  - body @InsnsB.clzw.
  - body @InsnsB.ctz.
  - body @InsnsB.ctzw.
  - body @InsnsB.cpop.
  - body @InsnsB.cpopw.
  - body @InsnsB.clmul.
  - body @InsnsB.clmulh.
  - body @InsnsB.clmulr.
  - body @InsnsB.pack.
  - body @InsnsB.packh.
  - body @InsnsB.packw.
  - body @InsnsB.gorci.
  - body @InsnsB.grevi.
  - body @InsnsB.shfli.
  - body @InsnsB.unshfli.
  - body @InsnsB.xperm4.
  - body @InsnsB.xperm8.
Qed.

Definition crypto_bodies : list (forall E : env, M (mmu_t X) unit) :=
  [ (fun E => InsnsK.aes32dsi); (fun E => InsnsK.aes32dsmi); (fun E => InsnsK.aes32esi); (fun E => InsnsK.aes32esmi);
    (fun E => InsnsK.aes64ds); (fun E => InsnsK.aes64dsm); (fun E => InsnsK.aes64es); (fun E => InsnsK.aes64esm);
    (fun E => InsnsK.aes64im); (fun E => InsnsK.aes64ks1i); (fun E => InsnsK.aes64ks2); (fun E => InsnsK.sha256sig0);
    (fun E => InsnsK.sha256sig1); (fun E => InsnsK.sha256sum0); (fun E => InsnsK.sha256sum1); (fun E => InsnsK.sha512sig0);
    (fun E => InsnsK.sha512sig1); (fun E => InsnsK.sha512sum0); (fun E => InsnsK.sha512sum1); (fun E => InsnsK.sha512sig0h);
    (fun E => InsnsK.sha512sig0l); (fun E => InsnsK.sha512sig1h); (fun E => InsnsK.sha512sig1l); (fun E => InsnsK.sha512sum0r);
    (fun E => InsnsK.sha512sum1r); (fun E => InsnsK.sm3p0); (fun E => InsnsK.sm3p1); (fun E => InsnsK.sm4ed);
    (fun E => InsnsK.sm4ks) ].

Lemma crypto_safe : Forall safe crypto_bodies.
Proof using.
  repeat apply List.Forall_cons; try apply List.Forall_nil.
  - body @InsnsK.aes32dsi.
  - body @InsnsK.aes32dsmi.
  - body @InsnsK.aes32esi.
  - body @InsnsK.aes32esmi.
  - body @InsnsK.aes64ds.
  - body @InsnsK.aes64dsm.
  - body @InsnsK.aes64es.
  - body @InsnsK.aes64esm.
  - body @InsnsK.aes64im.
  - body @InsnsK.aes64ks1i.
  - body @InsnsK.aes64ks2.
  - body @InsnsK.sha256sig0.
  - body @InsnsK.sha256sig1.
  - body @InsnsK.sha256sum0.
  - body @InsnsK.sha256sum1.
  - body @InsnsK.sha512sig0.
  - body @InsnsK.sha512sig1.
  - body @InsnsK.sha512sum0.
  - body @InsnsK.sha512sum1.
  - body @InsnsK.sha512sig0h.
  - body @InsnsK.sha512sig0l.
  - body @InsnsK.sha512sig1h.
  - body @InsnsK.sha512sig1l.
  - body @InsnsK.sha512sum0r.
  - body @InsnsK.sha512sum1r.
  - body @InsnsK.sm3p0.
  - body @InsnsK.sm3p1.
  - body @InsnsK.sm4ed.
  - body @InsnsK.sm4ks.
Qed.

Definition memory_bodies : list (forall E : env, M (mmu_t X) unit) :=
  [ (fun E => InsnsA.lb); (fun E => InsnsA.lbu); (fun E => InsnsA.lh); (fun E => InsnsA.lhu);
    (fun E => InsnsA.lw); (fun E => InsnsA.lwu); (fun E => InsnsA.ld); (fun E => InsnsA.sb);
    (fun E => InsnsA.sh); (fun E => InsnsA.sw); (fun E => InsnsA.sd); (fun E => InsnsA.lb_aq);
    (fun E => InsnsA.lh_aq); (fun E => InsnsA.lw_aq); (fun E => InsnsA.ld_aq); (fun E => InsnsA.sb_rl);
    (fun E => InsnsA.sh_rl); (fun E => InsnsA.sw_rl); (fun E => InsnsA.sd_rl); (fun E => InsnsA.lr_w);
    (fun E => InsnsA.lr_d); (fun E => InsnsA.sc_w); (fun E => InsnsA.sc_d); (fun E => InsnsA.amoadd_b);
    (fun E => InsnsA.amoadd_h); (fun E => InsnsA.amoadd_w); (fun E => InsnsA.amoadd_d); (fun E => InsnsA.amoand_b);
    (fun E => InsnsA.amoand_h); (fun E => InsnsA.amoand_w); (fun E => InsnsA.amoand_d); (fun E => InsnsA.amomax_b);
    (fun E => InsnsA.amomax_h); (fun E => InsnsA.amomax_w); (fun E => InsnsA.amomax_d); (fun E => InsnsA.amomaxu_b);
    (fun E => InsnsA.amomaxu_h); (fun E => InsnsA.amomaxu_w); (fun E => InsnsA.amomaxu_d); (fun E => InsnsA.amomin_b);
    (fun E => InsnsA.amomin_h); (fun E => InsnsA.amomin_w); (fun E => InsnsA.amomin_d); (fun E => InsnsA.amominu_b);
    (fun E => InsnsA.amominu_h); (fun E => InsnsA.amominu_w); (fun E => InsnsA.amominu_d); (fun E => InsnsA.amoor_b);
    (fun E => InsnsA.amoor_h); (fun E => InsnsA.amoor_w); (fun E => InsnsA.amoor_d); (fun E => InsnsA.amoswap_b);
    (fun E => InsnsA.amoswap_h); (fun E => InsnsA.amoswap_w); (fun E => InsnsA.amoswap_d); (fun E => InsnsA.amoxor_b);
    (fun E => InsnsA.amoxor_h); (fun E => InsnsA.amoxor_w); (fun E => InsnsA.amoxor_d); (fun E => InsnsA.amocas_b);
    (fun E => InsnsA.amocas_h); (fun E => InsnsA.amocas_w); (fun E => InsnsA.amocas_d); (fun E => InsnsA.amocas_q);
    (fun E => InsnsA.ssamoswap_w); (fun E => InsnsA.ssamoswap_d); (fun E => InsnsA.hlv_b); (fun E => InsnsA.hlv_bu);
    (fun E => InsnsA.hlv_h); (fun E => InsnsA.hlv_hu); (fun E => InsnsA.hlv_w); (fun E => InsnsA.hlv_wu);
    (fun E => InsnsA.hlv_d); (fun E => InsnsA.hlvx_hu); (fun E => InsnsA.hlvx_wu); (fun E => InsnsA.hsv_b);
    (fun E => InsnsA.hsv_h); (fun E => InsnsA.hsv_w); (fun E => InsnsA.hsv_d); (fun E => InsnsA.cbo_clean);
    (fun E => InsnsA.cbo_flush); (fun E => InsnsA.cbo_inval); (fun E => InsnsA.cbo_zero) ].

Lemma memory_safe : Forall safe memory_bodies.
Proof using Ht.
  repeat apply List.Forall_cons; try apply List.Forall_nil.
  - body @InsnsA.lb.
  - body @InsnsA.lbu.
  - body @InsnsA.lh.
  - body @InsnsA.lhu.
  - body @InsnsA.lw.
  - body @InsnsA.lwu.
  - body @InsnsA.ld.
  - body @InsnsA.sb.
  - body @InsnsA.sh.
  - body @InsnsA.sw.
  - body @InsnsA.sd.
  - body @InsnsA.lb_aq.
  - body @InsnsA.lh_aq.
  - body @InsnsA.lw_aq.
  - body @InsnsA.ld_aq.
  - body @InsnsA.sb_rl.
  - body @InsnsA.sh_rl.
  - body @InsnsA.sw_rl.
  - body @InsnsA.sd_rl.
  - body @InsnsA.lr_w.
  - body @InsnsA.lr_d.
  - body @InsnsA.sc_w.
  - body @InsnsA.sc_d.
  - body @InsnsA.amoadd_b.
  - body @InsnsA.amoadd_h.
  - body @InsnsA.amoadd_w.
  - body @InsnsA.amoadd_d.
  - body @InsnsA.amoand_b.
  - body @InsnsA.amoand_h.
  - body @InsnsA.amoand_w.
  - body @InsnsA.amoand_d.
  - body @InsnsA.amomax_b.
  - body @InsnsA.amomax_h.
  - body @InsnsA.amomax_w.
  - body @InsnsA.amomax_d.
  - body @InsnsA.amomaxu_b.
  - body @InsnsA.amomaxu_h.
  - body @InsnsA.amomaxu_w.
  - body @InsnsA.amomaxu_d.
  - body @InsnsA.amomin_b.
  - body @InsnsA.amomin_h.
  - body @InsnsA.amomin_w.
  - body @InsnsA.amomin_d.
  - body @InsnsA.amominu_b.
  - body @InsnsA.amominu_h.
  - body @InsnsA.amominu_w.
  - body @InsnsA.amominu_d.
  - body @InsnsA.amoor_b.
  - body @InsnsA.amoor_h.
  - body @InsnsA.amoor_w.
  - body @InsnsA.amoor_d.
  - body @InsnsA.amoswap_b.
  - body @InsnsA.amoswap_h.
  - body @InsnsA.amoswap_w.
  - body @InsnsA.amoswap_d.
  - body @InsnsA.amoxor_b.
  - body @InsnsA.amoxor_h.
  - body @InsnsA.amoxor_w.
  - body @InsnsA.amoxor_d.
  - body @InsnsA.amocas_b.
  - body @InsnsA.amocas_h.
  - body @InsnsA.amocas_w.
  - body @InsnsA.amocas_d.
  - body @InsnsA.amocas_q.
  - body @InsnsA.ssamoswap_w.
  - body @InsnsA.ssamoswap_d.
  - body @InsnsA.hlv_b.
  - body @InsnsA.hlv_bu.
  - body @InsnsA.hlv_h.
  - body @InsnsA.hlv_hu.
  - body @InsnsA.hlv_w.
  - body @InsnsA.hlv_wu.
  - body @InsnsA.hlv_d.
  - body @InsnsA.hlvx_hu.
  - body @InsnsA.hlvx_wu.
  - body @InsnsA.hsv_b.
  - body @InsnsA.hsv_h.
  - body @InsnsA.hsv_w.
  - body @InsnsA.hsv_d.
  - body @InsnsA.cbo_clean.
  - body @InsnsA.cbo_flush.
  - body @InsnsA.cbo_inval.
  - body @InsnsA.cbo_zero.
Qed.

Definition compressed_bodies : list (forall E : env, M (mmu_t X) unit) :=
  [ (fun E => InsnsC.c_add); (fun E => InsnsC.c_addi); (fun E => InsnsC.c_addi4spn); (fun E => InsnsC.c_addw);
    (fun E => InsnsC.c_and); (fun E => InsnsC.c_andi); (fun E => InsnsC.c_li); (fun E => InsnsC.c_mv);
    (fun E => InsnsC.c_or); (fun E => InsnsC.c_slli); (fun E => InsnsC.c_srai); (fun E => InsnsC.c_srli);
    (fun E => InsnsC.c_sub); (fun E => InsnsC.c_subw); (fun E => InsnsC.c_xor); (fun E => InsnsC.c_mop_N);
    (fun E => InsnsC.c_lui); (fun E => InsnsC.c_beqz); (fun E => InsnsC.c_bnez); (fun E => InsnsC.c_j);
    (fun E => InsnsC.c_jal); (fun E => InsnsC.c_jalr); (fun E => InsnsC.c_jr); (fun E => InsnsC.c_ebreak);
    (fun E => InsnsC.c_lw); (fun E => InsnsC.c_lwsp); (fun E => InsnsC.c_sw); (fun E => InsnsC.c_swsp);
    (fun E => InsnsC.c_ld); (fun E => InsnsC.c_ldsp); (fun E => InsnsC.c_sd); (fun E => InsnsC.c_sdsp);
    (fun E => InsnsC.c_lbu); (fun E => InsnsC.c_lh); (fun E => InsnsC.c_lhu); (fun E => InsnsC.c_sb);
    (fun E => InsnsC.c_sh); (fun E => InsnsC.c_mul); (fun E => InsnsC.c_not); (fun E => InsnsC.c_sext_b);
    (fun E => InsnsC.c_sext_h); (fun E => InsnsC.c_zext_b); (fun E => InsnsC.c_zext_h); (fun E => InsnsC.c_zext_w);
    (fun E => InsnsC.cm_mva01s); (fun E => InsnsC.cm_mvsa01) ].

Lemma compressed_safe : Forall safe compressed_bodies.
Proof using Ht.
  repeat apply List.Forall_cons; try apply List.Forall_nil.
  - body @InsnsC.c_add.
  - body @InsnsC.c_addi.
  - body @InsnsC.c_addi4spn.
  - body @InsnsC.c_addw.
  - body @InsnsC.c_and.
  - body @InsnsC.c_andi.
  - body @InsnsC.c_li.
  - body @InsnsC.c_mv.
  - body @InsnsC.c_or.
  - body @InsnsC.c_slli.
  - body @InsnsC.c_srai.
  - body @InsnsC.c_srli.
  - body @InsnsC.c_sub.
  - body @InsnsC.c_subw.
  - body @InsnsC.c_xor.
  - body @InsnsC.c_mop_N.
  - body @InsnsC.c_lui.
  - body @InsnsC.c_beqz.
  - body @InsnsC.c_bnez.
  - body @InsnsC.c_j.
  - body @InsnsC.c_jal.
  - body @InsnsC.c_jalr.
  - body @InsnsC.c_jr.
  - body @InsnsC.c_ebreak.
  - body @InsnsC.c_lw.
  - body @InsnsC.c_lwsp.
  - body @InsnsC.c_sw.
  - body @InsnsC.c_swsp.
  - body @InsnsC.c_ld.
  - body @InsnsC.c_ldsp.
  - body @InsnsC.c_sd.
  - body @InsnsC.c_sdsp.
  - body @InsnsC.c_lbu.
  - body @InsnsC.c_lh.
  - body @InsnsC.c_lhu.
  - body @InsnsC.c_sb.
  - body @InsnsC.c_sh.
  - body @InsnsC.c_mul.
  - body @InsnsC.c_not.
  - body @InsnsC.c_sext_b.
  - body @InsnsC.c_sext_h.
  - body @InsnsC.c_zext_b.
  - body @InsnsC.c_zext_h.
  - body @InsnsC.c_zext_w.
  - body @InsnsC.cm_mva01s.
  - body @InsnsC.cm_mvsa01.
Qed.

Definition shadow_bodies : list (forall E : env, M (mmu_t X) unit) :=
  [ (fun E => Zicfiss.sspopchk_x1); (fun E => Zicfiss.sspopchk_x5); (fun E => Zicfiss.sspush_x1); (fun E => Zicfiss.sspush_x5);
    (fun E => Zicfiss.c_sspush_x1); (fun E => Zicfiss.c_sspopchk_x5) ].

Lemma shadow_safe : Forall safe shadow_bodies.
Proof using Ht.
  repeat apply List.Forall_cons; try apply List.Forall_nil.
  - body @Zicfiss.sspopchk_x1.
  - body @Zicfiss.sspopchk_x5.
  - body @Zicfiss.sspush_x1.
  - body @Zicfiss.sspush_x5.
  - body @Zicfiss.c_sspush_x1.
  - body @Zicfiss.c_sspopchk_x5.
Qed.

(** *** Pushes and pops

    [cm.push] and [cm.pop] write the sum of the stack pointer and the frame size
    without sign-extending it from [xlen]: they are safe on RV64. *)
Definition zcmp_bodies : list (forall E : env, M (mmu_t X) unit) :=
  [ (fun E => cm_push); (fun E => cm_pop); (fun E => cm_popret); (fun E => cm_popretz) ].

Lemma push_loop_safe {E : env} n : (xlen = 32 \/ xlen = 64) -> forall a, yields (W:=mmu_t X) xlen (push_loop n a) (fun _ => True).
Proof using.
  intros Hx. induction n as [|n IH]; intros a; cbn [push_loop]; [by apply yields_ret|]. cbv zeta.
  apply yields_if; [|apply IH]. eapply yields_bind; [by apply yields_READ_REG|]. intros v _.
  eapply (yields_bind _ _ (fun _ => True)); [|intros; apply IH]. apply yields_if; apply yields_store.
Qed.
Lemma pop_loop_safe {E : env} n : (xlen = 32 \/ xlen = 64) -> forall a, yields (W:=mmu_t X) xlen (pop_loop n a) (fun _ => True).
Proof using Ht.
  intros Hx. induction n as [|n IH]; intros a; cbn [pop_loop]; [by apply yields_ret|]. cbv zeta.
  apply yields_if; [|apply IH]. eapply (yields_bind _ _ (fun _ => True)); [|intros; apply IH].
  apply yields_cond; intros Hw; (apply yields_WRITE_REG; [lia|]);
    (eapply yields_bind; [by apply yields_load|]; intros v _; apply yields_ret); value.
Qed.
Lemma cm_pop_safe {E : env} : xlen = 64 -> yields (W:=mmu_t X) xlen cm_pop (fun _ => True).
Proof using Ht.
  intros Hx. assert (Hx' : xlen = 32 \/ xlen = 64) by lia. unfold cm_pop. cbv zeta.
  eapply yields_bind; [apply yields_pushpop|intros]. eapply yields_bind; [by apply yields_READ_REG|intros].
  eapply yields_bind; [by apply pop_loop_safe|intros]. repeat step.
Qed.
Lemma zcmp_safe : Forall (fun body => forall E : env, xlen = 64 -> yields xlen (body E) (fun _ => True)) zcmp_bodies.
Proof using Ht.
  repeat apply List.Forall_cons; try apply List.Forall_nil; intros E Hx; assert (Hx' : xlen = 32 \/ xlen = 64) by lia.
  - unfold cm_push. cbv zeta. eapply yields_bind; [apply yields_pushpop|intros].
    eapply yields_bind; [by apply yields_READ_REG|intros].
    eapply yields_bind; [by apply push_loop_safe|intros]. repeat step.
  - by apply cm_pop_safe.
  - eapply yields_bind; [by apply cm_pop_safe|intros]. repeat step.
  - eapply (yields_bind _ _ (fun _ => True)); [eapply yields_bind; [by apply cm_pop_safe|intros]|intros]; repeat step.
Qed.

(** ** Programs *)

Definition bodies : list (forall E : env, M (mmu_t X) unit) :=
  base_bodies ++ bitmanip_bodies ++ crypto_bodies ++ memory_bodies ++ compressed_bodies ++ shadow_bodies.
Lemma bodies_safe : Forall safe bodies.
Proof using Ht.
  unfold bodies. rewrite !Forall_app. split_and!;
    [apply base_safe|apply bitmanip_safe|apply crypto_safe|apply memory_safe|apply compressed_safe|apply shadow_safe].
Qed.

(** One instruction of a hart of width [x]: any body, any instruction word and
    address, completed or left by an exception. *)
Inductive executes (x : Z) : state (mmu_t X) -> state (mmu_t X) -> Prop :=
  | executes_body (E : env) body opcode s : xlen = x ->
      In body bodies \/ x = 64 /\ In body zcmp_bodies ->
      executes x s (snd (insn_function opcode (body E) s)).

Lemma executes_wf x s s' : x = 32 \/ x = 64 -> executes x s s' -> wf_state x s -> wf_state x s'.
Proof using Ht.
  intros Hx He Hs. destruct He as [E body opcode s <- Hin].
  assert (Hb : yields xlen (body E) (fun _ => True)).
  { destruct Hin as [Hin|[H64 Hin]].
    - by apply (proj1 (List.Forall_forall _ _) bodies_safe).
    - by apply (proj1 (List.Forall_forall _ _) zcmp_safe). }
  assert (Hf : yields xlen (insn_function opcode (body E)) (fun _ => True)); [|by apply Hf].
  eapply (yields_bind _ _ (fun _ => True)).
  - apply yields_modify; [|done]. intros s0 H0. apply wf_with_npc; [by apply canon_sext_xlen|done].
  - intros _u _. eapply yields_bind; [apply Hb|]. intros _v _. by apply yields_gets.
Qed.
End bodies.

(** C12: Registers stay well formed.  From a hart with canonical registers, any
    sequence of instructions (all bodies of the base, M, bit-manipulation, scalar
    cryptography, atomic, hypervisor load, cache-block, compressed and shadow stack
    instructions but [ssrdp], on RV32 without the Zcmp pushes and pops), with any operands, any memory
    contents and any devices, completed or ended by exceptions, leads to a hart
    with 32 registers, [x0] zero and every register and the next program counter
    sign-extended from [xlen]. *)
Theorem registers_well_formed {X} `{platform X} x (s s' : state (mmu_t X)) :
  typed_platform X -> x = 32 \/ x = 64 -> wf_state x s -> rtc (executes x) s s' -> wf_state x s'.
Proof.
  intros Ht Hx Hs Hr. induction Hr as [|s s1 s2 He Hr IH]; [done|]. apply IH. by eapply executes_wf.
Qed.

(** On RV32 a pop up to [2 ^ 31] leaves a stack pointer that is not sign-extended. *)
Definition pop_state (sp : Z) : state (mmu_t ram) :=
  with_world (with_ext (Ram 0x7ffff 2 (fun a => a mod 256)) (world (ram_state true)))
    (with_XPR (<[2%nat := sp]> (replicate 32 0)) (ram_state true)).
Example rv32_pop_not_canonical :
  let E := Env 32 false 0xba42 0 (* cm.pop {ra}, 16 *) in
  fst (cm_pop (pop_state 0x7ffffff0)) = inr tt /\
  regfile_get (XPR (snd (cm_pop (pop_state 0x7ffffff0)))) 2 = 0x80000000 /\
  u64 (swrap 32 0x80000000) = 0xffffffff80000000.
Proof. split_and!; vm_compute; reflexivity. Qed.

Lemma ram_typed : typed_platform ram.
Proof.
  split; [|done]. intros x a n. split; [cbn; unfold ram_read; by rewrite length_map, length_seqZ|].
  cbn. unfold ram_read. apply List.Forall_map, List.Forall_forall. intros k _. by apply wrap_range.
Qed.

(** [sub a1,a1,a2] and [lw a0,0(a1)], from a hart whose registers are zero. *)
Lemma registers_well_formed_witness :
  let s1 := snd (insn_function (E:=Env 64 false 0x40c585b3 0) 0x40c585b3
    (@InsnsIM.sub _ (Env 64 false 0x40c585b3 0)) (pop_state 0)) in
  wf_state 64 (pop_state 0) /\
  wf_state 64 (snd (insn_function (E:=Env 64 false 0x0005a503 4) 0x0005a503
    (@lw _ _ (Env 64 false 0x0005a503 4)) s1)).
Proof.
  intros s1. assert (Hs : wf_state 64 (pop_state 0)).
  { constructor; [done|done| |vm_compute; reflexivity].
    apply Forall_insert; [apply Forall_replicate|]; vm_compute; reflexivity. }
  split; [exact Hs|].
  apply (registers_well_formed 64 (pop_state 0)); [apply ram_typed|by right|exact Hs|].
  apply (rtc_l _ _ s1); [|apply rtc_once].
  - apply (executes_body 64 (Env 64 false 0x40c585b3 0) (fun E => InsnsIM.sub)); [done|left; exact (List.nth_error_In bodies 26 eq_refl)].
  - apply (executes_body 64 (Env 64 false 0x0005a503 4) (fun E => lw)); [done|left; exact (List.nth_error_In bodies 141 eq_refl)].
Defined.
