(* ===== verification/Zcmp.v ===== *)
(** * Pushes and pops: [src/riscv/insns/cm_push.h], [cm_pop.h]

    [cm.push] saves the registers of the list below the stack pointer and moves it
    down, [cm.pop] restores them and moves it up.  The theorem: whatever a function
    does between the two, if it leaves the stack pointer and the frame as the push
    left them, the pop gives back the saved registers and the stack pointer, on RV32
    and on RV64, and touches no other register and no memory. *)

From Stdlib Require Import ZifyBool.
From S2P Require Import Prelude Arith Decode Hart Pmp Mmu MmuTlb Memory MmuFrame InsnsC.
Local Open Scope cint_scope.

(** ** A stack slot of the flat memory *)
Section slots.
Context {X : Type} `{memory_laws X} {E : env} (Hx : xlen = 32 \/ xlen = 64).

(** The bytes of a register. *)
Definition word : Z := xlen / 8.
Lemma word_size : access_size word /\ 4 <= word <= 8.
Proof using Hx. unfold word, access_size. destruct Hx as [-> | ->]; [change (32 / 8) with 4|change (64 / 8) with 8]; lia. Qed.

Lemma aligned_sub a : a mod word = 0 -> (a - word) mod word = 0.
Proof using Hx. destruct word_size. intros Ha. rewrite Zminus_mod, Ha, Z.mod_same by lia. by rewrite Z.mod_0_l by lia. Qed.

Lemma put_other b f a i : (forall k, 0 <= k < Z.of_nat (length b) -> pa (a + k) <> i) -> put f a b i = f i.
Proof using.
  revert f a. induction b as [|v b IH]; intros f a Hi; [done|]. cbn [put length] in *. rewrite IH.
  - specialize (Hi 0 ltac:(lia)). rewrite Z.add_0_r in Hi. by destruct (Z.eqb_spec i (pa a)) as [->|].
  - intros k Hk. rewrite <- Z.add_assoc. apply Hi. lia.
Qed.

(** Addresses less than 4 GiB apart are distinct in memory. *)
Lemma pa_apart a b : a <> b -> Z.abs (a - b) < 2 ^ 32 -> pa a <> pa b.
Proof using Hx.
  unfold pa, wrap. intros Hn Hd He. destruct Hx as [Hw|Hw]; rewrite Hw in He; Z.to_euclidean_division_equations; lia.
Qed.

Lemma value_ext f g n a : 0 <= n -> (forall k, 0 <= k < n -> f (pa (a + k)) = g (pa (a + k))) -> value f n a = value g n a.
Proof using. intros Hn He. apply le_ext. intros k Hk. apply He. lia. Qed.

Lemma value_put_same f a v : 0 <= a -> a mod word = 0 -> value (put f a (le_bytes_of word v)) word a = wrap xlen v.
Proof using Hx.
  intros Ha Hal. destruct word_size as [Hs Hw].
  assert (Hl : Z.of_nat (length (le_bytes_of word v)) = word).
  { unfold le_bytes_of. rewrite length_map, length_seqZ. lia. }
  rewrite <- (Z2Nat.id word) in Hl by lia.
  transitivity (le (Z.to_nat word) (fun i => u8 (v >>! (8 * (i - a)))) a).
  - apply le_ext. intros k Hk. rewrite Z2Nat.id in Hl by lia.
    assert (Hp : in_page (pa a) word) by by apply piece_in_page.
    rewrite <- stored_put by (done || by rewrite Hl).
    rewrite (pa_within Hx a k word) by (done || lia). unfold stored.
    replace (_ && _) with true by lia. unfold le_bytes_of.
    rewrite (nth_indep _ 0 (u8 (v >>! (8 * 0)))) by (unfold le_bytes_of in Hl; lia).
    rewrite (map_nth (fun k => u8 (v >>! (8 * k)))), nth_lookup, lookup_seqZ_lt by lia. cbn.
    f_equal; f_equal; lia.
  - rewrite le_bytes. f_equal. rewrite Z2Nat.id by lia. unfold word. destruct Hx as [-> | ->]; reflexivity.
Qed.

Lemma value_put_below f a a' b : 0 <= Z.of_nat (length b) <= word -> a' + Z.of_nat (length b) <= a -> a - a' < 2 ^ 31 ->
  value (put f a' b) word a = value f word a.
Proof using Hx.
  intros Hl Hb Hd. destruct word_size as [Hs Hw]. apply value_ext; [lia|]. intros k Hk. apply put_other.
  intros k' Hk'. apply pa_apart; lia.
Qed.

(** ** The slots of a push or pop, from the top *)
Definition slots := list (Z * Z).
Fixpoint slots_of (n : nat) (addr : Z) : slots :=
  match n with
  | O => []
  | S n => if in_regmask (Z.of_nat n) then (Z.of_nat n, addr - word) :: slots_of n (addr - word) else slots_of n addr
  end.
Definition saved (l : slots) (regs : list Z) (f : Z -> Z) : Z -> Z :=
  fold_left (fun f '(i, a) => put f a (le_bytes_of word (regfile_get regs i))) l f.
Definition restored (l : slots) (g : Z -> Z) (regs : list Z) : list Z :=
  fold_left (fun r '(i, a) => regfile_write true i (u64 (swrap xlen (value g word a))) r) l regs.

(** The slots lie in [[addr - bytes, addr)], aligned, one per register. *)
Definition bytes (l : slots) : Z := word * Z.of_nat (length l).
Lemma slots_below n : forall addr i a, (i, a) ∈ slots_of n addr ->
  0 <= i < Z.of_nat n /\ in_regmask i = true /\ addr - bytes (slots_of n addr) <= a /\ a + word <= addr /\
  (addr mod word = 0 -> a mod word = 0).
Proof using Hx.
  destruct word_size as [_ Hw]. unfold bytes. induction n as [|n IH]; intros addr i a; cbn [slots_of].
  { by intros ?%not_elem_of_nil. }
  destruct (in_regmask (Z.of_nat n)) eqn:Em.
  - rewrite elem_of_cons. cbn [length]. intros [[= -> ->]|Hin].
    + split_and!; try done; try lia. by apply aligned_sub.
    + destruct (IH _ _ _ Hin) as (? & ? & ? & ? & Hal). split_and!; try done; try lia. intros Ha. by apply Hal, aligned_sub.
  - intros Hin. destruct (IH _ _ _ Hin) as (? & ? & ? & ? & Hal). split_and!; try done; lia.
Qed.
End slots.

(** ** The loops *)
Section loops.
Context {X : Type} `{memory_laws X} {E : env} (Hx : xlen = 32 \/ xlen = 64) (Hrve : rve = false) (priv : Z).
Local Abbreviation state := (state (mmu_t X)).
Implicit Type s : state.

Lemma tlb_ok_XPR r s : tlb_ok priv s -> tlb_ok priv (with_XPR r s).
Proof using.
  intros [[] ? ? ? ? Hc]. constructor; try done. intros ty va Hv Hh. by destruct (Hc ty va Hv Hh).
Qed.

Lemma READ_REG_any i s : READ_REG i s = (inr (regfile_get (XPR s) i), s).
Proof using Hrve. unfold READ_REG, CHECK_REG. by rewrite Hrve. Qed.
Lemma WRITE_REG_any i (m : M (mmu_t X) Z) s v s1 : m s = (inr v, s1) ->
  WRITE_REG i m s = (inr tt, with_XPR (regfile_write true i (u64 v) (XPR s1)) s1).
Proof using Hrve. intros Em. unfold WRITE_REG, CHECK_REG. rewrite Hrve. unfold mbind, M_bind, mret, M_ret. by rewrite Em. Qed.

Lemma store_word a v : (if xlen =? 32 then store 4 a v no_flags else store 8 a v no_flags) = store (X:=X) word a v no_flags.
Proof using Hx. unfold word. destruct Hx as [-> | ->]; reflexivity. Qed.
Lemma load_word a s : (if xlen =? 32 then v ← load 4 a no_flags; mret (s32 v) else v ← load 8 a no_flags; mret (s64 v)) s =
  (v ← load (X:=X) word a no_flags; mret (swrap xlen v)) s.
Proof using Hx. unfold word. destruct Hx as [-> | ->]; reflexivity. Qed.

(** What the loops need: a bare hart that shows the flat memory [m]. *)
Record ready s (m : flat) : Prop := {
  ready_tlb : tlb_ok priv s;
  ready_triggers : untriggered s;
  ready_shows : shows s m
}.

(** The stack from [addr] down that the [n] lowest registers need is there. *)
Record stack (ty : access_type) (n : nat) (addr : Z) s : Prop := {
  stack_low : 0 <= addr - bytes (slots_of n addr);
  stack_high : addr < 2 ^ 64;
  stack_aligned : addr mod word = 0;
  stack_open : open priv s ty (addr - bytes (slots_of n addr)) (bytes (slots_of n addr))
}.
Lemma stack_step ty n addr s : in_regmask (Z.of_nat n) = true -> stack ty (S n) addr s ->
  0 <= addr - word < 2 ^ 64 /\ open priv s ty (addr - word) word /\ forall s1, fixed s s1 -> stack ty n (addr - word) s1.
Proof using Hx.
  clear Hrve. intros Em [Hl Hh Ha Ho]. destruct (word_size Hx) as [_ Hw]. cbn [slots_of] in *. rewrite Em in *.
  unfold bytes in *. cbn [length] in *. set (k := Z.of_nat (length (slots_of n (addr - word)))) in *.
  assert (Hk : 0 <= k) by lia. replace (Z.of_nat (S _)) with (k + 1) in * by lia.
  split_and!; [nia|nia| |].
  - replace (addr - word) with (addr - word * (k + 1) + word * k) by lia. apply (open_sub _ _ _ _ (word * (k + 1))); [nia..|done].
  - intros s1 F. constructor; unfold bytes; fold k; [nia|lia|by apply aligned_sub|].
    replace (addr - word - word * k) with (addr - word * (k + 1) + 0) by lia.
    apply (open_sub _ _ _ _ (word * (k + 1))); [lia|nia|]. by apply (open_fixed priv s).
Qed.
Lemma stack_skip ty n addr s : in_regmask (Z.of_nat n) = false -> stack ty (S n) addr s -> stack ty n addr s.
Proof using. intros Em [Hl Hh Ha Ho]. cbn [slots_of] in *. rewrite Em in *. by constructor. Qed.

Lemma push_loop_saves n : forall addr s m, ready s m -> stack STORE n addr s ->
  exists s1, push_loop n addr s = (inr tt, s1) /\ tlb_ok priv s1 /\ fixed s s1 /\ XPR s1 = XPR s /\
    shows s1 (saved (slots_of n addr) (XPR s) (fst m), snd m).
Proof using Hx Hrve.
  induction n as [|n IH]; intros addr s m [K U S] St; cbn [push_loop slots_of saved].
  { exists s. split_and!; first [done|apply static_fixed, static_refl|apply S]. }
  destruct (in_regmask (Z.of_nat n)) eqn:Em; [|apply IH; [done|by apply stack_skip]].
  destruct (stack_step _ _ _ _ Em St) as (Hr & Ho & St1). destruct (word_size Hx) as [Hs Hw].
  rewrite wrap_small by done. cbv zeta. rewrite (bind_eq _ _ _ _ _ (READ_REG_any _ _)), store_word.
  destruct (does_store Hx priv word (addr - word) (regfile_get (XPR s) (Z.of_nat n)) s m) as (s1 & E1 & K1 & F1 & S1); try done.
  { right. apply aligned_sub; [done|by apply St]. }
  rewrite (bind_eq _ _ _ _ _ E1).
  assert (EX : XPR s1 = XPR s).
  { replace s1 with (snd (store word (addr - word) (regfile_get (XPR s) (Z.of_nat n)) no_flags s)) by by rewrite E1.
    eapply frame_XPR, frame_store. }
  destruct (IH (addr - word) s1 _ (Build_ready _ _ K1 (untriggered_fixed _ _ F1 U) S1) (St1 s1 F1))
    as (s2 & E2 & K2 & F2 & X2 & S2).
  exists s2. rewrite EX in S2, X2. split_and!; first [done|by eapply fixed_trans|apply S2].
Qed.

Lemma pop_loop_restores n : forall addr s m, ready s m -> stack LOAD n addr s ->
  exists s1, pop_loop n addr s = (inr tt, s1) /\ tlb_ok priv s1 /\ fixed s s1 /\ shows s1 m /\
    XPR s1 = restored (slots_of n addr) (fst m) (XPR s).
Proof using Hx Hrve.
  induction n as [|n IH]; intros addr s m [K U S] St; cbn [pop_loop slots_of restored].
  { exists s. split_and!; first [done|apply static_fixed, static_refl|apply S]. }
  destruct (in_regmask (Z.of_nat n)) eqn:Em; [|apply IH; [done|by apply stack_skip]].
  destruct (stack_step _ _ _ _ Em St) as (Hr & Ho & St1). destruct (word_size Hx) as [Hs Hw].
  rewrite wrap_small by done. cbv zeta.
  destruct (does_load Hx priv word (addr - word) s m) as (s1 & E1 & K1 & F1 & S1); try done.
  { right. apply aligned_sub; [done|by apply St]. }
  set (v := value (fst m) word (addr - word)) in *.
  assert (EX : XPR s1 = XPR s).
  { replace s1 with (snd (load word (addr - word) no_flags s)) by by rewrite E1.
    eapply frame_XPR, frame_load. lia. }
  set (s2 := with_XPR (regfile_write true (Z.of_nat n) (u64 (swrap xlen v)) (XPR s)) s1).
  assert (E2 : (if xlen =? 32 then WRITE_REG (Z.of_nat n) (v ← load 4 (addr - word) no_flags; mret (s32 v))
    else WRITE_REG (Z.of_nat n) (v ← load 8 (addr - word) no_flags; mret (s64 v))) s = (inr tt, s2)).
  { unfold s2. rewrite <- EX. pose proof (load_word (addr - word) s) as El. rewrite (bind_eq _ _ _ _ _ E1) in El.
    destruct (xlen =? 32); by apply WRITE_REG_any. }
  rewrite (bind_eq _ _ _ _ _ E2).
  destruct (IH (addr - word) s2 m) as (s3 & E3 & K3 & F3 & S3 & X3).
  { constructor; [by apply tlb_ok_XPR|exact (untriggered_fixed _ _ F1 U)|exact S1]. }
  { apply St1. exact F1. }
  exists s3. split_and!; first [done|exact X3|by apply (fixed_trans s s1)|apply S3].
Qed.
End loops.

(** ** What the slots hold *)
Section contents.
Context {X : Type} `{memory_laws X} {E : env} (Hx : xlen = 32 \/ xlen = 64).

Lemma restored_length l g regs : length (restored l g regs) = length regs.
Proof using. unfold restored. revert regs. induction l as [|[i a] l IH]; intros regs; [done|]. cbn [fold_left]. by rewrite IH, regfile_write_length. Qed.
Lemma restored_get l g vals regs : length regs = NXPR ->
  (forall i a, (i, a) ∈ l -> 0 < i < 32 /\ value g word a = wrap xlen (vals i)) -> forall j, 0 <= j ->
  regfile_get (restored l g regs) j = if bool_decide (j ∈ map fst l) then u64 (swrap xlen (vals j)) else regfile_get regs j.
Proof using Hx.
  unfold restored. revert regs. induction l as [|[i a] l IH]; intros regs Hl Hv j Hj; [done|]. cbn [fold_left map fst].
  destruct (Hv i a) as [Hi Ev]; [by left|]. rewrite IH; [|by rewrite regfile_write_length|intros; apply Hv; by right|done].
  rewrite regfile_get_write by (rewrite ?Hl; unfold NXPR; lia). rewrite (bool_decide_ext (j ∈ i :: map fst l) (j = i \/ j ∈ map fst l)) by apply elem_of_cons.
  destruct (decide (j ∈ map fst l)) as [Hin|Hin].
  - rewrite !bool_decide_true by auto. done.
  - rewrite (bool_decide_false (j ∈ map fst l)) by done. destruct (Z.eqb_spec i j) as [->|Hn].
    + rewrite bool_decide_true by auto. replace (negb (j =? 0)) with true by lia. cbn [andb orb negb].
      rewrite Ev, swrap_wrap by (destruct Hx; lia). done.
    + rewrite bool_decide_false by (intros [->|]; done). done.
Qed.

Lemma slots_regs n addr j : j ∈ map fst (slots_of n addr) <-> 0 <= j < Z.of_nat n /\ in_regmask j = true.
Proof using.
  revert addr. induction n as [|n IH]; intros addr; cbn [slots_of].
  { cbn. split; [by intros ?%not_elem_of_nil|lia]. }
  destruct (in_regmask (Z.of_nat n)) eqn:Em; cbn [map fst]; rewrite ?elem_of_cons, IH.
  - split; [intros [->|[? ?]]; [split; [lia|done]|split; [lia|done]]|].
    intros [Hj Hm]. destruct (Z.eq_dec j (Z.of_nat n)); [by left|right; split; [lia|done]].
  - split; [intros [? ?]; split; [lia|done]|]. intros [Hj Hm]. split; [|done].
    destruct (Z.eq_dec j (Z.of_nat n)) as [->|]; [congruence|lia].
Qed.
Lemma slots_length n addr : length (slots_of n addr) = length (List.filter in_regmask (map Z.of_nat (seq 0 n))).
Proof using.
  revert addr. induction n as [|n IH]; intros addr; cbn [slots_of]; [done|].
  rewrite seq_S, Nat.add_0_l, map_app, List.filter_app, length_app. cbn [map List.filter].
  destruct (in_regmask (Z.of_nat n)); cbn [length]; rewrite IH; lia.
Qed.

Lemma length_word v : Z.of_nat (length (le_bytes_of word v)) = word.
Proof using Hx. destruct (word_size Hx). unfold le_bytes_of. rewrite length_map, length_seqZ. lia. Qed.

(** A push changes nothing outside its slots ... *)
Lemma saved_other n : forall addr regs f i,
  (forall a, addr - bytes (slots_of n addr) <= a < addr -> pa a <> i) -> saved (slots_of n addr) regs f i = f i.
Proof using Hx.
  unfold saved, bytes. destruct (word_size Hx) as [_ Hw].
  induction n as [|n IH]; intros addr regs f i Hi; cbn [slots_of] in *; [done|].
  destruct (in_regmask (Z.of_nat n)) eqn:Em; [|by apply IH]. cbn [fold_left length] in *. rewrite IH.
  - apply put_other. intros k Hk. rewrite length_word in Hk. apply Hi. nia.
  - intros a Ha. apply Hi. nia.
Qed.
(** ... and leaves each register in its slot. *)
Lemma saved_value n : forall addr regs f i a, 0 <= addr - bytes (slots_of n addr) ->
  bytes (slots_of n addr) < 2 ^ 31 -> addr mod word = 0 -> (i, a) ∈ slots_of n addr ->
  value (saved (slots_of n addr) regs f) word a = wrap xlen (regfile_get regs i).
Proof using Hx.
  unfold saved. destruct (word_size Hx) as [_ Hw].
  induction n as [|n IH]; intros addr regs f i a Hl Hb Ha Hin; cbn [slots_of] in *; [by apply not_elem_of_nil in Hin|].
  destruct (in_regmask (Z.of_nat n)) eqn:Em; [|by apply IH]. cbn [fold_left] in *. unfold bytes in Hl, Hb. cbn [length] in *.
  apply elem_of_cons in Hin as [[= -> ->]|Hin].
  - fold (saved (slots_of n (addr - word)) regs (put f (addr - word) (le_bytes_of word (regfile_get regs (Z.of_nat n))))).
    rewrite <- (value_put_same Hx f (addr - word)) by (nia || by apply aligned_sub).
    apply value_ext; [lia|]. intros k Hk. apply saved_other. intros b Hb'. apply pa_apart; [done|lia|].
    unfold bytes in Hb'. nia.
  - apply IH; [unfold bytes; nia|unfold bytes; nia|by apply aligned_sub|done].
Qed.
End contents.

(** ** The frame of an instruction word *)
Section frames.
Context {X : Type} `{memory_laws X} {E : env} (Hx : xlen = 32 \/ xlen = 64) (priv : Z).
Local Abbreviation state := (state (mmu_t X)).
Implicit Type s : state.

Definition registers : nat := S (Z.to_nat (Sn 11)).
Definition frame_size : Z := zcmp_stack_adjustment insn xlen.

Lemma in_regmask_list i : 0 <= i < 32 -> in_regmask i = bool_decide (i ∈ zcmp_regs (rvc_rlist insn)).
Proof using Hx.
  intros Hi. destruct (zcmp_frame insn xlen Hx) as [Hm _]. rewrite <- Hm by done. unfold in_regmask.
  rewrite Z.shiftl_1_l. apply land_pow2. lia.
Qed.
Lemma rlist_range : 0 <= rvc_rlist insn < 16.
Proof using. unfold rvc_rlist. pose proof (insn_x_range insn 4 4). lia. Qed.

(** The slots fit into the frame. *)
Lemma slots_fit addr : let n := bytes (slots_of registers addr) in
  0 <= n <= frame_size /\ n < 2 ^ 31 /\ frame_size < 2 ^ 63.
Proof using Hx.
  cbv zeta. destruct (word_size Hx) as [_ Hw]. destruct (zcmp_frame insn xlen Hx) as (_ & _ & Hb).
  assert (El : length (slots_of registers addr) = length (zcmp_regs (rvc_rlist insn)) /\
    Z.of_nat (length (zcmp_regs (rvc_rlist insn))) <= 13).
  { rewrite slots_length. rewrite (List.filter_ext_in _ (fun i => bool_decide (i ∈ zcmp_regs (rvc_rlist insn)))).
    2:{ intros i Hi. apply in_regmask_list. apply in_map_iff in Hi as (k & <- & Hk). apply in_seq in Hk.
        assert (Z.of_nat registers = 28) by reflexivity. lia. }
    pose proof rlist_range as Hr. assert (Hin : rvc_rlist insn ∈ seqZ 0 16) by (apply elem_of_seqZ; lia).
    assert (Hall : forallb (fun r => (length (List.filter (fun i => bool_decide (i ∈ zcmp_regs r)) (map Z.of_nat (seq 0 registers))) =?
      length (zcmp_regs r))%nat && (Z.of_nat (length (zcmp_regs r)) <=? 13)) (seqZ 0 16) = true) by (vm_compute; reflexivity).
    rewrite forallb_forall in Hall. specialize (Hall _ (proj1 (list_elem_of_In _ _) Hin)). lia. }
  assert (Hs : 0 <= rvc_spimm insn < 2 ^ 6) by (unfold rvc_spimm; apply field_range; lia).
  unfold bytes, frame_size. fold word in Hb. destruct El as [-> Hl]. nia.
Qed.

Definition zcmp_on s : Prop := extension_enabled s EXT_ZCMP = true /\ extension_enabled s EXT_E = false.
Lemma pushpop_on s : zcmp_on s -> 4 <= rvc_rlist insn -> require_zcmp_pushpop s = (inr tt, s).
Proof using.
  intros [Hz He] Hl. unfold require_zcmp_pushpop, require_extension, require, ext_enabled, gets, mbind, M_bind.
  rewrite Hz. replace (4 <=? rvc_rlist insn) with true by lia. unfold mret, M_ret. cbv beta iota. by rewrite He.
Qed.

(** The frame below [sp] is open to accesses. *)
Lemma stack_of_frame ty sp s : 0 <= sp - frame_size -> sp < 2 ^ 64 -> sp mod word = 0 ->
  open priv s ty (sp - frame_size) frame_size -> stack priv ty registers sp s.
Proof using Hx.
  intros Hl Hh Ha Ho. destruct (slots_fit sp) as (Hb & _). constructor; [lia|done|done|].
  replace (sp - bytes _) with (sp - frame_size + (frame_size - bytes (slots_of registers sp))) by lia.
  apply (open_sub _ _ _ _ frame_size); [lia..|done].
Qed.

Lemma push_saves s m (Hrve : rve = false) : zcmp_on s -> 4 <= rvc_rlist insn -> wf_state xlen s -> ready priv s m ->
  let sp := regfile_get (XPR s) X_SP in
  0 <= sp - frame_size -> sp mod word = 0 -> open priv s STORE (sp - frame_size) frame_size ->
  exists s1, cm_push s = (inr tt, s1) /\ XPR s1 = regfile_write true X_SP (sp - frame_size) (XPR s) /\
    forall i, mem s1 i = saved (slots_of registers sp) (XPR s) (fst m) i.
Proof using Hx.
  intros Hz Hr Hwf Hrd sp Hl Ha Ho. destruct (slots_fit sp) as (Hb & _ & Hf).
  assert (Hsp : 0 <= sp < 2 ^ 64) by (apply (canon_range xlen), (wf_get Hx s X_SP Hwf)).
  destruct (push_loop_saves Hx Hrve priv registers sp s m) as (s1 & E1 & K1 & F1 & X1 & S1); [done|apply stack_of_frame; done || lia|].
  unfold cm_push. rewrite (bind_eq _ _ _ _ _ (pushpop_on s Hz Hr)), (bind_eq _ _ _ _ _ (READ_REG_any Hrve _ _)).
  cbv zeta. fold registers sp. rewrite (bind_eq _ _ _ _ _ E1). fold frame_size.
  rewrite (WRITE_REG_any Hrve X_SP (mret (sp -! frame_size)) s1 (sp -! frame_size) s1 eq_refl).
  eexists. split; [reflexivity|]. split; [|apply S1]. cbn [XPR with_XPR]. by rewrite X1, !(wrap_small 64 (sp - frame_size)) by lia.
Qed.

Lemma pop_restores s m (Hrve : rve = false) : zcmp_on s -> 4 <= rvc_rlist insn -> ready priv s m ->
  let sp := regfile_get (XPR s) X_SP + frame_size in
  0 <= regfile_get (XPR s) X_SP -> sp < 2 ^ 64 -> sp mod word = 0 -> open priv s LOAD (sp - frame_size) frame_size ->
  exists s1, cm_pop s = (inr tt, s1) /\
    XPR s1 = regfile_write true X_SP sp (restored (slots_of registers sp) (fst m) (XPR s)) /\ shows s1 m.
Proof using Hx.
  intros Hz Hr Hrd sp Hl Hh Ha Ho. destruct (slots_fit sp) as (Hb & _ & Hf).
  destruct (pop_loop_restores Hx Hrve priv registers sp s m) as (s1 & E1 & K1 & F1 & S1 & X1);
    [done|apply stack_of_frame; done || lia|].
  unfold cm_pop. rewrite (bind_eq _ _ _ _ _ (pushpop_on s Hz Hr)), (bind_eq _ _ _ _ _ (READ_REG_any Hrve _ _)).
  cbv zeta. fold registers frame_size. rewrite wrap_small by lia. fold sp. rewrite (bind_eq _ _ _ _ _ E1).
  rewrite (WRITE_REG_any Hrve X_SP (mret sp) s1 sp s1 eq_refl).
  eexists. split; [reflexivity|]. split; [|exact S1]. cbn [XPR with_XPR]. by rewrite X1, wrap_small by lia.
Qed.
End frames.

Lemma slots_same {E1 E2 : env} n addr : xlen (env:=E1) = xlen (env:=E2) ->
  rvc_rlist (insn (env:=E1)) = rvc_rlist (insn (env:=E2)) -> slots_of (E:=E1) n addr = slots_of (E:=E2) n addr.
Proof.
  intros Ex Er. assert (Hm : forall i, in_regmask (E:=E1) i = in_regmask (E:=E2) i).
  { intros i. unfold in_regmask. f_equal. f_equal. unfold zcmp_regmask. by rewrite Er. }
  assert (Hw : word (E:=E1) = word (E:=E2)) by (unfold word; by rewrite Ex).
  revert addr. induction n as [|n IH]; intros addr; cbn [slots_of]; [done|]. rewrite Hm, Hw.
  destruct (in_regmask (E:=E2) (Z.of_nat n)); by rewrite !IH.
Qed.

Lemma zcmp_regs_range i j : j ∈ zcmp_regs (rvc_rlist i) -> 0 < j < 28.
Proof.
  intros Hj. assert (Hr : rvc_rlist i ∈ seqZ 0 16).
  { apply elem_of_seqZ. unfold rvc_rlist. pose proof (insn_x_range i 4 4). lia. }
  assert (Hall : forallb (fun r => forallb (fun j => (0 <? j) && (j <? 28)) (zcmp_regs r)) (seqZ 0 16) = true)
    by (vm_compute; reflexivity).
  rewrite forallb_forall in Hall. specialize (Hall _ (proj1 (list_elem_of_In _ _) Hr)).
  rewrite forallb_forall in Hall. specialize (Hall _ (proj1 (list_elem_of_In _ _) Hj)).
  lia.
Qed.

(** C14: [cm.pop] restores what [cm.push] saved.  On a hart with a frame of open memory below an
    aligned stack pointer, [cm.push] completes, moves the stack pointer down by the frame of its
    register list, keeps the other registers and the memory outside the frame.  From any later state
    whose stack pointer and frame bytes are those the push left, [cm.pop] with the same list gives
    back the stack pointer and every register of the list, and changes nothing else. *)
Theorem push_pop_restores {X} `{memory_laws X} x i1 i2 p1 p2 priv (s : state (mmu_t X)) :
  let push := Env x false i1 p1 in let pop := Env x false i2 p2 in
  x = 32 \/ x = 64 -> rvc_rlist i2 = rvc_rlist i1 -> rvc_spimm i2 = rvc_spimm i1 -> 4 <= rvc_rlist i1 ->
  let sp := regfile_get (XPR s) X_SP in
  let size := zcmp_stack_adjustment i1 x in
  let low := sp - size in
  wf_state x s -> zcmp_on s -> tlb_ok (E:=push) priv s -> untriggered s ->
  0 <= low -> sp mod (x / 8) = 0 -> open (E:=push) priv s STORE low size ->
  exists s1, cm_push (E:=push) s = (inr tt, s1) /\ XPR s1 = regfile_write true X_SP low (XPR s) /\
    (forall i, (forall a, low <= a < sp -> wrap x a <> i) -> mem s1 i = mem s i) /\
    forall h, wf_state x h -> zcmp_on h -> tlb_ok (E:=pop) priv h -> untriggered h ->
      open (E:=pop) priv h LOAD low size -> regfile_get (XPR h) X_SP = low ->
      (forall a, low <= a < sp -> mem h (wrap x a) = mem s1 (wrap x a)) ->
      exists h1, cm_pop (E:=pop) h = (inr tt, h1) /\ (forall i, mem h1 i = mem h i) /\
        forall j, 0 <= j < 32 -> regfile_get (XPR h1) j =
          if j =? X_SP then sp
          else if bool_decide (j ∈ zcmp_regs (rvc_rlist i1)) then regfile_get (XPR s) j
          else regfile_get (XPR h) j.
Proof.
  intros push pop Hx Er Es Hr sp size low. assert (Hlow : low = sp - size) by reflexivity. intros Hwf Hz K U Hl Ha Ho.
  assert (Hxs : xlen (env:=push) = 32 \/ xlen (env:=push) = 64) by exact Hx.
  assert (Hxp : xlen (env:=pop) = 32 \/ xlen (env:=pop) = 64) by exact Hx.
  destruct (push_saves (E:=push) Hxs priv s (mem s, load_reservation_address (world s)) eq_refl Hz Hr Hwf)
    as (s1 & E1 & X1 & M1); [by constructor|done..|].
  destruct (slots_fit (E:=push) Hxs sp) as (Hb & Hb' & Hf). change (frame_size (E:=push)) with size in Hb, Hf.
  assert (Hsp : 0 <= sp < 2 ^ 64) by (apply (canon_range x), (wf_get (E:=push) Hxs s X_SP Hwf)).
  exists s1. split; [done|]. split; [done|]. split.
  { intros i Hi. rewrite M1. apply (saved_other (E:=push) Hxs). intros a Hia. apply Hi. fold sp in Hia. lia. }
  intros h Hwfh Hzh Kh Uh Hoh Hsph Hmem.
  assert (Esize : frame_size (E:=pop) = size).
  { unfold frame_size, size, zcmp_stack_adjustment. cbn [insn xlen pop]. by rewrite Er, Es. }
  destruct (pop_restores (E:=pop) Hxp priv h (mem h, load_reservation_address (world h)) eq_refl Hzh) as (h1 & E2 & X2 & M2);
    rewrite ?Esize, ?Hsph; unfold low; rewrite ?Z.sub_add; try done.
  { cbn [insn pop]. lia. }
  { apply Hsp. }
  exists h1. split; [done|]. split; [apply M2|]. intros j Hj. rewrite X2, Hsph, Esize. unfold low. rewrite Z.sub_add.
  rewrite <- (slots_same (E1:=push)) by done. fold sp. set (l := slots_of registers sp).
  assert (Hlen : length (restored (E:=pop) l (mem h) (XPR h)) = NXPR) by (rewrite restored_length; apply Hwfh).
  cbn [fst]. rewrite regfile_get_write by (rewrite ?Hlen; unfold NXPR, X_SP; lia). rewrite Z.eqb_sym.
  destruct (Z.eqb_spec j X_SP) as [->|Hjs]; [done|]. cbn [andb].
  rewrite (restored_get (E:=pop) Hxp l (mem h) (regfile_get (XPR s))); [|apply Hwfh| |lia].
  - rewrite (bool_decide_ext _ (j ∈ zcmp_regs (rvc_rlist i1))).
    + case_bool_decide; [|done]. apply (wf_get (E:=push) Hxs s j Hwf).
    + unfold l. rewrite (slots_regs (E:=push)). pose proof (in_regmask_list (E:=push) Hxs j Hj) as ->.
      rewrite bool_decide_eq_true. split; [by intros []|]. intros Hin. split; [|done].
      change (Z.of_nat registers) with 28. pose proof (zcmp_regs_range i1 j Hin). lia.
  - intros i a Hin. destruct (slots_below (E:=push) Hxs registers sp i a Hin) as (Hi & Hm & L1 & L2 & L3).
    split.
    + rewrite (in_regmask_list (E:=push) Hxs) in Hm by (change (Z.of_nat registers) with 28 in Hi; lia).
      apply bool_decide_eq_true in Hm. pose proof (zcmp_regs_range i1 i Hm). lia.
    + transitivity (value (E:=push) (saved (E:=push) (slots_of (E:=push) registers sp) (XPR s) (mem s)) (word (E:=push)) a);
        [|apply (saved_value (E:=push) Hxs); done || lia].
      apply (value_ext (E:=pop)); [apply Z.div_pos; destruct Hx; lia|]. intros k Hk.
      assert (Hk' : low <= a + k < sp) by (unfold word in L2, Hk; cbn [xlen push pop] in L2, Hk; lia).
      change (pa (E:=pop) (a + k)) with (wrap x (a + k)). rewrite (Hmem _ Hk'). apply M1.
Qed.

(** [cm.push {ra, s0-s1}, -32] and [cm.pop {ra, s0-s1}, 32] with two pages of memory. *)
Definition push_word : Z := 0xb862.
Definition pop_word : Z := 0xba62.
Definition caller : state (mmu_t ram) :=
  State (<[1%nat := 0x1234]> (<[2%nat := 0x80001000]> (<[8%nat := 2 ^ 64 - 1]> (<[9%nat := 7]> (replicate 32 0))))) 0 0 PRV_M
    false false false (DcsrBits false false false false false) 0 0 0 0
    (fun e => match e with EXT_ZCMP => true | _ => false end) (world two_pages).

Lemma caller_ok i p : tlb_ok (E:=Env 64 false i p) PRV_M caller.
Proof.
  assert (Hb : bare (E:=Env 64 false i p) caller).
  { constructor; try reflexivity. constructor; try done. cbn [pmpaddr]. apply Forall_replicate. constructor; done. }
  constructor; try done; [by intros []|].
  intros ty va Hv Hh. destruct ty; destruct (eq_true_false_abs _ Hh (flushed_tag va Hv)).
Qed.
Lemma caller_open i p ty a n : 0x80000000 <= a -> 0 < n -> a + n <= 0x80002000 -> open (E:=Env 64 false i p) PRV_M caller ty a n.
Proof.
  intros Ha Hn Hb k Hk. unfold pa. cbn [xlen]. rewrite wrap_small by lia. split; [|done].
  cbn. unfold ram_in_mem. cbn [base_page pages]. unfold PGSIZE.
  apply andb_true_iff. rewrite Z.leb_le, Z.ltb_lt. Z.to_euclidean_division_equations; lia.
Qed.
Lemma caller_wf : wf_state 64 caller.
Proof. constructor; try done. repeat constructor. Qed.

Lemma push_pop_restores_witness :
  let E1 := Env 64 false push_word 0 in
  wf_state 64 caller /\ tlb_ok (E:=E1) PRV_M caller /\ open (E:=E1) PRV_M caller STORE 0x80000fe0 32 /\
  exists s1, cm_push (E:=E1) caller = (inr tt, s1) /\ XPR s1 = regfile_write true X_SP 0x80000fe0 (XPR caller).
Proof.
  intros E1. split; [exact caller_wf|]. split; [apply caller_ok|]. split; [by apply caller_open|].
  destruct (push_pop_restores 64 push_word pop_word 0 0 PRV_M caller) as (s1 & E & Ex & _);
    [by right|reflexivity|reflexivity|vm_compute; discriminate|exact caller_wf|by split|apply caller_ok|done|vm_compute; discriminate
    |reflexivity|by apply caller_open|].
  exists s1. split; [exact E|exact Ex].
Defined.

(** Between the two the callee overwrites the registers; its caller's come back. *)
Example pop_after_push :
  let s1 := snd (cm_push (E:=Env 64 false push_word 0) caller) in
  let h := with_XPR (<[2%nat := 0x80000fe0]> (replicate 32 0)) s1 in
  let h1 := snd (cm_pop (E:=Env 64 false pop_word 0) h) in
  map (regfile_get (XPR h1)) [1; 2; 8; 9] = map (regfile_get (XPR caller)) [1; 2; 8; 9].
Proof. vm_compute. reflexivity. Qed.
