(* ===== verification/Opcodes.v ===== *)
(** * Instructions the debug module writes: [src/riscv/opcodes.h]

    The encoders of [opcodes.h] that [debug_module.cc] uses, and that the words they
    build decode, with the extractors of [Decode.v], to the operands they were given
    under the opcode they name. *)

From Stdlib Require Import ZifyBool.
From S2P Require Import Prelude Arith Decode.
Local Open Scope cint_scope.

Definition ZERO : Z := 0.
Definition S0 : Z := 8.

Definition MATCH_JAL : Z := 0x6f.
Definition MATCH_SW : Z := 0x2023.
Definition MATCH_SD : Z := 0x3023.
Definition MATCH_LD : Z := 0x3003.
Definition MATCH_LW : Z := 0x2003.
Definition MATCH_CSRRW : Z := 0x1073.
Definition MATCH_CSRRS : Z := 0x2073.
Definition MATCH_FSW : Z := 0x2027.
Definition MATCH_FSD : Z := 0x3027.
Definition MATCH_FLW : Z := 0x2007.
Definition MATCH_FLD : Z := 0x3007.
Definition MATCH_EBREAK : Z := 0x100073.
Definition MATCH_LUI : Z := 0x37.

(** Arguments are of type [uint32_t] or narrower; shifts are of 32 bits. *)
Definition shl32 (x k : Z) : Z := u32 (Z.shiftl x k).
Definition bits (value hi lo : Z) : Z := Z.land (Z.shiftr value lo) (2 ^ (hi + 1 - lo) - 1).
Definition bit (value b : Z) : Z := Z.land (Z.shiftr value b) 1.

Definition jal (rd imm : Z) : Z :=
  shl32 (bit imm 20) 31 |! shl32 (bits imm 10 1) 21 |! shl32 (bit imm 11) 20 |!
  shl32 (bits imm 19 12) 12 |! shl32 rd 7 |! MATCH_JAL.
Definition store_word (src base offset opcode : Z) : Z :=
  shl32 (bits offset 11 5) 25 |! shl32 src 20 |! shl32 base 15 |! shl32 (bits offset 4 0) 7 |! opcode.
Definition sw (src base offset : Z) : Z := store_word src base offset MATCH_SW.
Definition sd (src base offset : Z) : Z := store_word src base offset MATCH_SD.
Definition load_word (rd base offset opcode : Z) : Z :=
  shl32 (bits offset 11 0) 20 |! shl32 base 15 |! shl32 (bits rd 4 0) 7 |! opcode.
Definition ld (rd base offset : Z) : Z := load_word rd base offset MATCH_LD.
Definition lw (rd base offset : Z) : Z := load_word rd base offset MATCH_LW.
Definition csrw (source csr : Z) : Z := shl32 csr 20 |! shl32 source 15 |! MATCH_CSRRW.
Definition csrr (rd csr : Z) : Z := shl32 csr 20 |! shl32 rd 7 |! MATCH_CSRRS.
Definition csrrs (rd rs1 csr : Z) : Z := shl32 csr 20 |! shl32 rs1 15 |! shl32 rd 7 |! MATCH_CSRRS.
Definition fsw (src base offset : Z) : Z := store_word (bits src 4 0) base offset MATCH_FSW.
Definition fsd (src base offset : Z) : Z := store_word (bits src 4 0) base offset MATCH_FSD.
Definition flw (dest base offset : Z) : Z := load_word dest base offset MATCH_FLW.
Definition fld (dest base offset : Z) : Z := load_word dest base offset MATCH_FLD.
Definition ebreak : Z := MATCH_EBREAK.
Definition lui (dest imm : Z) : Z := shl32 (bits imm 19 0) 12 |! shl32 dest 7 |! MATCH_LUI.

(** ** The words decode *)

Lemma shl32_testbit x k i : 0 <= k -> 0 <= i < 32 -> Z.testbit (shl32 x k) i = (k <=? i) && Z.testbit x (i - k).
Proof.
  intros Hk Hi. unfold shl32. rewrite wrap_testbit, Z.shiftl_spec by lia. replace (i <? 32) with true by lia.
  destruct (Z.leb_spec k i); [done|]. by rewrite Z.testbit_neg_r by lia.
Qed.
Lemma bits_testbit v hi lo i : 0 <= lo <= hi + 1 -> 0 <= i ->
  Z.testbit (bits v hi lo) i = (i <? hi + 1 - lo) && Z.testbit v (i + lo).
Proof.
  intros Hl Hi. unfold bits. replace (2 ^ (hi + 1 - lo) - 1) with (Z.ones (hi + 1 - lo)) by (rewrite Z.ones_equiv; lia).
  rewrite Z.land_spec, Z.shiftr_spec, Z.testbit_ones_nonneg, andb_comm by lia. done.
Qed.
Lemma bit_testbit v b i : 0 <= b -> 0 <= i -> Z.testbit (bit v b) i = (i <? 1) && Z.testbit v (i + b).
Proof.
  intros Hb Hi. unfold bit. change 1 with (Z.ones 1) at 1.
  by rewrite Z.land_spec, Z.shiftr_spec, Z.testbit_ones_nonneg, andb_comm by lia.
Qed.
#[local] Hint Rewrite shl32_testbit bits_testbit bit_testbit using lia : fbits.

(** Bits of the opcode and of operands out of their range. *)
Ltac known_bits :=
  repeat match goal with
  | |- context [Z.testbit (Zpos ?m) ?p] =>
    let e := eval vm_compute in (Z.testbit (Zpos m) p) in change (Z.testbit (Zpos m) p) with e
  | |- context [?p <=? ?q] =>
    let e := eval vm_compute in (p <=? q) in
    match e with true => idtac | false => idtac end; change (p <=? q) with e
  | Hx : 0 <= ?x < 2 ^ ?n |- context [Z.testbit ?x ?p] => rewrite (testbit_high n x p) by (lia || exact Hx)
  end.
Ltac word_bits := repeat (progress (fbits; known_bits)).

(** Opcode, funct3 and register fields of the I- and S-format. *)
Definition is_opcode (op : Z) : Prop := forall i, 0 <= i -> Z.testbit 0x707f i = false -> Z.testbit op i = false.
Definition i_format (op rd rs imm i : Z) : bool :=
  if i <? 7 then Z.testbit op i else if i <? 12 then Z.testbit rd (i - 7) else if i <? 15 then Z.testbit op i
  else if i <? 20 then Z.testbit rs (i - 15) else Z.testbit imm (i - 20).
Definition s_format (op src rs imm i : Z) : bool :=
  if i <? 7 then Z.testbit op i else if i <? 12 then Z.testbit imm (i - 7) else if i <? 15 then Z.testbit op i
  else if i <? 20 then Z.testbit rs (i - 15) else if i <? 25 then Z.testbit src (i - 20) else Z.testbit imm (i - 20).

(** An unsigned field is determined by its bits. *)
Lemma field_eq n a b : 0 <= n -> 0 <= a < 2 ^ n -> 0 <= b < 2 ^ n ->
  (forall i, 0 <= i < n -> Z.testbit a i = Z.testbit b i) -> a = b.
Proof.
  intros Hn Ha Hb He. apply Z.bits_inj'. intros i Hi. destruct (Z.lt_ge_cases i n); [by apply He|].
  by rewrite !(testbit_high n) by lia.
Qed.
Ltac by_format Hw :=
  repeat match goal with |- context [Z.testbit ?w ?p] => rewrite (Hw p) by lia end; reflexivity.

Lemma opcode_field w op : is_opcode op -> 0 <= op < 2 ^ 15 ->
  (forall i, 0 <= i < 15 -> Z.testbit 0x707f i = true -> Z.testbit w i = Z.testbit op i) -> Z.land w 0x707f = op.
Proof.
  intros Hop Hr Hw. apply Z.bits_inj'. intros i Hi. rewrite Z.land_spec.
  destruct (Z.lt_ge_cases i 15).
  - destruct (Z.testbit 0x707f i) eqn:E; [by rewrite Hw, andb_true_r|by rewrite Hop, andb_false_r].
  - rewrite (testbit_high 15 op), (testbit_high 15 0x707f) by lia. apply andb_false_r.
Qed.

Section words.
Context (w op rd rs imm : Z) (Hop : is_opcode op) (Hopr : 0 <= op < 2 ^ 15).
Context (Hrd : 0 <= rd < 2 ^ 5) (Hrs : 0 <= rs < 2 ^ 5) (Himm : 0 <= imm < 2 ^ 12).

Lemma i_fields : (forall i, 0 <= i < 32 -> Z.testbit w i = i_format op rd rs imm i) ->
  insn_rd w = rd /\ insn_rs1 w = rs /\ insn_csr w = imm /\ insn_i_imm w = swrap 12 imm /\ Z.land w 0x707f = op.
Proof using Hop Hopr Hrd Hrs Himm.
  intros Hw. split_and!.
  - apply (field_eq 5); [lia|by apply insn_x_range|done|]. intros i Hi. unfold insn_rd. rewrite insn_x_testbit, Hw by lia.
    each_bit i 5%nat ltac:(reflexivity).
  - apply (field_eq 5); [lia|by apply insn_x_range|done|]. intros i Hi. unfold insn_rs1. rewrite insn_x_testbit, Hw by lia.
    each_bit i 5%nat ltac:(reflexivity).
  - apply (field_eq 12); [lia|by apply insn_x_range|done|]. intros i Hi. unfold insn_csr. rewrite insn_x_testbit, Hw by lia.
    each_bit i 12%nat ltac:(reflexivity).
  - apply (signed_bits_eq 12); [lia|exact (fmt_decode_range FmtI w)|by apply swrap_range|]. intros i Hi. unfold insn_i_imm.
    rewrite !swrap_testbit, insn_xs_testbit, Hw by lia. each_bit i 12%nat ltac:(reflexivity).
  - apply opcode_field; [done..|]. intros i Hi. rewrite Hw by lia. each_bit i 15%nat ltac:(intros He; first [reflexivity|discriminate He]).
Qed.

Lemma s_fields : (forall i, 0 <= i < 32 -> Z.testbit w i = s_format op rd rs imm i) ->
  insn_rs2 w = rd /\ insn_rs1 w = rs /\ insn_s_imm w = swrap 12 imm /\ Z.land w 0x707f = op.
Proof using Hop Hopr Hrd Hrs Himm.
  intros Hw. split_and!.
  - apply (field_eq 5); [lia|by apply insn_x_range|done|]. intros i Hi. unfold insn_rs2. rewrite insn_x_testbit, Hw by lia.
    each_bit i 5%nat ltac:(reflexivity).
  - apply (field_eq 5); [lia|by apply insn_x_range|done|]. intros i Hi. unfold insn_rs1. rewrite insn_x_testbit, Hw by lia.
    each_bit i 5%nat ltac:(reflexivity).
  - apply (signed_bits_eq 12); [lia|exact (fmt_decode_range FmtS w)|by apply swrap_range|]. intros i Hi.
    unfold_imm. each_bit i 12%nat ltac:(fbits; rewrite ?Hw by lia; reflexivity).
  - apply opcode_field; [done..|]. intros i Hi. rewrite Hw by lia. each_bit i 15%nat ltac:(intros He; first [reflexivity|discriminate He]).
Qed.
End words.

Section encoders.
Context (op rd rs imm : Z) (Hop : is_opcode op) (Hopr : 0 <= op < 2 ^ 15).
Context (Hrd : 0 <= rd < 2 ^ 5) (Hrs : 0 <= rs < 2 ^ 5) (Himm : 0 <= imm < 2 ^ 12).

(** The bits of [op] outside opcode and funct3. *)
Ltac opcode_bits := repeat match goal with |- context [Z.testbit op ?p] =>
  first [rewrite (Hop p) by (lia || reflexivity) | rewrite (testbit_high 15 op p) by lia] end.
Ltac encoded n := intros i Hi; each_bit i n ltac:(unfold i_format, s_format; word_bits; opcode_bits; rewrite ?orb_false_r; reflexivity).

Lemma load_word_bits i : 0 <= i < 32 -> Z.testbit (load_word rd rs imm op) i = i_format op rd rs imm i.
Proof using Hop Hopr Hrd Hrs Himm. unfold load_word. revert i. encoded 32%nat. Qed.
Lemma store_word_bits i : 0 <= i < 32 -> Z.testbit (store_word rd rs imm op) i = s_format op rd rs imm i.
Proof using Hop Hopr Hrd Hrs Himm. unfold store_word. revert i. encoded 32%nat. Qed.
Lemma csr_word_bits i : 0 <= i < 32 ->
  Z.testbit (shl32 imm 20 |! shl32 rs 15 |! shl32 rd 7 |! op) i = i_format op rd rs imm i.
Proof using Hop Hopr Hrd Hrs Himm. revert i. encoded 32%nat. Qed.
End encoders.

Section jumps.
Context (rd imm : Z) (Hrd : 0 <= rd < 2 ^ 5).
Definition j_format (op i : Z) : bool :=
  if i <? 7 then Z.testbit op i else if i <? 12 then Z.testbit rd (i - 7) else if i <? 20 then Z.testbit imm i
  else if i <? 21 then Z.testbit imm 11 else if i <? 31 then Z.testbit imm (i - 20) else Z.testbit imm 20.
Definition u_format (op i : Z) : bool :=
  if i <? 7 then Z.testbit op i else if i <? 12 then Z.testbit rd (i - 7) else Z.testbit imm (i - 12).
Lemma jal_bits i : 0 <= i < 32 -> Z.testbit (jal rd imm) i = j_format MATCH_JAL i.
Proof using Hrd. unfold jal, MATCH_JAL, j_format. revert i. intros i Hi. each_bit i 32%nat ltac:(word_bits; reflexivity). Qed.
Lemma lui_bits i : 0 <= i < 32 -> Z.testbit (lui rd imm) i = u_format MATCH_LUI i.
Proof using Hrd. unfold lui, MATCH_LUI, u_format. revert i. intros i Hi. each_bit i 32%nat ltac:(word_bits; reflexivity). Qed.

(** [rd] and the opcode of a J- or U-format word. *)
Lemma rd_opcode w op : 0 <= op < 2 ^ 7 ->
  (forall i, 0 <= i < 12 -> Z.testbit w i = if i <? 7 then Z.testbit op i else Z.testbit rd (i - 7)) ->
  insn_rd w = rd /\ Z.land w 0x7f = op.
Proof using Hrd.
  intros Hr Hw. split.
  - apply (field_eq 5); [lia|by apply insn_x_range|done|]. intros i Hi. unfold insn_rd. rewrite insn_x_testbit, Hw by lia.
    each_bit i 5%nat ltac:(reflexivity).
  - apply (field_eq 7); [lia|by apply land_range|done|].
    intros i Hi. rewrite Z.land_spec, Hw by lia. each_bit i 7%nat ltac:(cbn; by rewrite andb_true_r).
Qed.
Lemma uj_range w : - 2 ^ (21 - 1) <= insn_uj_imm w < 2 ^ (21 - 1).
Proof. pose proof (fmt_decode_range FmtJ w) as Hr. cbv delta [fmt_decode fmt_layout] iota beta zeta in Hr. exact Hr. Qed.
Lemma u_range w : - 2 ^ (32 - 1) <= insn_u_imm w < 2 ^ (32 - 1).
Proof. pose proof (fmt_decode_range FmtU w) as Hr. cbv delta [fmt_decode fmt_layout] iota beta zeta in Hr. exact Hr. Qed.
Lemma j_imm w : Z.testbit imm 0 = false -> (forall i, 0 <= i < 32 -> Z.testbit w i = j_format MATCH_JAL i) ->
  insn_uj_imm w = swrap 21 imm.
Proof.
  intros H0 Hw. apply (signed_bits_eq 21); [lia|apply uj_range|by apply swrap_range|]. intros i Hi.
  unfold_imm. each_bit i 21%nat ltac:(fbits; rewrite ?Hw by lia; unfold j_format; fbits; rewrite ?H0; reflexivity).
Qed.
Lemma u_imm w : (forall i, 0 <= i < 32 -> Z.testbit w i = u_format MATCH_LUI i) ->
  insn_u_imm w = swrap 32 (Z.shiftl imm 12).
Proof.
  intros Hw. apply (signed_bits_eq 32); [lia|apply u_range|by apply swrap_range|]. intros i Hi.
  unfold_imm. each_bit i 32%nat ltac:(fbits; rewrite ?Hw by lia; unfold u_format; fbits; reflexivity).
Qed.
Lemma jal_fields : Z.testbit imm 0 = false ->
  insn_rd (jal rd imm) = rd /\ insn_uj_imm (jal rd imm) = swrap 21 imm /\ Z.land (jal rd imm) 0x7f = MATCH_JAL.
Proof using Hrd.
  intros H0. destruct (rd_opcode (jal rd imm) MATCH_JAL) as [H1 H2]; [done| |].
  { intros i Hi. rewrite jal_bits by lia. each_bit i 12%nat ltac:(reflexivity). }
  split_and!; [done|apply j_imm; [done|apply jal_bits]|done].
Qed.
Lemma lui_fields : insn_rd (lui rd imm) = rd /\ insn_u_imm (lui rd imm) = swrap 32 (Z.shiftl imm 12) /\
  Z.land (lui rd imm) 0x7f = MATCH_LUI.
Proof using Hrd.
  destruct (rd_opcode (lui rd imm) MATCH_LUI) as [H1 H2]; [done| |].
  { intros i Hi. rewrite lui_bits by lia. each_bit i 12%nat ltac:(reflexivity). }
  split_and!; [done|apply u_imm, lui_bits|done].
Qed.
End jumps.

Definition debug_opcodes : list Z :=
  [MATCH_LW; MATCH_LD; MATCH_FLW; MATCH_FLD; MATCH_SW; MATCH_SD; MATCH_FSW; MATCH_FSD; MATCH_CSRRW; MATCH_CSRRS].
Lemma opcodes_ok op : op ∈ debug_opcodes -> is_opcode op /\ 0 <= op < 2 ^ 15.
Proof.
  intros Hop. assert (E : Z.land op 0x707f = op /\ 0 <= op < 2 ^ 15).
  { apply list_elem_of_In in Hop. cbn in Hop. unfold MATCH_LW, MATCH_LD, MATCH_FLW, MATCH_FLD, MATCH_SW, MATCH_SD, MATCH_FSW,
      MATCH_FSD, MATCH_CSRRW, MATCH_CSRRS in Hop. intuition (subst; vm_compute; intuition discriminate). }
  destruct E as [E Hr]. split; [|done]. intros i Hi Hb. by rewrite <- E, Z.land_spec, Hb, andb_false_r.
Qed.
Ltac debug_opcode := repeat first [apply list_elem_of_here | apply list_elem_of_further].

(** What a load, store and CSR word stand for. *)
Definition loads (w op rd rs off : Z) : Prop :=
  insn_rd w = rd /\ insn_rs1 w = rs /\ insn_i_imm w = swrap 12 off /\ Z.land w 0x707f = op.
Definition stores (w op src rs off : Z) : Prop :=
  insn_rs2 w = src /\ insn_rs1 w = rs /\ insn_s_imm w = swrap 12 off /\ Z.land w 0x707f = op.
Definition accesses_csr (w op rd rs csr : Z) : Prop :=
  insn_rd w = rd /\ insn_rs1 w = rs /\ insn_csr w = csr /\ Z.land w 0x707f = op.

Definition jumps (w rd imm : Z) : Prop :=
  insn_rd w = rd /\ insn_uj_imm w = swrap 21 imm /\ Z.land w 0x7f = MATCH_JAL.
Definition loads_upper (w rd imm : Z) : Prop :=
  insn_rd w = rd /\ insn_u_imm w = swrap 32 (Z.shiftl imm 12) /\ Z.land w 0x7f = MATCH_LUI.

Section operands.
Context (rd rs imm : Z) (Hrd : 0 <= rd < 2 ^ 5) (Hrs : 0 <= rs < 2 ^ 5) (Himm : 0 <= imm < 2 ^ 12).
Lemma load_word_ok op : op ∈ debug_opcodes -> loads (load_word rd rs imm op) op rd rs imm.
Proof using Hrd Hrs Himm.
  intros Hop. destruct (opcodes_ok op Hop). destruct (i_fields (load_word rd rs imm op) op rd rs imm) as (? & ? & _ & ? & ?);
    [done..| |done]. intros. by apply load_word_bits.
Qed.
Lemma store_word_ok op : op ∈ debug_opcodes -> stores (store_word rd rs imm op) op rd rs imm.
Proof using Hrd Hrs Himm.
  intros Hop. destruct (opcodes_ok op Hop). apply (s_fields (store_word rd rs imm op) op rd rs imm); [done..|].
  intros. by apply store_word_bits.
Qed.
Lemma csr_word_ok op : op ∈ debug_opcodes ->
  accesses_csr (shl32 imm 20 |! shl32 rs 15 |! shl32 rd 7 |! op) op rd rs imm.
Proof using Hrd Hrs Himm.
  intros Hop. destruct (opcodes_ok op Hop).
  destruct (i_fields (shl32 imm 20 |! shl32 rs 15 |! shl32 rd 7 |! op) op rd rs imm) as (? & ? & ? & _ & ?);
    [done..| |done]. intros. by apply csr_word_bits.
Qed.
Lemma bits_reg : bits rd 4 0 = rd.
Proof using Hrd.
  unfold bits. rewrite Z.shiftr_0_r. change (2 ^ (4 + 1 - 0) - 1) with (Z.ones 5). rewrite Z.land_ones by lia. by apply Z.mod_small.
Qed.
End operands.

(** The words of the encoders, each with the opcode, the registers, the CSR and the offset it was built from. *)
Lemma lw_ok rd : 0 <= rd < 2 ^ 5 -> loads (lw rd 0 0x380) MATCH_LW rd 0 0x380.
Proof. intros. apply load_word_ok; [done|lia|lia|debug_opcode]. Qed.
Lemma ld_ok rd : 0 <= rd < 2 ^ 5 -> loads (ld rd 0 0x380) MATCH_LD rd 0 0x380.
Proof. intros. apply load_word_ok; [done|lia|lia|debug_opcode]. Qed.
Lemma flw_ok rd : 0 <= rd < 2 ^ 5 -> loads (flw rd 0 0x380) MATCH_FLW rd 0 0x380.
Proof. intros. apply load_word_ok; [done|lia|lia|debug_opcode]. Qed.
Lemma fld_ok rd : 0 <= rd < 2 ^ 5 -> loads (fld rd 0 0x380) MATCH_FLD rd 0 0x380.
Proof. intros. apply load_word_ok; [done|lia|lia|debug_opcode]. Qed.
Lemma sw_ok src : 0 <= src < 2 ^ 5 -> stores (sw src 0 0x380) MATCH_SW src 0 0x380.
Proof. intros. apply store_word_ok; [done|lia|lia|debug_opcode]. Qed.
Lemma sd_ok src : 0 <= src < 2 ^ 5 -> stores (sd src 0 0x380) MATCH_SD src 0 0x380.
Proof. intros. apply store_word_ok; [done|lia|lia|debug_opcode]. Qed.
Lemma fsw_ok src : 0 <= src < 2 ^ 5 -> stores (fsw src 0 0x380) MATCH_FSW src 0 0x380.
Proof. intros Hs. unfold fsw. rewrite (bits_reg src Hs). apply store_word_ok; [done|lia|lia|debug_opcode]. Qed.
Lemma fsd_ok src : 0 <= src < 2 ^ 5 -> stores (fsd src 0 0x380) MATCH_FSD src 0 0x380.
Proof. intros Hs. unfold fsd. rewrite (bits_reg src Hs). apply store_word_ok; [done|lia|lia|debug_opcode]. Qed.
Lemma csrrs_ok rd rs csr : 0 <= rd < 2 ^ 5 -> 0 <= rs < 2 ^ 5 -> 0 <= csr < 2 ^ 12 -> accesses_csr (csrrs rd rs csr) MATCH_CSRRS rd rs csr.
Proof. intros. apply csr_word_ok; [done..|debug_opcode]. Qed.
Lemma csrw_ok rs csr : 0 <= rs < 2 ^ 5 -> 0 <= csr < 2 ^ 12 -> accesses_csr (csrw rs csr) MATCH_CSRRW 0 rs csr.
Proof.
  intros. unfold csrw. rewrite <- (Z.lor_0_r (shl32 csr 20 |! shl32 rs 15)). apply (csr_word_ok 0 rs); [lia|done|done|debug_opcode].
Qed.
Lemma csrr_ok rd csr : 0 <= rd < 2 ^ 5 -> 0 <= csr < 2 ^ 12 -> accesses_csr (csrr rd csr) MATCH_CSRRS rd 0 csr.
Proof. intros. unfold csrr. rewrite <- (Z.lor_0_r (shl32 csr 20)). apply (csr_word_ok rd 0); [done|lia|done|debug_opcode]. Qed.
Lemma jal_ok rd imm : 0 <= rd < 2 ^ 5 -> Z.testbit imm 0 = false -> jumps (jal rd imm) rd imm.
Proof. intros. by apply jal_fields. Qed.
Lemma lui_ok rd imm : 0 <= rd < 2 ^ 5 -> loads_upper (lui rd imm) rd imm.
Proof. intros. by apply lui_fields. Qed.

(** Every word is a 32-bit value. *)
Lemma shl32_range x k : 0 <= shl32 x k < 2 ^ 32. Proof. by apply wrap_range. Qed.
Ltac word_range := repeat first [apply shl32_range | apply lor_range; [lia| |]]; try (vm_compute; intuition discriminate).
Lemma load_word_range rd rs off op : op ∈ debug_opcodes -> 0 <= load_word rd rs off op < 2 ^ 32.
Proof. intros [_ Hr]%opcodes_ok. unfold load_word. repeat first [apply shl32_range | apply lor_range; [lia| |]]. lia. Qed.
Lemma store_word_range rd rs off op : op ∈ debug_opcodes -> 0 <= store_word rd rs off op < 2 ^ 32.
Proof. intros [_ Hr]%opcodes_ok. unfold store_word. repeat first [apply shl32_range | apply lor_range; [lia| |]]. lia. Qed.
Lemma word_ranges rd rs csr imm : Forall (fun w => 0 <= w < 2 ^ 32)
  [lw rd 0 0x380; ld rd 0 0x380; flw rd 0 0x380; fld rd 0 0x380; sw rd 0 0x380; sd rd 0 0x380; fsw rd 0 0x380; fsd rd 0 0x380;
   csrw rs csr; csrr rd csr; csrrs rd rs csr; jal rd imm; lui rd imm; ebreak].
Proof.
  do 4 (apply Forall_cons; [apply load_word_range; debug_opcode|]). do 4 (apply Forall_cons; [apply store_word_range; debug_opcode|]).
  unfold csrw, csrr, csrrs, jal, lui, ebreak. repeat (apply Forall_cons; [word_range|]). apply Forall_nil.
Qed.
