(* ===== verification/DebugModule.v ===== *)
(** * The debug module: [src/riscv/debug_module.cc]

    [debug_module_t] is what a debugger reaches through the debug module interface
    (DMI): hart selection, halting and resuming, abstract commands (small programs it
    assembles into memory that the halted hart executes), the program buffer, and
    system bus accesses.  This file holds its state and every operation of the class;
    [DebugProps.v] states what they guarantee.

    An array is a list of its C length.  The result [None] of an operation stands for
    what C++ leaves undefined or aborts on: an index out of an array, a failed
    [assert], [std::vector::at] out of range.  The simulator behind the module, that
    is its harts, its memory port [debug_mmu] and the host's [random], is the class
    [simif]; [processor_t::reset] calls back [proc_reset]. *)

From Stdlib Require Import ZifyBool.
From stdpp Require Import list.
From S2P Require Import Prelude Arith Decode Opcodes.
Local Open Scope cint_scope.

(** ** Record fields

    [s <| f := v |>] is [s] with field [f] replaced, for records that have an
    instance of [fields], the record rebuilt from its projections. *)

Class fields (R : Type) := rebuild : R -> R.
Class setter {R T : Type} (proj : R -> T) := set_field_of : T -> R -> R.
Ltac solve_setter :=
  match goal with
  | |- @setter ?R ?T ?proj =>
    let eta := constr:(_ : fields R) in
    let eta := eval hnf in eta in
    let eta' := eval pattern proj in eta in
    lazymatch eta' with ?f _ => exact (fun (v : T) (r : R) => f (fun _ => v) r) end
  end.
#[export] Hint Extern 0 (setter _) => solve_setter : typeclass_instances.
#[warnings="-postfix-notation-not-level-1"]
Notation "s <| f := v |>" := (set_field_of (proj := f) v s) (at level 12, f at next level, v at level 200, left associativity,
  format "s  <| f  :=  v |>").

(** ** Constants *)

Definition AC_ACCESS_REGISTER_AARSIZE : Z := 0x700000.
Definition AC_ACCESS_REGISTER_POSTEXEC : Z := 0x40000.
Definition AC_ACCESS_REGISTER_REGNO : Z := 0xffff.
Definition AC_ACCESS_REGISTER_TRANSFER : Z := 0x20000.
Definition AC_ACCESS_REGISTER_WRITE : Z := 0x10000.
Definition DM_ABSTRACTAUTO : Z := 0x18.
Definition DM_ABSTRACTAUTO_AUTOEXECDATA : Z := 0xfff.
Definition DM_ABSTRACTAUTO_AUTOEXECPROGBUF : Z := 0xffff0000.
Definition DM_ABSTRACTCS : Z := 0x16.
Definition DM_ABSTRACTCS_BUSY : Z := 0x1000.
Definition DM_ABSTRACTCS_CMDERR : Z := 0x700.
Definition DM_ABSTRACTCS_DATACOUNT : Z := 0xf.
Definition DM_ABSTRACTCS_PROGBUFSIZE : Z := 0x1f000000.
Definition DM_AUTHDATA : Z := 0x30.
Definition DM_COMMAND : Z := 0x17.
Definition DM_CUSTOM : Z := 0x1f.
Definition DM_DATA0 : Z := 0x04.
Definition DM_DMCONTROL : Z := 0x10.
Definition DM_DMCONTROL_ACKHAVERESET : Z := 0x10000000.
Definition DM_DMCONTROL_DMACTIVE : Z := 1.
Definition DM_DMCONTROL_HALTREQ : Z := 0x80000000.
Definition DM_DMCONTROL_HARTRESET : Z := 0x20000000.
Definition DM_DMCONTROL_HARTSELHI : Z := 0xffc0.
Definition DM_DMCONTROL_HARTSELLO : Z := 0x3ff0000.
Definition DM_DMCONTROL_HARTSELLO_LENGTH : Z := 0xa.
Definition DM_DMCONTROL_HASEL : Z := 0x4000000.
Definition DM_DMCONTROL_NDMRESET : Z := 2.
Definition DM_DMCONTROL_RESUMEREQ : Z := 0x40000000.
Definition DM_DMCS2 : Z := 0x32.
Definition DM_DMCS2_GROUP : Z := 0x7c.
Definition DM_DMCS2_GROUPTYPE : Z := 0x800.
Definition DM_DMCS2_HGWRITE : Z := 2.
Definition DM_DMSTATUS : Z := 0x11.
Definition DM_DMSTATUS_ALLHALTED : Z := 0x200.
Definition DM_DMSTATUS_ALLHAVERESET : Z := 0x80000.
Definition DM_DMSTATUS_ALLNONEXISTENT : Z := 0x8000.
Definition DM_DMSTATUS_ALLRESUMEACK : Z := 0x20000.
Definition DM_DMSTATUS_ALLRUNNING : Z := 0x800.
Definition DM_DMSTATUS_ALLUNAVAIL : Z := 0x2000.
Definition DM_DMSTATUS_ANYHALTED : Z := 0x100.
Definition DM_DMSTATUS_ANYHAVERESET : Z := 0x40000.
Definition DM_DMSTATUS_ANYNONEXISTENT : Z := 0x4000.
Definition DM_DMSTATUS_ANYRESUMEACK : Z := 0x10000.
Definition DM_DMSTATUS_ANYRUNNING : Z := 0x400.
Definition DM_DMSTATUS_ANYUNAVAIL : Z := 0x1000.
Definition DM_DMSTATUS_AUTHBUSY : Z := 0x40.
Definition DM_DMSTATUS_AUTHENTICATED : Z := 0x80.
Definition DM_DMSTATUS_IMPEBREAK : Z := 0x400000.
Definition DM_DMSTATUS_VERSION : Z := 0xf.
Definition DM_HARTINFO : Z := 0x12.
Definition DM_HARTINFO_DATAACCESS : Z := 0x10000.
Definition DM_HARTINFO_DATAADDR : Z := 0xfff.
Definition DM_HARTINFO_DATASIZE : Z := 0xf000.
Definition DM_HARTINFO_NSCRATCH : Z := 0xf00000.
Definition DM_HAWINDOW : Z := 0x15.
Definition DM_HAWINDOWSEL : Z := 0x14.
Definition DM_PROGBUF0 : Z := 0x20.
Definition DM_SBADDRESS0 : Z := 0x39.
Definition DM_SBADDRESS1 : Z := 0x3a.
Definition DM_SBADDRESS2 : Z := 0x3b.
Definition DM_SBADDRESS3 : Z := 0x37.
Definition DM_SBCS : Z := 0x38.
Definition DM_SBCS_SBACCESS : Z := 0xe0000.
Definition DM_SBCS_SBACCESS128 : Z := 0x10.
Definition DM_SBCS_SBACCESS16 : Z := 2.
Definition DM_SBCS_SBACCESS32 : Z := 4.
Definition DM_SBCS_SBACCESS64 : Z := 8.
Definition DM_SBCS_SBACCESS8 : Z := 1.
Definition DM_SBCS_SBASIZE : Z := 0xfe0.
Definition DM_SBCS_SBAUTOINCREMENT : Z := 0x10000.
Definition DM_SBCS_SBBUSY : Z := 0x200000.
Definition DM_SBCS_SBBUSYERROR : Z := 0x400000.
Definition DM_SBCS_SBERROR : Z := 0x7000.
Definition DM_SBCS_SBREADONADDR : Z := 0x100000.
Definition DM_SBCS_SBREADONDATA : Z := 0x8000.
Definition DM_SBCS_SBVERSION : Z := 0xe0000000.
Definition DM_SBDATA0 : Z := 0x3c.
Definition DM_SBDATA1 : Z := 0x3d.
Definition DM_SBDATA2 : Z := 0x3e.
Definition DM_SBDATA3 : Z := 0x3f.

Definition DEBUG_START : Z := 0.
Definition DEBUG_ROM_HALTED : Z := 0x100.
Definition DEBUG_ROM_GOING : Z := 0x104.
Definition DEBUG_ROM_RESUMING : Z := 0x108.
Definition DEBUG_ROM_EXCEPTION : Z := 0x10C.
Definition DEBUG_ROM_FLAGS : Z := 0x400.
Definition DEBUG_ROM_FLAG_GO : Z := 0.
Definition DEBUG_ROM_FLAG_RESUME : Z := 1.
Definition DEBUG_ROM_WHERETO : Z := 0x300.
Definition DEBUG_ROM_ENTRY : Z := 0x800.
Definition CSR_FFLAGS : Z := 0x1.
Definition CSR_FRM : Z := 0x2.
Definition CSR_FCSR : Z := 0x3.
Definition CSR_MSTATUS : Z := 0x300.
Definition CSR_DSCRATCH0 : Z := 0x7b2.
Definition CSR_DSCRATCH1 : Z := 0x7b3.
Definition MSTATUS_FS : Z := 0x6000.

Definition debug_rom_raw : list Z := [
  0x6f; 0x00; 0xc0; 0x00; 0x6f; 0x00; 0x00; 0x06; 0x6f; 0x00; 0x80; 0x03;
  0x0f; 0x00; 0xf0; 0x0f; 0x73; 0x10; 0x24; 0x7b; 0x73; 0x24; 0x40; 0xf1;
  0x23; 0x20; 0x80; 0x10; 0x03; 0x44; 0x04; 0x40; 0x13; 0x74; 0x14; 0x00;
  0x63; 0x14; 0x04; 0x02; 0x73; 0x24; 0x40; 0xf1; 0x03; 0x44; 0x04; 0x40;
  0x13; 0x74; 0x24; 0x00; 0x63; 0x18; 0x04; 0x02; 0x73; 0x00; 0x50; 0x10;
  0x6f; 0xf0; 0x9f; 0xfd; 0x73; 0x24; 0x20; 0x7b; 0x23; 0x26; 0x00; 0x10;
  0x73; 0x00; 0x10; 0x00; 0x73; 0x24; 0x40; 0xf1; 0x23; 0x22; 0x80; 0x10;
  0x73; 0x24; 0x20; 0x7b; 0x0f; 0x00; 0xf0; 0x0f; 0x0f; 0x10; 0x00; 0x00;
  0x67; 0x00; 0x00; 0x30; 0x73; 0x24; 0x40; 0xf1; 0x23; 0x24; 0x80; 0x10;
  0x73; 0x24; 0x20; 0x7b; 0x73; 0x00; 0x20; 0x7b].

(** ** Data *)

Record debug_module_config_t := DebugModuleConfig {
  progbufsize : Z; max_sba_data_width : Z; require_authentication : bool; abstract_rti : Z; support_hasel : bool;
  support_abstract_csr_access : bool; support_abstract_fpr_access : bool; support_haltgroups : bool; support_impebreak : bool
}.
Definition default_config : debug_module_config_t := DebugModuleConfig 2 0 false 0 true true true true true.

Record dmcontrol_t := Dmcontrol {
  haltreq : bool; resumereq : bool; hasel : bool; hartsel : Z; hartreset : bool; dmactive : bool; ndmreset : bool
}.
#[export] Instance dmcontrol_fields : fields dmcontrol_t := fun r =>
  Dmcontrol (haltreq r) (resumereq r) (hasel r) (hartsel r) (hartreset r) (dmactive r) (ndmreset r).

Record dmstatus_t := Dmstatus {
  impebreak : bool; allhavereset : bool; anyhavereset : bool; allnonexistant : bool; anynonexistant : bool;
  allunavail : bool; anyunavail : bool; allrunning : bool; anyrunning : bool; allhalted : bool; anyhalted : bool;
  allresumeack : bool; anyresumeack : bool; authenticated : bool; authbusy : bool; cfgstrvalid : bool; version : Z
}.
#[export] Instance dmstatus_fields : fields dmstatus_t := fun r =>
  Dmstatus (impebreak r) (allhavereset r) (anyhavereset r) (allnonexistant r) (anynonexistant r) (allunavail r)
    (anyunavail r) (allrunning r) (anyrunning r) (allhalted r) (anyhalted r) (allresumeack r) (anyresumeack r)
    (authenticated r) (authbusy r) (cfgstrvalid r) (version r).

(** The values of [cmderr_t]; the field is cleared bit by bit, so it may hold others. *)
Definition CMDERR_NONE : Z := 0.
Definition CMDERR_BUSY : Z := 1.
Definition CMDERR_NOTSUP : Z := 2.
Definition CMDERR_EXCEPTION : Z := 3.
Definition CMDERR_HALTRESUME : Z := 4.

Record abstractcs_t := Abstractcs { busy : bool; datacount : Z; cs_progbufsize : Z; cmderr : Z }.
#[export] Instance abstractcs_fields : fields abstractcs_t := fun r =>
  Abstractcs (busy r) (datacount r) (cs_progbufsize r) (cmderr r).

Record abstractauto_t := Abstractauto { autoexecprogbuf : Z; autoexecdata : Z }.

Record sbcs_t := Sbcs {
  sbversion : Z; readonaddr : bool; sbaccess : Z; autoincrement : bool; readondata : bool; error : Z; asize : Z;
  access128 : bool; access64 : bool; access32 : bool; access16 : bool; access8 : bool; sbbusyerror : bool
}.
#[export] Instance sbcs_fields : fields sbcs_t := fun r =>
  Sbcs (sbversion r) (readonaddr r) (sbaccess r) (autoincrement r) (readondata r) (error r) (asize r)
    (access128 r) (access64 r) (access32 r) (access16 r) (access8 r) (sbbusyerror r).

Record hart_debug_state_t := HartDebugState { halted : bool; resumeack : bool; havereset : bool; haltgroup : Z }.
#[export] Instance hart_debug_fields : fields hart_debug_state_t := fun r =>
  HartDebugState (halted r) (resumeack r) (havereset r) (haltgroup r).

Inductive halt_request_t := HR_NONE | HR_REGULAR | HR_GROUP.

(** What the module uses of the simulator: the [halt_request] of a hart and [processor_t::reset] (but for its
    callback), loads and stores of 1, 2, 4 and 8 bytes through [debug_mmu] ([None] and [false] where they throw
    [mem_trap_t]), and [random]. *)
Class simif (X : Type) := {
  set_halt_request : Z -> halt_request_t -> X -> X;
  reset_hart : Z -> X -> X;
  debug_mmu_load : Z -> Z -> X -> X * option Z;
  debug_mmu_store : Z -> Z -> Z -> X -> X * bool;
  random : X -> X * Z
}.

Record debug_module_t (X : Type) := DebugModule {
  custom_base : Z;
  debug_rom_whereto : list Z; debug_abstract : list Z; program_buffer : list Z; dmdata : list Z;
  hart_state : list hart_debug_state_t; debug_rom_flags : list Z;
  dmcontrol : dmcontrol_t; dmstatus : dmstatus_t; abstractcs : abstractcs_t; abstractauto : abstractauto_t;
  command : Z; hawindowsel : Z; hart_array_mask : list bool;
  sbcs : sbcs_t; sbaddress : list Z; sbdata : list Z;
  challenge : Z; abstract_command_completed : bool; rti_remaining : Z; hart_available_state : list bool;
  sb_read_wait : Z; sb_write_wait : Z;
  sim : X
}.
Arguments DebugModule {X}.
Arguments custom_base {X}. Arguments debug_rom_whereto {X}. Arguments debug_abstract {X}. Arguments program_buffer {X}.
Arguments dmdata {X}. Arguments hart_state {X}. Arguments debug_rom_flags {X}. Arguments dmcontrol {X}.
Arguments dmstatus {X}. Arguments abstractcs {X}. Arguments abstractauto {X}. Arguments command {X}.
Arguments hawindowsel {X}. Arguments hart_array_mask {X}. Arguments sbcs {X}. Arguments sbaddress {X}.
Arguments sbdata {X}. Arguments challenge {X}. Arguments abstract_command_completed {X}. Arguments rti_remaining {X}.
Arguments hart_available_state {X}. Arguments sb_read_wait {X}. Arguments sb_write_wait {X}. Arguments sim {X}.
#[export] Instance debug_module_fields X : fields (debug_module_t X) := fun s =>
  DebugModule (custom_base s) (debug_rom_whereto s) (debug_abstract s) (program_buffer s) (dmdata s) (hart_state s)
    (debug_rom_flags s) (dmcontrol s) (dmstatus s) (abstractcs s) (abstractauto s) (command s) (hawindowsel s)
    (hart_array_mask s) (sbcs s) (sbaddress s) (sbdata s) (challenge s) (abstract_command_completed s) (rti_remaining s)
    (hart_available_state s) (sb_read_wait s) (sb_write_wait s) (sim s).

(** ** Arrays *)

Definition zlen {A} (l : list A) : Z := Z.of_nat (length l).
Definition index {A} (l : list A) (i : Z) : option A := if 0 <=? i then l !! Z.to_nat i else None.
Definition update {A} (l : list A) (i : Z) (v : A) : option (list A) :=
  if (0 <=? i) && (i <? zlen l) then Some (<[Z.to_nat i := v]> l) else None.
(** [memcpy] out of and into an array, at an offset. *)
Definition copy_out (l : list Z) (off len : Z) : option (list Z) :=
  if (0 <=? off) && (0 <=? len) && (off + len <=? zlen l) then Some (take (Z.to_nat len) (drop (Z.to_nat off) l)) else None.
Definition copy_in (l : list Z) (off : Z) (bytes : list Z) : option (list Z) :=
  if (0 <=? off) && (off + zlen bytes <=? zlen l)
  then Some (take (Z.to_nat off) l ++ bytes ++ drop (Z.to_nat off + length bytes) l) else None.

Definition write32 (memory : list Z) (i value : Z) : option (list Z) :=
  copy_in memory (i * 4) [value &! 0xff; (value >>! 8) &! 0xff; (value >>! 16) &! 0xff; (value >>! 24) &! 0xff].
Definition read32 (memory : list Z) (i : Z) : option Z :=
  match copy_out memory (i * 4) 4 with
  | Some [b0; b1; b2; b3] => Some (b0 |! (b1 <<! 8) |! (b2 <<! 16) |! (b3 <<! 24))
  | _ => None
  end.

(** ** Operations over the module *)

Section debug_module.
Context {X : Type}.
Local Abbreviation dm := (debug_module_t X).

Definition D (A : Type) : Type := dm -> option (A * dm).
#[export] Instance D_ret : MRet D := fun A a s => Some (a, s).
#[export] Instance D_bind : MBind D := fun A B k m s => match m s with Some (a, s) => k a s | None => None end.
Definition gets {A} (f : dm -> A) : D A := fun s => Some (f s, s).
Definition modify (f : dm -> dm) : D unit := fun s => Some (tt, f s).
Definition lift {A} (o : option A) : D A := fun s => match o with Some a => Some (a, s) | None => None end.
Definition assert_ (b : bool) : D unit := lift (if b then Some tt else None).
Definition when (b : bool) (m : D unit) : D unit := if b then m else mret tt.
Fixpoint for_each {A} (l : list A) (body : A -> D unit) : D unit :=
  match l with [] => mret tt | a :: l => body a;; for_each l body end.

(** A [switch] on an integer. *)
Fixpoint switch {B} (a : Z) (cases : list (Z * B)) (default : B) : B :=
  match cases with [] => default | (k, b) :: cases => if a =? k then b else switch a cases default end.
(** [result = set_field(result, mask, value)] for a list of fields, from zero. *)
Definition set_fields (l : list (Z * Z)) : Z := fold_left (fun r f => set_field r (fst f) (snd f)) l 0.

Definition set_cmderr (e : Z) : D unit := modify (fun s => s <| abstractcs := abstractcs s <| cmderr := e |> |>).
Definition set_sbbusyerror (b : bool) : D unit := modify (fun s => s <| sbcs := sbcs s <| sbbusyerror := b |> |>).
Definition set_sberror (e : Z) : D unit := modify (fun s => s <| sbcs := sbcs s <| error := e |> |>).
Definition on_sim (f : X -> X) : D unit := modify (fun s => s <| sim := f (sim s) |>).
Definition hart_state_at (id : Z) : D hart_debug_state_t := l ← gets hart_state; lift (index l id).
Definition set_hart_state (id : Z) (f : hart_debug_state_t -> hart_debug_state_t) : D unit :=
  l ← gets hart_state; h ← lift (index l id); l ← lift (update l id (f h)); modify (fun s => s <| hart_state := l |>).
Definition update_flags (id : Z) (f : Z -> Z) : D unit :=
  l ← gets debug_rom_flags; v ← lift (index l id); l ← lift (update l id (u8 (f v)));
  modify (fun s => s <| debug_rom_flags := l |>).

Definition field_width (n : Z) : Z :=
  let fix go (fuel : nat) (i n : Z) : Z :=
    match fuel with O => i | S fuel => if n =? 0 then i else go fuel (i + 1) (n >>! 1) end in
  go 32%nat 0 (u32 (n - 1)).

Context `{simif X} (config : debug_module_config_t) (hartids : list Z).

(** [get_cfg()]: the hart identifiers in increasing order, as [get_harts()] iterates over them. *)
Definition nprocs : Z := zlen hartids.
Definition max_hartid : Z := last hartids 0.

Definition datasize : Z := 2.
Definition debug_data_start : Z := 0x380.
Definition debug_abstract_size : Z := 12.
Definition secret : Z := 1.
Definition program_buffer_bytes : Z := u32 ((if support_impebreak config then 4 else 0) + 4 * progbufsize config).
Definition debug_progbuf_start : Z := u32 (debug_data_start - program_buffer_bytes).
Definition debug_abstract_start : Z := u32 (debug_progbuf_start - debug_abstract_size * 4).

Definition selected_hart_id : D Z := s ← gets dmcontrol; lift (index hartids (hartsel s)).
Definition hart_selected (hartid : Z) : D bool :=
  id ← selected_hart_id;
  if hartid =? id then mret true
  else c ← gets dmcontrol; if hasel c then l ← gets hart_array_mask; lift (index l hartid) else mret false.
Definition selected_hart_state : D hart_debug_state_t := id ← selected_hart_id; hart_state_at id.
Definition hart_available (hart_id : Z) : D bool :=
  l ← gets hart_available_state; if hart_id <? zlen l then lift (index l hart_id) else mret true.

Definition reset_status : dmstatus_t :=
  Dmstatus (support_impebreak config) false false false false false false false false false false false false
    (negb (require_authentication config)) false false 2.
Definition reset_sbcs : sbcs_t :=
  let w := max_sba_data_width config in
  Sbcs (if 0 <? w then 1 else 0) false 0 false false 0 (if 0 <? w then 64 else 0) false (64 <=? w) (32 <=? w) (16 <=? w) (8 <=? w)
    false.
(** [harts] is [get_harts()], empty while the simulator is under construction. *)
Definition reset (harts : list Z) : D unit :=
  for_each harts (fun hart_id => on_sim (set_halt_request hart_id HR_NONE));;
  modify (fun s => s <| dmcontrol := Dmcontrol false false false 0 false false false |>
    <| dmstatus := reset_status |>
    <| abstractcs := Abstractcs false (zlen (dmdata s) / 4) (progbufsize config) CMDERR_NONE |>
    <| abstractauto := Abstractauto 0 0 |>
    <| sbcs := reset_sbcs |>
    <| challenge := u32 (snd (random (sim s))) |> <| sim := fst (random (sim s)) |>).

(** The constructor; [junk] holds what the fields it leaves uninitialised happen to contain. *)
Definition new_debug_module (junk : dm) : option dm :=
  if 1024 <=? max_hartid then None
  else
    let buffer := replicate (Z.to_nat program_buffer_bytes) 0 in
    buffer ← (if support_impebreak config then write32 buffer (progbufsize config) ebreak else Some buffer);
    whereto ← write32 (replicate 4 0) 0 (jal ZERO (debug_abstract_start - DEBUG_ROM_WHERETO));
    r ← reset [] (junk <| custom_base := 0 |> <| hart_state :=
          replicate (Z.to_nat (2 ^ field_width (max_hartid + 1))) (HartDebugState false false false 0) |>
        <| hart_array_mask := replicate (Z.to_nat (max_hartid + 1)) false |>
        <| rti_remaining := 0 |> <| sb_read_wait := 0 |> <| sb_write_wait := 0 |>
        <| debug_rom_flags := replicate 1024 0 |> <| program_buffer := buffer |>
        <| dmdata := replicate (Z.to_nat (datasize * 4)) 0 |> <| debug_rom_whereto := whereto |>
        <| debug_abstract := replicate (Z.to_nat (debug_abstract_size * 4)) 0 |>
        <| hart_available_state := [true; true] |>);
    Some (snd r).

Definition proc_reset (id : Z) : D unit :=
  set_hart_state id (fun h => h <| havereset := true |>);;
  set_hart_state id (fun h => h <| halted := false |>);;
  set_hart_state id (fun h => h <| haltgroup := 0 |>).
(** [hart->reset()]. *)
Definition hart_reset (id : Z) : D unit := on_sim (reset_hart id);; proc_reset id.

(** ** The bus side *)

Definition inside (addr len start size : Z) : bool := (start <=? addr) && (addr +! len <=? start + size).

(** [None] for an access the module does not answer. *)
Definition load (addr len : Z) : D (option (list Z)) :=
  let addr := DEBUG_START +! addr in
  s ← gets id;
  let read (memory : list Z) (start : Z) : D (option (list Z)) := b ← lift (copy_out memory (addr - start) len); mret (Some b) in
  if inside addr len DEBUG_ROM_ENTRY (zlen debug_rom_raw) then read debug_rom_raw DEBUG_ROM_ENTRY
  else if inside addr len DEBUG_ROM_WHERETO 4 then read (debug_rom_whereto s) DEBUG_ROM_WHERETO
  else if inside addr len DEBUG_ROM_FLAGS 1024 then read (debug_rom_flags s) DEBUG_ROM_FLAGS
  else if inside addr len debug_abstract_start (zlen (debug_abstract s)) then read (debug_abstract s) debug_abstract_start
  else if inside addr len debug_data_start (zlen (dmdata s)) then read (dmdata s) debug_data_start
  else if inside addr len debug_progbuf_start program_buffer_bytes then read (program_buffer s) debug_progbuf_start
  else mret None.

(** A hart with identifier [id] reports that it is in debug mode. *)
Definition hart_halted (id : Z) : D unit :=
  h ← hart_state_at id;
  when (negb (halted h)) (
    set_hart_state id (fun h => h <| halted := true |>);;
    when (z2b (haltgroup h)) (for_each hartids (fun hart_id =>
      k ← hart_state_at hart_id;
      if negb (halted k) && (haltgroup k =? haltgroup h)
      then a ← hart_available hart_id; when a (on_sim (set_halt_request hart_id HR_GROUP))
      else mret tt)));;
  sel ← selected_hart_id;
  when (sel =? id) (
    l ← gets debug_rom_flags; flags ← lift (index l id);
    when (flags &! 2 ^ DEBUG_ROM_FLAG_GO =? 0) (modify (fun s => s <| abstract_command_completed := true |>))).

Definition store (addr : Z) (bytes : list Z) : D bool :=
  let len := zlen bytes in
  id ← (if len =? 4 then lift (read32 bytes 0) else mret 0);
  let addr := DEBUG_START +! addr in
  s ← gets Datatypes.id;
  if inside addr len debug_data_start (zlen (dmdata s)) then
    l ← lift (copy_in (dmdata s) (addr - debug_data_start) bytes); modify (fun s => s <| dmdata := l |>);; mret true
  else if inside addr len debug_progbuf_start program_buffer_bytes then
    l ← lift (copy_in (program_buffer s) (addr - debug_progbuf_start) bytes); modify (fun s => s <| program_buffer := l |>);; mret true
  else if addr =? DEBUG_ROM_HALTED then assert_ (len =? 4);; hart_halted id;; mret true
  else if addr =? DEBUG_ROM_GOING then
    assert_ (len =? 4);; update_flags id (fun f => f &! Z.lnot (2 ^ DEBUG_ROM_FLAG_GO));; mret true
  else if addr =? DEBUG_ROM_RESUMING then
    assert_ (len =? 4);;
    set_hart_state id (fun h => h <| halted := false |>);;
    set_hart_state id (fun h => h <| resumeack := true |>);;
    update_flags id (fun f => f &! Z.lnot (2 ^ DEBUG_ROM_FLAG_RESUME));; mret true
  else if addr =? DEBUG_ROM_EXCEPTION then
    when (cmderr (abstractcs s) =? CMDERR_NONE) (set_cmderr CMDERR_EXCEPTION);; mret true
  else mret false.

(** ** System bus access *)

Definition sb_access_bits (s : dm) : Z := u32 (Z.shiftl 8 (sbaccess (sbcs s))).

(** [sbaddress[0] + sb_access_bits() / 8] is a sum of 32-bit values, taken before the assignment widens it. *)
Definition sb_autoincrement : D unit :=
  s ← gets id;
  if negb (autoincrement (sbcs s)) || (max_sba_data_width config =? 0) then mret tt
  else
    a0 ← lift (index (sbaddress s) 0); a1 ← lift (index (sbaddress s) 1);
    a2 ← lift (index (sbaddress s) 2); a3 ← lift (index (sbaddress s) 3);
    let value := u32 (a0 + sb_access_bits s / 8) in
    let b0 := u32 value in
    let carry := u32 (value >>! 32) in
    let value := u32 (a1 + carry) in
    let b1 := u32 value in
    let carry := u32 (value >>! 32) in
    let value := u32 (a2 + carry) in
    let b2 := u32 value in
    let carry := u32 (value >>! 32) in
    modify (fun s => s <| sbaddress := [b0; b1; b2; u32 (a3 + carry)] |>).

Definition sb_busy (s : dm) : bool := (0 <? sb_read_wait s) || (0 <? sb_write_wait s).

Definition sb_read_start : D unit :=
  s ← gets id;
  if sb_busy s || sbbusyerror (sbcs s) then set_sbbusyerror true
  else modify (fun s => s <| sb_read_wait := 20 |>).
Definition sb_write_start : D unit :=
  s ← gets id;
  if sb_busy s || sbbusyerror (sbcs s) then set_sbbusyerror true
  else modify (fun s => s <| sb_write_wait := 20 |>).

Definition sb_address : D Z :=
  l ← gets sbaddress; a1 ← lift (index l 1); a0 ← lift (index l 0); mret ((a1 <<! 32) |! a0).
Definition set_sbdata (i v : Z) : D unit :=
  l ← gets sbdata; l ← lift (update l i v); modify (fun s => s <| sbdata := l |>).

(** The size of the access that [sbaccess] selects, when the configured width allows it. *)
Definition sb_size (s : dm) : option Z :=
  let w := max_sba_data_width config in
  if (sbaccess (sbcs s) =? 0) && (8 <=? w) then Some 1
  else if (sbaccess (sbcs s) =? 1) && (16 <=? w) then Some 2
  else if (sbaccess (sbcs s) =? 2) && (32 <=? w) then Some 4
  else if (sbaccess (sbcs s) =? 3) && (64 <=? w) then Some 8
  else None.

Definition sb_read : D unit :=
  address ← sb_address; s ← gets id;
  match sb_size s with
  | None => set_sberror 3
  | Some size =>
    let r := debug_mmu_load size address (sim s) in
    on_sim (fun _ => fst r);;
    match snd r with
    | None => set_sberror 2
    | Some value => set_sbdata 0 (u32 value);; when (size =? 8) (set_sbdata 1 (u32 (value >>! 32)))
    end
  end.
Definition sb_write : D unit :=
  address ← sb_address; s ← gets id;
  d0 ← lift (index (sbdata s) 0); d1 ← lift (index (sbdata s) 1);
  match sb_size s with
  | None => set_sberror 3
  | Some size =>
    let value := if size =? 8 then (d1 <<! 32) |! d0 else wrap (8 * size) d0 in
    let r := debug_mmu_store size address value (sim s) in
    on_sim (fun _ => fst r);; when (negb (snd r)) (set_sberror 2)
  end.

Definition run_test_idle : D unit :=
  s ← gets id;
  when (0 <? rti_remaining s) (modify (fun s => s <| rti_remaining := rti_remaining s - 1 |>));;
  s ← gets id;
  when ((rti_remaining s =? 0) && busy (abstractcs s) && abstract_command_completed s)
    (modify (fun s => s <| abstractcs := abstractcs s <| busy := false |> |>));;
  s ← gets id;
  when (0 <? sb_read_wait s) (
    modify (fun s => s <| sb_read_wait := sb_read_wait s - 1 |>);;
    s ← gets id; when (sb_read_wait s =? 0) (sb_read;; s ← gets id; when (error (sbcs s) =? 0) sb_autoincrement));;
  s ← gets id;
  when (0 <? sb_write_wait s) (
    modify (fun s => s <| sb_write_wait := sb_write_wait s - 1 |>);;
    s ← gets id; when (sb_write_wait s =? 0) (sb_write;; s ← gets id; when (error (sbcs s) =? 0) sb_autoincrement)).

(** ** Abstract commands *)

Definition is_fpu_reg (regno : Z) : bool :=
  ((0x1020 <=? regno) && (regno <=? 0x103f)) || (regno =? CSR_FFLAGS) || (regno =? CSR_FRM) || (regno =? CSR_FCSR).

(** [write32(debug_abstract, i++, w)] for a sequence of words; returns the [i] reached. *)
Fixpoint emits (i : Z) (words : list Z) : D Z :=
  match words with
  | [] => mret i
  | w :: words =>
    l ← gets debug_abstract; l ← lift (write32 l i w); modify (fun s => s <| debug_abstract := l |>);; emits (i + 1) words
  end.

(** [None]: the command has returned. *)
Definition notsup : D (option Z) := set_cmderr CMDERR_NOTSUP;; mret None.
(** The word for an access of 32 or 64 bits ([aarsize] 2 or 3). *)
Definition sized (size w32 w64 : Z) : option Z := if size =? 2 then Some w32 else if size =? 3 then Some w64 else None.
Definition emit_sized (i : Z) (w : option Z) : D (option Z) :=
  match w with Some w => i ← emits i [w]; mret (Some i) | None => notsup end.
(** What follows an access that was not refused. *)
Definition then_emit (r : option Z) (words : list Z) : D (option Z) :=
  match r with Some i => i ← emits i words; mret (Some i) | None => mret None end.

Definition transfer_csr (size : Z) (write : bool) (regno i : Z) : D (option Z) :=
  i ← emits i (if is_fpu_reg regno then [] else [csrw S0 CSR_DSCRATCH0]);
  r ← (if write then
         r ← emit_sized i (sized size (lw S0 ZERO debug_data_start) (ld S0 ZERO debug_data_start));
         then_emit r [csrw S0 regno]
       else
         i ← emits i [csrr S0 regno];
         emit_sized i (sized size (sw S0 ZERO debug_data_start) (sd S0 ZERO debug_data_start)));
  then_emit r (if is_fpu_reg regno then [] else [csrr S0 CSR_DSCRATCH0]).

Definition transfer_gpr (size : Z) (write : bool) (regno i : Z) : D (option Z) :=
  let regnum := regno - 0x1000 in
  r ← emit_sized i (if write then sized size (lw regnum ZERO debug_data_start) (ld regnum ZERO debug_data_start)
                    else sized size (sw regnum ZERO debug_data_start) (sd regnum ZERO debug_data_start));
  then_emit r (if (regno =? 0x1000 + S0) && write then [csrw S0 CSR_DSCRATCH0] else []).

Definition transfer_fpr (size : Z) (write : bool) (regno i : Z) : D (option Z) :=
  let fprnum := regno - 0x1020 in
  emit_sized i (if write then sized size (flw fprnum ZERO debug_data_start) (fld fprnum ZERO debug_data_start)
                else sized size (fsw fprnum ZERO debug_data_start) (fsd fprnum ZERO debug_data_start)).

(** Odd custom registers, for testing debuggers. *)
Definition transfer_custom (write : bool) (regno : Z) : D (option Z) :=
  let custom_number := regno - 0xc000 in
  set_cmderr CMDERR_NONE;;
  s ← gets id;
  if write then v ← lift (read32 (dmdata s) 0); modify (fun s => s <| custom_base := u32 (v - custom_number) |>);; mret None
  else
    l ← lift (write32 (dmdata s) 0 (u32 (custom_number + custom_base s))); l ← lift (write32 l 1 0);
    modify (fun s => s <| dmdata := l |>);; mret None.

Definition transfer (size : Z) (write : bool) (regno i : Z) : D (option Z) :=
  i ← emits i (if is_fpu_reg regno
               then [csrw S0 CSR_DSCRATCH0; csrr S0 CSR_MSTATUS; csrw S0 CSR_DSCRATCH1;
                     lui S0 (MSTATUS_FS >>! 12); csrrs ZERO S0 CSR_MSTATUS] else []);
  r ← (if (regno <? 0x1000) && support_abstract_csr_access config then transfer_csr size write regno i
       else if (0x1000 <=? regno) && (regno <? 0x1020) then transfer_gpr size write regno i
       else if (0x1020 <=? regno) && (regno <? 0x1040) && support_abstract_fpr_access config then transfer_fpr size write regno i
       else if (0xc000 <=? regno) && (regno &! 1 =? 1) then transfer_custom write regno
       else notsup);
  then_emit r (if is_fpu_reg regno
               then [csrr S0 CSR_DSCRATCH1; csrw S0 CSR_MSTATUS; csrr S0 CSR_DSCRATCH0] else []).

(** The end of the program, and its start on the selected hart. *)
Definition launch (i : Z) : D unit :=
  s ← gets id;
  emits i [if z2b (get_field (command s) AC_ACCESS_REGISTER_POSTEXEC)
           then jal ZERO (u32 (debug_progbuf_start - debug_abstract_start - 4 * i)) else ebreak];;
  sel ← selected_hart_id;
  update_flags sel (fun f => f |! 2 ^ DEBUG_ROM_FLAG_GO);;
  modify (fun s => s <| rti_remaining := abstract_rti config |> <| abstract_command_completed := false |>
                     <| abstractcs := abstractcs s <| busy := true |> |>).

(** [perform_abstract_command] returns [true] on every path. *)
Definition perform_abstract_command : D unit :=
  s ← gets id;
  if negb (cmderr (abstractcs s) =? CMDERR_NONE) then mret tt
  else if busy (abstractcs s) then set_cmderr CMDERR_BUSY
  else
    a ← hart_available (hartsel (dmcontrol s));
    if negb a then set_cmderr CMDERR_HALTRESUME
    else if command s >>! 24 =? 0 then
      let size := get_field (command s) AC_ACCESS_REGISTER_AARSIZE in
      let write := z2b (get_field (command s) AC_ACCESS_REGISTER_WRITE) in
      let regno := get_field (command s) AC_ACCESS_REGISTER_REGNO in
      h ← selected_hart_state;
      if negb (halted h) then set_cmderr CMDERR_HALTRESUME
      else
        r ← (if z2b (get_field (command s) AC_ACCESS_REGISTER_TRANSFER) then transfer size write regno 0 else mret (Some 0));
        match r with Some i => launch i | None => mret tt end
    else set_cmderr CMDERR_NOTSUP.

(** ** The debug module interface *)

Definition auto_execute (auto i : Z) : D unit :=
  s ← gets id; when (negb (busy (abstractcs s)) && z2b ((auto >>! i) &! 1)) perform_abstract_command.

(** The flags of [dmstatus] after looking at one hart. *)
Definition status_of_hart (hart_id : Z) : D unit :=
  sel ← hart_selected hart_id;
  when sel (
    modify (fun s => s <| dmstatus := dmstatus s <| allnonexistant := false |> |>);;
    h ← hart_state_at hart_id;
    modify (fun s => s <| dmstatus := if resumeack h then dmstatus s <| anyresumeack := true |>
                                      else dmstatus s <| allresumeack := false |> |>);;
    a ← hart_available hart_id;
    modify (fun s => s <| dmstatus :=
      if negb a then dmstatus s <| allrunning := false |> <| allhalted := false |> <| anyunavail := true |>
      else if halted h then dmstatus s <| allrunning := false |> <| anyhalted := true |> <| allunavail := false |>
      else dmstatus s <| allhalted := false |> <| anyrunning := true |> <| allunavail := false |> |>)).

Definition read_dmcontrol (c : dmcontrol_t) : Z :=
  set_fields [
    (DM_DMCONTROL_HALTREQ, b2z (haltreq c)); (DM_DMCONTROL_RESUMEREQ, b2z (resumereq c));
    (DM_DMCONTROL_HARTSELHI, hartsel c >>! DM_DMCONTROL_HARTSELLO_LENGTH); (DM_DMCONTROL_HASEL, b2z (hasel c));
    (DM_DMCONTROL_HARTSELLO, hartsel c); (DM_DMCONTROL_HARTRESET, b2z (hartreset c));
    (DM_DMCONTROL_NDMRESET, b2z (ndmreset c)); (DM_DMCONTROL_DMACTIVE, b2z (dmactive c))].

Definition read_dmstatus : D Z :=
  modify (fun s => s <| dmstatus := dmstatus s
    <| allhalted := true |> <| anyhalted := false |> <| allrunning := true |> <| anyrunning := false |>
    <| allnonexistant := true |> <| allresumeack := true |> <| anyresumeack := false |>
    <| allunavail := true |> <| anyunavail := false |> |>);;
  for_each hartids status_of_hart;;
  modify (fun s => s <| dmstatus := dmstatus s <| anynonexistant := nprocs <=? hartsel (dmcontrol s) |> |>);;
  d ← gets dmstatus; h ← selected_hart_state;
  mret (set_fields [
    (DM_DMSTATUS_IMPEBREAK, b2z (impebreak d));
    (DM_DMSTATUS_ALLHAVERESET, b2z (havereset h)); (DM_DMSTATUS_ANYHAVERESET, b2z (havereset h));
    (DM_DMSTATUS_ALLNONEXISTENT, b2z (allnonexistant d)); (DM_DMSTATUS_ALLUNAVAIL, b2z (allunavail d));
    (DM_DMSTATUS_ALLRUNNING, b2z (allrunning d)); (DM_DMSTATUS_ALLHALTED, b2z (allhalted d));
    (DM_DMSTATUS_ALLRESUMEACK, b2z (allresumeack d)); (DM_DMSTATUS_ANYNONEXISTENT, b2z (anynonexistant d));
    (DM_DMSTATUS_ANYUNAVAIL, b2z (anyunavail d)); (DM_DMSTATUS_ANYRUNNING, b2z (anyrunning d));
    (DM_DMSTATUS_ANYHALTED, b2z (anyhalted d)); (DM_DMSTATUS_ANYRESUMEACK, b2z (anyresumeack d));
    (DM_DMSTATUS_AUTHENTICATED, b2z (authenticated d)); (DM_DMSTATUS_AUTHBUSY, b2z (authbusy d));
    (DM_DMSTATUS_VERSION, version d)]).

Definition read_sbcs (s : dm) : Z :=
  let c := sbcs s in
  set_fields [
    (DM_SBCS_SBVERSION, sbversion c); (DM_SBCS_SBREADONADDR, b2z (readonaddr c)); (DM_SBCS_SBACCESS, sbaccess c);
    (DM_SBCS_SBAUTOINCREMENT, b2z (autoincrement c)); (DM_SBCS_SBREADONDATA, b2z (readondata c));
    (DM_SBCS_SBERROR, error c); (DM_SBCS_SBBUSY, b2z (sb_busy s)); (DM_SBCS_SBBUSYERROR, b2z (sbbusyerror c));
    (DM_SBCS_SBASIZE, asize c); (DM_SBCS_SBACCESS128, b2z (access128 c)); (DM_SBCS_SBACCESS64, b2z (access64 c));
    (DM_SBCS_SBACCESS32, b2z (access32 c)); (DM_SBCS_SBACCESS16, b2z (access16 c)); (DM_SBCS_SBACCESS8, b2z (access8 c))].

(** The harts of the window that [hawindowsel] selects: position in the window and identifier. *)
Definition window (s : dm) : list (Z * Z) :=
  omap (fun i => match index hartids (u32 (hawindowsel s * 32 + i)) with Some id => Some (i, id) | None => None end) (seqZ 0 32).
Definition read_hawindow : D Z :=
  s ← gets id;
  foldr (fun (e : Z * Z) (k : Z -> D Z) (r : Z) =>
    b ← lift (index (hart_array_mask s) (snd e)); k (if b : bool then r |! 2 ^ fst e else r)) (fun r => mret r) (window s) 0.

Definition read_sbdata (i : Z) : D Z :=
  s ← gets id; result ← lift (index (sbdata s) i);
  (if sb_busy s then set_sbbusyerror true
   else when ((i =? 0) && (error (sbcs s) =? 0) && readondata (sbcs s)) sb_read_start);;
  mret result.
Definition read_sbaddress (i : Z) : D Z := l ← gets sbaddress; lift (index l i).

Definition some {A} (m : D A) : D (option A) := a ← m; mret (Some a).

(** [None]: the access fails. *)
Definition dmi_read (address : Z) : D (option Z) :=
  s ← gets id;
  let cs := abstractcs s in
  if (DM_DATA0 <=? address) && (address <? DM_DATA0 + datacount cs) then
    let i := address - DM_DATA0 in
    result ← lift (read32 (dmdata s) i);
    let result := if busy cs then u32 (-1) else result in
    when (busy cs && (cmderr cs =? CMDERR_NONE)) (set_cmderr CMDERR_BUSY);;
    auto_execute (autoexecdata (abstractauto s)) i;;
    mret (Some result)
  else if (DM_PROGBUF0 <=? address) && (address <? DM_PROGBUF0 + progbufsize config) then
    let i := address - DM_PROGBUF0 in
    result ← lift (read32 (program_buffer s) i);
    let result := if busy cs then u32 (-1) else result in
    auto_execute (autoexecprogbuf (abstractauto s)) i;;
    mret (Some result)
  else switch address [
    (DM_DMCONTROL, mret (Some (read_dmcontrol (dmcontrol s))));
    (DM_DMSTATUS, some read_dmstatus);
    (DM_ABSTRACTCS, mret (Some (set_fields [
       (DM_ABSTRACTCS_CMDERR, cmderr cs); (DM_ABSTRACTCS_BUSY, b2z (busy cs));
       (DM_ABSTRACTCS_DATACOUNT, datacount cs); (DM_ABSTRACTCS_PROGBUFSIZE, cs_progbufsize cs)])));
    (DM_ABSTRACTAUTO, mret (Some (set_fields [
       (DM_ABSTRACTAUTO_AUTOEXECPROGBUF, autoexecprogbuf (abstractauto s));
       (DM_ABSTRACTAUTO_AUTOEXECDATA, autoexecdata (abstractauto s))])));
    (DM_COMMAND, mret (Some 0));
    (DM_HARTINFO, mret (Some (set_fields [
       (DM_HARTINFO_NSCRATCH, 1); (DM_HARTINFO_DATAACCESS, 1); (DM_HARTINFO_DATASIZE, datacount cs);
       (DM_HARTINFO_DATAADDR, debug_data_start)])));
    (DM_HAWINDOWSEL, mret (Some (hawindowsel s)));
    (DM_HAWINDOW, some read_hawindow);
    (DM_SBCS, mret (Some (read_sbcs s)));
    (DM_SBADDRESS0, some (read_sbaddress 0)); (DM_SBADDRESS1, some (read_sbaddress 1));
    (DM_SBADDRESS2, some (read_sbaddress 2)); (DM_SBADDRESS3, some (read_sbaddress 3));
    (DM_SBDATA0, some (read_sbdata 0)); (DM_SBDATA1, some (read_sbdata 1));
    (DM_SBDATA2, some (read_sbdata 2)); (DM_SBDATA3, some (read_sbdata 3));
    (DM_AUTHDATA, mret (Some (challenge s)));
    (DM_DMCS2, h ← selected_hart_state; mret (Some (set_fields [(DM_DMCS2_GROUP, haltgroup h)])));
    (DM_CUSTOM, mret (Some (fold_left Z.lor (imap (fun i b => Z.shiftl (b2z b) (Z.of_nat i)) (hart_available_state s)) 0)))]
    (mret None).

(** The effects of a write to [dmcontrol] on one hart. *)
Definition control_hart (value hart_id : Z) : D unit :=
  sel ← hart_selected hart_id;
  when sel (
    when (z2b (get_field value DM_DMCONTROL_ACKHAVERESET)) (set_hart_state hart_id (fun h => h <| havereset := false |>));;
    c ← gets dmcontrol; a ← hart_available hart_id;
    on_sim (set_halt_request hart_id (if haltreq c && a then HR_REGULAR else HR_NONE));;
    when (resumereq c && a) (
      update_flags hart_id (fun f => f |! 2 ^ DEBUG_ROM_FLAG_RESUME);;
      set_hart_state hart_id (fun h => h <| resumeack := false |>));;
    when (hartreset c && a) (hart_reset hart_id)).

Definition write_dmcontrol (value : Z) : D unit :=
  let flag mask := z2b (get_field value mask) in
  s ← gets id;
  when (negb (dmactive (dmcontrol s)) && flag DM_DMCONTROL_DMACTIVE) (reset hartids);;
  modify (fun s => s <| dmcontrol := dmcontrol s <| dmactive := flag DM_DMCONTROL_DMACTIVE |> |>);;
  s ← gets id;
  if negb (authenticated (dmstatus s)) || negb (dmactive (dmcontrol s)) then mret tt
  else
    let sel := Z.shiftl (get_field value DM_DMCONTROL_HARTSELHI) DM_DMCONTROL_HARTSELLO_LENGTH
               |! get_field value DM_DMCONTROL_HARTSELLO in
    modify (fun s => s <| dmcontrol := dmcontrol s
      <| haltreq := flag DM_DMCONTROL_HALTREQ |> <| resumereq := flag DM_DMCONTROL_RESUMEREQ |>
      <| hartreset := flag DM_DMCONTROL_HARTRESET |> <| ndmreset := flag DM_DMCONTROL_NDMRESET |>
      <| hasel := support_hasel config && flag DM_DMCONTROL_HASEL |>
      <| hartsel := Z.min sel (u64 (nprocs - 1)) |> |>);;
    for_each hartids (control_hart value);;
    c ← gets dmcontrol;
    when (ndmreset c) (for_each hartids hart_reset).

Definition write_hawindow (value : Z) : D unit :=
  s ← gets id;
  for_each (window s) (fun e =>
    l ← gets hart_array_mask; l ← lift (update l (snd e) (z2b ((value >>! fst e) &! 1)));
    modify (fun s => s <| hart_array_mask := l |>)).

Definition write_sbaddress (i value : Z) : D unit :=
  s ← gets id;
  if sb_busy s then set_sbbusyerror true
  else
    l ← lift (update (sbaddress s) i value); modify (fun s => s <| sbaddress := l |>);;
    when ((i =? 0) && (error (sbcs s) =? 0) && readonaddr (sbcs s)) sb_read_start.
Definition write_sbdata (i value : Z) : D unit :=
  s ← gets id;
  if sb_busy s then set_sbbusyerror true
  else set_sbdata i value;; when ((i =? 0) && (error (sbcs s) =? 0)) sb_write_start.

Definition write_sbcs (value : Z) : D unit :=
  modify (fun s => s <| sbcs := sbcs s
    <| readonaddr := z2b (get_field value DM_SBCS_SBREADONADDR) |> <| sbaccess := get_field value DM_SBCS_SBACCESS |>
    <| autoincrement := z2b (get_field value DM_SBCS_SBAUTOINCREMENT) |>
    <| readondata := z2b (get_field value DM_SBCS_SBREADONDATA) |>
    <| error := error (sbcs s) &! Z.lnot (get_field value DM_SBCS_SBERROR) |> |>);;
  when (z2b (get_field value DM_SBCS_SBBUSYERROR)) (set_sbbusyerror false).

Definition write_authdata (value : Z) : D unit :=
  s ← gets id;
  if require_authentication config then
    if value =? u32 (challenge s + secret) then modify (fun s => s <| dmstatus := dmstatus s <| authenticated := true |> |>)
    else modify (fun s => s <| dmstatus := dmstatus s <| authenticated := false |> |>
                            <| challenge := u32 (snd (random (sim s))) |> <| sim := fst (random (sim s)) |>)
  else mret tt.

Definition write_dmcs2 (value : Z) : D unit :=
  if support_haltgroups config && z2b (get_field value DM_DMCS2_HGWRITE) && (get_field value DM_DMCS2_GROUPTYPE =? 0) then
    id ← selected_hart_id; set_hart_state id (fun h => h <| haltgroup := get_field value DM_DMCS2_GROUP |>)
  else mret tt.

Definition ok (m : D unit) : D bool := m;; mret true.

Definition dmi_write (address value : Z) : D bool :=
  s ← gets id;
  let cs := abstractcs s in
  if negb (authenticated (dmstatus s)) && negb (address =? DM_AUTHDATA) && negb (address =? DM_DMCONTROL) then mret false
  else if (DM_DATA0 <=? address) && (address <? DM_DATA0 + datacount cs) then
    let i := address - DM_DATA0 in
    when (negb (busy cs)) (l ← lift (write32 (dmdata s) i value); modify (fun s => s <| dmdata := l |>));;
    when (busy cs && (cmderr cs =? CMDERR_NONE)) (set_cmderr CMDERR_BUSY);;
    ok (auto_execute (autoexecdata (abstractauto s)) i)
  else if (DM_PROGBUF0 <=? address) && (address <? DM_PROGBUF0 + progbufsize config) then
    let i := address - DM_PROGBUF0 in
    when (negb (busy cs)) (l ← lift (write32 (program_buffer s) i value); modify (fun s => s <| program_buffer := l |>));;
    ok (auto_execute (autoexecprogbuf (abstractauto s)) i)
  else switch address [
    (DM_DMCONTROL, ok (write_dmcontrol value));
    (DM_COMMAND, modify (fun s => s <| command := value |>);; ok perform_abstract_command);
    (DM_HAWINDOWSEL, ok (modify (fun s => s <| hawindowsel := u16 (value &! (2 ^ field_width (zlen (hart_array_mask s)) - 1)) |>)));
    (DM_HAWINDOW, ok (write_hawindow value));
    (DM_ABSTRACTCS, ok (set_cmderr (cmderr cs &! Z.lnot (get_field value DM_ABSTRACTCS_CMDERR))));
    (DM_ABSTRACTAUTO, ok (modify (fun s => s <| abstractauto :=
       Abstractauto (get_field value DM_ABSTRACTAUTO_AUTOEXECPROGBUF) (get_field value DM_ABSTRACTAUTO_AUTOEXECDATA) |>)));
    (DM_SBCS, ok (write_sbcs value));
    (DM_SBADDRESS0, ok (write_sbaddress 0 value)); (DM_SBADDRESS1, ok (write_sbaddress 1 value));
    (DM_SBADDRESS2, ok (write_sbaddress 2 value)); (DM_SBADDRESS3, ok (write_sbaddress 3 value));
    (DM_SBDATA0, ok (write_sbdata 0 value)); (DM_SBDATA1, ok (write_sbdata 1 value));
    (DM_SBDATA2, ok (write_sbdata 2 value)); (DM_SBDATA3, ok (write_sbdata 3 value));
    (DM_AUTHDATA, ok (write_authdata value));
    (DM_DMCS2, ok (write_dmcs2 value));
    (DM_CUSTOM, ok (modify (fun s => s <| hart_available_state :=
       imap (fun i (_ : bool) => z2b (get_field value (2 ^ Z.of_nat i))) (hart_available_state s) |>)))]
    (mret false).

End debug_module.
