(* ===== verification/DebugProps.v ===== *)
(** * The debug module: what its operations guarantee

    Over the definitions of [DebugModule.v]: a weakest-precondition calculus for the
    operations and the invariant that keeps every index of the class within its array,
    for every operation and every sequence of them. *)

From Stdlib Require Import ZifyBool.
From stdpp Require Import list.
From S2P Require Import Prelude Arith Decode Opcodes DebugModule.
Local Open Scope cint_scope.

(** ** A calculus of the operations *)

Section calculus.
Context {X : Type}.
Local Abbreviation dm := (debug_module_t X).

Definition wp {A} (m : D A) (s : dm) (Q : A -> dm -> Prop) : Prop :=
  match m s with Some (a, s') => Q a s' | None => False end.

Lemma wp_bind {A B} (m : D A) (k : A -> D B) s (Q : B -> dm -> Prop) : wp m s (fun a s' => wp (k a) s' Q) -> wp (m ≫= k) s Q.
Proof. unfold wp, mbind, D_bind. by destruct (m s) as [[a s']|]. Qed.
Lemma wp_ret {A} (a : A) s (Q : A -> dm -> Prop) : Q a s -> wp (mret a) s Q.
Proof. done. Qed.
Lemma wp_gets {A} (f : dm -> A) s (Q : A -> dm -> Prop) : Q (f s) s -> wp (gets f) s Q.
Proof. done. Qed.
Lemma wp_get s (Q : dm -> dm -> Prop) : Q s s -> wp (gets id) s Q.
Proof. done. Qed.
Lemma wp_modify f s (Q : unit -> dm -> Prop) : Q tt (f s) -> wp (modify f) s Q.
Proof. done. Qed.
Lemma wp_lift {A} (o : option A) a s (Q : A -> dm -> Prop) : o = Some a -> Q a s -> wp (lift o) s Q.
Proof. by intros ->. Qed.
Lemma wp_when b m s (Q : unit -> dm -> Prop) : (b = true -> wp m s Q) -> (b = false -> Q tt s) -> wp (when b m) s Q.
Proof. destruct b; intros H1 H2; [by apply H1|by apply H2]. Qed.
Lemma wp_mono {A} (m : D A) s (P Q : A -> dm -> Prop) : wp m s P -> (forall a s', P a s' -> Q a s') -> wp m s Q.
Proof. unfold wp. destruct (m s) as [[a s']|]; auto. Qed.
Lemma wp_for_each {A} (I : dm -> Prop) (l : list A) body s :
  I s -> (forall a s, a ∈ l -> I s -> wp (body a) s (fun _ => I)) -> wp (for_each l body) s (fun _ => I).
Proof.
  revert s. induction l as [|a l IH]; intros s HI Hb; [done|]. cbn [for_each]. apply wp_bind.
  eapply wp_mono; [apply Hb; [left|done]|]. intros [] s' HI'. apply IH; [done|]. intros. apply Hb; [by right|done].
Qed.
Lemma wp_total {A} (m : D A) s Q : wp m s Q -> exists a s', m s = Some (a, s') /\ Q a s'.
Proof. unfold wp. destruct (m s) as [[a s']|]; [eauto|done]. Qed.
Lemma wp_switch {A} a (cases : list (Z * D A)) d s Q :
  Forall (fun c => a = fst c -> wp (snd c) s Q) cases -> wp d s Q -> wp (switch a cases d) s Q.
Proof.
  intros Hc Hd. induction Hc as [|[k b] cases Hb Hc IH]; [done|]. cbn [switch].
  destruct (Z.eqb_spec a k); [by apply Hb|done].
Qed.
End calculus.

Ltac dm_simpl :=
  cbn [set_field_of custom_base debug_rom_whereto debug_abstract program_buffer dmdata hart_state debug_rom_flags dmcontrol
    dmstatus abstractcs abstractauto command hawindowsel hart_array_mask sbcs sbaddress sbdata challenge
    abstract_command_completed rti_remaining hart_available_state sb_read_wait sb_write_wait sim
    haltreq resumereq hasel hartsel hartreset dmactive ndmreset busy datacount cs_progbufsize cmderr
    autoexecprogbuf autoexecdata readonaddr sbaccess autoincrement readondata error sbbusyerror
    halted resumeack havereset haltgroup fst snd].

(** One step of the calculus; case analysis is left to the caller. *)
Ltac wp_step :=
  match goal with
  | |- wp (_ ≫= _) _ _ => apply wp_bind
  | |- wp (mret _) _ _ => apply wp_ret; cbv beta
  | |- wp (gets id) _ _ => apply wp_get
  | |- wp (gets _) _ _ => apply wp_gets
  | |- wp (modify _) _ _ => apply wp_modify
  | |- wp (when _ _) _ _ => apply wp_when; intros ?
  | |- wp (if ?b then _ else _) _ _ => let E := fresh "E" in destruct b eqn:E
  end.

(** ** Arrays *)

Lemma zlen_nonneg {A} (l : list A) : 0 <= zlen l. Proof. unfold zlen. lia. Qed.
Lemma zlen_insert {A} (l : list A) i v : zlen (<[i := v]> l) = zlen l.
Proof. unfold zlen. by rewrite length_insert. Qed.
Lemma index_some {A} (l : list A) i : 0 <= i < zlen l -> exists a, index l i = Some a /\ a ∈ l.
Proof.
  unfold zlen, index. intros Hi. replace (0 <=? i) with true by lia.
  destruct (lookup_lt_is_Some_2 l (Z.to_nat i) ltac:(lia)) as [a E]. rewrite E.
  exists a. split; [done|]. by eapply list_elem_of_lookup_2.
Qed.
Lemma update_some {A} (l : list A) i v : 0 <= i < zlen l -> update l i v = Some (<[Z.to_nat i := v]> l).
Proof. intros Hi. unfold update. by replace ((0 <=? i) && (i <? zlen l)) with true by lia. Qed.
Lemma copy_in_some l off b : 0 <= off -> off + zlen b <= zlen l ->
  exists l', copy_in l off b = Some l' /\ zlen l' = zlen l.
Proof.
  intros H1 H2. unfold copy_in. replace ((0 <=? off) && (off + zlen b <=? zlen l)) with true by lia.
  eexists; split; [done|]. unfold zlen in *. rewrite !length_app, length_take, length_drop. lia.
Qed.
Lemma copy_out_some l off n : 0 <= off -> 0 <= n -> off + n <= zlen l ->
  exists b, copy_out l off n = Some b /\ zlen b = n.
Proof.
  intros H1 H2 H3. unfold copy_out. replace ((0 <=? off) && (0 <=? n) && (off + n <=? zlen l)) with true by lia.
  eexists; split; [done|]. unfold zlen in *. rewrite length_take, length_drop. lia.
Qed.
Lemma write32_some l i v : 0 <= i -> 4 * i + 4 <= zlen l -> exists l', write32 l i v = Some l' /\ zlen l' = zlen l.
Proof. intros. apply copy_in_some; [lia|]. change (i * 4 + 4 <= zlen l). lia. Qed.
Lemma read32_some l i : 0 <= i -> 4 * i + 4 <= zlen l -> exists v, read32 l i = Some v.
Proof.
  intros. unfold read32. destruct (copy_out_some l (i * 4) 4) as (b & -> & Hb); [lia..|].
  unfold zlen in Hb. destruct b as [|b0 [|b1 [|b2 [|b3 [|? ?]]]]]; cbn [length] in Hb; try lia. eauto.
Qed.

(** ** The invariant *)

Section invariant.
Context {X : Type} `{simif X} (config : debug_module_config_t) (hartids : list Z).
Local Abbreviation dm := (debug_module_t X).

(** A program buffer of at most 16 words, as the debug specification bounds it, and hart identifiers below
    1024, in the order of the configuration. *)
Record config_ok : Prop := {
  ok_progbuf : 0 <= progbufsize config <= 16;
  ok_rti : 0 <= abstract_rti config;
  ok_harts : hartids <> [];
  ok_ids : Forall (fun id => 0 <= id <= max_hartid hartids) hartids;
  ok_max : max_hartid hartids < 1024
}.

Record dm_wf (s : dm) : Prop := {
  wf_abstract : zlen (debug_abstract s) = 48;
  wf_progbuf : zlen (program_buffer s) = program_buffer_bytes config;
  wf_data : zlen (dmdata s) = 8;
  wf_whereto : zlen (debug_rom_whereto s) = 4;
  wf_flags : zlen (debug_rom_flags s) = 1024;
  wf_harts : zlen (hart_state s) = 2 ^ field_width (max_hartid hartids + 1);
  wf_mask : zlen (hart_array_mask s) = max_hartid hartids + 1;
  wf_sel : 0 <= hartsel (dmcontrol s) < nprocs hartids;
  wf_sbaddress : zlen (sbaddress s) = 4;
  wf_sbdata : zlen (sbdata s) = 4;
  wf_datacount : datacount (abstractcs s) = 2;
  wf_avail : zlen (hart_available_state s) = 2;
  wf_cmderr : 0 <= cmderr (abstractcs s) < 8;
  wf_rti : 0 <= rti_remaining s <= abstract_rti config;
  wf_wait : 0 <= sb_read_wait s <= 20 /\ 0 <= sb_write_wait s <= 20 /\ (sb_read_wait s = 0 \/ sb_write_wait s = 0)
}.
Context (Hok : config_ok).

(** The vector of hart states is long enough for every identifier. *)
Lemma field_width_spec n : 1 <= n <= 1024 -> n <= 2 ^ field_width n.
Proof using.
  intros Hn. assert (Hc : forallb (fun k => k + 1 <=? 2 ^ field_width (k + 1)) (seqZ 0 1024) = true) by (vm_compute; reflexivity).
  rewrite forallb_forall in Hc. specialize (Hc (n - 1)). cbv beta in Hc. replace (n - 1 + 1) with n in Hc by lia.
  apply Z.leb_le, Hc, list_elem_of_In, elem_of_seqZ. lia.
Qed.

Lemma hart_id_range id : id ∈ hartids -> 0 <= id <= max_hartid hartids.
Proof using Hok. intros Hi. destruct Hok as [_ _ _ Hids _]. by apply (proj1 (Forall_forall _ _) Hids), list_elem_of_In. Qed.

(** Every index the class makes with a hart identifier or the selection is in range. *)
Lemma hart_id_state s id : dm_wf s -> id ∈ hartids -> 0 <= id < zlen (hart_state s).
Proof using Hok.
  intros Hwf Hi. pose proof (hart_id_range id Hi). destruct Hok. rewrite (wf_harts s Hwf).
  pose proof (field_width_spec (max_hartid hartids + 1)). lia.
Qed.

(** An operation that never goes out of range and keeps the invariant. *)
Definition safe {A} (m : D A) : Prop := forall s, dm_wf s -> wp m s (fun _ => dm_wf).

Ltac wf_solve :=
  match goal with Hwf : dm_wf ?s |- dm_wf _ => destruct Hwf; constructor; dm_simpl; solve [assumption | lia | done] end.

Lemma safe_bind {A B} (m : D A) (k : A -> D B) : safe m -> (forall a, safe (k a)) -> safe (m ≫= k).
Proof using. intros Hm Hk s Hs. apply wp_bind. eapply wp_mono; [by apply Hm|]. intros a s' Hs'. by apply Hk. Qed.
Lemma safe_ret {A} (a : A) : safe (mret a). Proof using. by intros s Hs. Qed.
Lemma safe_gets {A} (f : dm -> A) : safe (gets f). Proof using. by intros s Hs. Qed.
Lemma safe_modify f : (forall s, dm_wf s -> dm_wf (f s)) -> safe (modify f). Proof using. intros Hf s Hs. by apply Hf. Qed.
Lemma safe_when b m : safe m -> safe (when b m).
Proof using. intros Hm s Hs. wp_step; [by apply Hm|done]. Qed.
Lemma safe_for_each {A} (l : list A) body : (forall a, a ∈ l -> safe (body a)) -> safe (for_each l body).
Proof using. intros Hb s Hs. apply wp_for_each; [done|]. intros a s1 Ha Hs1. by apply Hb. Qed.
Lemma safe_ok m : safe m -> safe (ok m).
Proof using. intros Hm. apply safe_bind; [done|]. intros. apply safe_ret. Qed.
Lemma safe_some {A} (m : D A) : safe m -> safe (some m).
Proof using. intros Hm. apply safe_bind; [done|]. intros. apply safe_ret. Qed.
Lemma safe_switch {A} a (cases : list (Z * D A)) d : Forall (fun c => safe (snd c)) cases -> safe d -> safe (switch a cases d).
Proof using.
  intros Hc Hd s Hs. apply wp_switch; [|by apply Hd]. eapply Forall_impl; [|exact Hc]. intros c Hsafe _. by apply Hsafe.
Qed.
Lemma safe_lift {A B} (f : dm -> A) (g : A -> option B) (k : B -> D unit) :
  (forall s, dm_wf s -> exists b, g (f s) = Some b /\ wp (k b) s (fun _ => dm_wf)) -> safe (x ← gets f; y ← lift (g x); k y).
Proof using. intros Hg s Hs. do 2 wp_step. destruct (Hg s Hs) as (b & Eb & Hk). wp_step. by eapply wp_lift. Qed.

Lemma safe_set_cmderr e : 0 <= e < 8 -> safe (set_cmderr e).
Proof using. intros He. apply safe_modify. intros s Hwf. wf_solve. Qed.
Lemma safe_set_sbbusyerror b : safe (set_sbbusyerror b).
Proof using. apply safe_modify. intros s Hwf. wf_solve. Qed.
Lemma safe_set_sberror e : safe (set_sberror e).
Proof using. apply safe_modify. intros s Hwf. wf_solve. Qed.
Lemma safe_on_sim f : safe (on_sim f).
Proof using. apply safe_modify. intros s Hwf. wf_solve. Qed.

Lemma hart_state_at_wp s id : dm_wf s -> 0 <= id < zlen (hart_state s) ->
  exists h, index (hart_state s) id = Some h /\ hart_state_at id s = Some (h, s).
Proof using.
  intros Hs Hi. destruct (index_some (hart_state s) id) as (h & E & _); [done|]. exists h. split; [done|].
  unfold hart_state_at. cbn. unfold mbind, D_bind, gets, lift. by rewrite E.
Qed.
Lemma safe_hart_state_at id : id ∈ hartids -> safe (hart_state_at id).
Proof using Hok.
  intros Hi s Hs. destruct (hart_state_at_wp s id) as (h & _ & E); [done|by apply hart_id_state|]. unfold wp. by rewrite E.
Qed.
Lemma safe_set_hart_state id f : id ∈ hartids -> safe (set_hart_state id f).
Proof using Hok.
  intros Hi s Hs. pose proof (hart_id_state s id Hs Hi) as Hr. destruct (index_some (hart_state s) id) as (h & E & _); [done|].
  unfold set_hart_state. repeat wp_step. eapply wp_lift; [exact E|]. repeat wp_step.
  eapply wp_lift; [by apply update_some|]. repeat wp_step.
  destruct Hs; constructor; dm_simpl; rewrite ?zlen_insert; assumption.
Qed.
Lemma safe_update_flags id f : id ∈ hartids -> safe (update_flags id f).
Proof using Hok.
  intros Hi s Hs. assert (Hr : 0 <= id < zlen (debug_rom_flags s)).
  { pose proof (hart_id_range id Hi). pose proof (wf_flags s Hs). destruct Hok. lia. }
  destruct (index_some (debug_rom_flags s) id) as (h & E & _); [done|].
  unfold update_flags. repeat wp_step. eapply wp_lift; [exact E|]. repeat wp_step.
  eapply wp_lift; [by apply update_some|]. repeat wp_step.
  destruct Hs; constructor; dm_simpl; rewrite ?zlen_insert; assumption.
Qed.

(** The selected hart. *)
Lemma selected_hart_id_wp s Q : dm_wf s -> (forall id, index hartids (hartsel (dmcontrol s)) = Some id -> id ∈ hartids -> Q id s) ->
  wp (selected_hart_id hartids) s Q.
Proof using.
  intros Hs HQ. unfold selected_hart_id. repeat wp_step.
  destruct (index_some hartids (hartsel (dmcontrol s))) as (id & E & Hi); [apply (wf_sel s Hs)|].
  eapply wp_lift; [exact E|by apply HQ].
Qed.
Lemma safe_selected (k : Z -> D unit) : (forall id, id ∈ hartids -> safe (k id)) -> safe (id ← selected_hart_id hartids; k id).
Proof using. intros Hk s Hs. wp_step. apply selected_hart_id_wp; [done|]. intros id _ Hi. by apply Hk. Qed.
Lemma safe_selected_hart_state : safe (selected_hart_state hartids).
Proof using Hok.
  intros s Hs. unfold selected_hart_state. wp_step. apply selected_hart_id_wp; [done|]. intros id _ Hi. by apply safe_hart_state_at.
Qed.
Lemma hart_selected_wp s id : dm_wf s -> id ∈ hartids -> exists b, hart_selected hartids id s = Some (b, s).
Proof using Hok.
  intros Hs Hi. unfold hart_selected, selected_hart_id. cbn. unfold mbind, D_bind, gets, lift.
  destruct (index_some hartids (hartsel (dmcontrol s))) as (sel & E & _); [apply (wf_sel s Hs)|]. rewrite E.
  destruct (id =? sel); [eauto|]. destruct (hasel (dmcontrol s)); [|eauto].
  pose proof (hart_id_range id Hi). destruct (index_some (hart_array_mask s) id) as (b & -> & _); [|eauto].
  rewrite (wf_mask s Hs). lia.
Qed.
Lemma hart_available_wp s id : dm_wf s -> 0 <= id -> exists b, hart_available id s = Some (b, s).
Proof using.
  intros Hs Hi. unfold hart_available. cbn. unfold mbind, D_bind, gets, lift. destruct (Z.ltb_spec id (zlen (hart_available_state s))); [|eauto].
  destruct (index_some (hart_available_state s) id) as (b & -> & _); [lia|eauto].
Qed.
Lemma safe_hart_selected id : id ∈ hartids -> safe (hart_selected hartids id).
Proof using Hok. intros Hi s Hs. unfold wp. by destruct (hart_selected_wp s id Hs Hi) as (b & ->). Qed.
Lemma safe_hart_available id : 0 <= id -> safe (hart_available id).
Proof using. intros Hi s Hs. unfold wp. by destruct (hart_available_wp s id Hs Hi) as (b & ->). Qed.

Create HintDb dm.
Hint Resolve safe_ret safe_gets safe_when safe_for_each safe_ok safe_some safe_set_cmderr safe_set_sbbusyerror safe_set_sberror
  safe_on_sim safe_hart_state_at safe_set_hart_state safe_update_flags safe_selected safe_selected_hart_state
  safe_hart_selected safe_hart_available : dm.
Ltac safe_step :=
  first [solve [eauto with dm] |
  match goal with
  | |- safe (when _ _) => apply safe_when
  | |- safe (ok _) => apply safe_ok
  | |- safe (some _) => apply safe_some
  | |- safe (for_each _ _) => apply safe_for_each; intros ? ?
  | |- safe (selected_hart_id _ ≫= _) => apply safe_selected; intros ? ?
  | |- safe (_ ≫= _) => apply safe_bind; [|intros ?]
  | |- safe (match ?x with _ => _ end) => destruct x
  | |- safe (modify _) => apply safe_modify; intros ? ?; solve [wf_solve]
  end].
Ltac safes := repeat safe_step.
(** Forgets the state: the rest of the operation is safe. *)
Ltac as_safe := match goal with |- wp ?m _ _ => cut (safe m); [intros Hsafe; by apply Hsafe|] end.

Lemma safe_proc_reset id : id ∈ hartids -> safe (proc_reset id).
Proof using Hok. intros Hi. unfold proc_reset. safes. Qed.
Lemma safe_hart_reset id : id ∈ hartids -> safe (hart_reset id).
Proof using Hok. intros Hi. unfold hart_reset. unfold proc_reset; safes. Qed.
Lemma ids_nonneg id : id ∈ hartids -> 0 <= id.
Proof using Hok. intros Hi. pose proof (hart_id_range id Hi). lia. Qed.
Hint Resolve ids_nonneg safe_proc_reset safe_hart_reset : dm.

Lemma safe_flags id (k : Z -> D unit) : id ∈ hartids -> (forall v, safe (k v)) ->
  safe (l ← gets debug_rom_flags; v ← lift (index l id); k v).
Proof using Hok.
  intros Hi Hk s Hs. repeat wp_step. assert (Hr : 0 <= id < zlen (debug_rom_flags s)).
  { pose proof (hart_id_range id Hi). pose proof (wf_flags s Hs). destruct Hok. lia. }
  destruct (index_some (debug_rom_flags s) id) as (v & E & _); [done|]. eapply wp_lift; [exact E|by apply Hk].
Qed.
Lemma safe_hart_halted id : id ∈ hartids -> safe (hart_halted hartids id).
Proof using Hok. intros Hi. unfold hart_halted. repeat first [match goal with |- safe (gets debug_rom_flags ≫= _) => apply safe_flags; [done|intros ?] end | safe_step]. Qed.

(** ** System bus *)

Lemma safe_sb_read_start : safe sb_read_start.
Proof using. intros s Hs. unfold sb_read_start, sb_busy. repeat wp_step; [by apply safe_set_sbbusyerror|wf_solve]. Qed.
Lemma safe_sb_write_start : safe sb_write_start.
Proof using. intros s Hs. unfold sb_write_start, sb_busy. repeat wp_step; [by apply safe_set_sbbusyerror|wf_solve]. Qed.
Lemma safe_set_sbdata i v : 0 <= i < 4 -> safe (set_sbdata i v).
Proof using.
  intros Hi s Hs. pose proof (wf_sbdata s Hs). unfold set_sbdata. repeat wp_step. eapply wp_lift; [apply update_some; lia|].
  repeat wp_step. destruct Hs; constructor; dm_simpl; rewrite ?zlen_insert; assumption.
Qed.
Lemma sb_address_wp s Q : dm_wf s -> (forall a, Q a s) -> wp sb_address s Q.
Proof using.
  intros Hs HQ. pose proof (wf_sbaddress s Hs). unfold sb_address. repeat wp_step.
  destruct (index_some (sbaddress s) 1) as (a1 & E1 & _); [lia|]. eapply wp_lift; [exact E1|]. repeat wp_step.
  destruct (index_some (sbaddress s) 0) as (a0 & E0 & _); [lia|]. eapply wp_lift; [exact E0|]. repeat wp_step. apply HQ.
Qed.
Lemma safe_sb_address : safe sb_address.
Proof using. intros s Hs. by apply sb_address_wp. Qed.
Hint Resolve safe_sb_read_start safe_sb_write_start safe_sb_address : dm.
Hint Extern 1 (safe (set_sbdata _ _)) => apply safe_set_sbdata; lia : dm.
Lemma safe_sb_read : safe (sb_read config).
Proof using. unfold sb_read. safes. Qed.
Lemma safe_sb_write : safe (sb_write config).
Proof using.
  intros s Hs. unfold sb_write. wp_step. apply sb_address_wp; [done|]. intros a. repeat wp_step.
  pose proof (wf_sbdata s Hs).
  destruct (index_some (sbdata s) 0) as (d0 & E0 & _); [lia|]. eapply wp_lift; [exact E0|]. repeat wp_step.
  destruct (index_some (sbdata s) 1) as (d1 & E1 & _); [lia|]. eapply wp_lift; [exact E1|].
  assert (Hb : forall b, safe (when b (set_sberror 2))) by (intros; safes).
  destruct (sb_size config s); [|by apply safe_set_sberror]. wp_step. eapply wp_mono; [by apply safe_on_sim|].
  intros [] s1 Hs1. by apply Hb.
Qed.
Lemma safe_sb_autoincrement : safe (sb_autoincrement config).
Proof using.
  intros s Hs. pose proof (wf_sbaddress s Hs) as Hl. unfold sb_autoincrement. repeat wp_step; [done|].
  unfold zlen in Hl. destruct (sbaddress s) as [|a0 [|a1 [|a2 [|a3 [|? ?]]]]]; cbn [length] in Hl; try lia.
  repeat (repeat wp_step; eapply wp_lift; [reflexivity|]). repeat wp_step. wf_solve.
Qed.
Hint Resolve safe_sb_read safe_sb_write safe_sb_autoincrement : dm.

(** The end of an access, when its delay runs out. *)
Lemma safe_completed (m : D unit) (wait : dm -> Z) : safe m ->
  safe (s ← gets id; when (wait s =? 0) (m;; s ← gets id; when (error (sbcs s) =? 0) (sb_autoincrement config))).
Proof using. intros Hm. safes. Qed.
Lemma safe_run_test_idle : safe (run_test_idle config).
Proof using.
  intros s Hs. unfold run_test_idle.
  do 3 wp_step. eapply (wp_mono _ _ (fun _ => dm_wf)); [repeat wp_step; [wf_solve|done]|]. intros [] s1 Hs1.
  do 3 wp_step. eapply (wp_mono _ _ (fun _ => dm_wf)); [repeat wp_step; [wf_solve|done]|]. intros [] s2 Hs2.
  do 3 wp_step. eapply (wp_mono _ _ (fun _ => dm_wf)).
  { wp_step; [|done]. do 2 wp_step. apply (safe_completed _ sb_read_wait safe_sb_read). wf_solve. }
  intros [] s3 Hs3. do 2 wp_step. wp_step; [|done]. do 2 wp_step.
  apply (safe_completed _ sb_write_wait safe_sb_write). wf_solve.
Qed.

Hint Resolve safe_run_test_idle safe_hart_halted : dm.

(** ** Abstract commands *)

(** At most [n] words have been written. *)
Definition within (n : Z) (r : option Z) : Prop := match r with Some i => 0 <= i <= n | None => True end.
Ltac lens := unfold zlen, debug_abstract_size, within in *; cbn [length] in *; lia.

Lemma emits_wp ws : forall i s (Q : Z -> dm -> Prop), 0 <= i -> i + zlen ws <= debug_abstract_size -> dm_wf s ->
  (forall s', dm_wf s' -> Q (i + zlen ws) s') -> wp (emits i ws) s Q.
Proof using.
  induction ws as [|w ws IH]; intros i s Q Hi Hl Hs HQ; cbn [emits].
  { wp_step. specialize (HQ s Hs). change (zlen []) with 0 in HQ. by rewrite Z.add_0_r in HQ. }
  assert (El : zlen (w :: ws) = 1 + zlen ws) by (unfold zlen; cbn [length]; lia). pose proof (zlen_nonneg ws).
  pose proof (wf_abstract s Hs) as Ha. unfold debug_abstract_size in *. repeat wp_step.
  destruct (write32_some (debug_abstract s) i w) as (l & E & Hl'); [lia..|]. eapply wp_lift; [exact E|]. repeat wp_step.
  apply IH; [lia|lia| |]. { destruct Hs; constructor; dm_simpl; (congruence || assumption). }
  intros s' Hs'. rewrite El in HQ. replace (i + 1 + zlen ws) with (i + (1 + zlen ws)) by lia. by apply HQ.
Qed.

Section bounded.
Context (i : Z) (s : dm) (Hs : dm_wf s) (Hi : 0 <= i).
Lemma emit_sized_wp n size a b : i + 1 <= n -> n <= 12 ->
  wp (emit_sized i (sized size a b)) s (fun r s' => within n r /\ dm_wf s').
Proof using Hs Hi.
  intros Hn H12. unfold emit_sized. destruct (sized size a b) as [w|].
  - wp_step. apply emits_wp; [done|lens|done|]. intros s' Hs'. wp_step. split; [lens|done].
  - unfold notsup. wp_step. eapply wp_mono; [by apply safe_set_cmderr|]. intros [] s' Hs'. by wp_step.
Qed.
Lemma then_emit_wp n m r ws : within n r -> n + zlen ws <= m -> m <= 12 ->
  wp (then_emit r ws) s (fun r s' => within m r /\ dm_wf s').
Proof using Hs.
  intros Hr Hm H12. unfold then_emit. destruct r as [j|]; [|by wp_step]. cbn [within] in Hr. pose proof (zlen_nonneg ws). wp_step.
  apply emits_wp; [lia|unfold debug_abstract_size; lia|done|]. intros s' Hs'. wp_step. split; [lens|done].
Qed.
End bounded.

Lemma transfer_csr_wp size write regno i s : dm_wf s -> 0 <= i <= 5 -> (is_fpu_reg regno = false -> i = 0) ->
  wp (transfer_csr size write regno i) s (fun r s' => within 7 r /\ dm_wf s').
Proof using.
  intros Hs Hi Hf. unfold transfer_csr. wp_step.
  set (j := i + zlen (if is_fpu_reg regno then [] else [csrw S0 CSR_DSCRATCH0])).
  assert (Hj : 0 <= j <= 5) by (subst j; destruct (is_fpu_reg regno); [lens|rewrite (Hf ltac:(done)); lens]).
  apply emits_wp; [lia|subst j; unfold debug_abstract_size; lia|done|]. fold j. intros s1 Hs1. wp_step.
  set (n := if is_fpu_reg regno then 7 else 3).
  assert (Hn : j + 2 <= n /\ n + zlen (if is_fpu_reg regno then [] else [csrr S0 CSR_DSCRATCH0]) <= 7 /\ n <= 7).
  { subst j n. destruct (is_fpu_reg regno); [lens|rewrite (Hf ltac:(done)); lens]. }
  clearbody j n. apply wp_mono with (P := fun r s' => within n r /\ dm_wf s').
  2: { intros r s2 [Hr Hs2]. apply (then_emit_wp s2 Hs2 n); [done|lia|lia]. }
  destruct write.
  - wp_step. eapply wp_mono; [apply (emit_sized_wp j s1 Hs1 ltac:(lia) (j + 1)); lia|]. intros r s2 [Hr Hs2].
    apply (then_emit_wp s2 Hs2 (j + 1)); [done|lens|lia].
  - wp_step. apply emits_wp; [lia|lens|done|]. intros s2 Hs2.
    apply emit_sized_wp; [done|lens|lens|lia].
Qed.

Lemma transfer_custom_wp write regno s : dm_wf s -> wp (transfer_custom write regno) s (fun r s' => within 0 r /\ dm_wf s').
Proof using.
  intros Hs. pose proof (wf_data s Hs). unfold transfer_custom. wp_step. eapply wp_mono; [by apply safe_set_cmderr|].
  intros [] s1 Hs1. pose proof (wf_data s1 Hs1). repeat wp_step.
  - destruct (read32_some (dmdata s1) 0) as (v & Ev); [lia..|]. eapply wp_lift; [exact Ev|]. repeat wp_step. split; [done|wf_solve].
  - destruct (write32_some (dmdata s1) 0 (u32 (regno - 0xc000 + custom_base s1))) as (l & El & Hl); [lia..|].
    eapply wp_lift; [exact El|]. wp_step. destruct (write32_some l 1 0) as (l' & El' & Hl'); [lia..|].
    eapply wp_lift; [exact El'|]. repeat wp_step. split; [done|]. destruct Hs1; constructor; dm_simpl; (congruence || assumption).
Qed.

Lemma transfer_wp size write regno s : dm_wf s -> wp (transfer config size write regno 0) s (fun r s' => within 10 r /\ dm_wf s').
Proof using.
  intros Hs. unfold transfer. wp_step.
  set (pre := if is_fpu_reg regno then _ else _ : list Z). assert (Hp : zlen pre = if is_fpu_reg regno then 5 else 0)
    by (subst pre; by destruct (is_fpu_reg regno)).
  set (post := if is_fpu_reg regno then _ else _ : list Z). assert (Hq : zlen post = if is_fpu_reg regno then 3 else 0)
    by (subst post; by destruct (is_fpu_reg regno)). clearbody pre post.
  apply emits_wp; [lia|rewrite Hp; unfold debug_abstract_size; destruct (is_fpu_reg regno); lia|done|]. intros s1 Hs1.
  assert (Hi : 0 <= 0 + zlen pre <= 5) by (rewrite Hp; destruct (is_fpu_reg regno); lia).
  assert (Hz : is_fpu_reg regno = false -> 0 + zlen pre = 0) by (intros E; by rewrite Hp, E).
  set (i := 0 + zlen pre) in *. clearbody i. wp_step.
  eapply wp_mono with (P := fun r s' => within 7 r /\ dm_wf s').
  2: { intros r s2 [Hr Hs2]. apply (then_emit_wp s2 Hs2 7); [done|rewrite Hq; destruct (is_fpu_reg regno); lia|lia]. }
  destruct ((regno <? 0x1000) && _); [by apply transfer_csr_wp|].
  destruct ((0x1000 <=? regno) && _).
  { unfold transfer_gpr. wp_step. eapply wp_mono with (P := fun r s' => within 6 r /\ dm_wf s').
    { destruct write; (apply emit_sized_wp; [done|lia|lia|lia]). }
    intros r s2 [Hr Hs2]. apply (then_emit_wp s2 Hs2 6); [done| |lia]. destruct ((regno =? _) && _); lens. }
  destruct ((0x1020 <=? regno) && _ && _).
  { unfold transfer_fpr. destruct write; (apply emit_sized_wp; [done|lia|lia|lia]). }
  destruct ((0xc000 <=? regno) && _).
  - eapply wp_mono; [by apply transfer_custom_wp|]. intros r s2 [Hr Hs2]. split; [|done]. destruct r; [lens|done].
  - unfold notsup. wp_step. eapply wp_mono; [by apply safe_set_cmderr|]. intros [] s2 Hs2. by wp_step.
Qed.

Lemma launch_safe i : 0 <= i <= 11 -> safe (launch config hartids i).
Proof using Hok.
  intros Hi s Hs. unfold launch. wp_step. wp_step. wp_step.
  apply emits_wp; [lia|lens|done|]. intros s1 Hs1. wp_step.
  apply selected_hart_id_wp; [done|]. intros id _ Hid. wp_step. eapply wp_mono; [by apply safe_update_flags|].
  intros [] s2 Hs2. wp_step. destruct Hok. wf_solve.
Qed.

Lemma safe_perform : safe (perform_abstract_command config hartids).
Proof using Hok.
  intros s Hs. unfold perform_abstract_command. do 2 wp_step. wp_step; [done|]. wp_step; [by apply safe_set_cmderr|].
  wp_step. pose proof (wf_sel s Hs). destruct (hart_available_wp s (hartsel (dmcontrol s)) Hs ltac:(lia)) as (b & Eb).
  unfold wp at 1. rewrite Eb. wp_step; [by apply safe_set_cmderr|]. wp_step; [|by apply safe_set_cmderr].
  wp_step. eapply wp_mono; [by apply safe_selected_hart_state|]. intros h s1 Hs1. wp_step; [by apply safe_set_cmderr|].
  wp_step. eapply wp_mono with (P := fun r s' => within 10 r /\ dm_wf s').
  - wp_step; [by apply transfer_wp|]. wp_step. split; [lens|done].
  - intros [i|] s2 [Hr Hs2]; [|done]. cbn in Hr. apply launch_safe; [lia|done].
Qed.

Hint Resolve safe_perform : dm.
Lemma safe_auto_execute a i : safe (auto_execute config hartids a i).
Proof using Hok. intros s Hs. unfold auto_execute. do 2 wp_step. wp_step; [by apply safe_perform|done]. Qed.
Hint Resolve safe_auto_execute : dm.

(** ** The debug module interface *)

Lemma safe_status_of_hart id : id ∈ hartids -> safe (status_of_hart hartids id).
Proof using Hok. intros Hi. unfold status_of_hart. safes. Qed.
Hint Resolve safe_status_of_hart : dm.
Lemma safe_read_dmstatus : safe (read_dmstatus hartids).
Proof using Hok. unfold read_dmstatus. safes. Qed.
Lemma window_ids (s : dm) i id : (i, id) ∈ window hartids s -> id ∈ hartids.
Proof using.
  unfold window. rewrite list_elem_of_omap. intros (j & _ & E).
  destruct (index hartids _) as [id'|] eqn:Ei; [|done]. injection E as <- <-.
  unfold index in Ei. destruct (0 <=? _); [|done]. by eapply list_elem_of_lookup_2.
Qed.
Lemma mask_range s id : dm_wf s -> id ∈ hartids -> 0 <= id < zlen (hart_array_mask s).
Proof using Hok. intros Hs Hi. pose proof (hart_id_range id Hi). rewrite (wf_mask s Hs). lia. Qed.
Lemma safe_read_hawindow : safe (read_hawindow hartids).
Proof using Hok.
  intros s Hs. unfold read_hawindow. do 2 wp_step. generalize 0.
  assert (Hw : forall i id, (i, id) ∈ window hartids s -> id ∈ hartids) by (intros i id; apply window_ids).
  induction (window hartids s) as [|[i id] l IH]; intros r; cbn [foldr]; [done|]. wp_step.
  destruct (index_some (hart_array_mask s) id) as (b & E & _); [apply mask_range; [done|eapply Hw; left]|].
  eapply wp_lift; [exact E|]. apply IH. intros j id' Hj. eapply Hw. by right.
Qed.
Lemma safe_read_sbdata i : 0 <= i < 4 -> safe (read_sbdata i).
Proof using.
  intros Hi s Hs. unfold read_sbdata. repeat wp_step. pose proof (wf_sbdata s Hs).
  destruct (index_some (sbdata s) i) as (v & E & _); [lia|]. eapply wp_lift; [exact E|]. wp_step.
  eapply wp_mono with (P := fun _ => dm_wf); [|done].
  wp_step; [by apply safe_set_sbbusyerror|]. wp_step; [by apply safe_sb_read_start|done].
Qed.
Lemma safe_read_sbaddress i : 0 <= i < 4 -> safe (read_sbaddress i).
Proof using.
  intros Hi s Hs. unfold read_sbaddress. repeat wp_step. pose proof (wf_sbaddress s Hs).
  destruct (index_some (sbaddress s) i) as (v & E & _); [lia|]. by eapply wp_lift.
Qed.
Hint Resolve safe_read_dmstatus safe_read_hawindow : dm.
Hint Extern 1 (safe (read_sbdata _)) => apply safe_read_sbdata; lia : dm.
Hint Extern 1 (safe (read_sbaddress _)) => apply safe_read_sbaddress; lia : dm.

Lemma progbuf_bytes : 4 * progbufsize config <= program_buffer_bytes config <= 68.
Proof using Hok. destruct Hok. unfold program_buffer_bytes. rewrite wrap_small by (destruct (support_impebreak config); lia).
  destruct (support_impebreak config); lia. Qed.

Lemma dmi_read_safe address : safe (dmi_read config hartids address).
Proof using Hok.
  intros s Hs. unfold dmi_read. do 2 wp_step. pose proof (wf_data s Hs). pose proof (wf_datacount s Hs).
  pose proof (wf_progbuf s Hs). pose proof progbuf_bytes. unfold DM_DATA0, DM_PROGBUF0. wp_step; [|wp_step].
  - wp_step. destruct (read32_some (dmdata s) (address - 4)) as (v & E1); [lia..|]. eapply wp_lift; [exact E1|]. as_safe.
    safes. apply safe_set_cmderr. unfold CMDERR_BUSY. lia.
  - wp_step. destruct (read32_some (program_buffer s) (address - 32)) as (v & E1); [lia..|]. eapply wp_lift; [exact E1|].
    as_safe. safes.
  - apply safe_switch; [|apply safe_ret|done]. repeat (apply Forall_cons; [cbn [snd]; safes|]). apply Forall_nil.
Qed.

(** ** Writes *)

Lemma nprocs_pos : 0 < nprocs hartids.
Proof using Hok. destruct Hok as [_ _ Hne _ _]. unfold nprocs, zlen. destruct hartids; [done|cbn [length]; lia]. Qed.

Lemma safe_reset harts : safe (reset config harts).
Proof using Hok.
  unfold reset. apply safe_bind; [safes|intros _]. apply safe_modify. intros s Hs. pose proof nprocs_pos. destruct Hok, Hs.
  constructor; dm_simpl; try assumption; [lia| |unfold CMDERR_NONE; lia]. rewrite wf_data0. reflexivity.
Qed.
Hint Resolve safe_reset : dm.

Lemma safe_control_hart v id : id ∈ hartids -> safe (control_hart hartids v id).
Proof using Hok. intros Hi. unfold control_hart. safes. Qed.
Hint Resolve safe_control_hart : dm.

Lemma get_field_nonneg r m : 0 <= r -> 0 <= get_field r m.
Proof using.
  intros Hr. unfold get_field. assert (0 <= r &! m) by (apply Z.land_nonneg; by left).
  assert (0 <= m &! ~! (m <<! 1)) as Hd by (apply Z.land_nonneg; right; apply wrap_range; lia).
  destruct (Z.eq_dec (m &! ~! (m <<! 1)) 0) as [->|]; [by rewrite Z.div_0_r|]. apply Z.div_pos; lia.
Qed.
Lemma safe_write_dmcontrol v : 0 <= v -> safe (write_dmcontrol config hartids v).
Proof using Hok.
  intros Hv s Hs. unfold write_dmcontrol. do 3 wp_step.
  eapply wp_mono with (P := fun _ => dm_wf); [wp_step; [by apply safe_reset|done]|]. intros [] s1 Hs1.
  do 2 wp_step. match goal with |- wp _ ?s2 _ => assert (Hs2 : dm_wf s2) by wf_solve; revert Hs2; generalize s2 end.
  intros s2 Hs2. do 2 wp_step. wp_step; [done|]. do 2 wp_step. revert Hs2. pose proof nprocs_pos. pose proof (get_field_nonneg v DM_DMCONTROL_HARTSELHI Hv).
  pose proof (get_field_nonneg v DM_DMCONTROL_HARTSELLO Hv).
  set (sel := Z.shiftl _ _ |! _). assert (Hsel : 0 <= sel) by (apply Z.lor_nonneg; split; [by apply Z.shiftl_nonneg|done]).
  intros Hs2. match goal with |- wp _ ?s3 _ => assert (Hs3 : dm_wf s3) end.
  - assert (0 <= u64 (nprocs hartids - 1) <= nprocs hartids - 1).
    { pose proof (wrap_range 64 ltac:(lia) (nprocs hartids - 1)). split; [lia|]. apply Z.mod_le; lia. }
    destruct Hs2; constructor; dm_simpl; try assumption. lia.
  - as_safe. safes.
Qed.
Lemma safe_write_hawindow v : safe (write_hawindow hartids v).
Proof using Hok.
  intros s Hs. unfold write_hawindow. do 2 wp_step.
  assert (Hw : forall i id, (i, id) ∈ window hartids s -> id ∈ hartids) by (intros i id; apply window_ids).
  generalize dependent (window hartids s). intros l Hw. apply wp_for_each; [done|]. intros [i id] s1 Hi Hs1. repeat wp_step.
  pose proof (mask_range s1 id Hs1 (Hw _ _ Hi)). eapply wp_lift; [by apply update_some|]. repeat wp_step.
  destruct Hs1; constructor; dm_simpl; rewrite ?zlen_insert; assumption.
Qed.
Lemma safe_write_sbaddress i v : 0 <= i < 4 -> safe (write_sbaddress i v).
Proof using.
  intros Hi s Hs. pose proof (wf_sbaddress s Hs). unfold write_sbaddress. do 2 wp_step. wp_step; [by apply safe_set_sbbusyerror|].
  wp_step. eapply wp_lift; [apply update_some; lia|]. repeat wp_step;
    [apply safe_sb_read_start|]; destruct Hs; constructor; dm_simpl; rewrite ?zlen_insert; assumption.
Qed.
Lemma safe_write_sbdata i v : 0 <= i < 4 -> safe (write_sbdata i v).
Proof using.
  intros Hi s Hs. unfold write_sbdata. do 2 wp_step. wp_step; [by apply safe_set_sbbusyerror|].
  wp_step. eapply wp_mono; [by apply safe_set_sbdata|]. intros [] s1 Hs1. wp_step; [by apply safe_sb_write_start|done].
Qed.
Lemma safe_write_sbcs v : safe (write_sbcs v).
Proof using. unfold write_sbcs. safes. Qed.
Lemma safe_write_authdata v : safe (write_authdata config v).
Proof using. unfold write_authdata. safes. Qed.
Lemma safe_write_dmcs2 v : safe (write_dmcs2 config hartids v).
Proof using Hok. unfold write_dmcs2. safes. Qed.
Hint Resolve safe_write_dmcontrol safe_write_hawindow safe_write_sbcs safe_write_authdata safe_write_dmcs2 : dm.
Hint Extern 1 (safe (write_sbdata _ _)) => apply safe_write_sbdata; lia : dm.
Hint Extern 1 (safe (write_sbaddress _ _)) => apply safe_write_sbaddress; lia : dm.

Lemma land_lnot_range a b : 0 <= a < 8 -> 0 <= a &! Z.lnot b < 8.
Proof using. intros Ha. rewrite Z.land_comm. by apply (land_range 3). Qed.

Lemma dmi_write_safe address v : 0 <= v -> safe (dmi_write config hartids address v).
Proof using Hok.
  intros Hv s Hs. unfold dmi_write. do 2 wp_step. pose proof (wf_data s Hs). pose proof (wf_datacount s Hs).
  pose proof (wf_progbuf s Hs). pose proof progbuf_bytes. pose proof (wf_cmderr s Hs). unfold DM_DATA0, DM_PROGBUF0.
  wp_step; [done|]. clear E. wp_step; [|wp_step].
  - wp_step. eapply wp_mono with (P := fun _ => dm_wf).
    { wp_step; [|done]. destruct (write32_some (dmdata s) (address - 4) v) as (l & El & Hl); [lia..|].
      wp_step. eapply wp_lift; [exact El|]. wp_step. destruct Hs; constructor; dm_simpl; (congruence || assumption). }
    intros [] s1 Hs1. as_safe. safes. apply safe_set_cmderr. unfold CMDERR_BUSY. lia.
  - wp_step. eapply wp_mono with (P := fun _ => dm_wf).
    { wp_step; [|done]. destruct (write32_some (program_buffer s) (address - 32) v) as (l & El & Hl); [lia..|].
      wp_step. eapply wp_lift; [exact El|]. wp_step. destruct Hs; constructor; dm_simpl; (congruence || assumption). }
    intros [] s1 Hs1. as_safe. safes.
  - pose proof (fun b => land_lnot_range (cmderr (abstractcs s)) b H4). apply safe_switch; [|apply safe_ret|done].
    repeat (apply Forall_cons; [cbn [snd]; safes|]); [..|apply Forall_nil].
    apply safe_modify. intros s1 Hs1. destruct Hs1; constructor; dm_simpl; try assumption.
    unfold zlen in *. by rewrite length_imap.
Qed.
Hint Resolve dmi_read_safe : dm.

(** ** The bus side and the constructor *)

Lemma starts : program_buffer_bytes config <= 68 /\ 0 <= program_buffer_bytes config /\
  debug_progbuf_start config = 0x380 - program_buffer_bytes config /\
  debug_abstract_start config = 0x380 - program_buffer_bytes config - 48.
Proof using Hok.
  pose proof progbuf_bytes. destruct Hok. unfold debug_abstract_start, debug_progbuf_start, debug_data_start, debug_abstract_size.
  rewrite !wrap_small; lia.
Qed.
Lemma copy_range addr len start (l : list Z) : 0 <= addr -> 0 <= len -> addr + len < 2 ^ 64 ->
  inside addr len start (zlen l) = true -> 0 <= addr - start /\ addr - start + len <= zlen l.
Proof using. unfold inside. intros H1 H2 H3 Hi. rewrite wrap_small in Hi by lia. lia. Qed.

Lemma load_safe addr len : 0 <= addr -> 0 <= len -> addr + len < 2 ^ 64 -> safe (load config addr len).
Proof using Hok.
  intros Ha Hl Hal s Hs. unfold load. unfold DEBUG_START. rewrite Z.add_0_l, (wrap_small 64 addr) by lia.
  assert (Hr : forall l start, inside addr len start (zlen l) = true ->
    wp (b ← lift (copy_out l (addr - start) len); mret (Some b)) s (fun _ : option (list Z) => dm_wf)).
  { intros l start Hi. destruct (copy_range addr len start l Ha Hl Hal Hi). wp_step.
    destruct (copy_out_some l (addr - start) len) as (b & E & _); [lia..|]. by eapply wp_lift. }
  do 2 wp_step. repeat match goal with |- wp (if _ then _ else _) _ _ => wp_step end; try (by apply Hr); try done.
  - apply Hr. by rewrite (wf_whereto s Hs).
  - apply Hr. by rewrite (wf_flags s Hs).
  - apply Hr. by rewrite (wf_progbuf s Hs).
Qed.

(** The words that a hart's debug ROM writes carry its identifier. *)
Definition rom_store (addr : Z) (bytes : list Z) : Prop :=
  addr ∈ [DEBUG_ROM_HALTED; DEBUG_ROM_GOING; DEBUG_ROM_RESUMING] ->
  zlen bytes = 4 /\ exists id, read32 bytes 0 = Some id /\ id ∈ hartids.

Lemma store_safe addr bytes : 0 <= addr -> addr + zlen bytes < 2 ^ 64 -> rom_store addr bytes ->
  safe (store config hartids addr bytes).
Proof using Hok.
  intros Ha Hal Hrom s Hs. pose proof (zlen_nonneg bytes) as Hl. unfold store. unfold DEBUG_START.
  rewrite Z.add_0_l, (wrap_small 64 addr) by lia. wp_step.
  apply wp_mono with (P := fun id s' => s' = s /\ (zlen bytes = 4 -> read32 bytes 0 = Some id)).
  { wp_step; [|wp_step; split; [done|lia]]. destruct (read32_some bytes 0) as (v & Ev); [lia..|]. by eapply wp_lift. }
  intros id s1 [-> Hid].
  assert (Hcopy : forall l start, inside addr (zlen bytes) start (zlen l) = true ->
    exists l', copy_in l (addr - start) bytes = Some l' /\ zlen l' = zlen l).
  { intros l start Hi. destruct (copy_range addr (zlen bytes) start l Ha Hl Hal Hi). apply copy_in_some; lia. }
  assert (Hin : addr ∈ [DEBUG_ROM_HALTED; DEBUG_ROM_GOING; DEBUG_ROM_RESUMING] -> (zlen bytes =? 4) = true /\ id ∈ hartids).
  { intros Hd. destruct (Hrom Hd) as (H4 & id' & E & Hi). split; [lia|]. rewrite (Hid H4) in E. by injection E as ->. }
  do 2 wp_step. wp_step.
  { destruct (Hcopy (dmdata s) debug_data_start E) as (l' & El & Hl'). wp_step. eapply wp_lift; [exact El|]. repeat wp_step.
    destruct Hs; constructor; dm_simpl; (congruence || assumption). }
  wp_step.
  { rewrite <- (wf_progbuf s Hs) in E0. destruct (Hcopy (program_buffer s) (debug_progbuf_start config) E0) as (l' & El & Hl').
    wp_step. eapply wp_lift; [exact El|]. repeat wp_step. destruct Hs; constructor; dm_simpl; (congruence || assumption). }
  wp_step.
  { destruct Hin as [H4 Hi]; [replace addr with DEBUG_ROM_HALTED by lia; left|]. unfold assert_. rewrite H4. as_safe. safes. }
  wp_step.
  { destruct Hin as [H4 Hi]; [replace addr with DEBUG_ROM_GOING by lia; right; left|]. unfold assert_. rewrite H4. as_safe. safes. }
  wp_step.
  { destruct Hin as [H4 Hi]; [replace addr with DEBUG_ROM_RESUMING by lia; do 2 right; left|]. unfold assert_. rewrite H4. as_safe. safes. }
  as_safe. safes. apply safe_set_cmderr. unfold CMDERR_EXCEPTION. lia.
Qed.

(** The uninitialised storage the constructor is given has the class's arrays. *)
Definition junk_ok (junk : dm) : Prop := zlen (sbaddress junk) = 4 /\ zlen (sbdata junk) = 4.

Lemma new_debug_module_wf junk : junk_ok junk -> exists s, new_debug_module config hartids junk = Some s /\ dm_wf s.
Proof using Hok.
  intros [Hja Hjd]. pose proof nprocs_pos. pose proof progbuf_bytes as Hpb. destruct starts as (Hs1 & Hs2 & Hs3 & Hs4).
  assert (Hids : 0 <= max_hartid hartids < 1024).
  { split; [|by destruct Hok]. destruct (index_some hartids 0) as (id & _ & Hid); [unfold nprocs in *; lia|].
    pose proof (hart_id_range id Hid). lia. }
  unfold new_debug_module. replace (1024 <=? max_hartid hartids) with false by lia.
  set (n := Z.to_nat (program_buffer_bytes config)). destruct Hok as [Hp Hrti _ _ _].
  assert (Hb : exists b, (if support_impebreak config then write32 (replicate n 0) (progbufsize config) ebreak else Some (replicate n 0)) = Some b
    /\ zlen b = program_buffer_bytes config).
  { assert (Hn : zlen (replicate n 0) = program_buffer_bytes config) by (unfold zlen; rewrite length_replicate; lia).
    destruct (support_impebreak config) eqn:E; [|by eexists]. rewrite <- Hn. apply write32_some; [lia|]. rewrite Hn.
    unfold program_buffer_bytes. rewrite E, wrap_small; lia. }
  destruct Hb as (b & -> & Hb). cbn [mbind option_bind].
  destruct (write32_some (replicate 4 0) 0 (jal ZERO (debug_abstract_start config - DEBUG_ROM_WHERETO))) as (w & Ew & Hw); [lia|done|].
  rewrite Ew. cbn [mbind option_bind]. unfold reset. cbn [for_each]. eexists. split; [reflexivity|].
  assert (Hlen : forall A k (a : A), 0 <= k -> zlen (replicate (Z.to_nat k) a) = k) by (intros; unfold zlen; rewrite length_replicate; lia).
  constructor; dm_simpl; try done; try lia.
  - apply Hlen. pose proof (field_width_spec (max_hartid hartids + 1)). lia.
  - apply Hlen. lia.
Qed.

(** ** Every sequence of accesses *)

Inductive dm_op := DmiRead (address : Z) | DmiWrite (address value : Z) | RunTestIdle | HartReset (id : Z)
  | Load (addr len : Z) | Store (addr : Z) (bytes : list Z).
Definition dm_run (o : dm_op) : D unit :=
  match o with
  | DmiRead a => _ ← dmi_read config hartids a; mret tt
  | DmiWrite a v => _ ← dmi_write config hartids a v; mret tt
  | RunTestIdle => run_test_idle config
  | HartReset id => hart_reset id
  | Load a len => _ ← load config a len; mret tt
  | Store a bytes => _ ← store config hartids a bytes; mret tt
  end.
(** What the interfaces guarantee of an access. *)
Definition dm_op_ok (o : dm_op) : Prop :=
  match o with
  | DmiWrite _ v => 0 <= v
  | HartReset id => id ∈ hartids
  | Load a len => 0 <= a /\ 0 <= len /\ a + len < 2 ^ 64
  | Store a bytes => 0 <= a /\ a + zlen bytes < 2 ^ 64 /\ rom_store a bytes
  | _ => True
  end.
Lemma dm_run_safe o : dm_op_ok o -> safe (dm_run o).
Proof using Hok.
  destruct o; cbn [dm_op_ok dm_run]; intros Ho; safes; [by apply dmi_write_safe|apply load_safe; lia|]. destruct Ho as (H1 & H2 & H3). by apply store_safe.
Qed.
Lemma dm_runs_safe ops : Forall dm_op_ok ops -> safe (for_each ops dm_run).
Proof using Hok.
  intros Ho s Hs. apply wp_for_each; [done|]. intros o s1 Hi Hs1. apply dm_run_safe; [|done].
  apply (proj1 (Forall_forall _ _) Ho). by apply list_elem_of_In.
Qed.
End invariant.

(** ** A simulator for the witnesses *)

(** The newest halt request of each hart first, the harts reset, a memory of the first 4 KiB and a seed. *)
Record board := Board { requests : list (Z * halt_request_t); resets : list Z; memory : Z -> Z; seed : Z }.
Definition board_load (size a : Z) (b : board) : option Z :=
  if a + size <=? 0x1000
  then Some (foldr (fun k v => u8 (memory b (a + k)) + 2 ^ 8 * v) 0 (seqZ 0 size)) else None.
Definition board_store (size a v : Z) (b : board) : board :=
  Board (requests b) (resets b)
    (fun i => if (a <=? i) && (i <? a + size) then u8 (v >>! (8 * (i - a))) else memory b i) (seed b).
#[export] Instance board_simif : simif board := {
  set_halt_request id r b := Board ((id, r) :: requests b) (resets b) (memory b) (seed b);
  reset_hart id b := Board (requests b) (id :: resets b) (memory b) (seed b);
  debug_mmu_load size a b := (b, board_load size a b);
  debug_mmu_store size a v b := if a + size <=? 0x1000 then (board_store size a v b, true) else (b, false);
  random b := let v := (1103515245 * seed b + 12345) mod 2 ^ 31 in (Board (requests b) (resets b) (memory b) v, v)
}.
Definition empty_board : board := Board [] [] (fun a => a mod 2 ^ 8) 1.
Definition sba_config : debug_module_config_t := DebugModuleConfig 2 64 true 3 true true true true true.
Definition two_harts : list Z := [0; 5].
Definition raw_module : debug_module_t board :=
  DebugModule 0 [] [] [] [] [] [] (Dmcontrol false false false 0 false false false)
    (Dmstatus false false false false false false false false false false false false false false false false 0)
    (Abstractcs false 0 0 0) (Abstractauto 0 0) 0 0 []
    (Sbcs 0 false 0 false false 0 0 false false false false false false) [0; 0; 0; 0] [0; 0; 0; 0] 0 false 0 [] 0 0 empty_board.

Lemma sba_config_ok : config_ok sba_config two_harts.
Proof.
  constructor; cbn; [lia|lia|done| |lia]. unfold two_harts, max_hartid. repeat apply Forall_cons; [cbn; lia|cbn; lia|apply Forall_nil].
Defined.

(** ** Safety *)

(** C8: Whatever the debugger, the harts and the JTAG clock do, the debug module stays within its arrays:
    from the constructor, every sequence of DMI reads and writes of any address, run-test cycles, hart resets,
    and bus loads and stores, where the stores of a hart's debug ROM carry a configured identifier, runs to the end
    without an out-of-range index, a failed assertion or an exception, and leaves the module well formed. *)
Theorem debug_module_safe {X : Type} `{simif X} config hartids (junk : debug_module_t X) ops :
  config_ok config hartids -> junk_ok junk -> Forall (dm_op_ok hartids) ops ->
  exists s s', new_debug_module config hartids junk = Some s /\
    for_each ops (dm_run config hartids) s = Some (tt, s') /\ dm_wf config hartids s'.
Proof.
  intros Hok Hj Ho. destruct (new_debug_module_wf config hartids Hok junk Hj) as (s & Es & Hs).
  pose proof (dm_runs_safe config hartids Hok ops Ho s Hs) as Hr. apply wp_total in Hr as ([] & s' & E & Hw). eauto.
Qed.

(** A debugger authenticates, activates the module, halts hart 5 and reads one of its registers. *)
Definition session : list dm_op :=
  [DmiRead DM_AUTHDATA; DmiWrite DM_AUTHDATA 1103527591; DmiWrite DM_DMCONTROL 1; DmiWrite DM_AUTHDATA 377401576;
   DmiWrite DM_DMCONTROL 0x80010001; Store DEBUG_ROM_HALTED [5; 0; 0; 0]; DmiRead DM_DMSTATUS;
   DmiWrite DM_COMMAND 0x221008; DmiRead DM_ABSTRACTCS].
Lemma debug_module_safe_witness : exists s s', new_debug_module sba_config two_harts raw_module = Some s /\
  for_each session (dm_run sba_config two_harts) s = Some (tt, s') /\ dm_wf sba_config two_harts s'.
Proof.
  apply (debug_module_safe sba_config two_harts raw_module session sba_config_ok); [done|].
  unfold session, dm_op_ok, two_harts. repeat apply Forall_cons; try apply Forall_nil; try done; try lia.
  split; [done|split; [done|]]. intros _. split; [done|]. exists 5. split; [done|right; left].
Defined.
