(* ===== verification/DebugBus.v ===== *)
(** * The debug module: system bus accesses

    A system bus read that a debugger starts through [debug_module.cc] takes twenty
    run-test cycles and then completes, with the data of the memory port or an error. *)

From Stdlib Require Import ZifyBool.
From stdpp Require Import list.
From S2P Require Import Prelude Arith Decode Opcodes DebugModule DebugProps.
Local Open Scope cint_scope.



Section bus.
Context {X : Type} `{simif X} (config : debug_module_config_t) (hartids : list Z).
Context (Hok : config_ok config hartids).
Local Abbreviation dm := (debug_module_t X).

Lemma dm_bind_assoc {A B C} (m : D A) (f : A -> D B) (g : B -> D C) s (Q : C -> dm -> Prop) :
  wp ((m ≫= f) ≫= g) s Q = wp (m ≫= fun a => f a ≫= g) s Q.
Proof using. unfold wp, mbind, D_bind. by destruct (m s) as [[a s1]|]. Qed.

Lemma get_bind {B} (k : dm -> D B) s : (gets id ≫= k) s = k s s. Proof using. done. Qed.
Lemma when_modify {B} b f (k : unit -> D B) (s : dm) : (when b (modify f) ≫= k) s = k tt (if b then f s else s).
Proof using. by destruct b. Qed.

Definition idles (n : nat) : D unit := for_each (replicate n tt) (fun _ => run_test_idle config).
Definition bus_state (s : dm) : list Z * list Z * sbcs_t * X := (sbaddress s, sbdata s, sbcs s, sim s).

(** The address of an access, and what incrementing leaves: only the lowest word moves, modulo [2^32]. *)
Definition bus_address (s : dm) : Z := (nth 1 (sbaddress s) 0 <<! 32) |! nth 0 (sbaddress s) 0.
Definition incremented (s : dm) : list Z :=
  if autoincrement (sbcs s) && negb (max_sba_data_width config =? 0)
  then [u32 (nth 0 (sbaddress s) 0 + u32 (Z.shiftl 8 (sbaccess (sbcs s))) / 8); u32 (nth 1 (sbaddress s) 0);
        u32 (nth 2 (sbaddress s) 0); u32 (nth 3 (sbaddress s) 0)]
  else sbaddress s.

(** A finished read: the data or the error, the address for the next access and the simulator after the load. *)
Definition bus_read (s s' : dm) : Prop :=
  match sb_size config s with
  | None => bus_state s' = (sbaddress s, sbdata s, sbcs s <| error := 3 |>, sim s)
  | Some n =>
    let (x, r) := debug_mmu_load n (bus_address s) (sim s) in
    match r with
    | None => bus_state s' = (sbaddress s, sbdata s, sbcs s <| error := 2 |>, x)
    | Some v =>
      let data := [u32 v; if n =? 8 then u32 (v >>! 32) else nth 1 (sbdata s) 0; nth 2 (sbdata s) 0; nth 3 (sbdata s) 0] in
      bus_state s' = (if error (sbcs s) =? 0 then incremented s else sbaddress s, data, sbcs s, x)
    end
  end.

Lemma four_words (l : list Z) : zlen l = 4 -> l = [nth 0 l 0; nth 1 l 0; nth 2 l 0; nth 3 l 0].
Proof using. unfold zlen. intros Hl. destruct l as [|a [|b [|c [|d [|? ?]]]]]; cbn [length] in Hl; try lia. done. Qed.

Lemma autoincrement_exact s : dm_wf config hartids s ->
  wp (sb_autoincrement config) s (fun _ s' => bus_state s' = (incremented s, sbdata s, sbcs s, sim s) /\
    sb_read_wait s' = sb_read_wait s /\ sb_write_wait s' = sb_write_wait s).
Proof using.
  intros Hs. pose proof (four_words _ (wf_sbaddress _ _ s Hs)) as Ea. unfold sb_autoincrement, incremented, bus_state.
  do 2 wp_step. wp_step.
  - wp_step. replace (autoincrement (sbcs s) && negb (max_sba_data_width config =? 0)) with false by lia. done.
  - replace (autoincrement (sbcs s) && negb (max_sba_data_width config =? 0)) with true by lia. clear E.
    rewrite Ea. do 4 (wp_step; eapply wp_lift; [reflexivity|]). wp_step. dm_simpl. unfold sb_access_bits. split; [|done].
    cbn [nth]. set (v := u32 (_ + _)).
    assert (Hv : forall z, u32 (u32 z >>! 32) = 0).
    { intros z. pose proof (wrap_range 32 ltac:(lia) z). rewrite Z.shiftr_div_pow2, Z.div_small by lia. done. }
    assert (Hz : u32 (v >>! 32) = 0) by apply Hv. rewrite Hz. repeat (rewrite ?Z.add_0_r, ?Hv). subst v. by rewrite !wrap_wrap by lia.
Qed.

Lemma sb_read_exact s : dm_wf config hartids s ->
  wp (sb_read config;; s ← gets id; when (error (sbcs s) =? 0) (sb_autoincrement config)) s
    (fun _ s' => bus_read s s' /\ sb_read_wait s' = sb_read_wait s /\ sb_write_wait s' = sb_write_wait s).
Proof using.
  intros Hs. pose proof (four_words _ (wf_sbaddress _ _ s Hs)) as Ea. pose proof (four_words _ (wf_sbdata _ _ s Hs)) as Ed.
  unfold sb_read. rewrite dm_bind_assoc. wp_step. eapply wp_mono with (P := fun a s1 => a = bus_address s /\ s1 = s).
  { unfold sb_address, bus_address. do 2 wp_step. wp_step. eapply wp_lift; [rewrite Ea; reflexivity|]. wp_step.
    eapply wp_lift; [rewrite Ea; reflexivity|]. wp_step. done. }
  intros a s1 [-> ->]. rewrite dm_bind_assoc. do 2 wp_step. unfold bus_read.
  destruct (sb_size config s) as [n|] eqn:En.
  2: { unfold set_sberror. repeat wp_step; dm_simpl; try done. }
  destruct (debug_mmu_load n (bus_address s) (sim s)) as [x r] eqn:El. unfold on_sim. do 2 rewrite ?dm_bind_assoc.
  wp_step. wp_step. cbn [fst snd]. destruct r as [v|].
  2: { unfold set_sberror. repeat wp_step; dm_simpl; try done. }
  set (data := [u32 v; if n =? 8 then u32 (v >>! 32) else nth 1 (sbdata s) 0; nth 2 (sbdata s) 0; nth 3 (sbdata s) 0]).
  set (s1 := s <| sim := x |> <| sbdata := data |>).
  assert (Hs1 : dm_wf config hartids s1) by (destruct Hs; constructor; dm_simpl; (assumption || done)).
  wp_step. eapply wp_mono with (P := fun _ s2 => s2 = s1).
  { unfold set_sbdata. do 4 wp_step. dm_simpl. eapply wp_lift; [rewrite Ed; reflexivity|]. wp_step. cbn [Z.to_nat insert list_insert].
    wp_step; [|subst s1 data; by replace (n =? 8) with false by lia]. do 3 wp_step. eapply wp_lift; [reflexivity|]. wp_step.
    subst s1 data. by replace (n =? 8) with true by lia. }
  intros [] s2 ->. do 2 wp_step. wp_step.
  - eapply wp_mono; [by apply autoincrement_exact|]. intros [] s3 (E1 & E2 & E3). rewrite E1, E2, E3.
    replace (error (sbcs s) =? 0) with true by (symmetry; done). done.
  - replace (error (sbcs s) =? 0) with false by (symmetry; done). done.
Qed.

(** One idle cycle, by the cycles left of the access in progress. *)
Lemma idle_start s : dm_wf config hartids s -> sb_write_wait s = 0 -> 0 < sb_read_wait s ->
  exists s1, dm_wf config hartids s1 /\ bus_state s1 = bus_state s /\ sb_read_wait s1 = sb_read_wait s - 1 /\
    sb_write_wait s1 = 0 /\ run_test_idle config s =
      (when (sb_read_wait s1 =? 0) (sb_read config;; s ← gets id; when (error (sbcs s) =? 0) (sb_autoincrement config));;
       s ← gets id; when (0 <? sb_write_wait s) (
         modify (fun s => s <| sb_write_wait := sb_write_wait s - 1 |>);;
         s ← gets id; when (sb_write_wait s =? 0) (sb_write config;; s ← gets id; when (error (sbcs s) =? 0) (sb_autoincrement config)))) s1.
Proof using Hok.
  intros Hs Hw Hr.
  set (t1 := if 0 <? rti_remaining s then s <| rti_remaining := rti_remaining s - 1 |> else s).
  set (t2 := if (rti_remaining t1 =? 0) && busy (abstractcs t1) && abstract_command_completed t1
             then t1 <| abstractcs := abstractcs t1 <| busy := false |> |> else t1).
  assert (Hb1 : dm_wf config hartids t1 /\ bus_state t1 = bus_state s /\ sb_read_wait t1 = sb_read_wait s /\ sb_write_wait t1 = 0).
  { subst t1. destruct (0 <? rti_remaining s) eqn:E; [|done]. split; [destruct Hs; constructor; dm_simpl; (assumption || lia)|done]. }
  destruct Hb1 as (W1 & B1 & R1 & V1).
  assert (Hb2 : dm_wf config hartids t2 /\ bus_state t2 = bus_state t1 /\ sb_read_wait t2 = sb_read_wait s /\ sb_write_wait t2 = 0).
  { subst t2. destruct ((rti_remaining t1 =? 0) && _ && _); [|done]. split; [destruct W1; constructor; dm_simpl; assumption|done]. }
  destruct Hb2 as (W2 & B2 & R2 & V2).
  assert (E : run_test_idle config s = (s ← gets id; when (0 <? sb_read_wait s) (
    modify (fun s => s <| sb_read_wait := sb_read_wait s - 1 |>);;
    s ← gets id; when (sb_read_wait s =? 0) (sb_read config;; s ← gets id; when (error (sbcs s) =? 0) (sb_autoincrement config)));;
   s ← gets id; when (0 <? sb_write_wait s) (
    modify (fun s => s <| sb_write_wait := sb_write_wait s - 1 |>);;
    s ← gets id; when (sb_write_wait s =? 0) (sb_write config;; s ← gets id; when (error (sbcs s) =? 0) (sb_autoincrement config)))) t2).
  { unfold run_test_idle. rewrite get_bind, when_modify. fold t1. cbv beta. rewrite get_bind, when_modify. fold t2. reflexivity. }
  exists (t2 <| sb_read_wait := sb_read_wait t2 - 1 |>). split_and!.
  - destruct W2; constructor; dm_simpl; try assumption. lia.
  - change (bus_state t2 = bus_state s). congruence.
  - dm_simpl. lia.
  - done.
  - rewrite E. unfold mbind at 1, D_bind at 1, gets at 1. cbn [id]. replace (0 <? sb_read_wait t2) with true by lia. reflexivity.
Qed.

Lemma idle_waits s : dm_wf config hartids s -> sb_write_wait s = 0 -> 1 < sb_read_wait s ->
  exists s1, run_test_idle config s = Some (tt, s1) /\ dm_wf config hartids s1 /\ bus_state s1 = bus_state s /\
    sb_read_wait s1 = sb_read_wait s - 1 /\ sb_write_wait s1 = 0.
Proof using Hok.
  intros Hs Hw Hr. destruct (idle_start s Hs Hw ltac:(lia)) as (s1 & W & B & R & V & ->). exists s1.
  replace (sb_read_wait s1 =? 0) with false by lia. split; [|done]. unfold mbind, D_bind, gets. cbn [when mret D_ret id].
  by replace (0 <? sb_write_wait s1) with false by lia.
Qed.
Lemma bus_read_same s1 s s' : bus_state s1 = bus_state s -> bus_read s1 s' -> bus_read s s'.
Proof using.
  intros E. unfold bus_state in E. injection E as Ea Ed Ec Ex. unfold bus_read, sb_size, bus_address, incremented, bus_state.
  by rewrite Ea, Ed, Ec, Ex.
Qed.
Lemma idle_reads s : dm_wf config hartids s -> sb_write_wait s = 0 -> sb_read_wait s = 1 ->
  exists s1, run_test_idle config s = Some (tt, s1) /\ bus_read s s1 /\ sb_read_wait s1 = 0 /\ sb_write_wait s1 = 0.
Proof using Hok.
  intros Hs Hw Hr. destruct (idle_start s Hs Hw ltac:(lia)) as (s1 & W & B & R & V & ->).
  pose proof (sb_read_exact s1 W) as Hx. apply wp_total in Hx as ([] & s2 & Ex & Hb & R2 & V2). exists s2.
  replace (sb_read_wait s1 =? 0) with true by lia. cbn [when]. unfold mbind at 1, D_bind at 1. rewrite Ex.
  rewrite get_bind. replace (0 <? sb_write_wait s2) with false by lia. split; [done|]. split; [by apply (bus_read_same s1)|lia].
Qed.

Lemma idles_read n : forall s, dm_wf config hartids s -> sb_write_wait s = 0 -> sb_read_wait s = Z.of_nat (S n) ->
  (forall k, (k <= n)%nat -> exists sk, idles k s = Some (tt, sk) /\ sb_busy sk = true /\ bus_state sk = bus_state s) /\
  exists s', idles (S n) s = Some (tt, s') /\ sb_busy s' = false /\ bus_read s s'.
Proof using Hok.
  induction n as [|n IH]; intros s Hs Hw Hr.
  - split.
    + intros k Hk. replace k with O by lia. exists s. split; [done|]. split; [unfold sb_busy; lia|done].
    + destruct (idle_reads s Hs Hw Hr) as (s1 & E & B & R & V). exists s1. unfold idles. cbn [replicate for_each].
      unfold mbind, D_bind. rewrite E. split; [done|]. split; [unfold sb_busy; lia|done].
  - destruct (idle_waits s Hs Hw ltac:(lia)) as (s1 & E & W & B & R & V).
    destruct (IH s1 W V ltac:(lia)) as [Hk (s' & E' & Hb & Hread)].
    assert (Hstep : forall m, idles (S m) s = idles m s1).
    { intros m. unfold idles. cbn [replicate for_each]. unfold mbind, D_bind. by rewrite E. }
    split.
    + intros [|k] Hle; [exists s; split; [done|]; split; [unfold sb_busy; lia|done]|].
      destruct (Hk k ltac:(lia)) as (sk & Ek & Bk & Sk). exists sk. rewrite Hstep. split_and!; [done|done|congruence].
    + exists s'. rewrite Hstep. split_and!; [done|done|]. by apply (bus_read_same s1).
Qed.

Lemma sb_read_starts (t : dm) : sb_busy t = false -> sbbusyerror (sbcs t) = false ->
  sb_read_start t = Some (tt, t <| sb_read_wait := 20 |>).
Proof using. intros Hb He. unfold sb_read_start. by rewrite get_bind, Hb, He. Qed.
Lemma start_read s v : dm_wf config hartids s -> authenticated (dmstatus s) = true -> sb_busy s = false ->
  error (sbcs s) = 0 -> sbbusyerror (sbcs s) = false -> readonaddr (sbcs s) = true ->
  dmi_write config hartids DM_SBADDRESS0 v s =
    Some (true, s <| sbaddress := <[0%nat := v]> (sbaddress s) |> <| sb_read_wait := 20 |>).
Proof using Hok.
  intros Hs Ha Hb He Hbe Hr. unfold dmi_write. rewrite get_bind, Ha. cbn [negb andb].
  rewrite (wf_datacount _ _ s Hs). replace (_ && (DM_SBADDRESS0 <? _)) with false by (unfold DM_SBADDRESS0, DM_DATA0; lia).
  replace (_ && (DM_SBADDRESS0 <? _)) with false by (destruct Hok; unfold DM_SBADDRESS0, DM_PROGBUF0; lia).
  change (switch DM_SBADDRESS0 _ _) with (ok (write_sbaddress (X := X) 0 v)). unfold ok, write_sbaddress.
  unfold mbind, D_bind, gets. cbn [id]. rewrite Hb. unfold lift. rewrite update_some by (rewrite (wf_sbaddress _ _ s Hs); lia).
  unfold modify. rewrite He, Hr. cbn [Z.eqb andb when]. change (Z.to_nat 0) with O. 
  match goal with |- context [sb_read_start ?t] => rewrite (sb_read_starts t Hb Hbe) end. reflexivity.
Qed.
End bus.


(** The module of [sba_config] on two harts after some accesses. *)
Definition reached (ops : list dm_op) : debug_module_t board :=
  match new_debug_module sba_config two_harts raw_module with
  | Some s => match for_each ops (dm_run sba_config two_harts) s with Some (_, s) => s | None => raw_module end
  | None => raw_module
  end.
Ltac concrete_wf := constructor; vm_compute; repeat split; try reflexivity; try discriminate; left; reflexivity.

(** Authenticated, active, and set to read 32-bit words on a new address, incrementing it. *)
Definition sba_ready : debug_module_t board := reached (firstn 4 session ++ [DmiWrite DM_SBCS 0x150000]).
Example word_read : match idles sba_config 20 (reached (firstn 4 session ++ [DmiWrite DM_SBCS 0x150000; DmiWrite DM_SBADDRESS0 0x10])) with
  | Some (_, s) => (sbdata s, sbaddress s, sb_busy s) | None => ([], [], true) end = ([0x13121110; 0; 0; 0], [0x14; 0; 0; 0], false).
Proof. vm_compute. reflexivity. Qed.

(** The increment of the address never reaches the second word: it is computed in 32 bits. *)
Example autoincrement_no_carry :
  match idles sba_config 20 (reached (firstn 4 session ++ [DmiWrite DM_SBCS 0x150000; DmiWrite DM_SBADDRESS1 0x1; DmiWrite DM_SBADDRESS0 0xfffffffc])) with
  | Some (_, s) => (error (sbcs s), incremented sba_config s) | None => (0, []) end = (2, [0; 1; 0; 0]).
Proof. vm_compute. reflexivity. Qed.

(** Availability is looked up by the position of the selected hart for commands and by its identifier for
    [dmstatus]: hart 5 of the harts 0 and 5, made unavailable through [DM_CUSTOM] at position 1, is reported
    halted and available while every command for it is refused. *)
Example availability_by_position :
  let s := reached (firstn 6 session ++ [DmiWrite DM_CUSTOM 1; DmiWrite DM_COMMAND 0x221009]) in
  (cmderr (abstractcs s), match hart_available 5 s with Some (a, _) => Some a | None => None end) = (CMDERR_HALTRESUME, Some true).
Proof. vm_compute. reflexivity. Qed.

(** A program in the program buffer may report any identifier: [hart_state[id]] is not checked. *)
Example halted_identifier_unchecked : store sba_config two_harts DEBUG_ROM_HALTED [100; 0; 0; 0] (reached (firstn 6 session)) = None.
Proof. vm_compute. reflexivity. Qed.

(** Reads are served before authentication. *)
Example read_unauthenticated :
  match dmi_read sba_config two_harts DM_DATA0 (reached []) with Some (r, s) => (authenticated (dmstatus s), r) | None => (true, None) end
  = (false, Some 0).
Proof. vm_compute. reflexivity. Qed.
