(* ===== verification/DebugAbstract.v ===== *)
(** * Abstract commands: what the assembled programs do

    [perform_abstract_command] of [debug_module.cc] writes, for a register access, a
    program of at most eleven words that the halted hart executes out of the module's
    memory.  Here is the meaning of the instructions it uses on a 64-bit hart in debug mode
    ([debug_hart], decoded with the extractors of [Decode.v]), and the effect of the
    program: exactly the named register and the data words change, besides the debug
    scratch registers, and control ends at the [ebreak] or in the program buffer. *)

From Stdlib Require Import ZifyBool.
From stdpp Require Import list.
From S2P Require Import Prelude Arith Decode Opcodes DebugModule DebugProps DebugBus.
Local Open Scope cint_scope.

(** ** The hart *)

(** Integer registers, floating-point registers, CSRs and the two data words. *)
Record debug_hart := DebugHart { xreg : Z -> Z; freg : Z -> Z; creg : Z -> Z; data0 : Z; data1 : Z }.

Definition fset (f : Z -> Z) (k v : Z) : Z -> Z := fun i => if i =? k then v else f i.
Definition get_x (h : debug_hart) (r : Z) : Z := if r =? 0 then 0 else xreg h r.
Definition set_x (r v : Z) (h : debug_hart) : debug_hart :=
  DebugHart (if r =? 0 then xreg h else fset (xreg h) r v) (freg h) (creg h) (data0 h) (data1 h).
Definition set_f (r v : Z) (h : debug_hart) : debug_hart := DebugHart (xreg h) (fset (freg h) r v) (creg h) (data0 h) (data1 h).
Definition set_c (c v : Z) (h : debug_hart) : debug_hart := DebugHart (xreg h) (freg h) (fset (creg h) c v) (data0 h) (data1 h).
Definition set_data (d0 d1 : Z) (h : debug_hart) : debug_hart := DebugHart (xreg h) (freg h) (creg h) d0 d1.

(** A word in an integer register is sign-extended, in a floating-point register NaN-boxed. *)
Definition word_x (h : debug_hart) : Z := u64 (s32 (data0 h)).
Definition word_f (h : debug_hart) : Z := 2 ^ 64 - 2 ^ 32 + u32 (data0 h).
Definition double (h : debug_hart) : Z := u64 (data0 h + 2 ^ 32 * data1 h).
Definition store_single (v : Z) (h : debug_hart) : debug_hart := set_data (u32 v) (data1 h) h.
Definition store_double (v : Z) (h : debug_hart) : debug_hart := set_data (u32 v) (u32 (v >>! 32)) h.

(** An instruction other than a jump; loads and stores reach only the data words. *)
Definition debug_exec (w : Z) (h : debug_hart) : option debug_hart :=
  let op := w &! 0x707f in
  let at_load := get_x h (insn_rs1 w) + insn_i_imm w =? debug_data_start in
  let at_store := get_x h (insn_rs1 w) + insn_s_imm w =? debug_data_start in
  if w &! 0x7f =? MATCH_LUI then Some (set_x (insn_rd w) (u64 (insn_u_imm w)) h)
  else if op =? MATCH_LW then (if at_load then Some (set_x (insn_rd w) (word_x h) h) else None)
  else if op =? MATCH_LD then (if at_load then Some (set_x (insn_rd w) (double h) h) else None)
  else if op =? MATCH_FLW then (if at_load then Some (set_f (insn_rd w) (word_f h) h) else None)
  else if op =? MATCH_FLD then (if at_load then Some (set_f (insn_rd w) (double h) h) else None)
  else if op =? MATCH_SW then (if at_store then Some (store_single (get_x h (insn_rs2 w)) h) else None)
  else if op =? MATCH_SD then (if at_store then Some (store_double (get_x h (insn_rs2 w)) h) else None)
  else if op =? MATCH_FSW then (if at_store then Some (store_single (freg h (insn_rs2 w)) h) else None)
  else if op =? MATCH_FSD then (if at_store then Some (store_double (freg h (insn_rs2 w)) h) else None)
  else if op =? MATCH_CSRRW then
    Some (set_x (insn_rd w) (creg h (insn_csr w)) (set_c (insn_csr w) (get_x h (insn_rs1 w)) h))
  else if op =? MATCH_CSRRS then
    let old := creg h (insn_csr w) in
    Some (set_x (insn_rd w) old (if insn_rs1 w =? 0 then h else set_c (insn_csr w) (old |! get_x h (insn_rs1 w)) h))
  else None.

(** Where control ends: at an [ebreak], which re-enters debug mode, or at a jump. *)
Inductive debug_end := AtEbreak | JumpTo (address : Z).
Fixpoint debug_run (fuel : nat) (start : Z) (code : list Z) (i : Z) (h : debug_hart) : option (debug_end * debug_hart) :=
  match fuel with
  | O => None
  | S fuel =>
    match read32 code i with
    | None => None
    | Some w =>
      if w =? MATCH_EBREAK then Some (AtEbreak, h)
      else if w &! 0x7f =? MATCH_JAL then Some (JumpTo (start + 4 * i + insn_uj_imm w), set_x (insn_rd w) (start + 4 * i + 4) h)
      else match debug_exec w h with Some h => debug_run fuel start code (i + 1) h | None => None end
    end
  end.

(** ** Executing the words of the encoders *)

Definition same_hart (a b : debug_hart) : Prop :=
  (forall r, get_x a r = get_x b r) /\ (forall r, freg a r = freg b r) /\ (forall c, creg a c = creg b c) /\
  data0 a = data0 b /\ data1 a = data1 b.

Section exec.
Context (h : debug_hart) (r : Z) (Hr : 0 <= r < 2 ^ 5).

Lemma low_opcode w op : w &! 0x707f = op -> w &! 0x7f = op &! 0x7f.
Proof using. intros <-. by rewrite <- Z.land_assoc. Qed.

(** Reduces [debug_exec w] for a word of known fields. *)
Ltac exec_word Hw :=
  destruct Hw as (Hf1 & Hf2 & Hf3 & Hop); unfold debug_exec; rewrite (low_opcode _ _ Hop), Hop, ?Hf1, ?Hf2, ?Hf3; reflexivity.
Lemma exec_lw : debug_exec (lw r 0 0x380) h = Some (set_x r (word_x h) h).
Proof using Hr. exec_word (lw_ok r Hr). Qed.
Lemma exec_ld : debug_exec (ld r 0 0x380) h = Some (set_x r (double h) h).
Proof using Hr. exec_word (ld_ok r Hr). Qed.
Lemma exec_flw : debug_exec (flw r 0 0x380) h = Some (set_f r (word_f h) h).
Proof using Hr. exec_word (flw_ok r Hr). Qed.
Lemma exec_fld : debug_exec (fld r 0 0x380) h = Some (set_f r (double h) h).
Proof using Hr. exec_word (fld_ok r Hr). Qed.
Lemma exec_sw : debug_exec (sw r 0 0x380) h = Some (store_single (get_x h r) h).
Proof using Hr. exec_word (sw_ok r Hr). Qed.
Lemma exec_sd : debug_exec (sd r 0 0x380) h = Some (store_double (get_x h r) h).
Proof using Hr. exec_word (sd_ok r Hr). Qed.
Lemma exec_fsw : debug_exec (fsw r 0 0x380) h = Some (store_single (freg h r) h).
Proof using Hr. exec_word (fsw_ok r Hr). Qed.
Lemma exec_fsd : debug_exec (fsd r 0 0x380) h = Some (store_double (freg h r) h).
Proof using Hr. exec_word (fsd_ok r Hr). Qed.
Lemma exec_csrw c : 0 <= c < 2 ^ 12 -> debug_exec (csrw r c) h = Some (set_x 0 (creg h c) (set_c c (get_x h r) h)).
Proof using Hr. intros Hc. exec_word (csrw_ok r c Hr Hc). Qed.
Lemma exec_csrr c : 0 <= c < 2 ^ 12 -> debug_exec (csrr r c) h = Some (set_x r (creg h c) h).
Proof using Hr. intros Hc. exec_word (csrr_ok r c Hr Hc). Qed.
End exec.

(** The words run one after the other. *)
Fixpoint exec_list (ws : list Z) (h : debug_hart) : option debug_hart :=
  match ws with [] => Some h | w :: ws => match debug_exec w h with Some h => exec_list ws h | None => None end end.
Lemma exec_list_app a b h h1 : exec_list a h = Some h1 -> exec_list (a ++ b) h = exec_list b h1.
Proof.
  revert h. induction a as [|w a IH]; intros h E; cbn [exec_list app] in *; [by injection E as ->|].
  destruct (debug_exec w h); [by apply IH|done].
Qed.

Lemma exec_not_end w h h' : debug_exec w h = Some h' -> (w =? MATCH_EBREAK) = false /\ (w &! 0x7f =? MATCH_JAL) = false.
Proof.
  intros E. split; apply Z.eqb_neq; intros Hw.
  - rewrite Hw in E. discriminate E.
  - unfold debug_exec in E. assert (Hop : w &! 0x7f = (w &! 0x707f) &! 0x7f) by (by rewrite <- Z.land_assoc).
    rewrite Hw in Hop, E. change (MATCH_JAL =? MATCH_LUI) with false in E. cbn [andb] in E.
    repeat match type of E with (if ?a =? ?b then _ else _) = _ =>
      destruct (Z.eqb_spec a b) as [Ho|]; [rewrite Ho in Hop; discriminate Hop|] end.
    discriminate E.
Qed.

(** The words [ws] are at position [i] of the abstract command memory. *)
Definition code_at (code : list Z) (i : Z) (ws : list Z) : Prop :=
  forall k w, ws !! k = Some w -> read32 code (i + Z.of_nat k) = Some w.
Lemma debug_run_list ws : forall start code i h h' n, code_at code i ws -> exec_list ws h = Some h' ->
  debug_run (length ws + n) start code i h = debug_run n start code (i + zlen ws) h'.
Proof.
  induction ws as [|w ws IH]; intros start code i h h' n Hc E; cbn [exec_list length] in *.
  { injection E as ->. change (zlen []) with 0. by rewrite Z.add_0_r. }
  destruct (debug_exec w h) as [h1|] eqn:E1; [|done]. destruct (exec_not_end w h h1 E1) as [Hb Hj].
  change (S (length ws) + n)%nat with (S (length ws + n)). cbn [debug_run].
  pose proof (Hc O w eq_refl) as Hw. rewrite Z.add_0_r in Hw. rewrite Hw, Hb, Hj, E1.
  rewrite (IH start code (i + 1) h1 h' n); [|intros k w' Hk|done].
  - f_equal. unfold zlen. cbn [length]. lia.
  - replace (i + 1 + Z.of_nat k) with (i + Z.of_nat (S k)) by lia. by apply Hc.
Qed.

(** ** The program of a register access *)

Definition pick (size a b : Z) : Z := if size =? 2 then a else b.
Definition fpu_prologue : list Z :=
  [csrw S0 CSR_DSCRATCH0; csrr S0 CSR_MSTATUS; csrw S0 CSR_DSCRATCH1; lui S0 (MSTATUS_FS >>! 12); csrrs ZERO S0 CSR_MSTATUS].
Definition fpu_epilogue : list Z := [csrr S0 CSR_DSCRATCH1; csrw S0 CSR_MSTATUS; csrr S0 CSR_DSCRATCH0].
Definition csr_words (size : Z) (write : bool) (regno : Z) : list Z :=
  if write then [pick size (lw S0 ZERO debug_data_start) (ld S0 ZERO debug_data_start); csrw S0 regno]
  else [csrr S0 regno; pick size (sw S0 ZERO debug_data_start) (sd S0 ZERO debug_data_start)].
Definition gpr_words (size : Z) (write : bool) (r : Z) : list Z :=
  [if write then pick size (lw r ZERO debug_data_start) (ld r ZERO debug_data_start)
   else pick size (sw r ZERO debug_data_start) (sd r ZERO debug_data_start)] ++
  (if (r =? S0) && write then [csrw S0 CSR_DSCRATCH0] else []).
Definition fpr_words (size : Z) (write : bool) (r : Z) : list Z :=
  [if write then pick size (flw r ZERO debug_data_start) (fld r ZERO debug_data_start)
   else pick size (fsw r ZERO debug_data_start) (fsd r ZERO debug_data_start)].
Definition access_words (size : Z) (write : bool) (regno : Z) : list Z :=
  if regno <? 0x1000 then
    if is_fpu_reg regno then fpu_prologue ++ csr_words size write regno ++ fpu_epilogue
    else [csrw S0 CSR_DSCRATCH0] ++ csr_words size write regno ++ [csrr S0 CSR_DSCRATCH0]
  else if regno <? 0x1020 then gpr_words size write (regno - 0x1000)
  else fpu_prologue ++ fpr_words size write (regno - 0x1020) ++ fpu_epilogue.

(** What it does. *)
Definition value_of (h : debug_hart) (regno : Z) : Z :=
  if regno <? 0x1000 then creg h regno else if regno <? 0x1020 then get_x h (regno - 0x1000) else freg h (regno - 0x1020).
Definition incoming (size regno : Z) (h : debug_hart) : Z :=
  if size =? 3 then double h else if regno <? 0x1020 then word_x h else word_f h.
Definition transferred (size : Z) (write : bool) (regno : Z) (h h' : debug_hart) : Prop :=
  (forall r, write = false \/ regno <> 0x1000 + r -> get_x h' r = get_x h r) /\
  (forall r, write = false \/ regno <> 0x1020 + r -> freg h' r = freg h r) /\
  (forall c, 0 <= c < 0x1000 -> c <> CSR_DSCRATCH0 -> c <> CSR_DSCRATCH1 -> write = false \/ regno <> c -> creg h' c = creg h c) /\
  if write then (regno <> 0x1000 -> value_of h' regno = incoming size regno h) /\ data0 h' = data0 h /\ data1 h' = data1 h
  else data0 h' = u32 (value_of h regno) /\ data1 h' = if size =? 3 then u32 (value_of h regno >>! 32) else data1 h.

(** A register an abstract command may name: the scratch register that the programs use is not one. *)
Definition plain_reg (regno : Z) : Prop := 0 <= regno < 0x1040 /\ regno <> CSR_DSCRATCH0.

Lemma exec_lui h : debug_exec (lui 8 (MSTATUS_FS >>! 12)) h = Some (set_x 8 MSTATUS_FS h).
Proof. vm_compute (lui _ _). reflexivity. Qed.
Lemma exec_csrrs h : debug_exec (csrrs 0 8 0x300) h =
  Some (set_x 0 (creg h 0x300) (set_c 0x300 (creg h 0x300 |! get_x h 8) h)).
Proof. vm_compute (csrrs _ _ _). reflexivity. Qed.

(** ** Effects *)

Lemma exec_then w ws h h1 (P : debug_hart -> Prop) : debug_exec w h = Some h1 ->
  (exists g, exec_list ws h1 = Some g /\ P g) -> exists g, exec_list (w :: ws) h = Some g /\ P g.
Proof. intros E Hg. cbn [exec_list]. by rewrite E. Qed.
Lemma exec_done h (P : debug_hart -> Prop) : P h -> exists g, exec_list [] h = Some g /\ P g.
Proof. intros Hp. by exists h. Qed.
Lemma exec_append a b h (P Q : debug_hart -> Prop) : (exists g, exec_list a h = Some g /\ P g) ->
  (forall g, P g -> exists g', exec_list b g = Some g' /\ Q g') -> exists g', exec_list (a ++ b) h = Some g' /\ Q g'.
Proof. intros (g & E & Hp) Hq. rewrite (exec_list_app a b h g E). by apply Hq. Qed.

Lemma get_x_0 h : get_x h 0 = 0. Proof. done. Qed.
(** What an update shows of a register. *)
Section observe.
Context (h : debug_hart) (r v w i : Z).
Lemma get_set_x : get_x (set_x r v h) i = if i =? 0 then 0 else if i =? r then v else get_x h i.
Proof using.
  unfold get_x, set_x, fset. cbn [xreg]. destruct (Z.eqb_spec i 0); [done|]. destruct (Z.eqb_spec r 0), (Z.eqb_spec i r); (lia || done).
Qed.
Lemma get_set_c : get_x (set_c r v h) i = get_x h i. Proof using. done. Qed.
Lemma get_set_f : get_x (set_f r v h) i = get_x h i. Proof using. done. Qed.
Lemma get_set_data : get_x (set_data v w h) i = get_x h i. Proof using. done. Qed.
Lemma creg_set_x : creg (set_x r v h) i = creg h i. Proof using. done. Qed.
Lemma creg_set_f : creg (set_f r v h) i = creg h i. Proof using. done. Qed.
Lemma creg_set_data : creg (set_data v w h) i = creg h i. Proof using. done. Qed.
Lemma creg_set_c : creg (set_c r v h) i = if i =? r then v else creg h i. Proof using. done. Qed.
Lemma freg_set_x : freg (set_x r v h) i = freg h i. Proof using. done. Qed.
Lemma freg_set_c : freg (set_c r v h) i = freg h i. Proof using. done. Qed.
Lemma freg_set_data : freg (set_data v w h) i = freg h i. Proof using. done. Qed.
Lemma freg_set_f : freg (set_f r v h) i = if i =? r then v else freg h i. Proof using. done. Qed.
Lemma data_set_x : data0 (set_x r v h) = data0 h /\ data1 (set_x r v h) = data1 h. Proof using. done. Qed.
Lemma data_set_c : data0 (set_c r v h) = data0 h /\ data1 (set_c r v h) = data1 h. Proof using. done. Qed.
Lemma data_set_f : data0 (set_f r v h) = data0 h /\ data1 (set_f r v h) = data1 h. Proof using. done. Qed.
Lemma data_set_data : data0 (set_data v w h) = v /\ data1 (set_data v w h) = w. Proof using. done. Qed.
End observe.
Create Rewrite HintDb debug_hart.
#[local] Hint Rewrite get_set_x get_set_c get_set_f get_set_data creg_set_x creg_set_f creg_set_data creg_set_c
  freg_set_x freg_set_c freg_set_data freg_set_f : debug_hart.
#[local] Hint Rewrite (fun h r v => proj1 (data_set_x h r v)) (fun h r v => proj2 (data_set_x h r v))
  (fun h r v => proj1 (data_set_c h r v)) (fun h r v => proj2 (data_set_c h r v))
  (fun h r v => proj1 (data_set_f h r v)) (fun h r v => proj2 (data_set_f h r v))
  (fun h v w => proj1 (data_set_data h v w)) (fun h v w => proj2 (data_set_data h v w)) : debug_hart.

Ltac exec_word_of w :=
  lazymatch w with
  | lw _ _ _ => apply exec_lw; lia | ld _ _ _ => apply exec_ld; lia
  | sw _ _ _ => apply exec_sw; lia | sd _ _ _ => apply exec_sd; lia
  | flw _ _ _ => apply exec_flw; lia | fld _ _ _ => apply exec_fld; lia
  | fsw _ _ _ => apply exec_fsw; lia | fsd _ _ _ => apply exec_fsd; lia
  | csrw _ _ => apply exec_csrw; lia | csrr _ _ => apply exec_csrr; lia
  | lui _ _ => apply exec_lui | csrrs _ _ _ => apply exec_csrrs
  end.
(** One instruction; the state it leaves is named, with its defining equation. *)
Ltac exec_step :=
  match goal with |- exists g, exec_list (?w :: _) _ = Some g /\ _ =>
    eapply exec_then; [exec_word_of w|];
    match goal with |- exists g, exec_list _ ?st = Some g /\ _ => let h1 := fresh "h1" in let E := fresh "Eh" in remember st as h1 eqn:E end
  end.
(** A register of a named state, through the update that made it. *)
Ltac observe_step :=
  match goal with
  | E : ?g = _ |- context [get_x ?g _] => is_var g; rewrite E
  | E : ?g = _ |- context [creg ?g _] => is_var g; rewrite E
  | E : ?g = _ |- context [freg ?g _] => is_var g; rewrite E
  | E : ?g = _ |- context [data0 ?g] => is_var g; rewrite E
  | E : ?g = _ |- context [data1 ?g] => is_var g; rewrite E
  | |- context [if ?a =? ?b then _ else _] => destruct (Z.eqb_spec a b); [try lia|try lia]
  end; unfold store_single, store_double, word_x, word_f, double; autorewrite with debug_hart; cbn [Z.eqb Pos.eqb].
Ltac observe := intros; unfold store_single, store_double, word_x, word_f, double; repeat observe_step; try lia; try congruence; try reflexivity;
  try match goal with e : ?r = 0 |- _ => rewrite e, get_x_0; reflexivity end.
Ltac effect := repeat exec_step; apply exec_done.

(** Between the prologue and the epilogue of a floating-point access: [s0] is free, and the scratch registers
    hold what the epilogue restores. *)
Record saved (h g : debug_hart) : Prop := {
  saved_x : forall r, r <> 8 -> get_x g r = get_x h r;
  saved_f : forall r, freg g r = freg h r;
  saved_c : forall c, c <> 0x7b2 -> c <> 0x7b3 -> c <> 0x300 -> creg g c = creg h c;
  saved_s0 : creg g 0x7b2 = get_x h 8;
  saved_mstatus : creg g 0x7b3 = creg h 0x300;
  saved_data0 : data0 g = data0 h;
  saved_data1 : data1 g = data1 h
}.
Record restored (g h : debug_hart) : Prop := {
  restored_x : forall r, r <> 8 -> get_x h r = get_x g r;
  restored_f : forall r, freg h r = freg g r;
  restored_c : forall c, c <> 0x300 -> creg h c = creg g c;
  restored_s0 : get_x h 8 = creg g 0x7b2;
  restored_mstatus : creg h 0x300 = creg g 0x7b3;
  restored_data0 : data0 h = data0 g;
  restored_data1 : data1 h = data1 g
}.
Lemma prologue_effect h : exists g, exec_list fpu_prologue h = Some g /\ saved h g.
Proof.
  unfold fpu_prologue, S0, ZERO, CSR_DSCRATCH0, CSR_DSCRATCH1, CSR_MSTATUS. effect. constructor; observe.
Qed.
Lemma epilogue_effect g : exists h, exec_list fpu_epilogue g = Some h /\ restored g h.
Proof. unfold fpu_epilogue, S0, CSR_DSCRATCH0, CSR_DSCRATCH1, CSR_MSTATUS. effect. constructor; observe. Qed.

Section effect.
Context (h : debug_hart) (size : Z) (Hsize : size = 2 \/ size = 3).

(** An integer register. *)
Lemma gpr_effect write r : 0 <= r < 32 ->
  exists h', exec_list (gpr_words size write r) h = Some h' /\ transferred size write (0x1000 + r) h h'.
Proof using Hsize.
  intros Hr. unfold gpr_words, pick, ZERO, S0, debug_data_start, CSR_DSCRATCH0.
  assert (Hv : forall h, value_of h (0x1000 + r) = get_x h r).
  { intros g. unfold value_of. replace (0x1000 + r <? 0x1000) with false by lia. replace (0x1000 + r <? 0x1020) with true by lia.
    f_equal. lia. }
  assert (Hi : incoming size (0x1000 + r) h = if size =? 3 then double h else word_x h).
  { unfold incoming. by replace (0x1000 + r <? 0x1020) with true by lia. }
  unfold transferred, CSR_DSCRATCH0, CSR_DSCRATCH1. rewrite Hi, Hv.
  destruct write; [destruct (Z.eqb_spec r 8) as [->|]|rewrite andb_false_r]; cbn [andb app];
    destruct Hsize as [-> | ->]; cbn [Z.eqb Pos.eqb]; effect; (split_and!; [observe|observe|observe|..]); rewrite ?Hv; observe.
Qed.

(** A CSR, through [s0]. *)
Lemma csr_body_effect write c g : 0 <= c < 0x1000 -> data0 g = data0 h -> data1 g = data1 h ->
  exists g', exec_list (csr_words size write c) g = Some g' /\
    (forall r, r <> 8 -> get_x g' r = get_x g r) /\ (forall r, freg g' r = freg g r) /\
    (forall i, write = false \/ i <> c -> creg g' i = creg g i) /\
    if write then creg g' c = (if size =? 3 then double h else word_x h) /\ data0 g' = data0 h /\ data1 g' = data1 h
    else data0 g' = u32 (creg g c) /\ data1 g' = if size =? 3 then u32 (creg g c >>! 32) else data1 h.
Proof using Hsize.
  intros Hc H0 H1. unfold csr_words, pick, ZERO, S0, debug_data_start.
  destruct write; destruct Hsize as [-> | ->]; cbn [Z.eqb Pos.eqb]; effect;
    (split_and!; [observe|observe|observe|..]); unfold word_x, double; rewrite <- ?H0, <- ?H1; observe.
Qed.

Lemma csr_plain_effect write c : 0 <= c < 0x1000 -> c <> CSR_DSCRATCH0 -> is_fpu_reg c = false ->
  exists h', exec_list ([csrw S0 CSR_DSCRATCH0] ++ csr_words size write c ++ [csrr S0 CSR_DSCRATCH0]) h = Some h' /\
    transferred size write c h h'.
Proof using Hsize.
  unfold CSR_DSCRATCH0, S0. intros Hc Hn Hf.
  assert (Hv : forall h, value_of h c = creg h c) by (intros g; unfold value_of; by replace (c <? 0x1000) with true by lia).
  assert (Hi : incoming size c h = if size =? 3 then double h else word_x h)
    by (unfold incoming; by replace (c <? 0x1020) with true by lia).
  cbn [app]. exec_step. assert (Hd : data0 h1 = data0 h /\ data1 h1 = data1 h) by (split; observe).
  eapply exec_append; [by apply (csr_body_effect write c h1); [|apply Hd|apply Hd]|].
  intros g (Hx & Hg & Hcr & Hr). effect.
  assert (X : forall r, get_x h0 r = get_x h r).
  { intros r. destruct (Z.eq_dec r 8) as [->|]; observe; [rewrite Hcr by (right; lia); observe|rewrite Hx by done; observe]. }
  unfold transferred, CSR_DSCRATCH0, CSR_DSCRATCH1. rewrite Hi, !Hv. split_and!; [intros; apply X|intros; rewrite Eh0| |].
  - autorewrite with debug_hart. rewrite Hg. observe.
  - intros i Hir H1 H2 Hw. rewrite Eh0. autorewrite with debug_hart. rewrite Hcr by (destruct Hw; [by left|right; congruence]). observe.
  - rewrite Eh0. autorewrite with debug_hart. destruct write; [by destruct Hr as (-> & -> & ->)|].
    replace (creg h c) with (creg h1 c) by observe. done.
Qed.

Lemma csr_fpu_effect write c : c = 1 \/ c = 2 \/ c = 3 ->
  exists h', exec_list (fpu_prologue ++ csr_words size write c ++ fpu_epilogue) h = Some h' /\ transferred size write c h h'.
Proof using Hsize.
  intros Hc. assert (Hv : forall h, value_of h c = creg h c) by (intros g; unfold value_of; by replace (c <? 0x1000) with true by lia).
  assert (Hi : incoming size c h = if size =? 3 then double h else word_x h)
    by (unfold incoming; by replace (c <? 0x1020) with true by lia).
  eapply exec_append; [apply prologue_effect|]. intros g1 [S1 S2 S3 S4 S5 S6 S7].
  eapply exec_append; [apply (csr_body_effect write c g1); [lia|done|done]|]. intros g2 (Hx & Hg & Hcr & Hr).
  destruct (epilogue_effect g2) as (h' & E & [R1 R2 R3 R4 R5 R6 R7]). exists h'. split; [done|].
  assert (Hk : forall i, i <> c -> creg g2 i = creg g1 i) by (intros; apply Hcr; by right).
  unfold transferred, CSR_DSCRATCH0, CSR_DSCRATCH1. rewrite Hi, !Hv. split_and!.
  - intros r _. destruct (Z.eq_dec r 8) as [->|]; [by rewrite R4, Hk, S4 by lia|by rewrite R1, Hx, S1].
  - intros r _. by rewrite R2, Hg, S2.
  - intros i Hir H1 H2 Hw. destruct (Z.eq_dec i 0x300) as [->|]; [by rewrite R5, Hk, S5 by lia|].
    rewrite R3, Hcr, S3 by (done || (destruct Hw; [by left|right; congruence])). done.
  - rewrite R6, R7. replace (creg h c) with (creg g1 c) by (apply S3; lia). destruct write; [|done].
    rewrite R3 by lia. destruct Hr as (-> & -> & ->). done.
Qed.

Lemma fpr_effect write r : 0 <= r < 32 ->
  exists h', exec_list (fpu_prologue ++ fpr_words size write r ++ fpu_epilogue) h = Some h' /\
    transferred size write (0x1020 + r) h h'.
Proof using Hsize.
  intros Hr. assert (Hv : forall h, value_of h (0x1020 + r) = freg h r).
  { intros g. unfold value_of. replace (0x1020 + r <? 0x1000) with false by lia. replace (0x1020 + r <? 0x1020) with false by lia.
    f_equal. lia. }
  assert (Hi : incoming size (0x1020 + r) h = if size =? 3 then double h else word_f h).
  { unfold incoming. by replace (0x1020 + r <? 0x1020) with false by lia. }
  eapply exec_append; [apply prologue_effect|]. intros g1 [S1 S2 S3 S4 S5 S6 S7].
  assert (Hb : exists g, exec_list (fpr_words size write r) g1 = Some g /\ (forall i, get_x g i = get_x g1 i) /\
    (forall i, creg g i = creg g1 i) /\ (forall i, write = false \/ i <> r -> freg g i = freg g1 i) /\
    if write then freg g r = (if size =? 3 then double h else word_f h) /\ data0 g = data0 h /\ data1 g = data1 h
    else data0 g = u32 (freg h r) /\ data1 g = if size =? 3 then u32 (freg h r >>! 32) else data1 h).
  { unfold fpr_words, pick, ZERO, debug_data_start. destruct write; destruct Hsize as [-> | ->]; cbn [Z.eqb Pos.eqb]; effect;
      (split_and!; [observe|observe|observe|..]); unfold word_f, double; rewrite <- ?S6, <- ?S7, <- ?S2; observe. }
  eapply exec_append; [exact Hb|]. intros g2 (Hx & Hc & Hf & Hd).
  destruct (epilogue_effect g2) as (h' & E & [R1 R2 R3 R4 R5 R6 R7]). exists h'. split; [done|].
  unfold transferred, CSR_DSCRATCH0, CSR_DSCRATCH1. rewrite Hi, !Hv. split_and!.
  - intros i _. destruct (Z.eq_dec i 8) as [->|]; [by rewrite R4, Hc, S4|by rewrite R1, Hx, S1].
  - intros i Hw. rewrite R2, Hf, S2 by (destruct Hw; [by left|right; lia]). done.
  - intros i Hir H1 H2 _. destruct (Z.eq_dec i 0x300) as [->|]; [by rewrite R5, Hc, S5|by rewrite R3, Hc, S3].
  - rewrite R6, R7. destruct write; [|done]. rewrite R2. by destruct Hd as (-> & -> & ->).
Qed.
End effect.

(** Every supported register access. *)
Lemma access_effect h size write regno : size = 2 \/ size = 3 -> plain_reg regno ->
  exists h', exec_list (access_words size write regno) h = Some h' /\ transferred size write regno h h'.
Proof.
  intros Hs [Hr Hn]. unfold access_words. destruct (Z.ltb_spec regno 0x1000).
  - destruct (is_fpu_reg regno) eqn:Ef; [|apply csr_plain_effect; [done|lia|done|done]].
    apply csr_fpu_effect; [done|]. unfold is_fpu_reg, CSR_FFLAGS, CSR_FRM, CSR_FCSR in Ef. lia.
  - destruct (Z.ltb_spec regno 0x1020).
    + pose proof (gpr_effect h size Hs write (regno - 0x1000) ltac:(lia)) as P.
      by replace (0x1000 + (regno - 0x1000)) with regno in P by lia.
    + pose proof (fpr_effect h size Hs write (regno - 0x1020) ltac:(lia)) as P.
      by replace (0x1020 + (regno - 0x1020)) with regno in P by lia.
Qed.

(** ** Assembling the program *)

Lemma copy_in_lookup l off b l' i : copy_in l off b = Some l' ->
  l' !! i = if (Z.to_nat off <=? i)%nat && (i <? Z.to_nat off + length b)%nat then b !! (i - Z.to_nat off)%nat else l !! i.
Proof.
  unfold copy_in. destruct ((0 <=? off) && (off + zlen b <=? zlen l)) eqn:Hr; [|done]. intros E. injection E as <-. unfold zlen in Hr.
  assert (Ht : length (take (Z.to_nat off) l) = Z.to_nat off) by (rewrite length_take; lia).
  destruct (Nat.leb_spec (Z.to_nat off) i); cbn [andb].
  - rewrite lookup_app_r by lia. rewrite Ht. destruct (Nat.ltb_spec i (Z.to_nat off + length b)).
    + by rewrite lookup_app_l by lia.
    + rewrite lookup_app_r, lookup_drop by lia. f_equal. lia.
  - rewrite lookup_app_l by lia. by rewrite lookup_take_lt by lia.
Qed.
Lemma copy_in_length l off b l' : copy_in l off b = Some l' -> length l' = length l /\ 0 <= off /\ off + zlen b <= zlen l.
Proof.
  unfold copy_in. destruct ((0 <=? off) && (off + zlen b <=? zlen l)) eqn:Hr; [|done]. intros E. injection E as <-. unfold zlen in *.
  rewrite !length_app, length_take, length_drop. lia.
Qed.
Lemma copy_out_in_same l off b l' : copy_in l off b = Some l' -> copy_out l' off (zlen b) = Some b.
Proof.
  intros E. destruct (copy_in_length _ _ _ _ E) as (Hl & H0 & H1). unfold copy_out, zlen in *.
  replace ((0 <=? off) && (0 <=? Z.of_nat (length b)) && (off + Z.of_nat (length b) <=? Z.of_nat (length l'))) with true by lia.
  f_equal. apply list_eq. intros k. rewrite Nat2Z.id. destruct (Nat.lt_ge_cases k (length b)).
  - rewrite lookup_take_lt, lookup_drop, (copy_in_lookup _ _ _ _ _ E) by lia.
    replace ((_ <=? _)%nat && _) with true by lia. f_equal. lia.
  - rewrite lookup_take_ge by lia. by rewrite lookup_ge_None_2 by lia.
Qed.
Lemma copy_out_in_other l off b l' off' n : copy_in l off b = Some l' -> off' + n <= off \/ off + zlen b <= off' ->
  copy_out l' off' n = copy_out l off' n.
Proof.
  intros E Hd. destruct (copy_in_length _ _ _ _ E) as (Hl & H0 & H1). unfold copy_out, zlen in *. rewrite Hl.
  destruct ((0 <=? off') && (0 <=? n) && _) eqn:Hr; [|done]. f_equal. apply list_eq. intros k.
  destruct (Nat.lt_ge_cases k (Z.to_nat n)); [|by rewrite !lookup_take_ge by lia].
  rewrite !lookup_take_lt, !lookup_drop, (copy_in_lookup _ _ _ _ _ E) by lia.
  by replace ((_ <=? _)%nat && _) with false by lia.
Qed.

Lemma byte_shift_range x k : 0 <= k <= 24 -> 0 <= (x &! Z.ones 8) <<! k < 2 ^ 32.
Proof.
  intros Hk. assert (Hb : 0 <= x &! Z.ones 8 < 2 ^ 8) by (by apply land_range).
  assert (Hp : 2 ^ k <= 2 ^ 24) by (apply Z.pow_le_mono_r; lia). pose proof (Z.pow_pos_nonneg 2 k ltac:(lia) ltac:(lia)).
  rewrite Z.shiftl_mul_pow2 by lia. rewrite wrap_small; nia.
Qed.
Lemma bytes_word v : 0 <= v < 2 ^ 32 ->
  (v &! 0xff) |! (((v >>! 8) &! 0xff) <<! 8) |! (((v >>! 16) &! 0xff) <<! 16) |! (((v >>! 24) &! 0xff) <<! 24) = v.
Proof.
  intros Hv. change 0xff with (Z.ones 8). apply (field_eq 32); [lia| |done|].
  - repeat (apply lor_range; [lia| |]); try (apply byte_shift_range; lia). change (Z.ones 8) with 0xff. by apply land_range.
  - intros i Hi. each_bit i 32%nat ltac:(fbits; rewrite ?orb_false_r; reflexivity).
Qed.
Lemma read_write_same l i v l' : 0 <= v < 2 ^ 32 -> write32 l i v = Some l' -> read32 l' i = Some v.
Proof.
  intros Hv E. unfold read32. change 4 with (zlen [v &! 0xff; (v >>! 8) &! 0xff; (v >>! 16) &! 0xff; (v >>! 24) &! 0xff]) at 2.
  rewrite (copy_out_in_same _ _ _ _ E). f_equal. by apply bytes_word.
Qed.
Lemma read_write_other l i v l' j : write32 l i v = Some l' -> j <> i -> read32 l' j = read32 l j.
Proof. intros E Hj. unfold read32. by rewrite (copy_out_in_other _ _ _ _ _ _ E) by (unfold zlen; cbn [length]; lia). Qed.

Ltac encoder_range :=
  lazymatch goal with
  | |- 0 <= ?w < _ =>
    lazymatch w with
    | lw _ _ _ => apply load_word_range; debug_opcode | ld _ _ _ => apply load_word_range; debug_opcode
    | flw _ _ _ => apply load_word_range; debug_opcode | fld _ _ _ => apply load_word_range; debug_opcode
    | sw _ _ _ => apply store_word_range; debug_opcode | sd _ _ _ => apply store_word_range; debug_opcode
    | fsw _ _ _ => apply store_word_range; debug_opcode | fsd _ _ _ => apply store_word_range; debug_opcode
    | _ => unfold csrw, csrr, csrrs, jal, lui, ebreak; word_range
    end
  end.
Ltac encoders := repeat apply Forall_cons; try apply Forall_nil; encoder_range.

Section assemble.
Context {X : Type} `{simif X} (config : debug_module_config_t) (hartids : list Z).
Context (Hok : config_ok config hartids).
Local Abbreviation dm := (debug_module_t X).
Local Abbreviation wf := (dm_wf config hartids).

(** [s] is [s0] with the words [ws] assembled from the start of the abstract command memory. *)
Definition emitted (s0 s : dm) (ws : list Z) : Prop :=
  exists l, s = s0 <| debug_abstract := l |> /\ zlen l = 48 /\ code_at l 0 ws.

Lemma code_at_snoc l i w l' ws : code_at l 0 ws -> i = zlen ws -> 0 <= w < 2 ^ 32 -> write32 l i w = Some l' ->
  code_at l' 0 (ws ++ [w]).
Proof using.
  intros Hc -> Hw E k v Hk. destruct (Nat.lt_ge_cases k (length ws)).
  - rewrite lookup_app_l in Hk by lia. rewrite (read_write_other _ _ _ _ _ E) by (unfold zlen; lia). by apply Hc.
  - assert (k = length ws) as ->.
    { apply lookup_lt_Some in Hk. rewrite length_app in Hk. cbn [length] in Hk. lia. }
    rewrite list_lookup_middle in Hk by done. injection Hk as <-. rewrite Z.add_0_l. by apply (read_write_same _ _ _ _ Hw E).
Qed.

Lemma emits_exact ws' : forall s0 s ws (Q : Z -> dm -> Prop), emitted s0 s ws -> Forall (fun w => 0 <= w < 2 ^ 32) ws' ->
  zlen (ws ++ ws') <= 12 -> (forall s', emitted s0 s' (ws ++ ws') -> Q (zlen (ws ++ ws')) s') -> wp (emits (zlen ws) ws') s Q.
Proof using.
  induction ws' as [|w ws' IH]; intros s0 s ws Q Hs Hw Hl HQ; cbn [emits].
  { rewrite app_nil_r in HQ. wp_step. by apply HQ. }
  destruct Hs as (l & -> & Hl48 & Hc). repeat wp_step. dm_simpl.
  assert (zlen ws + 1 <= 12) by (unfold zlen in *; rewrite length_app in Hl; cbn [length] in Hl; lia).
  pose proof (zlen_nonneg ws). destruct (write32_some l (zlen ws) w) as (l' & E & Hl'); [lia..|]. eapply wp_lift; [exact E|].
  repeat wp_step. inversion_clear Hw. replace (zlen ws + 1) with (zlen (ws ++ [w])) by (unfold zlen; rewrite length_app; cbn; lia).
  replace (ws ++ w :: ws') with ((ws ++ [w]) ++ ws') in * by (by rewrite <- app_assoc).
  apply (IH s0); [|done|done|done]. exists l'. split; [done|]. split; [lia|]. by eapply code_at_snoc.
Qed.

Lemma emitted_start s : dm_wf config hartids s -> emitted s s [].
Proof using. intros Hs. exists (debug_abstract s). split; [by destruct s|]. split; [apply (wf_abstract _ _ s Hs)|]. intros k w Hk. done. Qed.

(** The operation succeeds, having added the words [ws']. *)
Definition adds (s0 : dm) (ws : list Z) (m : Z -> D (option Z)) (ws' : list Z) : Prop :=
  forall s, emitted s0 s ws -> wp (m (zlen ws)) s (fun r s' => r = Some (zlen (ws ++ ws')) /\ emitted s0 s' (ws ++ ws')).

Lemma emit_sized_adds s0 ws size a b : size = 2 \/ size = 3 -> 0 <= a < 2 ^ 32 -> 0 <= b < 2 ^ 32 -> zlen ws < 12 ->
  adds s0 ws (fun i => emit_sized i (sized size a b)) [pick size a b].
Proof using.
  intros Hs Ha Hb Hl s He. unfold emit_sized, sized. replace (if size =? 2 then Some a else if size =? 3 then Some b else None) with (Some (pick size a b))
    by (unfold pick; destruct Hs as [-> | ->]; done).
  wp_step. apply (emits_exact _ s0 s ws); [done| |unfold zlen in *; rewrite length_app; cbn [length]; lia|intros s' Hs'; by wp_step].
  apply Forall_cons; [|apply Forall_nil]. unfold pick. by destruct (size =? 2).
Qed.
Lemma then_emit_adds s0 ws ws' s : emitted s0 s ws -> Forall (fun w => 0 <= w < 2 ^ 32) ws' -> zlen (ws ++ ws') <= 12 ->
  wp (then_emit (Some (zlen ws)) ws') s (fun r s' => r = Some (zlen (ws ++ ws')) /\ emitted s0 s' (ws ++ ws')).
Proof using. intros He Hf Hl. unfold then_emit. wp_step. apply (emits_exact _ s0 s ws); [done..|]. intros s' Hs'. by wp_step. Qed.

Section access.
Context (size regno : Z) (write : bool) (Hsize : size = 2 \/ size = 3).

Lemma transfer_gpr_adds s0 ws : zlen ws <= 10 -> adds s0 ws (transfer_gpr size write regno) (gpr_words size write (regno - 0x1000)).
Proof using Hsize.
  intros Hl s He. unfold transfer_gpr, gpr_words. wp_step. unfold ZERO, debug_data_start.
  set (w := if write then pick _ _ _ else pick _ _ _).
  eapply wp_mono with (P := fun r s' => r = Some (zlen (ws ++ [w])) /\ emitted s0 s' (ws ++ [w])).
  { subst w. destruct write; (apply emit_sized_adds; [done|encoder_range|encoder_range|lia|done]). }
  intros r s1 [-> He1]. rewrite (app_assoc ws [w]). replace (regno - 0x1000 =? S0) with (regno =? 0x1000 + S0) by lia.
  apply then_emit_adds; [done|destruct ((regno =? _) && write); encoders|].
  unfold zlen in *. rewrite !length_app. destruct ((regno =? _) && write); cbn [length]; lia.
Qed.
Lemma transfer_fpr_adds s0 ws : zlen ws <= 10 -> adds s0 ws (transfer_fpr size write regno) (fpr_words size write (regno - 0x1020)).
Proof using Hsize.
  intros Hl s He. unfold transfer_fpr, fpr_words, ZERO, debug_data_start.
  destruct write; (apply emit_sized_adds; [done|encoder_range|encoder_range|lia|done]).
Qed.
Lemma transfer_csr_adds s0 ws : zlen ws <= 8 -> adds s0 ws (transfer_csr size write regno)
  ((if is_fpu_reg regno then [] else [csrw S0 CSR_DSCRATCH0]) ++ csr_words size write regno ++
   (if is_fpu_reg regno then [] else [csrr S0 CSR_DSCRATCH0])).
Proof using Hsize.
  intros Hl s He. unfold transfer_csr, csr_words, ZERO, debug_data_start. wp_step.
  set (a := if is_fpu_reg regno then [] else [csrw S0 CSR_DSCRATCH0]). set (c := if is_fpu_reg regno then [] else [csrr S0 CSR_DSCRATCH0]).
  assert (Ha : Forall (fun w => 0 <= w < 2 ^ 32) a /\ zlen a <= 1)
    by (subst a; destruct (is_fpu_reg regno); (split; [encoders|done]) || by split; [apply Forall_nil|]).
  assert (Hc : Forall (fun w => 0 <= w < 2 ^ 32) c /\ zlen c <= 1)
    by (subst c; destruct (is_fpu_reg regno); (split; [encoders|done]) || by split; [apply Forall_nil|]).
  clearbody a c. destruct Ha as [Ha Ha1], Hc as [Hc Hc1].
  apply (emits_exact _ s0 s ws); [done|done|unfold zlen in *; rewrite length_app; lia|]. intros s1 He1. wp_step.
  set (b := if write then _ else _ : list Z).
  eapply wp_mono with (P := fun r s' => r = Some (zlen ((ws ++ a) ++ b)) /\ emitted s0 s' ((ws ++ a) ++ b)).
  - subst b. destruct write.
    + assert (Hr : zlen (ws ++ a) < 12) by (unfold zlen in *; rewrite length_app; lia).
      wp_step. eapply wp_mono; [apply (emit_sized_adds s0 (ws ++ a) size (lw S0 0 0x380) (ld S0 0 0x380)); [done|encoder_range|encoder_range|done|done]|].
      intros r s2 [-> He2]. change [pick size (lw S0 0 0x380) (ld S0 0 0x380); csrw S0 regno] with ([pick size (lw S0 0 0x380) (ld S0 0 0x380)] ++ [csrw S0 regno]).
      rewrite (app_assoc (ws ++ a)). apply then_emit_adds; [done|encoders|]. unfold zlen in *. rewrite !length_app. cbn [length]. lia.
    + wp_step. apply (emits_exact _ s0 s1 (ws ++ a)); [done|encoders|unfold zlen in *; rewrite !length_app; cbn [length]; lia|].
      intros s2 He2. change [csrr S0 regno; pick size (sw S0 0 0x380) (sd S0 0 0x380)] with ([csrr S0 regno] ++ [pick size (sw S0 0 0x380) (sd S0 0 0x380)]).
      rewrite (app_assoc (ws ++ a)). apply emit_sized_adds; [done|encoder_range|encoder_range| |done].
      unfold zlen in *. rewrite !length_app. cbn [length]. lia.
  - intros r s2 [-> He2]. assert (Hb : zlen b = 2) by (subst b; by destruct write). clearbody b.
    replace (ws ++ a ++ b ++ c) with (((ws ++ a) ++ b) ++ c) by (by rewrite <- !app_assoc).
    apply then_emit_adds; [done|done|]. unfold zlen in *. rewrite !length_app. lia.
Qed.
End access.

Definition supported (regno : Z) : bool :=
  ((regno <? 0x1000) && support_abstract_csr_access config) || ((0x1000 <=? regno) && (regno <? 0x1020)) ||
  ((0x1020 <=? regno) && (regno <? 0x1040) && support_abstract_fpr_access config).
Definition custom (regno : Z) : bool := (0xc000 <=? regno) && (regno &! 1 =? 1).
Definition sized_ok (size : Z) : bool := (size =? 2) || (size =? 3).

Lemma zlen_app {A} (a b : list A) : zlen (a ++ b) = zlen a + zlen b.
Proof using. unfold zlen. rewrite length_app. lia. Qed.
Lemma fpu_range regno : is_fpu_reg regno = true -> (1 <= regno <= 3) \/ (0x1020 <= regno < 0x1040).
Proof using. unfold is_fpu_reg, CSR_FFLAGS, CSR_FRM, CSR_FCSR. lia. Qed.

Lemma transfer_supported size write regno s : dm_wf config hartids s -> 0 <= regno -> sized_ok size = true -> supported regno = true ->
  wp (transfer config size write regno 0) s
    (fun r s' => r = Some (zlen (access_words size write regno)) /\ emitted s s' (access_words size write regno)).
Proof using.
  intros Hs Hr Hz Hsup. assert (Hsize : size = 2 \/ size = 3) by (unfold sized_ok in Hz; lia).
  unfold transfer. wp_step. fold fpu_prologue. fold fpu_epilogue.
  set (pre := if is_fpu_reg regno then fpu_prologue else []). set (post := if is_fpu_reg regno then fpu_epilogue else []).
  assert (Hp : Forall (fun w => 0 <= w < 2 ^ 32) pre /\ zlen pre <= 5)
    by (subst pre; destruct (is_fpu_reg regno); [split; [unfold fpu_prologue; encoders|done]|split; [apply Forall_nil|done]]).
  assert (Hq : Forall (fun w => 0 <= w < 2 ^ 32) post /\ zlen post <= 3)
    by (subst post; destruct (is_fpu_reg regno); [split; [unfold fpu_epilogue; encoders|done]|split; [apply Forall_nil|done]]).
  change 0 with (zlen (@nil Z)) at 1.
  apply (emits_exact _ s s []); [by apply emitted_start|apply Hp|cbn [app]; lia|]. cbn [app]. intros s1 He1. wp_step.
  assert (Hmid : exists mid, access_words size write regno = pre ++ mid ++ post /\ zlen mid <= 4 /\
    adds s pre (fun i => if (regno <? 0x1000) && support_abstract_csr_access config then transfer_csr size write regno i
       else if (0x1000 <=? regno) && (regno <? 0x1020) then transfer_gpr size write regno i
       else if (0x1020 <=? regno) && (regno <? 0x1040) && support_abstract_fpr_access config then transfer_fpr size write regno i
       else if (0xc000 <=? regno) && (regno &! 1 =? 1) then transfer_custom write regno
       else notsup) mid).
  { unfold supported in Hsup. pose proof (fpu_range regno) as Hf. unfold access_words.
    destruct ((regno <? 0x1000) && support_abstract_csr_access config) eqn:E1.
    { eexists; split; [|split; [|apply transfer_csr_adds; [done|lia]]]; replace (regno <? 0x1000) with true by lia; subst pre post.
      - destruct (is_fpu_reg regno); cbn [app]; by rewrite <- ?app_assoc.
      - unfold csr_words. destruct (is_fpu_reg regno), write; done. }
    destruct ((0x1000 <=? regno) && (regno <? 0x1020)) eqn:E2.
    { assert (Ef : is_fpu_reg regno = false) by (destruct (is_fpu_reg regno); [|done]; specialize (Hf eq_refl); lia).
      eexists; split; [|split; [|apply transfer_gpr_adds; [done|lia]]]; replace (regno <? 0x1000) with false by lia;
        replace (regno <? 0x1020) with true by lia; subst pre post.
      - rewrite Ef. by rewrite app_nil_r.
      - unfold gpr_words. destruct ((regno - 0x1000 =? S0) && write); done. }
    destruct ((0x1020 <=? regno) && (regno <? 0x1040) && support_abstract_fpr_access config) eqn:E3; [|lia].
    assert (Ef : is_fpu_reg regno = true) by (unfold is_fpu_reg; lia).
    eexists; split; [|split; [|apply transfer_fpr_adds; [done|lia]]]; replace (regno <? 0x1000) with false by lia;
      replace (regno <? 0x1020) with false by lia; subst pre post; by rewrite ?Ef. }
  destruct Hmid as (mid & -> & Hm & Hadds). eapply wp_mono; [by apply Hadds|]. intros r s2 [-> He2].
  rewrite app_assoc. apply then_emit_adds; [done|apply Hq|]. rewrite !zlen_app. lia.
Qed.

(** ** Refusals *)

Definition scribbled (s0 s : dm) : Prop := exists l, zlen l = 48 /\ s = s0 <| debug_abstract := l |>.
Definition refused (e : Z) (s0 s : dm) : Prop :=
  exists l, zlen l = 48 /\ s = s0 <| debug_abstract := l |> <| abstractcs := abstractcs s0 <| cmderr := e |> |>.

Lemma emits_scribbled s0 ws : forall i s (Q : Z -> dm -> Prop), scribbled s0 s -> 0 <= i -> i + zlen ws <= 12 ->
  (forall s', scribbled s0 s' -> Q (i + zlen ws) s') -> wp (emits i ws) s Q.
Proof using.
  induction ws as [|w ws IH]; intros i s Q Hs Hi Hl HQ; cbn [emits].
  { wp_step. specialize (HQ s Hs). change (zlen []) with 0 in HQ. by rewrite Z.add_0_r in HQ. }
  assert (El : zlen (w :: ws) = 1 + zlen ws) by (unfold zlen; cbn [length]; lia). pose proof (zlen_nonneg ws).
  destruct Hs as (l & H48 & ->). repeat wp_step. dm_simpl. destruct (write32_some l i w) as (l' & E & Hl'); [lia..|].
  eapply wp_lift; [exact E|]. repeat wp_step. apply IH; [exists l'; split; [lia|done]|lia|lia|].
  intros s' Hs'. rewrite El in HQ. replace (i + 1 + zlen ws) with (i + (1 + zlen ws)) by lia. by apply HQ.
Qed.
Lemma notsup_refuses s0 s (Q : option Z -> dm -> Prop) : scribbled s0 s ->
  (forall s', refused CMDERR_NOTSUP s0 s' -> Q None s') -> wp notsup s Q.
Proof using. intros (l & Hl & ->) HQ. unfold notsup, set_cmderr. repeat wp_step. apply HQ. by exists l. Qed.
Lemma emit_sized_refuses s0 s i size a b (Q : option Z -> dm -> Prop) : scribbled s0 s -> sized_ok size = false ->
  (forall s', refused CMDERR_NOTSUP s0 s' -> Q None s') -> wp (emit_sized i (sized size a b)) s Q.
Proof using.
  intros Hs Hz HQ. unfold emit_sized, sized. unfold sized_ok in Hz. replace (size =? 2) with false by lia.
  replace (size =? 3) with false by lia. by apply (notsup_refuses s0).
Qed.

Lemma transfer_refuses size write regno s : dm_wf config hartids s -> 0 <= regno -> custom regno = false ->
  sized_ok size && supported regno = false ->
  wp (transfer config size write regno 0) s (fun r s' => r = None /\ refused CMDERR_NOTSUP s s').
Proof using.
  intros Hs Hr Hc Hno. unfold transfer. wp_step.
  set (pre := if is_fpu_reg regno then _ else _ : list Z). set (post := if is_fpu_reg regno then _ else _ : list Z).
  assert (Hp : zlen pre <= 5) by (subst pre; by destruct (is_fpu_reg regno)). pose proof (zlen_nonneg pre).
  assert (Hs0 : scribbled s s) by (exists (debug_abstract s); split; [apply (wf_abstract _ _ s Hs)|by destruct s]).
  apply (emits_scribbled s); [done|done|lia|]. intros s1 Hs1. rewrite Z.add_0_l. clearbody pre post. wp_step.
  apply wp_mono with (P := fun r s' => r = None /\ refused CMDERR_NOTSUP s s').
  2: { intros r s2 [-> Hs2]. unfold then_emit. by wp_step. }
  assert (Hnot : sized_ok size = false \/ supported regno = false) by (destruct (sized_ok size); [by right|by left]).
  assert (Hend : forall s2, refused CMDERR_NOTSUP s s2 -> @None Z = None /\ refused CMDERR_NOTSUP s s2) by done.
  unfold supported in Hnot. wp_step; [|wp_step; [|wp_step; [|wp_step]]].
  - destruct Hnot as [Hz|]; [|lia]. unfold transfer_csr. wp_step. set (a := if is_fpu_reg regno then [] else [csrw S0 CSR_DSCRATCH0]).
    assert (Ha : zlen a <= 1) by (subst a; by destruct (is_fpu_reg regno)). pose proof (zlen_nonneg a).
    apply (emits_scribbled s); [done|lia|lia|]. intros s2 Hs2. wp_step.
    apply wp_mono with (P := fun r s' => r = None /\ refused CMDERR_NOTSUP s s').
    2: { intros r s3 [-> Hs3]. unfold then_emit. by wp_step. }
    destruct write; wp_step.
    + apply (emit_sized_refuses s); [done|done|]. intros s3 Hs3. unfold then_emit. by wp_step.
    + apply (emits_scribbled s); [done|lia|change (zlen [csrr S0 regno]) with 1; lia|]. intros s3 Hs3. by apply (emit_sized_refuses s).
  - destruct Hnot as [Hz|]; [|lia]. unfold transfer_gpr. wp_step.
    apply wp_mono with (P := fun r s' => r = None /\ refused CMDERR_NOTSUP s s').
    2: { intros r s3 [-> Hs3]. unfold then_emit. by wp_step. }
    destruct write; by apply (emit_sized_refuses s).
  - destruct Hnot as [Hz|]; [|lia]. unfold transfer_fpr. destruct write; by apply (emit_sized_refuses s).
  - unfold custom in Hc. congruence.
  - by apply (notsup_refuses s).
Qed.

(** ** Custom registers *)

Definition custom_done (write : bool) (n : Z) (s0 s : dm) : Prop :=
  exists v, read32 (dmdata s0) 0 = Some v /\
  if write then s = s0 <| custom_base := u32 (v - n) |>
  else exists l, s = s0 <| dmdata := l |> /\ zlen l = 8 /\ read32 l 0 = Some (u32 (n + custom_base s0)) /\ read32 l 1 = Some 0.

Lemma transfer_custom_exact size write regno s : dm_wf config hartids s -> cmderr (abstractcs s) = CMDERR_NONE ->
  custom regno = true ->
  wp (transfer config size write regno 0) s (fun r s' => r = None /\ custom_done write (regno - 0xc000) s s').
Proof using.
  intros Hs He Hc. unfold custom in Hc. unfold transfer.
  replace (is_fpu_reg regno) with false by (symmetry; destruct (is_fpu_reg regno) eqn:Ef; [pose proof (fpu_range regno Ef); lia|done]).
  wp_step. cbn [emits]. wp_step. wp_step. apply wp_mono with (P := fun r s' => r = None /\ custom_done write (regno - 0xc000) s s').
  2: { intros r s2 [-> Hs2]. unfold then_emit. by wp_step. }
  replace (regno <? 0x1000) with false by lia. replace ((0x1000 <=? regno) && (regno <? 0x1020)) with false by lia.
  replace (regno <? 0x1040) with false by lia. rewrite andb_false_r, Hc. cbn [andb]. unfold transfer_custom, set_cmderr. do 4 wp_step.
  assert (E0 : s <| abstractcs := abstractcs s <| cmderr := CMDERR_NONE |> |> = s)
    by (rewrite <- He; destruct s as [? ? ? ? ? ? ? ? ? [? ? ? ?]]; reflexivity).
  match goal with |- wp _ ?s1 _ => replace s1 with s by (symmetry; exact E0) end.
  pose proof (wf_data _ _ s Hs). destruct (read32_some (dmdata s) 0) as (v & Ev); [lia..|].
  wp_step.
  - wp_step. eapply wp_lift; [exact Ev|]. repeat wp_step. split; [done|]. exists v. by split.
  - wp_step. destruct (write32_some (dmdata s) 0 (u32 (regno - 0xc000 + custom_base s))) as (l & El & Hl); [lia..|].
    eapply wp_lift; [exact El|]. wp_step. destruct (write32_some l 1 0) as (l' & El' & Hl'); [lia..|].
    eapply wp_lift; [exact El'|]. repeat wp_step. split; [done|]. exists v. split; [done|]. exists l'. split_and!; [done|lia| |].
    + rewrite (read_write_other _ _ _ _ _ El') by lia. apply (read_write_same _ _ _ _ (wrap_range 32 ltac:(lia) _) El).
    + by apply (read_write_same l 1 0).
Qed.

(** ** Launching the program *)

Definition postexec (cmd : Z) : bool := z2b (get_field cmd AC_ACCESS_REGISTER_POSTEXEC).
Definition last_word (cmd n : Z) : Z :=
  if postexec cmd then jal ZERO (u32 (debug_progbuf_start config - debug_abstract_start config - 4 * n)) else ebreak.
(** Where the hart goes when the program is over. *)
Definition program_end (cmd : Z) : debug_end := if postexec cmd then JumpTo (debug_progbuf_start config) else AtEbreak.

(** [s] is [s0] with a program started on hart [id]: the program [ws] and its last word in memory, the hart's go
    flag raised, and the module busy until the hart reports back. *)
Definition launched (ws : list Z) (s0 s : dm) : Prop :=
  exists l id flags,
    index hartids (hartsel (dmcontrol s0)) = Some id /\ index (debug_rom_flags s0) id = Some flags /\
    code_at l 0 (ws ++ [last_word (command s0) (zlen ws)]) /\
    s = s0 <| debug_abstract := l |> <| debug_rom_flags := <[Z.to_nat id := u8 (flags |! 1)]> (debug_rom_flags s0) |>
          <| rti_remaining := abstract_rti config |> <| abstract_command_completed := false |>
          <| abstractcs := abstractcs s0 <| busy := true |> |>.

Lemma last_word_range cmd n : 0 <= last_word cmd n < 2 ^ 32.
Proof using. unfold last_word. destruct (postexec cmd); encoder_range. Qed.

Lemma launch_exact s0 s ws : dm_wf config hartids s0 -> emitted s0 s ws -> zlen ws <= 11 ->
  wp (launch config hartids (zlen ws)) s (fun _ s' => launched ws s0 s').
Proof using Hok.
  intros Hs0 He Hl. unfold launch. do 3 wp_step. assert (Ec : command s = command s0) by (by destruct He as (l & -> & _)).
  rewrite Ec. fold (last_word (command s0) (zlen ws)).
  apply (emits_exact _ s0 s ws);
    [done|apply Forall_cons; [apply last_word_range|apply Forall_nil]|rewrite zlen_app; change (zlen [_]) with 1; lia|].
  intros s1 (l & -> & Hl48 & Hc). wp_step. unfold selected_hart_id. do 2 wp_step. dm_simpl.
  destruct (index_some hartids (hartsel (dmcontrol s0))) as (id & Eid & Hid); [apply (wf_sel _ _ s0 Hs0)|].
  eapply wp_lift; [exact Eid|]. wp_step. unfold update_flags. repeat wp_step. dm_simpl.
  assert (Hr : 0 <= id < zlen (debug_rom_flags s0)).
  { pose proof (hart_id_range config hartids Hok id Hid). pose proof (wf_flags _ _ s0 Hs0). destruct Hok. lia. }
  destruct (index_some (debug_rom_flags s0) id) as (f & Ef & _); [done|]. eapply wp_lift; [exact Ef|]. wp_step.
  eapply wp_lift; [by apply update_some|]. repeat wp_step. exists l, id, f. split_and!; [done|done|done|reflexivity].
Qed.

(** A hart that runs the launched program executes [ws] and ends where the command says. *)
Lemma launched_runs ws s0 s h h' : launched ws s0 s -> zlen ws <= 11 -> exec_list ws h = Some h' ->
  debug_run 12 (debug_abstract_start config) (debug_abstract s) 0 h = Some (program_end (command s0), h').
Proof using Hok.
  intros (l & id & flags & _ & _ & Hc & ->) Hl Hx. dm_simpl.
  assert (Hpre : code_at l 0 ws) by (intros k w Hk; apply Hc; rewrite lookup_app_l; [done|by eapply lookup_lt_Some]).
  replace 12%nat with (length ws + S (11 - length ws))%nat by (unfold zlen in Hl; lia).
  rewrite (debug_run_list ws _ _ _ _ h' _ Hpre Hx), Z.add_0_l. cbn [debug_run].
  assert (Hlast : read32 l (zlen ws) = Some (last_word (command s0) (zlen ws))).
  { pose proof (Hc (length ws) (last_word (command s0) (zlen ws))) as Hw. rewrite list_lookup_middle in Hw by done. by apply Hw. }
  rewrite Hlast. unfold last_word, program_end. destruct (postexec (command s0)); [|done].
  destruct (starts config hartids Hok) as (S1 & S2 & S3 & S4). pose proof (zlen_nonneg ws).
  assert (Ei : u32 (debug_progbuf_start config - debug_abstract_start config - 4 * zlen ws) = 48 - 4 * zlen ws)
    by (rewrite S3, S4, wrap_small; lia).
  rewrite Ei. destruct (jal_ok ZERO (48 - 4 * zlen ws)) as (J1 & J2 & J3); [done| |].
  { replace (48 - 4 * zlen ws) with (2 * (24 - 2 * zlen ws)) by lia. by rewrite Z.testbit_even_0. }
  replace (jal ZERO (48 - 4 * zlen ws) =? MATCH_EBREAK) with false
    by (symmetry; apply Z.eqb_neq; intros E; rewrite E in J3; discriminate J3).
  rewrite J3, J2, J1. change (MATCH_JAL =? MATCH_JAL) with true. rewrite swrap_small by lia. do 3 f_equal; [lia|].
  by destruct h'.
Qed.

(** ** Commands *)

Inductive command_outcome := Ignored | Refused (e : Z) | Custom (write : bool) (n : Z) | Runs (ws : list Z).

Definition cmd_size (cmd : Z) : Z := get_field cmd AC_ACCESS_REGISTER_AARSIZE.
Definition cmd_write (cmd : Z) : bool := z2b (get_field cmd AC_ACCESS_REGISTER_WRITE).
Definition cmd_regno (cmd : Z) : Z := get_field cmd AC_ACCESS_REGISTER_REGNO.
Definition cmd_transfer (cmd : Z) : bool := z2b (get_field cmd AC_ACCESS_REGISTER_TRANSFER).

(** The outcome of a command, given whether its hart is available and halted. *)
Definition outcome (available hart_halted : bool) (s : dm) : command_outcome :=
  let cmd := command s in
  if negb (cmderr (abstractcs s) =? CMDERR_NONE) then Ignored
  else if busy (abstractcs s) then Refused CMDERR_BUSY
  else if negb available then Refused CMDERR_HALTRESUME
  else if negb (cmd >>! 24 =? 0) then Refused CMDERR_NOTSUP
  else if negb hart_halted then Refused CMDERR_HALTRESUME
  else if negb (cmd_transfer cmd) then Runs []
  else if custom (cmd_regno cmd) then Custom (cmd_write cmd) (cmd_regno cmd - 0xc000)
  else if sized_ok (cmd_size cmd) && supported (cmd_regno cmd)
       then Runs (access_words (cmd_size cmd) (cmd_write cmd) (cmd_regno cmd))
  else Refused CMDERR_NOTSUP.
Definition outcome_holds (o : command_outcome) (s0 s : dm) : Prop :=
  match o with
  | Ignored => s = s0
  | Refused e => refused e s0 s
  | Custom write n => custom_done write n s0 s
  | Runs ws => launched ws s0 s
  end.

Lemma set_cmderr_refused e s : dm_wf config hartids s -> wp (set_cmderr e) s (fun _ s' => refused e s s').
Proof using.
  intros Hs. unfold set_cmderr. wp_step. exists (debug_abstract s). split; [apply (wf_abstract _ _ s Hs)|]. by destruct s.
Qed.
Lemma access_words_short size write regno : zlen (access_words size write regno) <= 10.
Proof using.
  unfold access_words, csr_words, gpr_words, fpr_words. destruct (regno <? 0x1000); [destruct (is_fpu_reg regno), write; done|].
  destruct (regno <? 0x1020); [destruct ((_ =? S0) && write)|]; done.
Qed.

Lemma perform_exact s : dm_wf config hartids s -> 0 <= command s ->
  exists a h, hart_available (hartsel (dmcontrol s)) s = Some (a, s) /\ selected_hart_state hartids s = Some (h, s) /\
    wp (perform_abstract_command config hartids) s (fun _ s' => outcome_holds (outcome a (halted h) s) s s').
Proof using Hok.
  intros Hs Hcmd. pose proof (wf_sel _ _ s Hs) as Hsel.
  destruct (hart_available_wp config hartids s (hartsel (dmcontrol s)) Hs ltac:(lia)) as (a & Ea).
  destruct (index_some hartids (hartsel (dmcontrol s)) Hsel) as (id & Eid & Hid).
  destruct (hart_state_at_wp config hartids s id Hs (hart_id_state config hartids Hok s id Hs Hid)) as (h & _ & Eh).
  assert (Es : selected_hart_state hartids s = Some (h, s)).
  { unfold selected_hart_state, selected_hart_id, mbind, D_bind, gets, lift. by rewrite Eid. }
  exists a, h. split_and!; [done|done|]. unfold perform_abstract_command, outcome. do 2 wp_step. wp_step; [done|].
  wp_step; [by apply set_cmderr_refused|]. wp_step. unfold wp at 1. rewrite Ea. wp_step; [by apply set_cmderr_refused|].
  wp_step; cbn [negb]; [|by apply set_cmderr_refused]. wp_step. unfold wp at 1. rewrite Es. wp_step; [by apply set_cmderr_refused|].
  fold (cmd_transfer (command s)) (cmd_size (command s)) (cmd_write (command s)) (cmd_regno (command s)).
  assert (He : cmderr (abstractcs s) = CMDERR_NONE) by lia.
  assert (Hreg : 0 <= cmd_regno (command s)) by (by apply get_field_nonneg).
  wp_step. destruct (cmd_transfer (command s)) eqn:Et; cbn [negb].
  - destruct (custom (cmd_regno (command s))) eqn:Ecu.
    { eapply wp_mono; [by apply transfer_custom_exact|]. intros r s1 [-> Hs1]. by wp_step. }
    destruct (sized_ok (cmd_size (command s)) && supported (cmd_regno (command s))) eqn:Eok.
    + apply andb_true_iff in Eok as [Hz Hsup]. eapply wp_mono; [by apply transfer_supported|]. intros r s1 [-> Hs1].
      apply launch_exact; [done|done|]. pose proof (access_words_short (cmd_size (command s)) (cmd_write (command s)) (cmd_regno (command s))). lia.
    + eapply wp_mono; [by apply transfer_refuses|]. intros r s1 [-> Hs1]. by wp_step.
  - wp_step. change 0 with (zlen (@nil Z)). apply launch_exact; [done|by apply emitted_start|done].
Qed.
Lemma outcome_runs a hh s ws : 0 <= command s -> outcome a hh s = Runs ws ->
  (cmd_transfer (command s) = true -> cmd_regno (command s) <> CSR_DSCRATCH0) ->
  zlen ws < debug_abstract_size /\ forall hart, exists hart', exec_list ws hart = Some hart' /\
    if cmd_transfer (command s) then transferred (cmd_size (command s)) (cmd_write (command s)) (cmd_regno (command s)) hart hart'
    else hart' = hart.
Proof using.
  intros Hcmd Ho Hn. assert (Hreg : 0 <= cmd_regno (command s)) by (by apply get_field_nonneg). unfold outcome in Ho.
  destruct (negb _); [done|]. destruct (busy _); [done|]. destruct (negb a); [done|]. destruct (negb _); [done|].
  destruct (negb hh); [done|]. destruct (cmd_transfer (command s)); cbn [negb] in Ho.
  - destruct (custom _); [done|]. destruct (sized_ok _ && supported _) eqn:Eok; [|done]. injection Ho as <-.
    apply andb_true_iff in Eok as [Hz Hsup]. split.
    { pose proof (access_words_short (cmd_size (command s)) (cmd_write (command s)) (cmd_regno (command s))). unfold debug_abstract_size. lia. }
    intros hart. apply access_effect; [unfold sized_ok in Hz; lia|]. split; [unfold supported in Hsup; lia|by apply Hn].
  - injection Ho as <-. split; [done|]. intros hart. by exists hart.
Qed.
End assemble.


(** Hart 5 is halted; reading 32 bits of its [s1] moves them into the first data word. *)
Definition read_s1 : debug_module_t board := reached (firstn 6 session) <| command := 0x221009 |>.
