(* ===== verification/Jtag.v ===== *)
(** * The JTAG debug transport: [src/riscv/jtag_dtm.cc]

    The TAP controller of [jtag_dtm_t] and the debug module interface scanned through
    it.  [set_pins] is the whole of the clocked behaviour; the debug module is the one of
    [DebugModule.v], reached through [dmi_read], [dmi_write] and [run_test_idle]. *)

From Stdlib Require Import ZifyBool.
From stdpp Require Import list.
From S2P Require Import Prelude Arith Decode Opcodes DebugModule DebugProps DebugBus.
Local Open Scope cint_scope.

Inductive jtag_state_t :=
  | TEST_LOGIC_RESET | RUN_TEST_IDLE | SELECT_DR_SCAN | CAPTURE_DR | SHIFT_DR | EXIT1_DR | PAUSE_DR | EXIT2_DR | UPDATE_DR
  | SELECT_IR_SCAN | CAPTURE_IR | SHIFT_IR | EXIT1_IR | PAUSE_IR | EXIT2_IR | UPDATE_IR.
#[export] Instance jtag_state_eq : EqDecision jtag_state_t.
Proof. solve_decision. Defined.

Definition IR_IDCODE : Z := 1.
Definition IR_DTMCONTROL : Z := 0x10.
Definition IR_DBUS : Z := 0x11.
Definition IR_BYPASS : Z := 0x1f.
Definition DTMCONTROL_DMIRESET : Z := 2 ^ 16.
Definition DTMCONTROL_DMIHARDRESET : Z := 2 ^ 17.
Definition DMI_OP : Z := 3.
Definition DMI_DATA : Z := 0xffffffff * 4.
Definition DMI_OP_STATUS_SUCCESS : Z := 0.
Definition DMI_OP_STATUS_FAILED : Z := 2.
Definition DMI_OP_STATUS_BUSY : Z := 3.
Definition DMI_OP_READ : Z := 1.
Definition DMI_OP_WRITE : Z := 2.
Definition DTM_DTMCS_ABITS_OFFSET : Z := 4.
Definition idcode : Z := 0xdeadbeef.
Definition ir_length : Z := 5.
Definition abits : Z := 6.
Definition DMI_ADDRESS : Z := 2 ^ (abits + 34) - 2 ^ 34.

Record jtag_dtm_t := JtagDtm {
  required_rti_cycles : Z;
  tck : bool; tms : bool; tdi : bool; tdo : bool;
  ir : Z; dr : Z; dr_length : Z;
  dtmcontrol : Z; dmi : Z; bypass : Z;
  dtm_rti_remaining : Z; busy_stuck : bool;
  jstate : jtag_state_t
}.
#[export] Instance jtag_fields : fields jtag_dtm_t := fun r =>
  JtagDtm (required_rti_cycles r) (tck r) (tms r) (tdi r) (tdo r) (ir r) (dr r) (dr_length r) (dtmcontrol r) (dmi r) (bypass r)
    (dtm_rti_remaining r) (busy_stuck r) (jstate r).

(** The constructor; [junk] holds the fields it leaves uninitialised. *)
Definition new_jtag (junk : jtag_dtm_t) (rti : Z) : jtag_dtm_t :=
  junk <| required_rti_cycles := rti |> <| tck := false |> <| tms := false |> <| tdi := false |> <| tdo := false |>
    <| dtmcontrol := u32 (Z.shiftl abits DTM_DTMCS_ABITS_OFFSET) |! 1 |> <| dmi := DMI_OP_STATUS_SUCCESS |> <| bypass := 0 |>
    <| jstate := TEST_LOGIC_RESET |>.
Definition jtag_reset (j : jtag_dtm_t) : jtag_dtm_t :=
  j <| jstate := TEST_LOGIC_RESET |> <| busy_stuck := false |> <| dtm_rti_remaining := 0 |> <| dmi := 0 |>.

(** The rows of the table [next], for TMS low and high. *)
Definition next (s : jtag_state_t) (tms : bool) : jtag_state_t :=
  let row a b := if tms then b else a in
  match s with
  | TEST_LOGIC_RESET => row RUN_TEST_IDLE TEST_LOGIC_RESET
  | RUN_TEST_IDLE => row RUN_TEST_IDLE SELECT_DR_SCAN
  | SELECT_DR_SCAN => row CAPTURE_DR SELECT_IR_SCAN
  | CAPTURE_DR => row SHIFT_DR EXIT1_DR
  | SHIFT_DR => row SHIFT_DR EXIT1_DR
  | EXIT1_DR => row PAUSE_DR UPDATE_DR
  | PAUSE_DR => row PAUSE_DR EXIT2_DR
  | EXIT2_DR => row SHIFT_DR UPDATE_DR
  | UPDATE_DR => row RUN_TEST_IDLE SELECT_DR_SCAN
  | SELECT_IR_SCAN => row CAPTURE_IR TEST_LOGIC_RESET
  | CAPTURE_IR => row SHIFT_IR EXIT1_IR
  | SHIFT_IR => row SHIFT_IR EXIT1_IR
  | EXIT1_IR => row PAUSE_IR UPDATE_IR
  | PAUSE_IR => row PAUSE_IR EXIT2_IR
  | EXIT2_IR => row SHIFT_IR UPDATE_IR
  | UPDATE_IR => row RUN_TEST_IDLE SELECT_DR_SCAN
  end.

Definition capture_dr (j : jtag_dtm_t) : jtag_dtm_t :=
  if ir j =? IR_IDCODE then j <| dr := idcode |> <| dr_length := 32 |>
  else if ir j =? IR_DTMCONTROL then j <| dr := dtmcontrol j |> <| dr_length := 32 |>
  else if ir j =? IR_DBUS then
    (if (0 <? dtm_rti_remaining j) || busy_stuck j then j <| dr := DMI_OP_STATUS_BUSY |> <| busy_stuck := true |>
     else j <| dr := dmi j |>) <| dr_length := abits + 34 |>
  else if ir j =? IR_BYPASS then j <| dr := bypass j |> <| dr_length := 1 |>
  else j.

Section transport.
Context {X : Type} `{simif X} (config : debug_module_config_t) (hartids : list Z).

(** Runs in the debug module's operations, whose result is the transport's new state. *)
Definition update_dr (j : jtag_dtm_t) : D (X := X) jtag_dtm_t :=
  if ir j =? IR_DTMCONTROL then
    let j := if z2b (dr j &! DTMCONTROL_DMIRESET) then j <| busy_stuck := false |> else j in
    mret (if z2b (dr j &! DTMCONTROL_DMIHARDRESET) then jtag_reset j else j)
  else if ir j =? IR_BYPASS then mret (j <| bypass := u32 (dr j) |>)
  else if (ir j =? IR_DBUS) && negb (busy_stuck j) then
    let op := get_field (dr j) DMI_OP in
    let data := u32 (get_field (dr j) DMI_DATA) in
    let address := u32 (get_field (dr j) DMI_ADDRESS) in
    let j := j <| dmi := dr j |> in
    r ← (if op =? DMI_OP_READ then
           v ← dmi_read config hartids address;
           match v with Some v => mret (true, j <| dmi := set_field (dmi j) DMI_DATA v |>) | None => mret (false, j) end
         else if op =? DMI_OP_WRITE then b ← dmi_write config hartids address data; mret (b, j)
         else mret (true, j));
    let j := snd r in
    mret (j <| dmi := set_field (dmi j) DMI_OP (if fst r : bool then DMI_OP_STATUS_SUCCESS else DMI_OP_STATUS_FAILED) |>
            <| dtm_rti_remaining := required_rti_cycles j |>)
  else mret j.

(** The branch taken on every call that is not a rising edge. *)
Definition negative_edge (j : jtag_dtm_t) : D (X := X) jtag_dtm_t :=
  match jstate j with
  | RUN_TEST_IDLE =>
    run_test_idle config;;
    mret (if 0 <? dtm_rti_remaining j then j <| dtm_rti_remaining := dtm_rti_remaining j - 1 |> else j)
  | TEST_LOGIC_RESET => mret (j <| ir := IR_IDCODE |>)
  | CAPTURE_DR => mret (capture_dr j)
  | SHIFT_DR => mret (j <| tdo := z2b (dr j &! 1) |>)
  | UPDATE_DR => update_dr j
  | SHIFT_IR => mret (j <| tdo := z2b (ir j &! 1) |>)
  | _ => mret j
  end.

Definition positive_edge (j : jtag_dtm_t) : jtag_dtm_t :=
  let j := match jstate j with
    | SHIFT_DR => j <| dr := (dr j >>! 1) |! (b2z (tdi j) <<! (dr_length j - 1)) |>
    | SHIFT_IR => j <| ir := (ir j >>! 1) |! Z.shiftl (b2z (tdi j)) (ir_length - 1) |>
    | _ => j
    end in
  j <| jstate := next (jstate j) (tms j) |>.

Definition set_pins (tck' tms' tdi' : bool) (j : jtag_dtm_t) : D (X := X) jtag_dtm_t :=
  j ← (if negb (tck j) && tck' then mret (positive_edge j) else negative_edge j);
  mret (j <| tck := tck' |> <| tms := tms' |> <| tdi := tdi' |>).
End transport.

(** ** Clocks *)

Section clocks.
Context {X : Type} `{simif X} (config : debug_module_config_t) (hartids : list Z).
Context (Hok : config_ok config hartids).

(** A clock as the debugger drives it: TMS and TDI change with TCK low, TDO is read, then TCK rises. *)
Definition clock (b : bool * bool) (j : jtag_dtm_t) : D (X := X) (bool * jtag_dtm_t) :=
  j ← set_pins config hartids false (fst b) (snd b) j;
  let out := tdo j in
  j ← set_pins config hartids true (fst b) (snd b) j;
  mret (out, j).
Fixpoint clocks (bs : list (bool * bool)) (j : jtag_dtm_t) : D (X := X) (list bool * jtag_dtm_t) :=
  match bs with
  | [] => mret ([], j)
  | b :: bs => r ← clock b j; q ← clocks bs (snd r); mret (fst r :: fst q, snd q)
  end.

Lemma negative_edge_safe j : safe config hartids (negative_edge config hartids j).
Proof using Hok.
  unfold negative_edge. destruct (jstate j); intros s Hs; try done.
  - wp_step. eapply wp_mono; [by apply (safe_run_test_idle config hartids)|]. intros [] s1 Hs1. by wp_step.
  - unfold update_dr. wp_step; [by wp_step|]. wp_step; [by wp_step|]. wp_step; [|by wp_step]. wp_step.
    eapply wp_mono with (P := fun _ => dm_wf config hartids); [|intros r s1 Hs1; by wp_step].
    wp_step; [|wp_step; [|by wp_step]].
    + wp_step. eapply wp_mono; [by apply (dmi_read_safe config hartids Hok)|]. intros [v|] s1 Hs1; by wp_step.
    + wp_step. eapply wp_mono; [apply (dmi_write_safe config hartids Hok); [apply wrap_range; lia|done]|].
      intros b s1 Hs1. by wp_step.
Qed.

(** The low phase runs the edge action of the state; the high phase moves. *)
Lemma clock_wp b j s (Q : bool * jtag_dtm_t -> debug_module_t X -> Prop) :
  wp (negative_edge config hartids j) s (fun j1 s1 =>
    let j2 := j1 <| tck := false |> <| tms := fst b |> <| tdi := snd b |> in
    Q (tdo j2, positive_edge j2 <| tck := true |> <| tms := fst b |> <| tdi := snd b |>) s1) ->
  wp (clock b j) s Q.
Proof using.
  intros Hq. unfold clock. wp_step. unfold set_pins at 1. rewrite andb_false_r. wp_step.
  eapply wp_mono; [exact Hq|]. intros j1 s1 Hq1. wp_step. wp_step. unfold set_pins. cbn [tck set_field_of negb andb].
  repeat wp_step. exact Hq1.
Qed.

(** The clocks with TMS high that a state is away from reset. *)
Definition to_reset (s : jtag_state_t) : nat :=
  match s with
  | TEST_LOGIC_RESET => 0 | SELECT_IR_SCAN => 1 | SELECT_DR_SCAN => 2 | RUN_TEST_IDLE | UPDATE_DR | UPDATE_IR => 3
  | EXIT1_DR | EXIT2_DR | EXIT1_IR | EXIT2_IR => 4 | _ => 5
  end.
Lemma next_to_reset s : to_reset (next s true) = pred (to_reset s).
Proof using. by destruct s. Qed.
Lemma to_reset_zero s : to_reset s = 0%nat -> s = TEST_LOGIC_RESET.
Proof using. by destruct s. Qed.
Lemma to_reset_bound s : (to_reset s <= 5)%nat.
Proof using. destruct s; cbn; lia. Qed.

(** An edge action leaves the state, but for the hard reset. *)
Lemma negative_edge_state j s : dm_wf config hartids s ->
  wp (negative_edge config hartids j) s (fun j1 s1 => dm_wf config hartids s1 /\ (jstate j1 = jstate j \/ jstate j1 = TEST_LOGIC_RESET)).
Proof using Hok.
  intros Hs. pose proof (negative_edge_safe j s Hs) as Hn. unfold wp in *. 
  destruct (negative_edge config hartids j s) as [[j1 s1]|] eqn:E; [|done]. split; [done|].
  unfold negative_edge in E. destruct (jstate j) eqn:Ej; try (injection E as <- _; by left).
  - unfold mbind, D_bind in E. destruct (run_test_idle config s) as [[[] s2]|]; [|done]. injection E as <- _. left. destruct (0 <? _); exact Ej.
  - injection E as <- _. left. unfold capture_dr. repeat case_match; exact Ej.
  - unfold update_dr in E. destruct (_ =? _).
    + injection E as <- _. destruct (z2b (dr j &! DTMCONTROL_DMIRESET)), (z2b (_ &! DTMCONTROL_DMIHARDRESET)); (right; reflexivity) || (left; exact Ej).
    + destruct (_ =? _); [injection E as <- _; left; exact Ej|]. destruct (_ && _); [|injection E as <- _; left; exact Ej].
      unfold mbind, D_bind in E. destruct (_ =? DMI_OP_READ).
      * destruct (dmi_read _ _ _ s) as [[[v|] s2]|]; [..|done]; injection E as <- _; left; exact Ej.
      * destruct (_ =? DMI_OP_WRITE); [|injection E as <- _; left; exact Ej].
        destruct (dmi_write _ _ _ _ s) as [[b s2]|]; [|done]. injection E as <- _; left; exact Ej.
Qed.

Lemma clocks_reset ds : forall j s, dm_wf config hartids s -> (to_reset (jstate j) <= length ds)%nat ->
  wp (clocks (map (pair true) ds) j) s (fun r s' => dm_wf config hartids s' /\ jstate (snd r) = TEST_LOGIC_RESET).
Proof using Hok.
  induction ds as [|d ds IH]; intros j s Hs Hd; cbn [map clocks length] in *.
  - wp_step. split; [done|]. apply to_reset_zero. cbn [snd]. lia.
  - wp_step. apply clock_wp. eapply wp_mono; [by apply negative_edge_state|]. intros j1 s1 [Hs1 Hj1]. cbv zeta. wp_step.
    eapply wp_mono; [apply IH; [done|]|].
    + assert (Ht : (to_reset (jstate j1) <= S (length ds))%nat) by (destruct Hj1 as [-> | ->]; [done|cbn; lia]).
      match goal with |- (to_reset (jstate ?j2) <= _)%nat => assert (E : jstate j2 = next (jstate j1) true) end.
      { destruct j1 as [? ? ? ? ? ? ? ? ? ? ? ? ? st]. by destruct st. }
      rewrite E, next_to_reset. lia.
    + intros [q j2] s2 [Hs2 Hj2]. wp_step. done.
Qed.

(** ** A scan of the debug module interface *)

(** What a scan leaves alone. *)
Definition frame (j : jtag_dtm_t) : Z * Z * bool * Z * Z := (ir j, dmi j, busy_stuck j, dtm_rti_remaining j, required_rti_cycles j).

Definition quiet (s : jtag_state_t) : bool :=
  match s with RUN_TEST_IDLE | TEST_LOGIC_RESET | CAPTURE_DR | SHIFT_DR | UPDATE_DR | SHIFT_IR => false | _ => true end.
(** A state without an action only moves. *)
Lemma clock_quiet b j s (Q : bool * jtag_dtm_t -> debug_module_t X -> Prop) : quiet (jstate j) = true ->
  (forall out j', frame j' = frame j -> dr j' = dr j -> dr_length j' = dr_length j -> jstate j' = next (jstate j) (fst b) -> Q (out, j') s) ->
  wp (clock b j) s Q.
Proof using.
  intros Hq HQ. apply clock_wp. destruct j as [? ? ? ? ? ? ? ? ? ? ? ? ? st]. cbn [jstate] in *. unfold negative_edge.
  destruct st; try discriminate; cbn [jstate]; wp_step; by apply HQ.
Qed.
Lemma clock_capture b j s (Q : bool * jtag_dtm_t -> debug_module_t X -> Prop) : jstate j = CAPTURE_DR ->
  (forall out j', frame j' = frame (capture_dr j) -> dr j' = dr (capture_dr j) -> dr_length j' = dr_length (capture_dr j) ->
    jstate j' = next CAPTURE_DR (fst b) -> Q (out, j') s) -> wp (clock b j) s Q.
Proof using.
  intros Hj HQ. apply clock_wp. unfold negative_edge. rewrite Hj. wp_step.
  assert (Hs : jstate (capture_dr j) = CAPTURE_DR) by (unfold capture_dr; repeat case_match; exact Hj).
  destruct (capture_dr j) as [? ? ? ? ? ? ? ? ? ? ? ? ? st]. cbn [jstate] in Hs. subst st. by apply HQ.
Qed.
Lemma clock_shift b j s (Q : bool * jtag_dtm_t -> debug_module_t X -> Prop) : jstate j = SHIFT_DR ->
  (forall j', frame j' = frame j -> dr j' = (dr j >>! 1) |! (b2z (snd b) <<! (dr_length j - 1)) -> dr_length j' = dr_length j ->
    jstate j' = next SHIFT_DR (fst b) -> Q (z2b (dr j &! 1), j') s) -> wp (clock b j) s Q.
Proof using.
  intros Hj HQ. apply clock_wp. unfold negative_edge. rewrite Hj. wp_step.
  destruct j as [? ? ? ? ? ? ? ? ? ? ? ? ? st]. cbn [jstate] in Hj. subst st. by apply HQ.
Qed.
End clocks.

(** ** The data register *)

Definition bits_out (n : nat) (v : Z) : list bool := map (fun i => Z.testbit v (Z.of_nat i)) (seq 0 n).
(** The clocks that shift in the low [m] bits of [w], the last of them leaving the shift state. *)
Fixpoint data_clocks (m : nat) (w : Z) : list (bool * bool) :=
  match m with O => [] | S m => ((m =? 0)%nat, Z.testbit w 0) :: data_clocks m (w >>! 1) end.

Lemma dr_bit d b i : 0 <= i -> Z.testbit ((d >>! 1) |! (b2z b <<! (40 - 1))) i = Z.testbit d (i + 1) || ((i =? 39) && b).
Proof.
  intros Hi. rewrite Z.lor_spec, Z.shiftr_spec, wrap_testbit, Z.shiftl_spec by lia. f_equal.
  destruct (Z.eqb_spec i 39) as [->|Hne]; [by destruct b|]. cbn [andb]. destruct (Z.lt_ge_cases i 39).
  - rewrite (Z.testbit_neg_r (b2z b)) by lia. apply andb_false_r.
  - rewrite (testbit_high 1 (b2z b)); [apply andb_false_r|destruct b; cbn; lia|lia].
Qed.

Section scan.
Context {X : Type} `{simif X} (config : debug_module_config_t) (hartids : list Z).
Context (Hok : config_ok config hartids).

Lemma wp_clocks_app a b : forall j s (Q : list bool * jtag_dtm_t -> debug_module_t X -> Prop),
  wp (clocks config hartids a j) s (fun r s1 => wp (clocks config hartids b (snd r)) s1 (fun q s2 => Q (fst r ++ fst q, snd q) s2)) ->
  wp (clocks config hartids (a ++ b) j) s Q.
Proof using.
  induction a as [|c a IH]; intros j s Q Hq; cbn [app clocks] in *.
  - unfold wp, mret, D_ret in *. cbn [fst snd app] in Hq. destruct (clocks config hartids b j s) as [[[q j'] s']|]; done.
  - apply wp_bind. unfold mbind at 1, D_bind at 1 in Hq. unfold wp in Hq |- *. unfold mbind, D_bind in Hq.
    destruct (clock config hartids c j s) as [[[o j1] s1]|]; [|done]. cbn [fst snd] in *.
    specialize (IH j1 s1 (fun q s' => Q (o :: fst q, snd q) s')). unfold wp, mbind, D_bind, mret, D_ret in *. cbn [fst snd] in *.
    destruct (clocks config hartids a j1 s1) as [[[q j2] s2]|]; [|done]. cbn [fst snd] in *. 
    specialize (IH Hq). destruct (clocks config hartids (a ++ b) j1 s1) as [[[q' j3] s3]|]; [|done]. exact IH.
Qed.

Lemma shifts m : forall w j s (Q : list bool * jtag_dtm_t -> debug_module_t X -> Prop),
  (0 < m <= 40)%nat -> jstate j = SHIFT_DR -> dr_length j = 40 -> (forall i, 40 <= i -> Z.testbit (dr j) i = false) ->
  (forall j', frame j' = frame j -> jstate j' = EXIT1_DR -> dr_length j' = 40 ->
    (forall i, 0 <= i -> Z.testbit (dr j') i =
      if i + Z.of_nat m <? 40 then Z.testbit (dr j) (i + Z.of_nat m) else (i <? 40) && Z.testbit w (i + Z.of_nat m - 40)) ->
    Q (bits_out m (dr j), j') s) ->
  wp (clocks config hartids (data_clocks m w) j) s Q.
Proof using.
  induction m as [|m IH]; intros w j s Q Hm Hj Hl Hd HQ; [lia|]. cbn [data_clocks clocks]. wp_step.
  apply clock_shift; [done|]. cbn [fst snd]. rewrite Hl. intros j1 F1 D1 L1 S1.
  assert (Hb : forall i, 0 <= i -> Z.testbit (dr j1) i = Z.testbit (dr j) (i + 1) || ((i =? 39) && Z.testbit w 0))
    by (intros i Hi; rewrite D1; by apply dr_bit).
  assert (H0 : z2b (dr j &! 1) = Z.testbit (dr j) 0) by exact (land_pow2 (dr j) 0 ltac:(lia)). rewrite H0.
  destruct m as [|m].
  - cbn [data_clocks clocks]. repeat wp_step. cbn [fst snd]. apply HQ; [done|exact S1|congruence|].
    intros i Hi. rewrite Hb by done. change (Z.of_nat 1) with 1.
    destruct (Z.ltb_spec (i + 1) 40); [replace (i =? 39) with false by lia; apply orb_false_r|].
    rewrite (Hd (i + 1)) by lia. cbn [orb]. destruct (Z.eqb_spec i 39) as [->|]; [done|by replace (i <? 40) with false by lia].
  - wp_step. apply IH; [lia|exact S1|congruence| |].
    + intros i Hi. rewrite Hb, Hd by lia. by replace (i =? 39) with false by lia.
    + intros j' F2 S2 L2 D2. repeat wp_step. cbn [fst snd].
      assert (Eo : Z.testbit (dr j) 0 :: bits_out (S m) (dr j1) = bits_out (S (S m)) (dr j)).
      { unfold bits_out. change (seq 0 (S (S m))) with (0%nat :: seq 1 (S m)). rewrite <- seq_shift, map_cons, map_map. f_equal.
        apply map_ext_in. intros i Hi%in_seq. rewrite Hb by lia. replace (Z.of_nat i =? 39) with false by lia.
        rewrite orb_false_r. f_equal. lia. }
      rewrite Eo. apply HQ; [congruence|done|done|]. intros i Hi. rewrite D2 by done.
      destruct (Z.ltb_spec (i + Z.of_nat (S m)) 40).
      * rewrite Hb by lia. replace (i + Z.of_nat (S m) + 1) with (i + Z.of_nat (S (S m))) by lia.
        destruct (Z.ltb_spec (i + Z.of_nat (S (S m))) 40).
        -- replace (i + Z.of_nat (S m) =? 39) with false by lia. apply orb_false_r.
        -- rewrite Hd by lia. replace (i + Z.of_nat (S m) =? 39) with true by lia. replace (i <? 40) with true by lia. cbn [orb andb].
           f_equal. lia.
      * replace (i + Z.of_nat (S (S m)) <? 40) with false by lia. f_equal. rewrite Z.shiftr_spec by lia. f_equal. lia.
Qed.

(** ** The access *)

(** The request in a scanned word, low bits first: an operation, 32 bits of data and a 6-bit address. *)
Definition dmi_access (op address data : Z) : D (X := X) (bool * Z) :=
  if op =? 1 then v ← dmi_read config hartids address; mret (match v with Some v => (true, u32 v) | None => (false, data) end)
  else if op =? 2 then b ← dmi_write config hartids address data; mret (b : bool, data)
  else mret (true, data).
Definition reply (address : Z) (r : bool * Z) : Z := address * 2 ^ 34 + snd r * 4 + (if fst r then 0 else 2).

Lemma split_word w : 0 <= w < 2 ^ 40 -> get_field w DMI_OP = w mod 4 /\ u32 (get_field w DMI_DATA) = (w / 4) mod 2 ^ 32 /\
  u32 (get_field w DMI_ADDRESS) = w / 2 ^ 34.
Proof using.
  intros Hw. change DMI_OP with (Z.shiftl (Z.ones 2) 0). change DMI_DATA with (Z.shiftl (Z.ones 32) 2).
  change DMI_ADDRESS with (Z.shiftl (Z.ones 6) 34). rewrite !get_field_bits by lia.
  assert (Ha : 0 <= w / 2 ^ 34 < 2 ^ 6) by (split; [apply Z.div_pos; lia|apply Z.div_lt_upper_bound; lia]).
  split_and!; [by rewrite Z.pow_0_r, Z.div_1_r|exact (wrap_wrap 32 ltac:(lia) (w / 4))|].
  rewrite (Z.mod_small (w / 2 ^ 34)) by lia. apply wrap_small. lia.
Qed.
Lemma join_word w (r : bool * Z) : 0 <= w < 2 ^ 40 -> 0 <= snd r < 2 ^ 32 ->
  set_field (set_field w DMI_DATA (snd r)) DMI_OP (if fst r then DMI_OP_STATUS_SUCCESS else DMI_OP_STATUS_FAILED)
  = reply (w / 2 ^ 34) r.
Proof using.
  intros Hw Hr. destruct r as [ok d]. cbn [fst snd] in *. unfold reply. cbn [fst snd].
  assert (Ha : 0 <= w / 2 ^ 34 < 2 ^ 6) by (split; [apply Z.div_pos; lia|apply Z.div_lt_upper_bound; lia]).
  set (st := if ok then 0 else 2). assert (Hst : 0 <= st < 2 ^ 2) by (subst st; destruct ok; lia).
  replace (if ok then DMI_OP_STATUS_SUCCESS else DMI_OP_STATUS_FAILED) with st by (subst st; by destruct ok).
  assert (Hlow : 0 <= d * 2 ^ 2 + st < 2 ^ 34) by lia.
  replace (w / 2 ^ 34 * 2 ^ 34 + d * 4 + st) with (Z.lor (Z.shiftl (w / 2 ^ 34) 34) (Z.lor (Z.shiftl d 2) st))
    by (rewrite !lor_shiftl_add by (lia || (rewrite ?lor_shiftl_add by lia; lia)); lia).
  change DMI_OP with (Z.shiftl (Z.ones 2) 0). change DMI_DATA with (Z.shiftl (Z.ones 32) 2).
  apply (field_eq 64); [lia| | |].
  - apply set_field_range; [lia..|]. apply set_field_range; lia.
  - apply lor_range; [lia| |].
    + rewrite Z.shiftl_mul_pow2 by lia. lia.
    + apply lor_range; [lia| |lia]. rewrite Z.shiftl_mul_pow2 by lia. lia.
  - intros i Hi. rewrite !set_field_testbit by lia. rewrite !Z.lor_spec, !Z.shiftl_spec by lia.
    destruct (Z.leb_spec 0 i); [|lia]. cbn [andb]. destruct (Z.ltb_spec i (0 + 2)).
    + rewrite (Z.testbit_neg_r (w / 2 ^ 34)), (Z.testbit_neg_r d) by lia. cbn [orb]. f_equal. lia.
    + rewrite (testbit_high 2 st), orb_false_r by lia. destruct (Z.leb_spec 2 i); [|lia]. cbn [andb].
      destruct (Z.ltb_spec i (2 + 32)).
      * rewrite (Z.testbit_neg_r (w / 2 ^ 34)) by lia. done.
      * rewrite (testbit_high 32 d), orb_false_r by lia. rewrite <- Z.shiftr_div_pow2, Z.shiftr_spec by lia. f_equal. lia.
Qed.

Lemma set_data_wrap w v : 0 <= w < 2 ^ 64 -> set_field w DMI_DATA v = set_field w DMI_DATA (u32 v).
Proof using.
  intros Hw. change DMI_DATA with (Z.shiftl (Z.ones 32) 2). apply (field_eq 64); [lia|by apply set_field_range|by apply set_field_range|].
  intros i Hi. rewrite !set_field_testbit by lia. destruct ((2 <=? i) && (i <? 2 + 32)) eqn:E; [|done].
  rewrite wrap_testbit by lia. by replace (i - 2 <? 32) with true by lia.
Qed.
Lemma set_data_same w : 0 <= w < 2 ^ 64 -> set_field w DMI_DATA ((w / 4) mod 2 ^ 32) = w.
Proof using.
  intros Hw. change DMI_DATA with (Z.shiftl (Z.ones 32) 2). apply (field_eq 64); [lia|by apply set_field_range|done|].
  intros i Hi. rewrite set_field_testbit by lia. destruct ((2 <=? i) && (i <? 2 + 32)) eqn:E; [|done].
  rewrite Z.mod_pow2_bits_low by lia. change 4 with (2 ^ 2). rewrite <- Z.shiftr_div_pow2, Z.shiftr_spec by lia. f_equal. lia.
Qed.

Definition request (w : Z) : D (X := X) (bool * Z) := dmi_access (w mod 4) (w / 2 ^ 34) ((w / 4) mod 2 ^ 32).

Lemma update_exact j s w (Q : jtag_dtm_t -> debug_module_t X -> Prop) : ir j = IR_DBUS -> busy_stuck j = false -> dr j = w -> 0 <= w < 2 ^ 40 ->
  wp (request w) s (fun r s' => Q (j <| dmi := reply (w / 2 ^ 34) r |> <| dtm_rti_remaining := required_rti_cycles j |>) s') ->
  wp (update_dr config hartids j) s Q.
Proof using.
  intros Hir Hb Hd Hw Hq. unfold update_dr. rewrite Hir, Hb, Hd. change (IR_DBUS =? IR_DTMCONTROL) with false.
  change (IR_DBUS =? IR_BYPASS) with false. change ((IR_DBUS =? IR_DBUS) && negb false) with true. cbv iota.
  destruct (split_word w Hw) as (-> & -> & ->). assert (Hdat : 0 <= (w / 4) mod 2 ^ 32 < 2 ^ 32) by (apply Z.mod_pos_bound; lia).
  assert (Hend : forall ok v s1, 0 <= v < 2 ^ 32 ->
    Q (j <| dmi := reply (w / 2 ^ 34) (ok, v) |> <| dtm_rti_remaining := required_rti_cycles j |>) s1 ->
    Q (j <| dmi := set_field (set_field w DMI_DATA v) DMI_OP (if ok : bool then DMI_OP_STATUS_SUCCESS else DMI_OP_STATUS_FAILED) |>
         <| dtm_rti_remaining := required_rti_cycles j |>) s1).
  { intros ok v s1 Hv HQ. pose proof (join_word w (ok, v) Hw Hv) as E. cbn [fst snd] in E. by rewrite E. }
  assert (Hsame : set_field w DMI_DATA ((w / 4) mod 2 ^ 32) = w) by (apply set_data_same; lia).
  unfold request, dmi_access in Hq. change DMI_OP_READ with 1. change DMI_OP_WRITE with 2. destruct (w mod 4 =? 1); [|destruct (w mod 4 =? 2)].
  - wp_step. wp_step. unfold wp, mbind, D_bind in Hq. unfold wp at 1.
    destruct (dmi_read config hartids (w / 2 ^ 34) s) as [[[v|] s1]|]; [| |done]; repeat wp_step.
    + specialize (Hend true (u32 v) s1 (wrap_range 32 ltac:(lia) v) Hq). rewrite <- set_data_wrap in Hend by lia. exact Hend.
    + specialize (Hend false _ s1 Hdat Hq). rewrite Hsame in Hend. exact Hend.
  - wp_step. wp_step. unfold wp, mbind, D_bind in Hq. unfold wp at 1.
    destruct (dmi_write config hartids (w / 2 ^ 34) ((w / 4) mod 2 ^ 32) s) as [[b s1]|]; [|done]. repeat wp_step.
    specialize (Hend b _ s1 Hdat Hq). rewrite Hsame in Hend. exact Hend.
  - repeat wp_step. specialize (Hend true _ s Hdat Hq). rewrite Hsame in Hend. exact Hend.
Qed.
Lemma clock_update b j s w (Q : bool * jtag_dtm_t -> debug_module_t X -> Prop) : jstate j = UPDATE_DR -> ir j = IR_DBUS ->
  busy_stuck j = false -> dr j = w -> 0 <= w < 2 ^ 40 ->
  wp (request w) s (fun r s' => forall out j',
    frame j' = (IR_DBUS, reply (w / 2 ^ 34) r, false, required_rti_cycles j, required_rti_cycles j) ->
    jstate j' = next UPDATE_DR (fst b) -> Q (out, j') s') ->
  wp (clock config hartids b j) s Q.
Proof using.
  intros Hj Hir Hb Hd Hw Hq. apply clock_wp. unfold negative_edge. rewrite Hj. apply (update_exact j s w); try done.
  eapply wp_mono; [exact Hq|]. intros r s' HQ. destruct j as [? ? ? ? ? ? ? ? ? ? ? ? ? st]. cbn [jstate ir busy_stuck] in *. subst.
  apply HQ; done.
Qed.
Lemma clock_idle b j s (Q : bool * jtag_dtm_t -> debug_module_t X -> Prop) : jstate j = RUN_TEST_IDLE ->
  wp (run_test_idle config) s (fun _ s' => forall out j',
    frame j' = (ir j, dmi j, busy_stuck j, (if 0 <? dtm_rti_remaining j then dtm_rti_remaining j - 1 else dtm_rti_remaining j), required_rti_cycles j) ->
    jstate j' = next RUN_TEST_IDLE (fst b) -> Q (out, j') s') ->
  wp (clock config hartids b j) s Q.
Proof using.
  intros Hj Hq. apply clock_wp. unfold negative_edge. rewrite Hj. wp_step. eapply wp_mono; [exact Hq|]. intros [] s' HQ. wp_step.
  destruct j as [? ? ? ? ? ? ? ? ? ? ? r ? st]. cbn [jstate dtm_rti_remaining] in *. subst st. destruct (0 <? r); by apply HQ.
Qed.

(** ** The scan *)

(** From and back to Run-Test/Idle, the 40 bits of [w] scanned through the data register. *)
Definition scan_clocks (w : Z) : list (bool * bool) :=
  [(true, false); (false, false); (false, false)] ++ data_clocks 40 w ++ [(true, false); (false, false)].

Lemma request_total w s : dm_wf config hartids s -> 0 <= w < 2 ^ 40 -> wp (request w) s (fun r s' => dm_wf config hartids s' /\ 0 <= snd r < 2 ^ 32).
Proof using Hok.
  intros Hs Hw. unfold request, dmi_access. assert (Hd : 0 <= (w / 4) mod 2 ^ 32 < 2 ^ 32) by (apply Z.mod_pos_bound; lia).
  wp_step; [|wp_step].
  - wp_step. eapply wp_mono; [by apply (dmi_read_safe config hartids Hok)|]. intros [v|] s1 Hs1; wp_step; (split; [done|]); [apply wrap_range; lia|done].
  - wp_step. eapply wp_mono; [apply (dmi_write_safe config hartids Hok); [lia|done]|]. intros b s1 Hs1. wp_step. done.
  - wp_step. done.
Qed.

Lemma scan_exact j s w : jstate j = RUN_TEST_IDLE -> ir j = IR_DBUS -> busy_stuck j = false -> dtm_rti_remaining j <= 1 ->
  0 <= dmi j < 2 ^ 40 -> 0 <= w < 2 ^ 40 -> dm_wf config hartids s ->
  wp (run_test_idle config) s (fun _ s1 => wp (request w) s1 (fun r s2 =>
    wp (clocks config hartids (scan_clocks w) j) s (fun q s' => s' = s2 /\ jstate (snd q) = RUN_TEST_IDLE /\
      take 40 (drop 3 (fst q)) = bits_out 40 (dmi j) /\
      frame (snd q) = (IR_DBUS, reply (w / 2 ^ 34) r, false, required_rti_cycles j, required_rti_cycles j)))).
Proof using Hok.
  intros Hj Hir Hb Hr Hdmi Hw Hs.
  pose proof (safe_run_test_idle config hartids s Hs) as Hi. apply wp_total in Hi as ([] & s1 & Ei & Hs1).
  pose proof (request_total w s1 Hs1 Hw) as Hq. apply wp_total in Hq as (r & s2 & Eq & Hs2 & Hrr).
  unfold wp at 1. rewrite Ei. unfold wp at 1. rewrite Eq. unfold scan_clocks. cbn [app clocks].
  wp_step. apply clock_idle; [done|]. unfold wp at 1. rewrite Ei. cbn [fst snd]. intros o1 j1 F1 S1. cbn in S1. rewrite Hir, Hb in F1.
  wp_step. wp_step. apply clock_quiet; [by rewrite S1|]. cbn [fst snd]. intros o2 j2 F2 D2 L2 S2. rewrite S1 in S2. cbn in S2. rewrite F1 in F2.
  wp_step. wp_step. apply clock_capture; [done|]. cbn [fst snd]. intros o3 j3 F3 D3 L3 S3. cbn in S3.
  unfold frame in F2. injection F2 as I2 M2 B2 R2 Q2.
  assert (Ec : capture_dr j2 = j2 <| dr := dmi j |> <| dr_length := abits + 34 |>).
  { unfold capture_dr. rewrite I2, B2, R2. change (IR_DBUS =? IR_IDCODE) with false. change (IR_DBUS =? IR_DTMCONTROL) with false.
    change (IR_DBUS =? IR_DBUS) with true. cbv iota. rewrite orb_false_r. destruct (Z.ltb_spec 0 (dtm_rti_remaining j)).
    - replace (0 <? dtm_rti_remaining j - 1) with false by lia. by rewrite M2.
    - replace (0 <? dtm_rti_remaining j) with false by lia. by rewrite M2. }
  rewrite Ec in F3, D3, L3. clear Ec. unfold frame in F3. injection F3 as I3 M3 B3 R3 Q3.
  change (dr j3 = dmi j) in D3. change (dr_length j3 = 40) in L3.
  wp_step. apply wp_clocks_app. apply shifts; [lia|done|done| |].
  { intros i Hge. rewrite D3. by apply (testbit_high 40). }
  intros j4 F4 S4 L4 D4. cbn [fst snd clocks]. unfold frame in F4. injection F4 as I4 M4 B4 R4 Q4.
  wp_step. apply clock_quiet; [by rewrite S4|]. cbn [fst snd]. intros o5 j5 F5 D5 L5 S5. rewrite S4 in S5. cbn in S5.
  unfold frame in F5. injection F5 as I5 M5 B5 R5 Q5.
  wp_step. wp_step. apply (clock_update _ j5 s1 w); [done|congruence| | |done|].
  { rewrite B5, B4, B3. exact B2. }
  { rewrite D5. apply (field_eq 64); [lia| |lia|].
    - apply range_of_bits; [lia|]. intros i Hge. rewrite D4 by lia. replace (i + Z.of_nat 40 <? 40) with false by lia. by replace (i <? 40) with false by lia.
    - intros i Hi. rewrite D4 by lia. replace (i + Z.of_nat 40 <? 40) with false by lia. replace (i + Z.of_nat 40 - 40) with i by lia.
      destruct (Z.ltb_spec i 40); [done|]. by rewrite (testbit_high 40 w). }
  unfold wp at 1. rewrite Eq. cbn [fst snd]. intros o6 j6 F6 S6. cbn in S6.
  repeat wp_step. cbn [fst snd app]. split_and!; [done|done| |].
  - rewrite D3. reflexivity.
  - rewrite F6. replace (required_rti_cycles j5) with (required_rti_cycles j); [done|]. rewrite Q5, Q4, Q3. done.
Qed.
End scan.

Lemma reply_range w r : 0 <= w < 2 ^ 40 -> 0 <= snd r < 2 ^ 32 -> 0 <= reply (w / 2 ^ 34) r < 2 ^ 40.
Proof.
  intros Hw Hr. assert (Ha : 0 <= w / 2 ^ 34 < 2 ^ 6) by (split; [apply Z.div_pos; lia|apply Z.div_lt_upper_bound; lia]).
  unfold reply. destruct (fst r); lia.
Qed.

(** C25: Five clocks with TMS high reset the TAP, whatever its state, its registers and the data on TDI, and the
    next falling edge selects the identification register; the debug module stays well formed. *)
Theorem tms_resets {X : Type} `{simif X} config hartids (s : debug_module_t X) j ds :
  config_ok config hartids -> dm_wf config hartids s -> length ds = 5%nat ->
  exists outs j' s', clocks config hartids (map (pair true) ds) j s = Some ((outs, j'), s') /\
    jstate j' = TEST_LOGIC_RESET /\ dm_wf config hartids s' /\
    forall tms' tdi', exists j2, set_pins config hartids false tms' tdi' j' s' = Some (j2, s') /\ ir j2 = IR_IDCODE.
Proof.
  intros Hok Hs Hd. pose proof (clocks_reset config hartids Hok ds j s Hs) as Hc.
  rewrite Hd in Hc. specialize (Hc (to_reset_bound (jstate j))). apply wp_total in Hc as ([outs j'] & s' & E & Hs' & Hj).
  exists outs, j', s'. split_and!; [done|done|done|]. intros tms' tdi'. unfold set_pins. rewrite andb_false_r. unfold negative_edge.
  cbn [snd] in Hj. rewrite Hj. eexists. split; reflexivity.
Qed.
(** A transport in the middle of a shift, with what its constructor leaves uninitialised set to ones. *)
Definition lost_jtag : jtag_dtm_t := JtagDtm 5 true false true true 0x1f (2 ^ 64 - 1) 64 0x61 (2 ^ 40 - 1) 0 7 true SHIFT_DR.
Lemma tms_resets_witness : exists outs j' s',
  clocks sba_config two_harts (map (pair true) [false; true; true; false; true]) lost_jtag (reached (firstn 6 session)) = Some ((outs, j'), s') /\
  jstate j' = TEST_LOGIC_RESET.
Proof.
  destruct (tms_resets sba_config two_harts (reached (firstn 6 session)) lost_jtag [false; true; true; false; true] sba_config_ok
    ltac:(concrete_wf) eq_refl) as (outs & j' & s' & E & Hj & _).
  exists outs, j', s'. exact (conj E Hj).
Defined.

(** C15: A debugger's scan of the debug module interface register, from Run-Test/Idle with no access pending, shifts
    out the previous reply, performs exactly the access encoded in the 40 bits shifted in (operation, data,
    address) once on the debug module after the idle cycle of the first clock, and leaves the reply for the
    next scan: the value read or the data sent back, and status success or failed. *)
Theorem dmi_scan_exact {X : Type} `{simif X} config hartids (s : debug_module_t X) j w :
  config_ok config hartids -> dm_wf config hartids s -> jstate j = RUN_TEST_IDLE -> ir j = IR_DBUS -> busy_stuck j = false ->
  dtm_rti_remaining j <= 1 -> 0 <= dmi j < 2 ^ 40 -> 0 <= w < 2 ^ 40 ->
  exists s1 r s2 outs j', run_test_idle config s = Some (tt, s1) /\
    dmi_access config hartids (w mod 4) (w / 2 ^ 34) ((w / 4) mod 2 ^ 32) s1 = Some (r, s2) /\
    clocks config hartids (scan_clocks w) j s = Some ((outs, j'), s2) /\
    take 40 (drop 3 outs) = bits_out 40 (dmi j) /\ dmi j' = reply (w / 2 ^ 34) r /\ 0 <= dmi j' < 2 ^ 40 /\
    jstate j' = RUN_TEST_IDLE /\ ir j' = IR_DBUS /\ busy_stuck j' = false /\ dtm_rti_remaining j' = required_rti_cycles j /\
    dm_wf config hartids s2.
Proof.
  intros Hok Hs Hj Hir Hb Hr Hdmi Hw. pose proof (scan_exact config hartids Hok j s w Hj Hir Hb Hr Hdmi Hw Hs) as Hx.
  apply wp_total in Hx as ([] & s1 & E1 & Hx). apply wp_total in Hx as (r & s2 & E2 & Hx).
  pose proof (safe_run_test_idle config hartids s Hs) as Hs1. unfold wp in Hs1. rewrite E1 in Hs1.
  pose proof (request_total config hartids Hok w s1 Hs1 Hw) as Hq. unfold wp in Hq. rewrite E2 in Hq. destruct Hq as [Hs2 Hrr].
  apply wp_total in Hx as ([outs j'] & s' & E3 & -> & S & T & F). cbn [fst snd] in *. unfold frame in F. injection F as I M B R Q.
  exists s1, r, s2, outs, j'. split_and!; try done; rewrite M; by apply reply_range.
Qed.

(** The debug status is read over JTAG: address 0x11, operation 1. *)
Definition idle_jtag : jtag_dtm_t := JtagDtm 5 true false false false 0x11 0 40 0x61 0 0 1 false RUN_TEST_IDLE.
Definition read_status : Z := 0x11 * 2 ^ 34 + 1.
Lemma dmi_scan_exact_witness : exists s1 r s2 outs j', run_test_idle sba_config (reached (firstn 6 session)) = Some (tt, s1) /\
  dmi_access sba_config two_harts 1 0x11 0 s1 = Some (r, s2) /\
  clocks sba_config two_harts (scan_clocks read_status) idle_jtag (reached (firstn 6 session)) = Some ((outs, j'), s2) /\
  dmi j' = reply 0x11 r.
Proof.
  destruct (dmi_scan_exact sba_config two_harts (reached (firstn 6 session)) idle_jtag read_status sba_config_ok ltac:(concrete_wf)
    eq_refl eq_refl eq_refl ltac:(vm_compute; discriminate) ltac:(vm_compute; intuition discriminate)
    ltac:(vm_compute; intuition discriminate)) as (s1 & r & s2 & outs & j' & E1 & E2 & E3 & _ & E4 & _).
  exists s1, r, s2, outs, j'. exact (conj E1 (conj E2 (conj E3 E4))).
Defined.
Example status_reply : match clocks sba_config two_harts (scan_clocks read_status) idle_jtag (reached (firstn 6 session)) with
  | Some ((_, j'), _) => dmi j' | None => 0 end = 0x11 * 2 ^ 34 + 0x400382 * 4.
Proof. vm_compute. reflexivity. Qed.

(** The constructor leaves [busy_stuck] as it finds it, and Test-Logic-Reset does not clear it: the first scan may
    answer busy. *)
Example first_scan_busy : dr (capture_dr (new_jtag lost_jtag 5 <| ir := IR_DBUS |>)) = DMI_OP_STATUS_BUSY.
Proof. reflexivity. Qed.
(** A call that does not change TCK runs the negative edge's action again. *)
Example no_edge_acts_again :
  let ready := reached (firstn 4 session ++ [DmiWrite DM_SBCS 0x150000; DmiWrite DM_SBADDRESS0 0x10]) in
  match (j ← set_pins sba_config two_harts false false false idle_jtag; set_pins sba_config two_harts false false false j) ready with
  | Some (_, s) => sb_read_wait s | None => 0 end = 18.
Proof. vm_compute. reflexivity. Qed.
