(* ===== verification/Csr.v ===== *)
(** * Control and status registers of traps: [src/riscv/csrs.cc], [src/riscv/csr_init.cc]

    The classes of [csrs.cc] behind the status, trap and interrupt registers:
    the [val] member of every object is a value of [csr_file], and each class has
    its [read] and [unlogged_write] as functions of the hart's state.  The commit
    log, which [write] adds to, is not modelled.  Which extensions and which MMU
    the hart was built with, what the masks are computed from at reset, is the
    class [hart_cfg]. *)

From Stdlib Require Import ZifyBool.
From stdpp Require Import functions.
From S2P Require Import Prelude Arith Decode Hart Mmu.
Local Open Scope cint_scope.

(** ** Fields: [encoding.h] *)
Definition MSTATUS_SIE : Z := 0x00000002.
Definition MSTATUS_MIE : Z := 0x00000008.
Definition MSTATUS_SPIE : Z := 0x00000020.
Definition MSTATUS_MPIE : Z := 0x00000080.
Definition MSTATUS_SPP : Z := 0x00000100.
Definition MSTATUS_TVM : Z := 0x00100000.
Definition MSTATUS_TW : Z := 0x00200000.
Definition MSTATUS_TSR : Z := 0x00400000.
Definition MSTATUS_SPELP : Z := 0x00800000.
Definition MSTATUS_SDT : Z := 0x01000000.
Definition MSTATUS_GVA : Z := 0x0000004000000000.
Definition MSTATUS_MPELP : Z := 0x0000020000000000.
Definition MSTATUS_MDT : Z := 0x0000040000000000.
Definition SSTATUS_SIE : Z := 0x00000002.
Definition SSTATUS_SPIE : Z := 0x00000020.
Definition SSTATUS_UBE : Z := 0x00000040.
Definition SSTATUS_SPP : Z := 0x00000100.
Definition SSTATUS_VS : Z := 0x00000600.
Definition SSTATUS_FS : Z := 0x00006000.
Definition SSTATUS_XS : Z := 0x00018000.
Definition SSTATUS_SUM : Z := 0x00040000.
Definition SSTATUS_MXR : Z := 0x00080000.
Definition SSTATUS_SPELP : Z := 0x00800000.
Definition SSTATUS_SDT : Z := 0x01000000.
Definition SSTATUS32_SD : Z := 0x80000000.
Definition SSTATUS_UXL : Z := 0x0000000300000000.
Definition SSTATUS64_SD : Z := 0x8000000000000000.
Definition HSTATUS_VTSR : Z := 0x00400000.
Definition HSTATUS_VTW : Z := 0x00200000.
Definition HSTATUS_VTVM : Z := 0x00100000.
Definition HSTATUS_HU : Z := 0x00000200.
Definition HSTATUS_SPV : Z := 0x00000080.
Definition HSTATUS_GVA : Z := 0x00000040.
Definition MNSTATUS_MNPP : Z := 0x00001800.
Definition MNSTATUS_MNPV : Z := 0x00000080.
Definition MENVCFG_DTE : Z := 0x0800000000000000.
Definition HENVCFG_DTE : Z := 0x0800000000000000.
Definition MENVCFG_STCE : Z := 0x8000000000000000.
Definition HENVCFG_STCE : Z := 0x8000000000000000.

Definition IRQ_M_EXT : Z := 11.
Definition IRQ_COP : Z := 12.
Definition MIP_SSIP : Z := 0x2.
Definition MIP_VSSIP : Z := 0x4.
Definition MIP_MSIP : Z := 0x8.
Definition MIP_STIP : Z := 0x20.
Definition MIP_VSTIP : Z := 0x40.
Definition MIP_MTIP : Z := 0x80.
Definition MIP_SEIP : Z := 0x200.
Definition MIP_VSEIP : Z := 0x400.
Definition MIP_MEIP : Z := 0x800.
Definition MIP_SGEIP : Z := 0x1000.
Definition MIP_LCOFIP : Z := 0x2000.
Definition MIP_VS_MASK : Z := MIP_VSSIP |! MIP_VSTIP |! MIP_VSEIP.
Definition MIP_HS_MASK : Z := MIP_VS_MASK |! MIP_SGEIP.
Definition MIDELEG_FORCED_MASK : Z := MIP_HS_MASK.
Definition PRV_HS : Z := 2.
Definition CSR_TCONTROL_MTE : Z := 8.
Definition CSR_TCONTROL_MPTE : Z := 0x80.

(** ** State *)

(** The objects that keep a [val]; [SEPC] is [nonvirtual_sepc] and so on. *)
Inductive csr_obj :=
  | MSTATUS | VSSTATUS | MNSTATUS | HSTATUS | TCONTROL
  | MEPC | SEPC | VSEPC | MNEPC | DPC
  | MTVEC | STVEC | VSTVEC
  | MCAUSE | SCAUSE | VSCAUSE
  | MTVAL | STVAL | VSTVAL | MTVAL2 | MTINST | HTVAL | HTINST
  | MIP | MIE | HVIP | MIDELEG | MEDELEG | HIDELEG | HEDELEG
  | TIME | HTIMEDELTA | STIMECMP | VSTIMECMP
  | MCOUNTEREN | SCOUNTEREN | HCOUNTEREN.

#[global] Instance csr_obj_eq_dec : EqDecision csr_obj.
Proof. solve_decision. Defined.

(** The members of [dcsr_csr_t] that are not in [Hart.dcsr]. *)
Record dcsr_rest := DcsrRest {
  dcsr_prv : Z; dcsr_v : bool; dcsr_step : bool; dcsr_halt : bool;
  dcsr_cause : Z; dcsr_ext_cause : Z; dcsr_cetrig : bool; dcsr_pelp : bool
}.

Inductive single_step_t := STEP_NONE | STEP_STEPPING | STEP_STEPPED.

Record csr_file := CsrFile {
  val : csr_obj -> Z;
  dcsr_more : dcsr_rest;
  prev_prv : Z; prev_v : bool; prv_changed : bool; v_changed : bool;
  single_step : single_step_t;
  critical_error : bool;
  in_wfi : bool
}.

Definition with_val (v : csr_obj -> Z) (c : csr_file) : csr_file :=
  CsrFile v (dcsr_more c) (prev_prv c) (prev_v c) (prv_changed c) (v_changed c)
    (single_step c) (critical_error c) (in_wfi c).
Definition with_dcsr_more (d : dcsr_rest) (c : csr_file) : csr_file :=
  CsrFile (val c) d (prev_prv c) (prev_v c) (prv_changed c) (v_changed c)
    (single_step c) (critical_error c) (in_wfi c).
Definition with_prev (p : Z) (v pc vc : bool) (c : csr_file) : csr_file :=
  CsrFile (val c) (dcsr_more c) p v pc vc (single_step c) (critical_error c) (in_wfi c).
Definition with_single_step (x : single_step_t) (c : csr_file) : csr_file :=
  CsrFile (val c) (dcsr_more c) (prev_prv c) (prev_v c) (prv_changed c) (v_changed c)
    x (critical_error c) (in_wfi c).
Definition with_critical_error (x : bool) (c : csr_file) : csr_file :=
  CsrFile (val c) (dcsr_more c) (prev_prv c) (prev_v c) (prv_changed c) (v_changed c)
    (single_step c) x (in_wfi c).
Definition with_in_wfi (x : bool) (c : csr_file) : csr_file :=
  CsrFile (val c) (dcsr_more c) (prev_prv c) (prev_v c) (prv_changed c) (v_changed c)
    (single_step c) (critical_error c) x.

(** What the trap logic needs of the rest of the machine: a place for its
    registers, and an MMU to flush. *)
Class csr_world (W : Type) := {
  csrs_of : W -> csr_file;
  set_csrs : csr_file -> W -> W;
  mmu_flush_tlb : W -> W;
  mmu_flush_icache : W -> W;
  csrs_of_set c w : csrs_of (set_csrs c w) = c;
  csrs_of_flush_tlb w : csrs_of (mmu_flush_tlb w) = csrs_of w;
  csrs_of_flush_icache w : csrs_of (mmu_flush_icache w) = csrs_of w
}.

(** The registers next to the MMU of [Mmu.v]. *)
#[export, program] Instance mmu_csr_world X : csr_world (csr_file * mmu_t X) := {|
  csrs_of w := fst w;
  set_csrs c w := (c, snd w);
  mmu_flush_tlb w := (fst w, flush_tlb (snd w));
  mmu_flush_icache w := w
|}.
Solve Obligations with done.

(** ** Construction: the extensions and the MMU at reset *)
Class hart_cfg := HartCfg {
  max_xlen : Z;
  const_ext : extension -> bool;
  impl_mmu : bool;
  any_vector_extensions : bool;
  any_custom_extensions : bool
}.

Definition masked (old mask new : Z) : Z := (old &! ~! mask) |! (new &! mask).

Section csr.
Context {W : Type} `{csr_world W} {C : hart_cfg}.
Implicit Type s : state W.

Definition csrs_val s : csr_file := csrs_of (world s).
Definition reg s (o : csr_obj) : Z := val (csrs_val s) o.
Definition update (f : csr_file -> csr_file) s : state W :=
  with_world (set_csrs (f (csrs_val s)) (world s)) s.

(** [basic_csr_t::unlogged_write]. *)
Definition set_reg (o : csr_obj) (v : Z) s : state W :=
  update (fun c => with_val (<[o := v]> (val c)) c) s.
Definition flush_tlb s : state W := with_world (mmu_flush_tlb (world s)) s.

Definition opt (c : bool) (mask : Z) : Z := if c then mask else 0.

(** ** [masked_csr_t] *)
Definition masked_write (o : csr_obj) (mask v : Z) s : state W :=
  set_reg o (masked (reg s o) mask v) s.

(** ** [legalize_privilege] *)
Definition legalize_privilege s (p : Z) : Z :=
  if negb (extension_enabled s EXT_U) then PRV_M
  else if (p =? PRV_HS) || ((p =? PRV_S) && negb (extension_enabled s EXT_S)) then PRV_U
  else p.

(** ** [base_status_csr_t] *)
Definition has_page : bool := const_ext EXT_S && impl_mmu.
Definition compute_sstatus_write_mask : Z :=
  let has_fs := (const_ext EXT_S || const_ext EXT_F) && negb (const_ext EXT_ZFINX) in
  opt (const_ext EXT_S) (SSTATUS_SIE |! SSTATUS_SPIE |! SSTATUS_SPP) |!
  opt has_page (SSTATUS_SUM |! SSTATUS_MXR) |!
  opt has_fs SSTATUS_FS |!
  opt any_custom_extensions SSTATUS_XS |!
  opt any_vector_extensions SSTATUS_VS |!
  opt (const_ext EXT_ZICFILP) SSTATUS_SPELP |!
  opt (const_ext EXT_SSDBLTRP) SSTATUS_SDT.
Definition sstatus_write_mask : Z := compute_sstatus_write_mask.
Definition sstatus_read_mask : Z :=
  sstatus_write_mask |! SSTATUS_UBE |! SSTATUS_UXL |!
  (if max_xlen =? 32 then SSTATUS32_SD else SSTATUS64_SD).
Definition sd_bit : Z := if max_xlen =? 64 then SSTATUS64_SD else SSTATUS32_SD.
Definition adjust_sd (v : Z) : Z :=
  if ((v &! SSTATUS_FS) =? SSTATUS_FS) || ((v &! SSTATUS_VS) =? SSTATUS_VS) ||
     ((v &! SSTATUS_XS) =? SSTATUS_XS)
  then v |! sd_bit else v &! ~! sd_bit.
Definition maybe_flush_tlb (oldval newval : Z) s : state W :=
  if z2b ((newval ^! oldval) &!
          (MSTATUS_MPP |! MSTATUS_MPRV |! opt has_page (MSTATUS_MXR |! MSTATUS_SUM)))
  then flush_tlb s else s.

(** ** [mstatus_csr_t] *)
Definition mstatus_read s : Z := reg s MSTATUS.
Definition mstatus_write_mask s : Z :=
  let ext := extension_enabled s in
  sstatus_write_mask |! MSTATUS_MIE |! MSTATUS_MPIE |! opt (ext EXT_U) MSTATUS_MPRV |!
  MSTATUS_MPP |! MSTATUS_TW |! opt (ext EXT_S) MSTATUS_TSR |! opt has_page MSTATUS_TVM |!
  opt (ext EXT_H) MSTATUS_GVA |! opt (ext EXT_H) MSTATUS_MPV |!
  opt (ext EXT_SMDBLTRP) MSTATUS_MDT |!
  opt (ext EXT_ZICFILP) (MSTATUS_SPELP |! MSTATUS_MPELP) |!
  opt (ext EXT_SSDBLTRP) SSTATUS_SDT.
Definition mstatus_write (v : Z) s : state W :=
  let requested_mpp := legalize_privilege s (get_field v MSTATUS_MPP) in
  let adjusted_val := set_field v MSTATUS_MPP requested_mpp in
  let new_mstatus := masked (mstatus_read s) (mstatus_write_mask s) adjusted_val in
  let new_mstatus := if z2b (new_mstatus &! MSTATUS_MDT) then new_mstatus &! ~! MSTATUS_MIE
                     else new_mstatus in
  set_reg MSTATUS (adjust_sd new_mstatus) (maybe_flush_tlb (mstatus_read s) new_mstatus s).

(** [rv32_high_csr_t], the [mstatush] of a 32-bit hart. *)
Definition mstatush_write (v : Z) s : state W :=
  mstatus_write ((mstatus_read s <<! 32 >>! 32) |! ((v &! 0xffffffff) <<! 32)) s.

(** ** [vsstatus_csr_t] *)
Definition vsstatus_read s : Z :=
  let hDTE := z2b (henvcfg s &! HENVCFG_DTE) in
  reg s VSSTATUS &! (sstatus_read_mask &! ~! (if hDTE then 0 else SSTATUS_SDT)).
Definition vsstatus_write (v : Z) s : state W :=
  let hDTE := z2b (henvcfg s &! HENVCFG_DTE) in
  let adj_write_mask := sstatus_write_mask &! ~! (if hDTE then 0 else SSTATUS_SDT) in
  let newval := masked (reg s VSSTATUS) adj_write_mask v in
  let newval := if z2b (newval &! SSTATUS_SDT) then newval &! ~! SSTATUS_SIE else newval in
  set_reg VSSTATUS (adjust_sd newval)
    (if virt s then maybe_flush_tlb (vsstatus_read s) newval s else s).

(** ** [sstatus_proxy_csr_t] *)
Definition nonvirtual_sstatus_read s : Z :=
  let mDTE := z2b (menvcfg s &! MENVCFG_DTE) in
  mstatus_read s &! (sstatus_read_mask &! ~! (if mDTE then 0 else SSTATUS_SDT)).
Definition nonvirtual_sstatus_write (v : Z) s : state W :=
  let mDTE := z2b (menvcfg s &! MENVCFG_DTE) in
  let adj_write_mask := sstatus_write_mask &! ~! (if mDTE then 0 else SSTATUS_SDT) in
  let new_mstatus := masked (mstatus_read s) adj_write_mask v in
  let new_mstatus := if z2b (new_mstatus &! SSTATUS_SDT) then new_mstatus &! ~! SSTATUS_SIE
                     else new_mstatus in
  mstatus_write new_mstatus s.

(** ** [sstatus_csr_t], a [virtualized_csr_t] *)
Definition sstatus_read s : Z := if virt s then vsstatus_read s else nonvirtual_sstatus_read s.
Definition sstatus_write (v : Z) s : state W :=
  if virt s then vsstatus_write v s else nonvirtual_sstatus_write v s.
Definition sstatus_enabled (which : Z) s : bool :=
  if z2b (nonvirtual_sstatus_read s &! which)
  then negb (virt s) || z2b (vsstatus_read s &! which) else false.
(** [None]: [abort()]. *)
Definition sstatus_dirty (dirties : Z) s : option (state W) :=
  if ((nonvirtual_sstatus_read s &! dirties) =? dirties) &&
     (negb (virt s) || ((vsstatus_read s &! dirties) =? dirties)) then Some s
  else if negb (sstatus_enabled dirties s) then None
  else
    let s := nonvirtual_sstatus_write (nonvirtual_sstatus_read s |! dirties) s in
    Some (if virt s then vsstatus_write (vsstatus_read s |! dirties) s else s).

(** ** [mnstatus_csr_t]: only with Smrnmi *)
Definition mnstatus s : option Z :=
  if const_ext EXT_SMRNMI then Some (reg s MNSTATUS) else None.
Definition mnstatus_write (v : Z) s : state W :=
  let mask := (~! reg s MNSTATUS &! MNSTATUS_NMIE) |!
              opt (extension_enabled s EXT_H) MNSTATUS_MNPV |! MNSTATUS_MNPP in
  let requested_mnpp := legalize_privilege s (get_field v MNSTATUS_MNPP) in
  let adjusted_val := set_field v MNSTATUS_MNPP requested_mnpp in
  set_reg MNSTATUS (masked (reg s MNSTATUS) mask adjusted_val) s.
Definition nmie s : bool :=
  match mnstatus s with Some v => z2b (get_field v MNSTATUS_NMIE) | None => true end.

(** ** [hstatus_csr_t] *)
Definition hstatus_write (v : Z) s : state W :=
  let mask := HSTATUS_VTSR |! HSTATUS_VTW |! opt impl_mmu HSTATUS_VTVM |!
    opt (extension_enabled s EXT_SSNPM) HSTATUS_HUPMM |!
    HSTATUS_HU |! HSTATUS_SPVP |! HSTATUS_SPV |! HSTATUS_GVA in
  let pmm := get_field v HSTATUS_HUPMM in
  let adjusted_val := set_field v HSTATUS_HUPMM (if negb (pmm =? 1) then pmm else 0) in
  let new_hstatus := masked (reg s HSTATUS) mask adjusted_val in
  set_reg HSTATUS new_hstatus
    (if negb (get_field new_hstatus HSTATUS_HUPMM =? get_field (reg s HSTATUS) HSTATUS_HUPMM)
     then flush_tlb s else s).

(** ** [epc_csr_t], [tvec_csr_t], [cause_csr_t] *)
Definition epc_read (o : csr_obj) s : Z := reg s o &! pc_alignment_mask s.
Definition epc_write (o : csr_obj) (v : Z) s : state W := set_reg o (v &! ~! 1) s.
Definition tvec_write (o : csr_obj) (v : Z) s : state W := set_reg o (v &! ~! 2) s.
Definition cause_read (xlen : Z) (o : csr_obj) s : Z :=
  let v := reg s o in
  if xlen <? max_xlen then v |! ((v >>! (max_xlen - 1)) <<! (xlen - 1)) else v.

(** [virtualized_csr_t] over [orig] and [virt_]: [sepc], [stvec], [scause], [stval]. *)
Definition sepc_read s : Z := if virt s then epc_read VSEPC s else epc_read SEPC s.
Definition sepc_write (v : Z) s : state W :=
  if virt s then epc_write VSEPC v s else epc_write SEPC v s.

(** ** [mip_csr_t], [mie_csr_t], [hvip_csr_t] *)
Definition mip_read s : Z := reg s MIP |! reg s HVIP.
Definition mie_read s : Z := reg s MIE.
Definition write_with_mask (o : csr_obj) (mask v : Z) s : state W := masked_write o mask v s.
Definition backdoor_write_mip (mask v : Z) s : state W := masked_write MIP mask v s.
Definition mip_write_mask s : Z :=
  let ext := extension_enabled s in
  let supervisor_ints := opt (ext EXT_S)
    (MIP_SSIP |! (if z2b (menvcfg s &! MENVCFG_STCE) then 0 else MIP_STIP) |! MIP_SEIP) in
  let lscof_int := opt (ext EXT_SSCOFPMF) MIP_LCOFIP in
  let vssip_int := opt (ext EXT_H) MIP_VSSIP in
  let hypervisor_ints := opt (ext EXT_H) MIP_HS_MASK in
  (supervisor_ints |! hypervisor_ints |! lscof_int) &!
  (MIP_SEIP |! MIP_SSIP |! MIP_STIP |! MIP_LCOFIP |! vssip_int).
Definition mip_write (v : Z) s : state W := write_with_mask MIP (mip_write_mask s) v s.
Definition delegable_ints s : Z :=
  let ext := extension_enabled s in
  opt (ext EXT_S) (MIP_SSIP |! MIP_STIP |! MIP_SEIP) |!
  (b2z any_custom_extensions <<! IRQ_COP) |! opt (ext EXT_SSCOFPMF) MIP_LCOFIP.
Definition mie_write_mask s : Z :=
  delegable_ints s |! opt (extension_enabled s EXT_H) MIP_HS_MASK |!
  MIP_MSIP |! MIP_MTIP |! MIP_MEIP.
Definition mie_write (v : Z) s : state W := write_with_mask MIE (mie_write_mask s) v s.
Definition hvip_read s : Z := reg s HVIP |! (mip_read s &! MIP_VSSIP).
Definition hvip_write (v : Z) s : state W :=
  set_reg HVIP (v &! (MIP_VSEIP |! MIP_VSTIP)) (write_with_mask MIP MIP_VSSIP v s).

(** ** Delegation registers *)
Definition mideleg_read s : Z :=
  if extension_enabled s EXT_H then reg s MIDELEG |! MIDELEG_FORCED_MASK else reg s MIDELEG.
Definition mideleg_write (v : Z) s : state W := set_reg MIDELEG (v &! delegable_ints s) s.
Definition hypervisor_exceptions : Z :=
  (1 <<! CAUSE_VIRTUAL_SUPERVISOR_ECALL) |! (1 <<! CAUSE_FETCH_GUEST_PAGE_FAULT) |!
  (1 <<! CAUSE_LOAD_GUEST_PAGE_FAULT) |! (1 <<! CAUSE_VIRTUAL_INSTRUCTION) |!
  (1 <<! CAUSE_STORE_GUEST_PAGE_FAULT).
Definition medeleg_write_mask s : Z :=
  (1 <<! CAUSE_MISALIGNED_FETCH) |! (1 <<! CAUSE_FETCH_ACCESS) |!
  (1 <<! CAUSE_ILLEGAL_INSTRUCTION) |! (1 <<! CAUSE_BREAKPOINT) |!
  (1 <<! CAUSE_MISALIGNED_LOAD) |! (1 <<! CAUSE_LOAD_ACCESS) |!
  (1 <<! CAUSE_MISALIGNED_STORE) |! (1 <<! CAUSE_STORE_ACCESS) |!
  (1 <<! CAUSE_USER_ECALL) |! (1 <<! CAUSE_SUPERVISOR_ECALL) |!
  (1 <<! CAUSE_FETCH_PAGE_FAULT) |! (1 <<! CAUSE_LOAD_PAGE_FAULT) |!
  (1 <<! CAUSE_STORE_PAGE_FAULT) |!
  opt (extension_enabled s EXT_H) hypervisor_exceptions |!
  (1 <<! CAUSE_SOFTWARE_CHECK_FAULT) |! (1 <<! CAUSE_HARDWARE_ERROR_FAULT).
Definition medeleg_write (v : Z) s : state W := masked_write MEDELEG (medeleg_write_mask s) v s.
Definition hideleg_read s : Z := reg s HIDELEG &! mideleg_read s.
(** [masked_csr_t] with [MIP_VS_MASK]: the [read] of the update is [hideleg_csr_t]'s. *)
Definition hideleg_write (v : Z) s : state W :=
  set_reg HIDELEG (masked (hideleg_read s) MIP_VS_MASK v) s.
Definition hedeleg_mask : Z :=
  (1 <<! CAUSE_MISALIGNED_FETCH) |! (1 <<! CAUSE_FETCH_ACCESS) |!
  (1 <<! CAUSE_ILLEGAL_INSTRUCTION) |! (1 <<! CAUSE_BREAKPOINT) |!
  (1 <<! CAUSE_MISALIGNED_LOAD) |! (1 <<! CAUSE_LOAD_ACCESS) |!
  (1 <<! CAUSE_MISALIGNED_STORE) |! (1 <<! CAUSE_STORE_ACCESS) |!
  (1 <<! CAUSE_USER_ECALL) |! (1 <<! CAUSE_FETCH_PAGE_FAULT) |!
  (1 <<! CAUSE_LOAD_PAGE_FAULT) |! (1 <<! CAUSE_STORE_PAGE_FAULT) |!
  (1 <<! CAUSE_SOFTWARE_CHECK_FAULT) |! (1 <<! CAUSE_HARDWARE_ERROR_FAULT).
Definition hedeleg_write (v : Z) s : state W := masked_write HEDELEG hedeleg_mask v s.

(** ** [generic_int_accessor_t]: the views [sip], [hip], [vsip] of [mip] and [mie] *)
Inductive mask_mode_t := MIDELEG_MODE | HIDELEG_MODE.
Record generic_int_accessor_t := IntAccessor {
  read_mask : Z; ip_write_mask : Z; ie_write_mask : Z; mask_mode : mask_mode_t; shiftamt : Z
}.
Definition deleg_mask (a : generic_int_accessor_t) s : Z :=
  match mask_mode a with MIDELEG_MODE => mideleg_read s | HIDELEG_MODE => hideleg_read s end.
Definition ip_read a s : Z := (mip_read s &! deleg_mask a s &! read_mask a) >>! shiftamt a.
Definition ip_write a (v : Z) s : state W :=
  write_with_mask MIP (deleg_mask a s &! ip_write_mask a) (v <<! shiftamt a) s.
Definition ie_read a s : Z := (mie_read s &! deleg_mask a s &! read_mask a) >>! shiftamt a.
Definition ie_write a (v : Z) s : state W :=
  write_with_mask MIE (deleg_mask a s &! ie_write_mask a) (v <<! shiftamt a) s.
Definition sip_sie_accr : generic_int_accessor_t :=
  IntAccessor (~! MIP_HS_MASK) (MIP_SSIP |! MIP_LCOFIP) (~! MIP_HS_MASK) MIDELEG_MODE 0.
Definition hip_hie_accr : generic_int_accessor_t :=
  IntAccessor MIP_HS_MASK MIP_VSSIP MIP_HS_MASK MIDELEG_MODE 0.
Definition vsip_vsie_accr : generic_int_accessor_t :=
  IntAccessor MIP_VS_MASK MIP_VSSIP MIP_VS_MASK HIDELEG_MODE 1.
Definition s_accr s : generic_int_accessor_t := if virt s then vsip_vsie_accr else sip_sie_accr.
Definition sip_read s : Z := ip_read (s_accr s) s.
Definition sip_write (v : Z) s : state W := ip_write (s_accr s) v s.
Definition sie_read s : Z := ie_read (s_accr s) s.
Definition sie_write (v : Z) s : state W := ie_write (s_accr s) v s.

(** ** [time_counter_csr_t] and [stimecmp_csr_t] *)
Definition time_read s : Z := if virt s then reg s TIME +! reg s HTIMEDELTA else reg s TIME.
Definition time_sync (v : Z) s : state W :=
  let s := set_reg TIME v s in
  if extension_enabled s EXT_SSTC then
    let mip_val := opt (reg s STIMECMP <=? v) MIP_STIP |!
                   opt (reg s VSTIMECMP <=? (v +! reg s HTIMEDELTA)) MIP_VSTIP in
    let mask := opt (z2b (menvcfg s &! MENVCFG_STCE)) MIP_STIP |!
                opt (z2b (henvcfg s &! HENVCFG_STCE)) MIP_VSTIP in
    backdoor_write_mip mask mip_val s
  else s.
(** [o] is [STIMECMP] with [MIP_STIP] or [VSTIMECMP] with [MIP_VSTIP]. *)
Definition stimecmp_write (o : csr_obj) (intr_mask v : Z) s : state W :=
  let mask := opt (z2b (menvcfg s &! MENVCFG_STCE)) MIP_STIP |!
              opt (z2b (henvcfg s &! HENVCFG_STCE)) MIP_VSTIP in
  set_reg o v (backdoor_write_mip mask (opt (v <=? time_read s) intr_mask) s).
End csr.

(** ** Permissions: [csr_t::verify_permissions] and the counters' *)
Section permissions.
Context {W : Type} `{csr_world W} {C : hart_cfg} {E : env}.
Local Abbreviation M := (M W).

Definition verify_permissions (address : Z) (write : bool) : M unit := fun s =>
  let csr_priv := get_field address 0x300 in
  let csr_read_only := get_field address 0xC00 =? 3 in
  let priv := if (prv s =? PRV_S) && negb (virt s) then PRV_HS else prv s in
  if ((csr_priv =? PRV_S) && negb (extension_enabled s EXT_S)) ||
     ((csr_priv =? PRV_HS) && negb (extension_enabled s EXT_H))
  then throw (trap_illegal_instruction insn) s
  else if write && csr_read_only then throw (trap_illegal_instruction insn) s
  else if priv <? csr_priv then
    if virt s && (csr_priv <=? PRV_HS) then throw (trap_virtual_instruction insn) s
    else throw (trap_illegal_instruction insn) s
  else (inr tt, s).

(** [counter_proxy_csr_t]. *)
Definition verify_enables (address : Z) : M unit := fun s =>
  let myenable counteren := z2b (1 &! (reg s counteren >>! (address &! 31))) in
  let mctr_ok := if prv s <? PRV_M then myenable MCOUNTEREN else true in
  let hctr_ok := if virt s then myenable HCOUNTEREN else true in
  let sctr_ok := if extension_enabled s EXT_S && (prv s <? PRV_S) then myenable SCOUNTEREN else true in
  if negb mctr_ok then throw (trap_illegal_instruction insn) s
  else if negb hctr_ok then throw (trap_virtual_instruction insn) s
  else if negb sctr_ok then
    if virt s then throw (trap_virtual_instruction insn) s
    else throw (trap_illegal_instruction insn) s
  else (inr tt, s).
Definition verify_counter_permissions (address : Z) (write : bool) : M unit :=
  verify_permissions address write;; verify_enables address.
End permissions.
