(* ===== verification/Status.v ===== *)
(** * The status registers bit by bit

    What the classes of [Csr.v] do to single bits of [mstatus], [vsstatus] and
    [sstatus]: the writable bits take the written value, the others stay; [MPP] is
    legalised, [SD] summarises [FS], [VS] and [XS], [MDT] clears [MIE] and [SDT]
    clears [SIE]. *)

From Stdlib Require Import ZifyBool.
From stdpp Require Import sets functions.
From S2P Require Import Prelude Arith Decode Hart Mmu Csr.
Local Open Scope cint_scope.

(** [lia] on the order hypotheses alone: the others are large here. *)
Ltac olia :=
  repeat match goal with
  | H : ?P |- _ =>
    lazymatch type of P with Prop => idtac end;
    lazymatch P with
    | _ <= _ => fail | _ < _ => fail | _ <= _ <= _ => fail | _ <= _ < _ => fail
    | _ = _ :> Z => fail | _ <> _ :> Z => fail | _ \/ _ => fail | _ => clear H
    end
  end; lia.

(** ** Bits of fields and masks *)

Lemma flag_set k r v i : 0 <= k < 64 -> 0 <= i < 64 ->
  Z.testbit (set_field r (2 ^ k) v) i = if i =? k then Z.odd v else Z.testbit r i.
Proof.
  intros Hk Hi. replace (2 ^ k) with (Z.shiftl (Z.ones 1) k)
    by (rewrite Z.shiftl_mul_pow2 by lia; change (Z.ones 1) with 1; lia).
  rewrite (set_field_testbit k 1) by lia.
  destruct (Z.eqb_spec i k) as [->|].
  - replace ((k <=? k) && (k <? k + 1)) with true by lia. by rewrite Z.sub_diag, Z.bit0_odd.
  - by replace ((k <=? i) && (i <? k + 1)) with false by lia.
Qed.

Lemma flag_get k r : 0 <= k < 64 -> get_field r (2 ^ k) = b2z (Z.testbit r k).
Proof.
  intros Hk. replace (2 ^ k) with (Z.shiftl (Z.ones 1) k)
    by (rewrite Z.shiftl_mul_pow2 by lia; change (Z.ones 1) with 1; lia).
  rewrite (get_field_bits k 1) by lia. rewrite <- Z.shiftr_div_pow2 by lia.
  change (2 ^ 1) with 2. rewrite Zmod_odd, <- Z.bit0_odd, Z.shiftr_spec by lia. 
  by replace (0 + k) with k by lia.
Qed.

Lemma odd_b2z b : Z.odd (b2z b) = b.
Proof. by destruct b. Qed.
Lemma z2b_b2z b : z2b (b2z b) = b.
Proof. by destruct b. Qed.
Lemma land_flag x k : 0 <= k -> z2b (x &! 2 ^ k) = Z.testbit x k.
Proof. apply land_pow2. Qed.

(** The single-bit fields, by the literal of their mask. *)
Section flags.
Context (r v i : Z) (Hi : 0 <= i < 64).
Local Abbreviation sets m k := (Z.testbit (set_field r m v) i = if i =? k then Z.odd v else Z.testbit r i).
Local Ltac one k := apply (flag_set k); [lia|exact Hi].
Lemma set_SIE : sets MSTATUS_SIE 1. Proof using Hi. one 1. Qed.
Lemma set_MIE : sets MSTATUS_MIE 3. Proof using Hi. one 3. Qed.
Lemma set_SPIE : sets MSTATUS_SPIE 5. Proof using Hi. one 5. Qed.
Lemma set_MPIE : sets MSTATUS_MPIE 7. Proof using Hi. one 7. Qed.
Lemma set_SPP : sets MSTATUS_SPP 8. Proof using Hi. one 8. Qed.
Lemma set_MPRV : sets MSTATUS_MPRV 17. Proof using Hi. one 17. Qed.
Lemma set_SPELP : sets MSTATUS_SPELP 23. Proof using Hi. one 23. Qed.
Lemma set_SPELP' : sets SSTATUS_SPELP 23. Proof using Hi. one 23. Qed.
Lemma set_SDT : sets MSTATUS_SDT 24. Proof using Hi. one 24. Qed.
Lemma set_SDT' : sets SSTATUS_SDT 24. Proof using Hi. one 24. Qed.
Lemma set_GVA : sets MSTATUS_GVA 38. Proof using Hi. one 38. Qed.
Lemma set_MPV : sets MSTATUS_MPV 39. Proof using Hi. one 39. Qed.
Lemma set_MPELP : sets MSTATUS_MPELP 41. Proof using Hi. one 41. Qed.
Lemma set_MDT : sets MSTATUS_MDT 42. Proof using Hi. one 42. Qed.
Lemma set_MPP : Z.testbit (set_field r MSTATUS_MPP v) i =
  if (i =? 11) || (i =? 12) then Z.testbit v (i - 11) else Z.testbit r i.
Proof using Hi.
  change MSTATUS_MPP with (Z.shiftl (Z.ones 2) 11). rewrite (set_field_testbit 11 2) by lia.
  by replace ((11 <=? i) && (i <? 11 + 2)) with ((i =? 11) || (i =? 12)) by lia.
Qed.
End flags.

Section flag_values.
Context (r : Z).
Local Abbreviation gets m k := (get_field r m = b2z (Z.testbit r k)).
Local Ltac one k := apply (flag_get k); lia.
Lemma get_SIE : gets MSTATUS_SIE 1. Proof using. one 1. Qed.
Lemma get_MIE : gets MSTATUS_MIE 3. Proof using. one 3. Qed.
Lemma get_SPIE : gets MSTATUS_SPIE 5. Proof using. one 5. Qed.
Lemma get_MPIE : gets MSTATUS_MPIE 7. Proof using. one 7. Qed.
Lemma get_SPP : gets MSTATUS_SPP 8. Proof using. one 8. Qed.
Lemma get_SPELP : gets SSTATUS_SPELP 23. Proof using. one 23. Qed.
Lemma get_SDT : gets MSTATUS_SDT 24. Proof using. one 24. Qed.
Lemma get_MPV : gets MSTATUS_MPV 39. Proof using. one 39. Qed.
Lemma get_MPELP : gets MSTATUS_MPELP 41. Proof using. one 41. Qed.
Lemma get_MDT : gets MSTATUS_MDT 42. Proof using. one 42. Qed.
Lemma get_NMIE : gets MNSTATUS_NMIE 3. Proof using. one 3. Qed.
Lemma get_MNPV : gets MNSTATUS_MNPV 7. Proof using. one 7. Qed.
Lemma get_SPV : gets HSTATUS_SPV 7. Proof using. one 7. Qed.
Lemma get_MPP : get_field r MSTATUS_MPP = b2z (Z.testbit r 11) + 2 * b2z (Z.testbit r 12).
Proof using.
  change MSTATUS_MPP with (Z.shiftl (Z.ones 2) 11). rewrite (get_field_bits 11 2) by lia.
  rewrite <- Z.shiftr_div_pow2 by lia. apply Z.bits_inj'. intros j Hj.
  rewrite <- Z.land_ones, Z.land_spec, Z.shiftr_spec by lia.
  destruct (Z.eq_dec j 0) as [->|]; [change (0 + 11) with 11; by destruct (Z.testbit r 11), (Z.testbit r 12)|].
  destruct (Z.eq_dec j 1) as [->|].
  { change (1 + 11) with 12. by destruct (Z.testbit r 11), (Z.testbit r 12). }
  rewrite Z.ones_spec_high, andb_false_r by lia. symmetry. apply (testbit_high 2); [|lia].
  destruct (Z.testbit r 11), (Z.testbit r 12); cbn; lia.
Qed.
End flag_values.

Lemma masked_testbit old mask new i : 0 <= i < 64 ->
  Z.testbit (masked old mask new) i = if Z.testbit mask i then Z.testbit new i else Z.testbit old i.
Proof.
  intros Hi. unfold masked. rewrite Z.lor_spec, !Z.land_spec, wrap_testbit, Z.lnot_spec by lia.
  replace (i <? 64) with true by lia. destruct (Z.testbit mask i); cbn; by rewrite ?andb_false_r, ?andb_true_r, ?orb_false_r.
Qed.
Lemma masked_range old mask new : 0 <= old < 2 ^ 64 -> 0 <= new < 2 ^ 64 -> 0 <= masked old mask new < 2 ^ 64.
Proof.
  intros. unfold masked. apply lor_range; [lia| |].
  - rewrite Z.land_comm. apply land_range; lia.
  - rewrite Z.land_comm. apply land_range; lia.
Qed.
Lemma clear_testbit r k i : 0 <= k < 64 -> 0 <= i < 64 ->
  Z.testbit (r &! ~! (2 ^ k)) i = Z.testbit r i && negb (i =? k).
Proof.
  intros Hk Hi. rewrite Z.land_spec, wrap_testbit, Z.lnot_spec, Z.pow2_bits_eqb by lia.
  replace (i <? 64) with true by lia. by rewrite (Z.eqb_sym k i).
Qed.
Lemma opt_testbit c m i : Z.testbit (opt c m) i = c && Z.testbit m i.
Proof. destruct c; cbn; [done|by rewrite Z.bits_0]. Qed.

(** Bits of literals. *)
Ltac literal x := lazymatch x with
  | Zpos _ => idtac | Z0 => idtac | Zneg _ => idtac
  | ?a - ?b => literal a; literal b
  | ?a + ?b => literal a; literal b
  | _ => is_const x
  end.
Ltac eval_bits := repeat match goal with
  | |- context [Z.testbit ?m ?i] =>
      literal m; literal i; let b := eval vm_compute in (Z.testbit m i) in change (Z.testbit m i) with b
  | |- context [?a =? ?b] =>
      literal a; literal b; let c := eval vm_compute in (a =? b) in change (a =? b) with c
  end;
  repeat first [rewrite andb_true_r | rewrite andb_false_r | rewrite orb_false_r | rewrite orb_true_r
               | progress cbn [andb orb negb]].

Create Rewrite HintDb status.
#[export] Hint Rewrite masked_testbit set_SIE set_MIE set_SPIE set_MPIE set_SPP set_MPRV set_SPELP
  set_SPELP' set_SDT set_SDT' set_GVA set_MPV set_MPELP set_MDT set_MPP using lia : status.
#[export] Hint Rewrite get_SIE get_MIE get_SPIE get_MPIE get_SPP get_SPELP get_SDT get_MPV get_MPELP
  get_MDT get_NMIE get_MNPV get_SPV odd_b2z z2b_b2z : status.

(** The first status bits; [sd_pos] is the place of [SD]. *)
Definition dirty (st : Z) : bool :=
  (Z.testbit st 13 && Z.testbit st 14) || (Z.testbit st 9 && Z.testbit st 10) ||
  (Z.testbit st 15 && Z.testbit st 16).

Lemma two_bits r a b : 0 <= a -> 0 <= b -> a <> b ->
  ((r &! (2 ^ a + 2 ^ b)) =? 2 ^ a + 2 ^ b) = Z.testbit r a && Z.testbit r b.
Proof.
  intros Ha Hb Hab. rewrite <- (disjoint_lor_add (2 ^ a) (2 ^ b)).
  2:{ apply Z.bits_inj'. intros i Hi. rewrite Z.land_spec, !Z.pow2_bits_eqb, Z.bits_0 by lia. lia. }
  destruct (Z.eqb_spec (r &! (2 ^ a |! 2 ^ b)) (2 ^ a |! 2 ^ b)) as [E|E].
  - assert (Hbit : forall i, 0 <= i -> Z.testbit (2 ^ a |! 2 ^ b) i = true -> Z.testbit r i = true).
    { intros i Hi Ht. rewrite <- E, Z.land_spec in Ht. by apply andb_prop in Ht as [-> _]. }
    rewrite !Hbit; try done; rewrite Z.lor_spec, !Z.pow2_bits_eqb by lia; lia.
  - symmetry. apply not_true_is_false. intros [H1 H2]%andb_prop. apply E, Z.bits_inj'. intros i Hi.
    rewrite Z.land_spec, Z.lor_spec, !Z.pow2_bits_eqb by lia.
    destruct (Z.eqb_spec a i) as [<-|]; [by rewrite H1|].
    destruct (Z.eqb_spec b i) as [<-|]; [by rewrite H2|]. by rewrite andb_false_r.
Qed.

(** ** The registers and the rest of the hart *)
Section status.
Context {W : Type} `{csr_world W} {C : hart_cfg}.
Implicit Type s : state W.

(** Everything but the world. *)
Definition core s : state unit :=
  State (XPR s) (npc s) (spc s) (prv s) (virt s) (elp s) (debug_mode s) (dcsr s)
    (menvcfg s) (senvcfg s) (henvcfg s) (mseccfg s) (extension_enabled s) tt.

(** The members of [csr_file] that are not registers. *)
Definition more s : csr_file := with_val (fun _ => 0) (csrs_val s).

(** [upd os s s'] : [s'] differs from [s] at most in the registers [os] and the TLB. *)
Record upd (os : list csr_obj) s s' : Prop := Upd {
  upd_core : core s' = core s;
  upd_reg o : o ∉ os -> reg s' o = reg s o;
  upd_more : more s' = more s
}.

Lemma upd_refl os s : upd os s s.
Proof using. by split. Qed.
Lemma upd_trans os s1 s2 s3 : upd os s1 s2 -> upd os s2 s3 -> upd os s1 s3.
Proof using.
  intros [C1 R1 M1] [C2 R2 M2]. split; [congruence|intros o Ho; rewrite R2, R1; done|congruence].
Qed.
Lemma upd_weaken os os' s s' : upd os s s' -> os ⊆ os' -> upd os' s s'.
Proof using. intros [C1 R1 M1] Hs. split; [done|intros o Ho; apply R1; set_solver|done]. Qed.

Lemma reg_set o v s o' : reg (set_reg o v s) o' = if decide (o' = o) then v else reg s o'.
Proof using.
  unfold reg, set_reg, update, csrs_val. cbn. rewrite csrs_of_set. cbn.
  unfold base.insert, fn_insert. case_decide; case_decide; congruence.
Qed.
Lemma reg_set_eq o v s : reg (set_reg o v s) o = v.
Proof using. rewrite reg_set. by rewrite decide_True. Qed.
Lemma reg_flush s o : reg (flush_tlb s) o = reg s o.
Proof using. unfold reg, flush_tlb, csrs_val. cbn. by rewrite csrs_of_flush_tlb. Qed.
Lemma reg_maybe_flush old new s o : reg (maybe_flush_tlb old new s) o = reg s o.
Proof using. unfold maybe_flush_tlb. case_match; [apply reg_flush|done]. Qed.

Lemma upd_set o v s : upd [o] s (set_reg o v s).
Proof using.
  split; [done| |].
  - intros o' Ho. rewrite reg_set, decide_False; [done|set_solver].
  - unfold more, set_reg, update, csrs_val. cbn. by rewrite csrs_of_set.
Qed.
Lemma upd_flush os s : upd os s (flush_tlb s).
Proof using.
  split; [done|intros; apply reg_flush|].
  unfold more, flush_tlb, csrs_val. cbn. by rewrite csrs_of_flush_tlb.
Qed.
Lemma upd_maybe_flush os old new s : upd os s (maybe_flush_tlb old new s).
Proof using. unfold maybe_flush_tlb. case_match; [apply upd_flush|apply upd_refl]. Qed.
Lemma upd_if os (c : bool) s s1 s2 : upd os s s1 -> upd os s s2 -> upd os s (if c then s1 else s2).
Proof using. by destruct c. Qed.

Lemma upd_set_after os o v s s' : upd os s s' -> o ∈ os -> upd os s (set_reg o v s').
Proof using.
  intros Hu Ho. eapply upd_trans; [done|]. eapply upd_weaken; [apply upd_set|].
  intros x Hx. by apply list_elem_of_singleton in Hx as ->.
Qed.

Lemma upd_mstatus_write v s : upd [MSTATUS] s (mstatus_write v s).
Proof using. unfold mstatus_write. apply upd_set_after; [apply upd_maybe_flush|set_solver]. Qed.
Lemma upd_mstatush_write v s : upd [MSTATUS] s (mstatush_write v s).
Proof using. apply upd_mstatus_write. Qed.
Lemma upd_nonvirtual_sstatus_write v s : upd [MSTATUS] s (nonvirtual_sstatus_write v s).
Proof using. apply upd_mstatus_write. Qed.
Lemma upd_vsstatus_write v s : upd [VSSTATUS] s (vsstatus_write v s).
Proof using.
  unfold vsstatus_write. apply upd_set_after; [|set_solver].
  apply upd_if; [apply upd_maybe_flush|apply upd_refl].
Qed.
Lemma upd_hstatus_write v s : upd [HSTATUS] s (hstatus_write v s).
Proof using.
  unfold hstatus_write. apply upd_set_after; [|set_solver].
  apply upd_if; [apply upd_flush|apply upd_refl].
Qed.

(** Reading one register past the writes of others. *)
Lemma upd_at os s s' o : upd os s s' -> bool_decide (o ∈ os) = false -> reg s' o = reg s o.
Proof using. intros Hu Ho. apply (upd_reg _ _ _ Hu). by apply bool_decide_eq_false in Ho. Qed.

(** ** [SD], [MPP] and the masks *)
Definition sd_pos : Z := if max_xlen =? 64 then 63 else 31.
Lemma sd_bit_pow : sd_bit = 2 ^ sd_pos.
Proof using. unfold sd_bit, sd_pos. by destruct (max_xlen =? 64). Qed.
Lemma sd_pos_range : sd_pos = 63 \/ sd_pos = 31.
Proof using. unfold sd_pos. destruct (max_xlen =? 64); lia. Qed.

Lemma adjust_sd_dirty v : adjust_sd v = if dirty v then v |! sd_bit else v &! ~! sd_bit.
Proof using.
  unfold adjust_sd, dirty.
  pose proof (two_bits v 13 14 ltac:(lia) ltac:(lia) ltac:(lia)) as E1.
  pose proof (two_bits v 9 10 ltac:(lia) ltac:(lia) ltac:(lia)) as E2.
  pose proof (two_bits v 15 16 ltac:(lia) ltac:(lia) ltac:(lia)) as E3.
  change (2 ^ 13 + 2 ^ 14) with SSTATUS_FS in E1. change (2 ^ 9 + 2 ^ 10) with SSTATUS_VS in E2.
  change (2 ^ 15 + 2 ^ 16) with SSTATUS_XS in E3. by rewrite E1, E2, E3.
Qed.

Lemma adjust_sd_testbit v i : 0 <= i < 64 ->
  Z.testbit (adjust_sd v) i = if i =? sd_pos then dirty v else Z.testbit v i.
Proof using.
  intros Hi. rewrite adjust_sd_dirty, sd_bit_pow. pose proof sd_pos_range.
  destruct (dirty v).
  - rewrite Z.lor_spec, Z.pow2_bits_eqb, (Z.eqb_sym sd_pos i) by lia.
    destruct (i =? sd_pos); [apply orb_true_r|apply orb_false_r].
  - rewrite clear_testbit by lia. destruct (i =? sd_pos); [apply andb_false_r|apply andb_true_r].
Qed.

Lemma adjust_sd_range v : 0 <= v < 2 ^ 64 -> 0 <= adjust_sd v < 2 ^ 64.
Proof using.
  intros Hv. rewrite adjust_sd_dirty, sd_bit_pow. pose proof sd_pos_range. destruct (dirty v).
  - apply lor_range; [lia|lia|]. split; [lia|apply Z.pow_lt_mono_r; lia].
  - rewrite Z.land_comm. by apply land_range.
Qed.

Lemma dirty_same v w :
  (forall i, 9 <= i <= 16 -> i <> 11 -> i <> 12 -> Z.testbit v i = Z.testbit w i) -> dirty v = dirty w.
Proof using. intros E. unfold dirty. by rewrite !E by lia. Qed.

(** A supervisor status write reaches only these bits. *)
Lemma sstatus_write_mask_testbit i : 0 <= i < 64 ->
  Z.testbit sstatus_write_mask i =
  (const_ext EXT_S && ((i =? 1) || (i =? 5) || (i =? 8))) ||
  (has_page && ((i =? 18) || (i =? 19))) ||
  ((const_ext EXT_S || const_ext EXT_F) && negb (const_ext EXT_ZFINX) && ((i =? 13) || (i =? 14))) ||
  (any_custom_extensions && ((i =? 15) || (i =? 16))) ||
  (any_vector_extensions && ((i =? 9) || (i =? 10))) ||
  (const_ext EXT_ZICFILP && (i =? 23)) || (const_ext EXT_SSDBLTRP && (i =? 24)).
Proof using.
  intros Hi. unfold sstatus_write_mask, compute_sstatus_write_mask.
  rewrite !Z.lor_spec, !opt_testbit.
  change (SSTATUS_SIE |! SSTATUS_SPIE |! SSTATUS_SPP) with (2 ^ 1 |! 2 ^ 5 |! 2 ^ 8).
  change (SSTATUS_SUM |! SSTATUS_MXR) with (2 ^ 18 |! 2 ^ 19).
  change SSTATUS_FS with (2 ^ 13 |! 2 ^ 14). change SSTATUS_XS with (2 ^ 15 |! 2 ^ 16).
  change SSTATUS_VS with (2 ^ 9 |! 2 ^ 10). change SSTATUS_SPELP with (2 ^ 23).
  change SSTATUS_SDT with (2 ^ 24).
  rewrite !Z.lor_spec, !Z.pow2_bits_eqb by lia.
  repeat (rewrite (Z.eqb_sym _ i)). done.
Qed.

Definition mstatus_next (v : Z) s : Z :=
  let new := masked (mstatus_read s) (mstatus_write_mask s)
    (set_field v MSTATUS_MPP (legalize_privilege s (get_field v MSTATUS_MPP))) in
  if z2b (new &! MSTATUS_MDT) then new &! ~! MSTATUS_MIE else new.

Lemma mstatus_write_reg v s : mstatus_read (mstatus_write v s) = adjust_sd (mstatus_next v s).
Proof using. unfold mstatus_write, mstatus_read. by rewrite reg_set_eq. Qed.

Lemma mstatus_write_mask_testbit s i : 0 <= i < 64 ->
  Z.testbit (mstatus_write_mask s) i =
  Z.testbit sstatus_write_mask i || ((i =? 3) || (i =? 7) || (i =? 11) || (i =? 12) || (i =? 21)) ||
  (extension_enabled s EXT_U && (i =? 17)) || (extension_enabled s EXT_S && (i =? 22)) ||
  (has_page && (i =? 20)) || (extension_enabled s EXT_H && ((i =? 38) || (i =? 39))) ||
  (extension_enabled s EXT_SMDBLTRP && (i =? 42)) ||
  (extension_enabled s EXT_ZICFILP && ((i =? 23) || (i =? 41))) ||
  (extension_enabled s EXT_SSDBLTRP && (i =? 24)).
Proof using.
  intros Hi. unfold mstatus_write_mask. rewrite !Z.lor_spec, !opt_testbit.
  change (MSTATUS_SPELP |! MSTATUS_MPELP) with (2 ^ 23 |! 2 ^ 41).
  change MSTATUS_MIE with (2 ^ 3). change MSTATUS_MPIE with (2 ^ 7).
  change MSTATUS_MPP with (2 ^ 11 |! 2 ^ 12). change MSTATUS_MPRV with (2 ^ 17).
  change MSTATUS_TW with (2 ^ 21). change MSTATUS_TSR with (2 ^ 22). change MSTATUS_TVM with (2 ^ 20).
  change MSTATUS_GVA with (2 ^ 38). change MSTATUS_MPV with (2 ^ 39). change MSTATUS_MDT with (2 ^ 42).
  change SSTATUS_SDT with (2 ^ 24).
  rewrite !Z.lor_spec, !Z.pow2_bits_eqb by lia. repeat rewrite (Z.eqb_sym _ i). btauto.
Qed.

(** What a write to [mstatus] leaves in a bit other than [SD]. *)
Lemma mstatus_next_testbit v s i : 0 <= i < 64 ->
  Z.testbit (mstatus_next v s) i =
  if i =? 3 then Z.testbit v 3 &&
    negb (if extension_enabled s EXT_SMDBLTRP then Z.testbit v 42 else Z.testbit (mstatus_read s) 42)
  else if (i =? 11) || (i =? 12)
  then Z.testbit (legalize_privilege s (get_field v MSTATUS_MPP)) (i - 11)
  else if Z.testbit (mstatus_write_mask s) i then Z.testbit v i else Z.testbit (mstatus_read s) i.
Proof using.
  intros Hi. unfold mstatus_next. set (new := masked _ _ _).
  assert (Hn : forall j, 0 <= j < 64 -> Z.testbit new j =
    if (j =? 11) || (j =? 12) then Z.testbit (legalize_privilege s (get_field v MSTATUS_MPP)) (j - 11)
    else if Z.testbit (mstatus_write_mask s) j then Z.testbit v j else Z.testbit (mstatus_read s) j).
  { intros j Hj. unfold new. rewrite masked_testbit, set_MPP by lia.
    destruct ((j =? 11) || (j =? 12)) eqn:Ej; [|done].
    rewrite mstatus_write_mask_testbit by lia.
    replace ((j =? 3) || (j =? 7) || (j =? 11) || (j =? 12) || (j =? 21)) with true by lia.
    by rewrite orb_true_r. }
  assert (Hm : Z.testbit (mstatus_write_mask s) 42 = extension_enabled s EXT_SMDBLTRP).
  { rewrite mstatus_write_mask_testbit, sstatus_write_mask_testbit by lia. eval_bits. done. }
  assert (H3 : Z.testbit (mstatus_write_mask s) 3 = true).
  { rewrite mstatus_write_mask_testbit, sstatus_write_mask_testbit by lia. by eval_bits. }
  change MSTATUS_MDT with (2 ^ 42). rewrite land_flag by lia.
  assert (E42 : Z.testbit new 42 =
    if extension_enabled s EXT_SMDBLTRP then Z.testbit v 42 else Z.testbit (mstatus_read s) 42).
  { rewrite Hn by lia. eval_bits. by rewrite Hm. }
  rewrite <- E42. destruct (Z.eqb_spec i 3) as [->|].
  - destruct (Z.testbit new 42); [change MSTATUS_MIE with (2 ^ 3); rewrite clear_testbit by lia|];
      rewrite Hn by lia; eval_bits; by rewrite ?H3, ?andb_true_r, ?andb_false_r.
  - destruct (Z.testbit new 42); [change MSTATUS_MIE with (2 ^ 3); rewrite clear_testbit by lia|];
      rewrite Hn by lia; [replace (i =? 3) with false by lia; apply andb_true_r|done].
Qed.

(** ** Supervisor status writes: [vsstatus] and the [sstatus] view of [mstatus] *)

(** The mask of a supervisor status with or without double trap control. *)
Definition sdt_mask (mask : Z) (dte : bool) : Z := mask &! ~! (if dte then 0 else SSTATUS_SDT).
Lemma sdt_mask_testbit mask dte i : 0 <= i < 64 ->
  Z.testbit (sdt_mask mask dte) i = Z.testbit mask i && (dte || negb (i =? 24)).
Proof using.
  intros Hi. unfold sdt_mask. destruct dte.
  - rewrite Z.land_spec, wrap_testbit, Z.lnot_spec, Z.bits_0 by lia. by replace (i <? 64) with true by lia.
  - change SSTATUS_SDT with (2 ^ 24). by rewrite clear_testbit by lia.
Qed.

(** The value written, before [SD] is computed. *)
Definition s_status_next (dte : bool) (old v : Z) : Z :=
  let new := masked old (sdt_mask sstatus_write_mask dte) v in
  if z2b (new &! SSTATUS_SDT) then new &! ~! SSTATUS_SIE else new.
Lemma s_status_next_testbit dte old v i : 0 <= i < 64 ->
  Z.testbit (s_status_next dte old v) i =
  let new j := if Z.testbit (sdt_mask sstatus_write_mask dte) j then Z.testbit v j else Z.testbit old j in
  if i =? 1 then new 1 && negb (new 24) else new i.
Proof using.
  intros Hi. unfold s_status_next. cbv zeta.
  change SSTATUS_SDT with (2 ^ 24). change SSTATUS_SIE with (2 ^ 1). rewrite land_flag by lia.
  rewrite <- !(masked_testbit old _ v) by lia. set (new := masked _ _ _).
  destruct (Z.eqb_spec i 1) as [->|]; destruct (Z.testbit new 24); rewrite ?clear_testbit by lia;
    rewrite ?andb_true_r; try done; eval_bits; try done.
  by replace (i =? 1) with false by lia; rewrite andb_true_r.
Qed.

Lemma vsstatus_write_reg v s : reg (vsstatus_write v s) VSSTATUS =
  adjust_sd (s_status_next (z2b (henvcfg s &! HENVCFG_DTE)) (reg s VSSTATUS) v).
Proof using. unfold vsstatus_write. by rewrite reg_set_eq. Qed.
Lemma nonvirtual_sstatus_write_eq v s : nonvirtual_sstatus_write v s =
  mstatus_write (s_status_next (z2b (menvcfg s &! MENVCFG_DTE)) (mstatus_read s) v) s.
Proof using. done. Qed.

(** The writable bits of a supervisor status can be read. *)
Lemma sstatus_read_mask_testbit i : 0 <= i < 64 ->
  Z.testbit sstatus_write_mask i = true -> Z.testbit sstatus_read_mask i = true.
Proof using. intros Hi Hw. unfold sstatus_read_mask. by rewrite !Z.lor_spec, Hw. Qed.
End status.
Create HintDb status.
#[export] Hint Resolve upd_refl upd_set upd_flush upd_maybe_flush upd_mstatus_write upd_mstatush_write
  upd_nonvirtual_sstatus_write upd_vsstatus_write upd_hstatus_write : status.
