(* ===== verification/Trap.v ===== *)
(** * Traps, interrupts and the privileged instructions

    [processor_t::take_trap], [take_interrupt], [set_privilege] and
    [enter_debug_mode] of [src/riscv/processor.cc], over the registers of [Csr.v],
    and the instruction bodies that return from traps or order the MMU.

    The trigger module is not modelled: the hart has no instruction-count
    trigger ([check_triggers_icount] is false).  Debug output is left out. *)

From Stdlib Require Import ZifyBool.
From stdpp Require Import functions.
From S2P Require Import Prelude Arith Decode Hart Mmu Csr.
Local Open Scope cint_scope.

Definition DEBUG_ROM_ENTRY : Z := 0x800.
Definition DEBUG_ROM_TVEC : Z := 0x808.
Definition rnmi_trap_handler_address : Z := 0.

Section trap.
Context {W : Type} `{csr_world W} {C : hart_cfg}.
Implicit Type s : state W.

(** ** Privilege *)
Definition set_prv (p : Z) (v : bool) s : state W :=
  State (XPR s) (npc s) (spc s) p v (elp s) (debug_mode s) (dcsr s)
    (menvcfg s) (senvcfg s) (henvcfg s) (mseccfg s) (extension_enabled s) (world s).
Definition set_debug_mode (d : bool) s : state W :=
  State (XPR s) (npc s) (spc s) (prv s) (virt s) (elp s) d (dcsr s)
    (menvcfg s) (senvcfg s) (henvcfg s) (mseccfg s) (extension_enabled s) (world s).

Definition set_privilege (p : Z) (v : bool) s : state W :=
  let s := flush_tlb s in
  let new_prv := legalize_privilege s p in
  let new_v := v && negb (new_prv =? PRV_M) in
  let old_prv := prv s in
  let old_v := virt s in
  set_prv new_prv new_v
    (update (with_prev old_prv old_v (negb (new_prv =? old_prv)) (negb (eqb new_v old_v))) s).

(** [dcsr_csr_t::update_fields] *)
Definition dcsr_update_fields (cause extcause p : Z) (v pelp : bool) s : state W :=
  update (fun c => with_dcsr_more (let d := dcsr_more c in
    DcsrRest p v (dcsr_step d) (dcsr_halt d) cause extcause (dcsr_cetrig d) pelp) c) s.

Definition enter_debug_mode (cause extcause : Z) s : state W :=
  let s := set_debug_mode true s in
  let s := dcsr_update_fields cause extcause (prv s) (virt s) (elp s) s in
  let s := with_elp false s in
  let s := set_privilege PRV_M false s in
  let s := epc_write DPC (spc s) s in
  let s := with_spc DEBUG_ROM_ENTRY s in
  update (with_in_wfi false) s.

(** ** Traps *)
Definition interrupt_bit : Z := 1 <<! (max_xlen - 1).

(** The [vsdeleg] and [hsdeleg] of the trap, both zero for a supervisor double trap. *)
Definition delegation (cause : Z) s : bool * Z * Z :=
  let interrupt := z2b (cause &! interrupt_bit) in
  let low := prv s <=? PRV_S in
  let vsdeleg := if virt s && low
    then (if interrupt then hideleg_read s else reg s MEDELEG &! reg s HEDELEG) else 0 in
  let hsdeleg := if low then (if interrupt then mideleg_read s else reg s MEDELEG) else 0 in
  let bit := if interrupt then cause &! ~! interrupt_bit else cause in
  let supv_double_trap := low && (bit <? max_xlen) &&
    (z2b ((vsdeleg >>! bit) &! 1) || z2b ((hsdeleg >>! bit) &! 1)) &&
    z2b (get_field (sstatus_read s) MSTATUS_SDT) in
  if supv_double_trap then (true, 0, 0) else (false, vsdeleg, hsdeleg).

(** The privilege stack pushed by a trap to S-mode and by one to M-mode. *)
Definition push_s_status (st : Z) s : Z :=
  let st := set_field st MSTATUS_SPIE (get_field st MSTATUS_SIE) in
  let st := set_field st MSTATUS_SPP (prv s) in
  let st := set_field st MSTATUS_SIE 0 in
  set_field st MSTATUS_SPELP (b2z (elp s)).
Definition push_m_status (t : trap) (st : Z) s : Z :=
  let st := set_field st MSTATUS_MPIE (get_field st MSTATUS_MIE) in
  let st := set_field st MSTATUS_MPP (prv s) in
  let st := set_field st MSTATUS_MIE 0 in
  let st := set_field st MSTATUS_MPV (b2z (virt s)) in
  let st := set_field st MSTATUS_GVA (b2z (trap_has_gva t)) in
  set_field st MSTATUS_MPELP (b2z (elp s)).

Definition handler (tvec vector : Z) : Z := (tvec &! ~! 1) +! vector.

Definition trap_to_vs (t : trap) (epc bit : Z) (interrupt : bool) s : state W :=
  let adjusted_cause := if interrupt then bit -! 1 else bit in
  let vector := if z2b (reg s VSTVEC &! 1) && interrupt then 4 *! adjusted_cause else 0 in
  let s := with_spc (handler (reg s VSTVEC) vector) s in
  let s := set_reg VSCAUSE (adjusted_cause |! (if interrupt then interrupt_bit else 0)) s in
  let s := epc_write VSEPC epc s in
  let s := set_reg VSTVAL (trap_tval t) s in
  let st := sstatus_read s in
  let st := push_s_status st s in
  let st := if z2b (menvcfg s &! MENVCFG_DTE) && z2b (henvcfg s &! HENVCFG_DTE)
            then set_field st MSTATUS_SDT 1 else st in
  let s := with_elp false s in
  let s := sstatus_write st s in
  set_privilege PRV_S true s.

Definition trap_to_hs (t : trap) (epc bit : Z) (interrupt : bool) s : state W :=
  let curr_virt := virt s in
  let vector := if z2b (reg s STVEC &! 1) && interrupt then 4 *! bit else 0 in
  let s := with_spc (handler (reg s STVEC) vector) s in
  let s := set_reg SCAUSE (trap_cause t) s in
  let s := epc_write SEPC epc s in
  let s := set_reg STVAL (trap_tval t) s in
  let s := set_reg HTVAL (trap_tval2 t) s in
  let s := set_reg HTINST (trap_tinst t) s in
  let st := nonvirtual_sstatus_read s in
  let st := push_s_status st s in
  let st := if z2b (menvcfg s &! MENVCFG_DTE) then set_field st MSTATUS_SDT 1 else st in
  let s := with_elp false s in
  let s := nonvirtual_sstatus_write st s in
  let s :=
    if extension_enabled s EXT_H then
      let h := reg s HSTATUS in
      let h := if curr_virt then set_field h HSTATUS_SPVP (prv s) else h in
      let h := set_field h HSTATUS_SPV (b2z curr_virt) in
      let h := set_field h HSTATUS_GVA (b2z (trap_has_gva t)) in
      hstatus_write h s
    else s in
  set_privilege PRV_S false s.

(** [mstatush] exists on a 32-bit hart, [tcontrol] on one without S-mode. *)
Definition log_mstatush (st : Z) s : state W :=
  if max_xlen =? 32 then mstatush_write (st >>! 32) s else s.
Definition has_tcontrol : bool := negb (const_ext EXT_S).
Definition tcontrol_write (v : Z) s : state W :=
  masked_write TCONTROL (CSR_TCONTROL_MPTE |! CSR_TCONTROL_MTE) v s.

Definition trap_to_m (t : trap) (epc bit : Z) (interrupt supv_double_trap : bool) s : state W :=
  let vector := if z2b (reg s MTVEC &! 1) && interrupt then 4 *! bit else 0 in
  let trap_handler_address := handler (reg s MTVEC) vector in
  let smdbltrp := extension_enabled s EXT_SMDBLTRP in
  let st := mstatus_read s in
  if smdbltrp && (z2b (get_field st MSTATUS_MDT) || negb (nmie s))
  then update (with_critical_error true) s
  else
    let st := if smdbltrp then set_field st MSTATUS_MDT 1 else st in
    let s := with_spc (if nmie s then trap_handler_address else rnmi_trap_handler_address) s in
    let s := epc_write MEPC epc s in
    let s := set_reg MCAUSE (if supv_double_trap then CAUSE_DOUBLE_TRAP else trap_cause t) s in
    let s := set_reg MTVAL (trap_tval t) s in
    let s := set_reg MTVAL2 (if supv_double_trap then trap_cause t else trap_tval2 t) s in
    let s := set_reg MTINST (trap_tinst t) s in
    let st := push_m_status t st s in
    let s := with_elp false s in
    let s := mstatus_write st s in
    let s := log_mstatush st s in
    let s := if has_tcontrol
             then tcontrol_write (if z2b (reg s TCONTROL &! CSR_TCONTROL_MTE) then CSR_TCONTROL_MPTE else 0) s
             else s in
    set_privilege PRV_M false s.

Definition take_trap (t : trap) (epc : Z) s : state W :=
  if debug_mode s then
    with_spc (if trap_cause t =? CAUSE_BREAKPOINT then DEBUG_ROM_ENTRY else DEBUG_ROM_TVEC) s
  else
    let cause := trap_cause t in
    let interrupt := z2b (cause &! interrupt_bit) in
    let bit := if interrupt then cause &! ~! interrupt_bit else cause in
    let '(supv_double_trap, vsdeleg, hsdeleg) := delegation cause s in
    let here := (prv s <=? PRV_S) && (bit <? max_xlen) in
    if here && z2b ((vsdeleg >>! bit) &! 1) then trap_to_vs t epc bit interrupt s
    else if here && z2b ((hsdeleg >>! bit) &! 1) then trap_to_hs t epc bit interrupt s
    else trap_to_m t epc bit interrupt supv_double_trap s.

(** ** Interrupts *)

(** [-x] of a [reg_t] that is 0 or 1. *)
Definition all_if (b : bool) : Z := u64 (- b2z b).

(** The level whose interrupts are considered: M, then HS, then VS. *)
Definition enabled_interrupts (pending : Z) s : Z :=
  let mie := get_field (mstatus_read s) MSTATUS_MIE in
  let m_enabled := (prv s <? PRV_M) || ((prv s =? PRV_M) && z2b mie) in
  let enabled := pending &! ~! mideleg_read s &! all_if m_enabled in
  if negb (enabled =? 0) then enabled else
  let deleg_to_hs := mideleg_read s &! ~! hideleg_read s in
  let sie := get_field (sstatus_read s) MSTATUS_SIE in
  let hs_enabled := virt s || (prv s <? PRV_S) || ((prv s =? PRV_S) && z2b sie) in
  let enabled := pending &! deleg_to_hs &! all_if hs_enabled in
  if virt s && (enabled =? 0) then
    let deleg_to_vs := hideleg_read s in
    let vs_enabled := (prv s <? PRV_S) || ((prv s =? PRV_S) && z2b sie) in
    pending &! deleg_to_vs &! all_if vs_enabled
  else enabled.

(** The one interrupt to take, [None] where the source calls [abort()]. *)
Definition highest_priority (enabled : Z) : option Z :=
  if z2b (enabled >>! (IRQ_M_EXT + 1))
  then Some (enabled >>! (IRQ_M_EXT + 1) <<! (IRQ_M_EXT + 1))
  else List.find (fun m => z2b (enabled &! m))
         [MIP_MEIP; MIP_MSIP; MIP_MTIP; MIP_SEIP; MIP_SSIP; MIP_STIP; MIP_LCOFIP;
          MIP_VSEIP; MIP_VSSIP; MIP_VSTIP].

Definition take_interrupt (pending : Z) : M W unit := fun s =>
  if pending =? 0 then (inr tt, s) else
  let s := update (with_in_wfi false) s in
  let enabled := enabled_interrupts pending s in
  if negb (debug_mode s) && nmie s && z2b enabled then
    match highest_priority enabled with
    | None => throw simulator_abort s
    | Some e => throw (plain_trap ((1 <<! (max_xlen - 1)) |! ctz e)) s
    end
  else (inr tt, s).
Definition take_pending_interrupt : M W unit := fun s =>
  take_interrupt (mip_read s &! mie_read s) s.
End trap.

(** ** The privileged instructions *)
Section instructions.
Context {W : Type} `{csr_world W} {C : hart_cfg} {E : env}.
Implicit Type s : state W.
Local Abbreviation M := (M W).

Definition require_impl_mmu : M unit := require impl_mmu.
Definition require_privilege_hs_qualified (p : Z) : M unit := fun s =>
  if virt s && negb (p <=? prv s) then require_novirt s else require (p <=? prv s) s.

(** The landing pad state restored by a return to [(p, v)]. *)
Definition restore_elp (v : bool) (p pelp : Z) s : state W :=
  if ZICFILP_xLPE s v p then with_elp (z2b pelp) s else s.
Definition clear_vs_sdt (c : bool) s : state W :=
  if c then vsstatus_write (vsstatus_read s &! ~! SSTATUS_SDT) s else s.

Definition mret : M unit :=
  require_privilege PRV_M;;
  mepc ← gets (epc_read MEPC);
  set_pc_and_serialize mepc;;
  modify (fun s =>
    let st := mstatus_read s in
    let prev_prv := get_field st MSTATUS_MPP in
    let prev_virt := z2b (get_field st MSTATUS_MPV) in
    let st := if negb (prev_prv =? PRV_M) then set_field st MSTATUS_MPRV 0 else st in
    let st := set_field st MSTATUS_MIE (get_field st MSTATUS_MPIE) in
    let st := set_field st MSTATUS_MPIE 1 in
    let st := set_field st MSTATUS_MPP (if extension_enabled s EXT_U then PRV_U else PRV_M) in
    let st := set_field st MSTATUS_MPV 0 in
    let s := restore_elp prev_virt prev_prv (get_field st MSTATUS_MPELP) s in
    let st := set_field st MSTATUS_MPELP 0 in
    let st := set_field st MSTATUS_MDT 0 in
    let st := if (prev_prv =? PRV_U) || prev_virt then set_field st MSTATUS_SDT 0 else st in
    let s := clear_vs_sdt (prev_virt && (prev_prv =? PRV_U)) s in
    let s := mstatus_write st s in
    let s := log_mstatush st s in
    let s := if has_tcontrol
             then tcontrol_write (if z2b (reg s TCONTROL &! CSR_TCONTROL_MPTE)
                                  then CSR_TCONTROL_MPTE |! CSR_TCONTROL_MTE else 0) s
             else s in
    set_privilege prev_prv prev_virt s).

Definition sret : M unit :=
  require_extension EXT_S;;
  prev_hstatus ← gets (fun s => reg s HSTATUS);
  v ← gets virt;
  p ← gets prv;
  (if (v : bool) then
     (if (p =? PRV_U) || z2b (get_field prev_hstatus HSTATUS_VTSR) then require_novirt
      else stdpp.base.mret tt)
   else
     tsr ← gets (fun s => z2b (get_field (mstatus_read s) MSTATUS_TSR));
     require_privilege (if (tsr : bool) then PRV_M else PRV_S));;
  next_pc ← gets sepc_read;
  set_pc_and_serialize next_pc;;
  modify (fun s =>
    let st := sstatus_read s in
    let prev_prv := get_field st MSTATUS_SPP in
    let st := set_field st MSTATUS_SIE (get_field st MSTATUS_SPIE) in
    let st := set_field st MSTATUS_SPIE 1 in
    let st := set_field st MSTATUS_SPP PRV_U in
    let prev_virt :=
      if negb (virt s) && extension_enabled s EXT_H then z2b (get_field prev_hstatus HSTATUS_SPV)
      else virt s in
    let s :=
      if negb (virt s) then
        let s := if extension_enabled s EXT_H
                 then hstatus_write (set_field prev_hstatus HSTATUS_SPV 0) s else s in
        mstatus_write (set_field (mstatus_read s) MSTATUS_MPRV 0) s
      else s in
    let s := restore_elp prev_virt prev_prv (get_field st SSTATUS_SPELP) s in
    let s :=
      if prv s =? PRV_M then
        let s := mstatus_write (mstatus_read s &! ~! MSTATUS_MDT) s in
        let s := if (prev_prv =? PRV_U) || prev_virt
                 then mstatus_write (mstatus_read s &! ~! MSTATUS_SDT) s else s in
        clear_vs_sdt (prev_virt && (prev_prv =? PRV_U)) s
      else s in
    let st := set_field st SSTATUS_SPELP 0 in
    let st := if prv s =? PRV_S then set_field st SSTATUS_SDT 0 else st in
    let s := if prv s =? PRV_S
             then clear_vs_sdt (negb (virt s) && prev_virt && (prev_prv =? PRV_U)) s else s in
    let s := sstatus_write st s in
    set_privilege prev_prv prev_virt s).

Definition mnret : M unit :=
  require_extension EXT_SMRNMI;;
  require_privilege PRV_M;;
  mnepc ← gets (epc_read MNEPC);
  set_pc_and_serialize mnepc;;
  modify (fun s =>
    let st := reg s MNSTATUS in
    let prev_prv := get_field st MNSTATUS_MNPP in
    let prev_virt := z2b (get_field st MNSTATUS_MNPV) in
    let s := if negb (prev_prv =? PRV_M)
             then mstatus_write (set_field (mstatus_read s) MSTATUS_MPRV 0) s else s in
    let st := set_field st MNSTATUS_NMIE 1 in
    let s := mnstatus_write st s in
    set_privilege prev_prv prev_virt s).

Definition dret : M unit :=
  d ← gets debug_mode;
  require d;;
  dpc ← gets (epc_read DPC);
  set_pc_and_serialize dpc;;
  modify (fun s =>
    let d := dcsr_more (csrs_val s) in
    let s := if ZICFILP_xLPE s (dcsr_v d) (dcsr_prv d) then with_elp (dcsr_pelp d) s else s in
    let s := set_privilege (dcsr_prv d) (dcsr_v d) s in
    let s := if prv s <? PRV_M then
               let s := mstatus_write (mstatus_read s &! ~! MSTATUS_MPRV) s in
               mstatus_write (mstatus_read s &! ~! MSTATUS_MDT) s
             else s in
    let clear_sdt s :=
      let s := if (dcsr_prv d =? PRV_U) || dcsr_v d
               then mstatus_write (mstatus_read s &! ~! MSTATUS_SDT) s else s in
      clear_vs_sdt (dcsr_v d && (dcsr_prv d =? PRV_U)) s in
    let s := clear_sdt (clear_sdt s) in
    let s := set_debug_mode false s in
    if dcsr_step d then update (with_single_step STEP_STEPPING) s else s).

Definition hstatus_field (f : Z) : M bool := gets (fun s => z2b (get_field (reg s HSTATUS) f)).
Definition mstatus_field (f : Z) : M bool := gets (fun s => z2b (get_field (mstatus_read s) f)).

(** The macro [wfi()] leaves through the exception [wait_for_interrupt_t]. *)
Definition wfi_macro : M unit := x ← gets npc; set_pc_and_serialize x;; throw wait_for_interrupt.
Definition wfi : M unit :=
  tw ← mstatus_field MSTATUS_TW;
  (if (tw : bool) then require_privilege PRV_M
   else
     v ← gets virt; p ← gets prv;
     if (v : bool) then
       vtw ← hstatus_field HSTATUS_VTW;
       if (p =? PRV_U) || vtw then require_novirt else stdpp.base.mret tt
     else
       es ← ext_enabled EXT_S;
       when es (require_privilege PRV_S));;
  wfi_macro.
Definition wrs_nto : M unit :=
  tw ← mstatus_field MSTATUS_TW;
  if (tw : bool) then require_privilege PRV_M
  else
    v ← gets virt;
    if (v : bool) then
      vtw ← hstatus_field HSTATUS_VTW; when vtw require_novirt
    else stdpp.base.mret tt.
Definition wrs_sto : M unit := stdpp.base.mret tt.

Definition sfence_vma : M unit :=
  require_extension EXT_S;;
  require_impl_mmu;;
  v ← gets virt; p ← gets prv;
  (if (v : bool) then
     vtvm ← hstatus_field HSTATUS_VTVM;
     if (p =? PRV_U) || vtvm then require_novirt else stdpp.base.mret tt
   else
     tvm ← mstatus_field MSTATUS_TVM;
     require_privilege (if (tvm : bool) then PRV_M else PRV_S));;
  modify flush_tlb.
Definition sinval_vma : M unit := require_extension EXT_SVINVAL;; sfence_vma.
Definition sfence_inval_ir : M unit :=
  require_extension EXT_S;;
  require_extension EXT_SVINVAL;;
  require_impl_mmu;;
  require_privilege_hs_qualified PRV_S.
Definition sfence_w_inval : M unit := sfence_inval_ir.
Definition hfence_gvma : M unit :=
  require_extension EXT_H;;
  require_novirt;;
  tvm ← mstatus_field MSTATUS_TVM;
  require_privilege (if (tvm : bool) then PRV_M else PRV_S);;
  modify flush_tlb.
Definition hfence_vvma : M unit :=
  require_extension EXT_H;;
  require_novirt;;
  require_privilege PRV_S;;
  modify flush_tlb.
Definition hinval_gvma : M unit := require_extension EXT_SVINVAL;; hfence_gvma.
Definition hinval_vvma : M unit := require_extension EXT_SVINVAL;; hfence_vvma.
Definition fence_i : M unit := modify (fun s => with_world (mmu_flush_icache (world s)) s).
End instructions.
