(* ===== verification/TrapSpec.v ===== *)
(** * What a trap does: the specification and its proof

    A trap enters one of three levels, M, HS or VS.  The specification says, for
    each level, which registers are written with what, bit by bit for the status
    register; [Trap.take_trap], which computes with [set_field], masks and
    legalisation, is shown to implement it. *)

From Stdlib Require Import ZifyBool.
From stdpp Require Import sets functions.
From S2P Require Import Prelude Arith Decode Hart Mmu Csr Status Trap.
Local Open Scope cint_scope.

Inductive level := LM | LHS | LVS.
#[global] Instance level_eq_dec : EqDecision level.
Proof. solve_decision. Defined.

(** Membership in a list that is spelled out. *)
Ltac fixed_member := repeat first [apply list_elem_of_here | apply list_elem_of_further].

Section spec.
Context {W : Type} `{csr_world W} {C : hart_cfg}.
Implicit Type s : state W.

(** ** Well-formed harts *)

(** Extensions that [misa] cannot change. *)
Definition fixed_extensions : list extension :=
  [EXT_S; EXT_U; EXT_ZICFILP; EXT_SSDBLTRP; EXT_SMDBLTRP; EXT_SMRNMI].

(** Privilege modes are legal ones, virtual mode is for U and S of a hart with
    H, [MPP] is legal, [MIE] is clear under [MDT], [SD] summarises the dirty
    fields, and what needs an absent extension is off. *)
Record wf_hart s : Prop := {
  wf_fixed e : e ∈ fixed_extensions -> extension_enabled s e = const_ext e;
  wf_h_s : extension_enabled s EXT_H = true -> const_ext EXT_S = true;
  wf_s_u : const_ext EXT_S = true -> const_ext EXT_U = true;
  wf_xlen : max_xlen = 32 \/ max_xlen = 64;
  wf_prv : prv s = PRV_U \/ prv s = PRV_S \/ prv s = PRV_M;
  wf_prv_legal : legalize_privilege s (prv s) = prv s;
  wf_virt : virt s = true -> prv s <> PRV_M /\ extension_enabled s EXT_H = true;
  wf_mpp : legalize_privilege s (get_field (mstatus_read s) MSTATUS_MPP) =
           get_field (mstatus_read s) MSTATUS_MPP;
  wf_mdt : Z.testbit (mstatus_read s) 42 = true -> Z.testbit (mstatus_read s) 3 = false;
  wf_mpv : Z.testbit (mstatus_read s) 39 = true -> extension_enabled s EXT_H = true;
  wf_sd : Z.testbit (mstatus_read s) sd_pos = dirty (mstatus_read s);
  wf_vs_sd : Z.testbit (reg s VSSTATUS) sd_pos = dirty (reg s VSSTATUS);
  wf_mnpv : Z.testbit (reg s MNSTATUS) 7 = true -> extension_enabled s EXT_H = true;
  wf_dcsr : (dcsr_v (dcsr_more (csrs_val s)) = true -> extension_enabled s EXT_H = true) /\
            0 <= dcsr_prv (dcsr_more (csrs_val s)) <= 3;
  wf_deleg : const_ext EXT_S = false -> reg s MEDELEG = 0 /\ reg s MIDELEG = 0
}.

(** ** Entering a level *)

Definition level_prv (l : level) : Z := match l with LM => PRV_M | _ => PRV_S end.
Definition level_virt (l : level) : bool := match l with LVS => true | _ => false end.
Definition status_of (l : level) : csr_obj := match l with LVS => VSSTATUS | _ => MSTATUS end.
Definition epc_of (l : level) : csr_obj := match l with LM => MEPC | LHS => SEPC | LVS => VSEPC end.
Definition tvec_of (l : level) : csr_obj := match l with LM => MTVEC | LHS => STVEC | LVS => VSTVEC end.
Definition cause_of (l : level) : csr_obj := match l with LM => MCAUSE | LHS => SCAUSE | LVS => VSCAUSE end.
Definition tval_of (l : level) : csr_obj := match l with LM => MTVAL | LHS => STVAL | LVS => VSTVAL end.
Definition written (l : level) : list csr_obj :=
  [status_of l; epc_of l; cause_of l; tval_of l] ++
  match l with LM => [MTVAL2; MTINST; TCONTROL] | LHS => [HTVAL; HTINST; HSTATUS] | LVS => [] end.

(** Double-trap control of S-mode at the level, when Ssdbltrp is there. *)
Definition dte_of (l : level) s : bool :=
  z2b (menvcfg s &! MENVCFG_DTE) && (eqb (level_virt l) false || z2b (henvcfg s &! HENVCFG_DTE)).

(** Bit [i] of the level's status register after the entry. *)
Definition entry_bit (l : level) (gva : bool) s (i : Z) : bool :=
  let old := Z.testbit (reg s (status_of l)) i in
  match l with
  | LM =>
    if i =? 3 then false
    else if i =? 7 then Z.testbit (reg s MSTATUS) 3
    else if (i =? 11) || (i =? 12) then Z.testbit (prv s) (i - 11)
    else if i =? 39 then virt s
    else if i =? 38 then if extension_enabled s EXT_H then gva else old
    else if i =? 41 then if const_ext EXT_ZICFILP then elp s else old
    else if i =? 42 then const_ext EXT_SMDBLTRP || old
    else old
  | _ =>
    if i =? 1 then false
    else if i =? 5 then Z.testbit (reg s (status_of l)) 1
    else if i =? 8 then Z.testbit (prv s) 0
    else if i =? 23 then if const_ext EXT_ZICFILP then elp s else old
    else if i =? 24 then (const_ext EXT_SSDBLTRP && dte_of l s) || old
    else old
  end.

(** What a trap reports. *)
Record trap_info := TrapInfo {
  ti_cause : Z; ti_tval : Z; ti_tval2 : Z; ti_tinst : Z; ti_gva : bool
}.

(** The trap (its number [code] without the interrupt bit) from [epc]
    enters [l]: program counter, privilege, the trap registers, the privilege
    stack, and everything else as it was. *)
Record entered (l : level) (interrupt : bool) (code : Z) (i : trap_info) (epc : Z) s s' : Prop := {
  ent_pc : spc s' =
    if bool_decide (l = LM) && negb (nmie s) then rnmi_trap_handler_address
    else handler (reg s (tvec_of l))
           (if Z.testbit (reg s (tvec_of l)) 0 && interrupt then u64 (4 * code) else 0);
  ent_prv : prv s' = level_prv l;
  ent_virt : virt s' = level_virt l;
  ent_elp : elp s' = false;
  ent_cause : reg s' (cause_of l) = ti_cause i;
  ent_epc : reg s' (epc_of l) = epc &! ~! 1;
  ent_tval : reg s' (tval_of l) = ti_tval i;
  ent_status k : 0 <= k < 64 -> Z.testbit (reg s' (status_of l)) k = entry_bit l (ti_gva i) s k;
  ent_extra :
    match l with
    | LM => reg s' MTVAL2 = ti_tval2 i /\ reg s' MTINST = ti_tinst i
    | LHS => reg s' HTVAL = ti_tval2 i /\ reg s' HTINST = ti_tinst i /\
      forall k, 0 <= k < 64 -> k <> 48 -> k <> 49 -> Z.testbit (reg s' HSTATUS) k =
        if negb (extension_enabled s EXT_H) then Z.testbit (reg s HSTATUS) k
        else if k =? 6 then ti_gva i else if k =? 7 then virt s
        else if (k =? 8) && virt s then Z.odd (prv s) else Z.testbit (reg s HSTATUS) k
    | LVS => True
    end;
  ent_other o : o ∉ written l -> reg s' o = reg s o;
  ent_hart : core s' =
    State (XPR s) (npc s) (spc s') (prv s') (virt s') (elp s') (debug_mode s) (dcsr s)
      (menvcfg s) (senvcfg s) (henvcfg s) (mseccfg s) (extension_enabled s) tt;
  ent_prev : prev_prv (csrs_val s') = prv s /\ prev_v (csrs_val s') = virt s /\
             critical_error (csrs_val s') = critical_error (csrs_val s)
}.

(** ** The privilege stacks *)

Lemma legalize_ext s s1 p : extension_enabled s1 = extension_enabled s ->
  legalize_privilege s1 p = legalize_privilege s p.
Proof using. unfold legalize_privilege. by intros ->. Qed.
Lemma mask_ext s s1 : extension_enabled s1 = extension_enabled s ->
  mstatus_write_mask s1 = mstatus_write_mask s.
Proof using. unfold mstatus_write_mask. by intros ->. Qed.

Lemma push_m_bits t st s i : 0 <= i < 64 ->
  Z.testbit (push_m_status t st s) i =
  if i =? 41 then elp s else if i =? 38 then trap_has_gva t else if i =? 39 then virt s
  else if i =? 3 then false else if (i =? 11) || (i =? 12) then Z.testbit (prv s) (i - 11)
  else if i =? 7 then Z.testbit st 3 else Z.testbit st i.
Proof using. intros Hi. unfold push_m_status. cbv zeta. by autorewrite with status. Qed.

Lemma push_s_bits st s i : 0 <= i < 64 ->
  Z.testbit (push_s_status st s) i =
  if i =? 23 then elp s else if i =? 1 then false else if i =? 8 then Z.odd (prv s)
  else if i =? 5 then Z.testbit st 1 else Z.testbit st i.
Proof using. intros Hi. unfold push_s_status. cbv zeta. by autorewrite with status. Qed.

(** A privilege mode is the two bits [MPP] keeps of it. *)
Lemma prv_bits p : p = PRV_U \/ p = PRV_S \/ p = PRV_M ->
  b2z (Z.testbit p 0) + 2 * b2z (Z.testbit p 1) = p.
Proof using. intros [-> | [-> | ->]]; reflexivity. Qed.

Lemma push_m_mpp t st s : wf_hart s -> get_field (push_m_status t st s) MSTATUS_MPP = prv s.
Proof using.
  intros Hwf. rewrite get_MPP, !push_m_bits by lia. eval_bits.
  change (11 - 11) with 0. change (12 - 11) with 1. apply prv_bits, wf_prv, Hwf.
Qed.

Section entry.
Context (s s1 : state W) (Hwf : wf_hart s).
Context (Hext : extension_enabled s1 = extension_enabled s) (Hst : mstatus_read s1 = mstatus_read s).

Lemma fixed e : e ∈ fixed_extensions -> extension_enabled s e = const_ext e.
Proof using Hwf. apply wf_fixed, Hwf. Qed.

Lemma not_sd i : i <= 8 \/ i = 11 \/ i = 12 \/ 17 <= i <= 24 \/ 38 <= i <= 42 -> (i =? sd_pos) = false.
Proof using. pose proof sd_pos_range. lia. Qed.

Lemma mask_m_bits : let m := Z.testbit (mstatus_write_mask s1) in
  m 7 = true /\ m 38 = extension_enabled s EXT_H /\ m 39 = extension_enabled s EXT_H /\
  m 41 = const_ext EXT_ZICFILP /\ m 42 = const_ext EXT_SMDBLTRP /\ m 17 = const_ext EXT_U /\
  m 24 = const_ext EXT_SSDBLTRP.
Proof using Hwf Hext.
  cbv zeta. rewrite !mstatus_write_mask_testbit, !sstatus_write_mask_testbit by olia.
  rewrite Hext, !(fixed EXT_ZICFILP), !(fixed EXT_SMDBLTRP), !(fixed EXT_U), !(fixed EXT_SSDBLTRP)
    by fixed_member.
  eval_bits. by rewrite orb_diag.
Qed.

Lemma entry_status_m t i : 0 <= i < 64 ->
  let old := mstatus_read s in
  let st := if extension_enabled s EXT_SMDBLTRP then set_field old MSTATUS_MDT 1 else old in
  Z.testbit (mstatus_read (mstatus_write (push_m_status t st s) s1)) i = entry_bit LM (trap_has_gva t) s i.
Proof using Hwf Hext Hst.
  intros Hi old st. destruct (mask_m_bits) as (M7 & M38 & M39 & M41 & M42 & _).
  set (v := push_m_status t st s).
  assert (Hmpp : get_field v MSTATUS_MPP = prv s) by exact (push_m_mpp _ _ _ Hwf).
  assert (Hv : forall j, 0 <= j < 64 -> j <> 42 -> Z.testbit st j = Z.testbit old j).
  { intros j Hj Hne. unfold st. destruct (extension_enabled s EXT_SMDBLTRP); [|done].
    rewrite set_MDT by olia. by replace (j =? 42) with false by olia. }
  assert (H42 : Z.testbit v 42 = const_ext EXT_SMDBLTRP || Z.testbit old 42).
  { unfold v. rewrite push_m_bits by olia. eval_bits. unfold st.
    rewrite (fixed EXT_SMDBLTRP) by fixed_member.
    destruct (const_ext EXT_SMDBLTRP); [by rewrite set_MDT by olia|done]. }
  rewrite mstatus_write_reg, adjust_sd_testbit by olia.
  assert (Hnext : forall j, 0 <= j < 64 -> j <> 42 -> Z.testbit (mstatus_next v s1) j = entry_bit LM (trap_has_gva t) s j).
  { intros j Hj Hne. rewrite mstatus_next_testbit by olia.
    rewrite (legalize_ext s s1), Hmpp, wf_prv_legal by done.
    unfold entry_bit, status_of. fold (mstatus_read s). unfold v. rewrite !push_m_bits by olia.
    destruct (Z.eqb_spec j 3) as [->|]; [by eval_bits|].
    destruct (Z.eqb_spec j 7) as [->|]; [by eval_bits; rewrite M7, Hv by olia|].
    destruct ((j =? 11) || (j =? 12)) eqn:E; [done|].
    destruct (Z.eqb_spec j 38) as [->|]; [eval_bits; by rewrite M38, Hst|].
    destruct (Z.eqb_spec j 39) as [->|].
    { eval_bits. rewrite M39, Hst. destruct (extension_enabled s EXT_H) eqn:EH; [done|].
      destruct (virt s) eqn:Ev; [destruct (wf_virt _ Hwf Ev); congruence|].
      destruct (Z.testbit (mstatus_read s) 39) eqn:Em; [|done]. pose proof (wf_mpv _ Hwf Em). congruence. }
    destruct (Z.eqb_spec j 41) as [->|]; [eval_bits; by rewrite M41, Hst|].
    replace (j =? 42) with false by olia. rewrite Hv, Hst by olia. by destruct (Z.testbit _ j). }
  destruct (Z.eqb_spec i sd_pos) as [->|Hsd].
  - rewrite (dirty_same _ (mstatus_read s)).
    + rewrite <- wf_sd by done. unfold entry_bit. pose proof sd_pos_range.
      repeat match goal with |- context [sd_pos =? ?k] => replace (sd_pos =? k) with false by olia end. done.
    + intros j Hj H11 H12. rewrite Hnext by olia. unfold entry_bit.
      repeat match goal with |- context [j =? ?k] => replace (j =? k) with false by olia end. done.
  - destruct (Z.eq_dec i 42) as [->|]; [|by apply Hnext].
    rewrite mstatus_next_testbit by olia. eval_bits. rewrite M42, Hst, H42. unfold entry_bit, status_of.
    fold (mstatus_read s). eval_bits. fold old. by destruct (const_ext EXT_SMDBLTRP).
Qed.
End entry.

(** ** A second write through [mstatush] changes nothing *)

Lemma legalize_legal s p : 0 <= p <= 3 ->
  (legalize_privilege s p = PRV_U \/ legalize_privilege s p = PRV_S \/ legalize_privilege s p = PRV_M) /\
  legalize_privilege s (legalize_privilege s p) = legalize_privilege s p.
Proof using.
  intros Hp. assert (p = 0 \/ p = 1 \/ p = 2 \/ p = 3) as [-> | [-> | [-> | ->]]] by lia;
    unfold legalize_privilege; destruct (extension_enabled s EXT_U), (extension_enabled s EXT_S);
    cbn; auto.
Qed.
Lemma get_MPP_range r : 0 <= get_field r MSTATUS_MPP <= 3.
Proof using. rewrite get_MPP. destruct (Z.testbit r 11), (Z.testbit r 12); cbn; lia. Qed.

Lemma mstatus_write_mpp v s :
  get_field (mstatus_read (mstatus_write v s)) MSTATUS_MPP =
  legalize_privilege s (get_field v MSTATUS_MPP).
Proof using.
  rewrite mstatus_write_reg, get_MPP, !adjust_sd_testbit, !not_sd, !mstatus_next_testbit by lia.
  eval_bits. change (11 - 11) with 0. change (12 - 11) with 1.
  apply prv_bits, legalize_legal, get_MPP_range.
Qed.

(** Bits of [mstatus] after a write, [SD] included. *)
Lemma mstatus_write_bit v s i : 0 <= i < 64 ->
  Z.testbit (mstatus_read (mstatus_write v s)) i =
  if i =? sd_pos then dirty (mstatus_next v s) else Z.testbit (mstatus_next v s) i.
Proof using. intros Hi. by rewrite mstatus_write_reg, adjust_sd_testbit. Qed.

Lemma mstatus_write_dirty v s : dirty (mstatus_read (mstatus_write v s)) = dirty (mstatus_next v s).
Proof using.
  apply dirty_same. intros j Hj _ _. rewrite mstatus_write_bit by lia.
  pose proof sd_pos_range. by replace (j =? sd_pos) with false by lia.
Qed.

Lemma ext_mstatus_write v s : extension_enabled (mstatus_write v s) = extension_enabled s.
Proof using. pose proof (upd_core _ _ _ (upd_mstatus_write v s)) as E. by injection E. Qed.

Lemma log_mstatush_same v s i : 0 <= i < 64 ->
  Z.testbit (mstatus_read (log_mstatush v (mstatus_write v s))) i =
  Z.testbit (mstatus_read (mstatus_write v s)) i.
Proof using.
  intros Hi. unfold log_mstatush. destruct (max_xlen =? 32); [|done].
  set (s2 := mstatus_write v s). unfold mstatush_write.
  set (w := _ |! _).
  assert (Hw : forall j, 0 <= j < 64 -> Z.testbit w j =
    if j <? 32 then Z.testbit (mstatus_read s2) j else Z.testbit v j).
  { intros j Hj. unfold w. change 0xffffffff with (Z.ones 32).
    rewrite Z.lor_spec, Z.shiftr_spec, !wrap_testbit, !Z.shiftl_spec by lia.
    replace (j <? 64) with true by lia. destruct (Z.ltb_spec j 32).
    - replace (j + 32 <? 64) with true by lia. replace (j + 32 - 32) with j by lia.
      rewrite (Z.testbit_neg_r _ (j - 32)) by lia. apply orb_false_r.
    - replace (j + 32 <? 64) with false by lia.
      rewrite Z.land_spec, Z.shiftr_spec, Z.ones_spec_low by lia.
      replace (j - 32 + 32) with j by lia. by rewrite andb_true_r. }
  assert (Hmpp : get_field w MSTATUS_MPP = legalize_privilege s (get_field v MSTATUS_MPP)).
  { rewrite <- mstatus_write_mpp, !get_MPP, !Hw by lia. done. }
  assert (Hn : forall j, 0 <= j < 64 -> j <> sd_pos ->
    Z.testbit (mstatus_next w s2) j = Z.testbit (mstatus_read s2) j).
  { intros j Hj Hsd. rewrite mstatus_next_testbit, Hmpp, (legalize_ext s) by (done || apply ext_mstatus_write).
    rewrite (proj2 (legalize_legal s _ (get_MPP_range v))), (mask_ext s) by apply ext_mstatus_write.
    unfold s2 at 1. rewrite ext_mstatus_write, !Hw by lia. eval_bits. cbn [Z.ltb Z.compare Pos.compare Pos.compare_cont].
    unfold s2. rewrite !mstatus_write_bit by lia. replace (j =? sd_pos) with false by lia. rewrite !not_sd by lia.
    rewrite !mstatus_next_testbit by lia. eval_bits.
    destruct (Z.eqb_spec j 3) as [->|].
    { destruct (Z.testbit (mstatus_write_mask s) 42) eqn:E; revert E;
        rewrite mstatus_write_mask_testbit, sstatus_write_mask_testbit by lia; eval_bits; intros ->;
        btauto. }
    destruct ((j =? 11) || (j =? 12)); [done|].
    destruct (Z.testbit (mstatus_write_mask s) j); [|done].
    by destruct (j <? 32). }
  rewrite mstatus_write_bit by lia. destruct (Z.eqb_spec i sd_pos) as [->|]; [|by apply Hn].
  unfold s2 at 2. rewrite mstatus_write_bit by lia. rewrite Z.eqb_refl.
  transitivity (dirty (mstatus_read s2)); [|apply mstatus_write_dirty].
  apply dirty_same. intros j Hj _ _. apply Hn; [lia|]. pose proof sd_pos_range. lia.
Qed.

(** ** Reading through the steps of a trap *)

Lemma core_mstatus_write v s : core (mstatus_write v s) = core s.
Proof using. apply (upd_core _ _ _ (upd_mstatus_write v s)). Qed.
Lemma core_vsstatus_write v s : core (vsstatus_write v s) = core s.
Proof using. apply (upd_core _ _ _ (upd_vsstatus_write v s)). Qed.
Lemma core_hstatus_write v s : core (hstatus_write v s) = core s.
Proof using. apply (upd_core _ _ _ (upd_hstatus_write v s)). Qed.
Lemma core_log_mstatush v s : core (log_mstatush v s) = core s.
Proof using. unfold log_mstatush. case_match; [apply core_mstatus_write|done]. Qed.
Lemma core_set_reg o v s : core (set_reg o v s) = core s.
Proof using. done. Qed.
Lemma core_with_spc x s : core (with_spc x s) = with_spc x (core s).
Proof using. done. Qed.
Lemma core_with_elp x s : core (with_elp x s) = with_elp x (core s).
Proof using. done. Qed.
Lemma core_set_privilege p v s :
  core (set_privilege p v s) =
  set_prv (legalize_privilege (core s) p) (v && negb (legalize_privilege (core s) p =? PRV_M)) (core s).
Proof using. done. Qed.
Lemma core_if (c : bool) s1 s2 : core (if c then s1 else s2) = if c then core s1 else core s2.
Proof using. by destruct c. Qed.

Lemma more_mstatus_write v s : more (mstatus_write v s) = more s.
Proof using. apply (upd_more _ _ _ (upd_mstatus_write v s)). Qed.
Lemma more_vsstatus_write v s : more (vsstatus_write v s) = more s.
Proof using. apply (upd_more _ _ _ (upd_vsstatus_write v s)). Qed.
Lemma more_hstatus_write v s : more (hstatus_write v s) = more s.
Proof using. apply (upd_more _ _ _ (upd_hstatus_write v s)). Qed.
Lemma more_log_mstatush v s : more (log_mstatush v s) = more s.
Proof using. unfold log_mstatush. case_match; [apply more_mstatus_write|done]. Qed.
Lemma more_set_reg o v s : more (set_reg o v s) = more s.
Proof using. apply (upd_more _ _ _ (upd_set o v s)). Qed.
Lemma more_with_spc x s : more (with_spc x s) = more s.
Proof using. done. Qed.
Lemma more_with_elp x s : more (with_elp x s) = more s.
Proof using. done. Qed.
Lemma more_set_privilege p v s :
  more (set_privilege p v s) =
  let q := legalize_privilege (core s) p in
  with_prev (prv (core s)) (virt (core s)) (negb (q =? prv (core s)))
    (negb (eqb (v && negb (q =? PRV_M)) (virt (core s)))) (more s).
Proof using.
  unfold set_privilege, more, update, csrs_val. cbn. rewrite csrs_of_set. cbn.
  by rewrite csrs_of_flush_tlb.
Qed.
Lemma more_if (c : bool) s1 s2 : more (if c then s1 else s2) = if c then more s1 else more s2.
Proof using. by destruct c. Qed.

Lemma reg_with_spc x s o : reg (with_spc x s) o = reg s o.
Proof using. done. Qed.
Lemma reg_with_elp x s o : reg (with_elp x s) o = reg s o.
Proof using. done. Qed.
Lemma reg_set_privilege p v s o : reg (set_privilege p v s) o = reg s o.
Proof using.
  unfold set_privilege, reg, update, csrs_val. cbn. rewrite csrs_of_set. cbn.
  by rewrite csrs_of_flush_tlb.
Qed.
Lemma reg_set_ne o v s o' : o' <> o -> reg (set_reg o v s) o' = reg s o'.
Proof using. intros Ho. by rewrite reg_set, decide_False. Qed.
Lemma reg_mstatus_write v s o : o <> MSTATUS -> reg (mstatus_write v s) o = reg s o.
Proof using. intros Ho. apply (upd_reg _ _ _ (upd_mstatus_write v s)). by intros ->%list_elem_of_singleton. Qed.
Lemma reg_vsstatus_write v s o : o <> VSSTATUS -> reg (vsstatus_write v s) o = reg s o.
Proof using. intros Ho. apply (upd_reg _ _ _ (upd_vsstatus_write v s)). by intros ->%list_elem_of_singleton. Qed.
Lemma reg_hstatus_write v s o : o <> HSTATUS -> reg (hstatus_write v s) o = reg s o.
Proof using. intros Ho. apply (upd_reg _ _ _ (upd_hstatus_write v s)). by intros ->%list_elem_of_singleton. Qed.
Lemma reg_log_mstatush v s o : o <> MSTATUS -> reg (log_mstatush v s) o = reg s o.
Proof using. intros Ho. unfold log_mstatush. case_match; [by apply reg_mstatus_write|done]. Qed.
Lemma reg_if (c : bool) s1 s2 o : reg (if c then s1 else s2) o = if c then reg s1 o else reg s2 o.
Proof using. by destruct c. Qed.

Lemma core_tcontrol_write v s : core (tcontrol_write v s) = core s.
Proof using. done. Qed.
Lemma more_tcontrol_write v s : more (tcontrol_write v s) = more s.
Proof using. apply more_set_reg. Qed.
Lemma reg_tcontrol_write v s o : o <> TCONTROL -> reg (tcontrol_write v s) o = reg s o.
Proof using. apply reg_set_ne. Qed.
Lemma core_epc_write o v s : core (epc_write o v s) = core s.
Proof using. done. Qed.
Lemma more_epc_write o v s : more (epc_write o v s) = more s.
Proof using. apply more_set_reg. Qed.
Lemma reg_epc_write o v s o' : o' <> o -> reg (epc_write o v s) o' = reg s o'.
Proof using. apply reg_set_ne. Qed.
Lemma reg_epc_write_eq o v s : reg (epc_write o v s) o = v &! ~! 1.
Proof using. apply reg_set_eq. Qed.

Create Rewrite HintDb trap_steps.
#[local] Hint Rewrite @core_mstatus_write @core_vsstatus_write @core_hstatus_write @core_log_mstatush
  @core_set_reg @core_with_spc @core_with_elp @core_set_privilege @core_if @core_tcontrol_write
  @core_epc_write : trap_steps.
#[local] Hint Rewrite @more_mstatus_write @more_vsstatus_write @more_hstatus_write @more_log_mstatush
  @more_set_reg @more_with_spc @more_with_elp @more_set_privilege @more_if @more_tcontrol_write
  @more_epc_write : trap_steps.
#[local] Hint Rewrite @reg_with_spc @reg_with_elp @reg_set_privilege @reg_set_eq @reg_if
  @reg_epc_write_eq : trap_steps.
#[local] Hint Rewrite @reg_set_ne @reg_mstatus_write @reg_vsstatus_write @reg_hstatus_write
  @reg_log_mstatush @reg_tcontrol_write @reg_epc_write using congruence : trap_steps.

Lemma bit0_z2b x : z2b (x &! 1) = Z.testbit x 0.
Proof using. apply (land_flag x 0). lia. Qed.
Lemma legalize_M {V} (s : state V) : legalize_privilege s PRV_M = PRV_M.
Proof using. unfold legalize_privilege. by destruct (extension_enabled s EXT_U). Qed.

Definition entry_pc (l : level) (interrupt : bool) (code : Z) s : Z :=
  if bool_decide (l = LM) && negb (nmie s) then rnmi_trap_handler_address
  else handler (reg s (tvec_of l))
         (if Z.testbit (reg s (tvec_of l)) 0 && interrupt then u64 (4 * code) else 0).

(** What is common to the three levels. *)
Lemma entered_intro l interrupt code i epc s r (x y : bool) :
  core r = set_prv (level_prv l) (level_virt l)
             (with_elp false (with_spc (entry_pc l interrupt code s) (core s))) ->
  more r = with_prev (prv s) (virt s) x y (more s) ->
  (forall o, o ∉ written l \/ o = cause_of l \/ o = epc_of l \/ o = tval_of l -> reg r o =
     if decide (o = cause_of l) then ti_cause i else if decide (o = epc_of l) then epc &! ~! 1
     else if decide (o = tval_of l) then ti_tval i else reg s o) ->
  (forall k, 0 <= k < 64 -> Z.testbit (reg r (status_of l)) k = entry_bit l (ti_gva i) s k) ->
  match l with
  | LM => reg r MTVAL2 = ti_tval2 i /\ reg r MTINST = ti_tinst i
  | LHS => reg r HTVAL = ti_tval2 i /\ reg r HTINST = ti_tinst i /\
    forall k, 0 <= k < 64 -> k <> 48 -> k <> 49 -> Z.testbit (reg r HSTATUS) k =
      if negb (extension_enabled s EXT_H) then Z.testbit (reg s HSTATUS) k
      else if k =? 6 then ti_gva i else if k =? 7 then virt s
      else if (k =? 8) && virt s then Z.odd (prv s) else Z.testbit (reg s HSTATUS) k
  | LVS => True
  end ->
  entered l interrupt code i epc s r.
Proof using.
  intros Hcore Hmore Hreg Hst Hx. assert (Hpc : spc r = entry_pc l interrupt code s) by by injection Hcore.
  split; try done; try by injection Hcore.
  - rewrite Hreg by auto. by rewrite decide_True.
  - rewrite Hreg by auto. by destruct l.
  - rewrite Hreg by auto. by destruct l.
  - intros o Ho. rewrite Hreg by auto.
    rewrite !decide_False; [done|..]; intros ->; apply Ho; unfold written; destruct l; repeat constructor.
  - rewrite Hcore, Hpc. by injection Hcore as ? ? ? -> -> ->.
  - split_and!; [exact (f_equal prev_prv Hmore)|exact (f_equal prev_v Hmore)|exact (f_equal critical_error Hmore)].
Qed.

Lemma trap_to_m_entered t epc bit interrupt (dbl : bool) s : wf_hart s ->
  const_ext EXT_SMDBLTRP && (z2b (get_field (mstatus_read s) MSTATUS_MDT) || negb (nmie s)) = false ->
  entered LM interrupt bit
    (TrapInfo (if dbl then CAUSE_DOUBLE_TRAP else trap_cause t) (trap_tval t)
       (if dbl then trap_cause t else trap_tval2 t) (trap_tinst t) (trap_has_gva t)) epc s
    (trap_to_m t epc bit interrupt dbl s).
Proof using.
  intros Hwf Hok. rewrite <- (fixed s Hwf EXT_SMDBLTRP) in Hok by fixed_member.
  set (r := trap_to_m t epc bit interrupt dbl s).
  assert (Hcore : core r = set_prv PRV_M false (with_elp false (with_spc (entry_pc LM interrupt bit s) (core s)))).
  { unfold r, trap_to_m. rewrite Hok. cbv zeta. rewrite bit0_z2b.
    destruct has_tcontrol; autorewrite with trap_steps; rewrite legalize_M; unfold entry_pc;
      rewrite bool_decide_true by done; by destruct (nmie s). }
  assert (Hmore : more r = with_prev (prv s) (virt s) (negb (PRV_M =? prv s)) (negb (eqb false (virt s))) (more s)).
  { unfold r, trap_to_m. rewrite Hok. cbv zeta.
    destruct has_tcontrol; autorewrite with trap_steps; cbv zeta; autorewrite with trap_steps; by rewrite legalize_M. }
  assert (Hreg : forall o, o <> MSTATUS -> o <> TCONTROL -> reg r o =
     if decide (o = MTINST) then trap_tinst t else if decide (o = MTVAL2) then
       (if dbl then trap_cause t else trap_tval2 t) else if decide (o = MTVAL) then trap_tval t
     else if decide (o = MCAUSE) then (if dbl then CAUSE_DOUBLE_TRAP else trap_cause t)
     else if decide (o = MEPC) then epc &! ~! 1 else reg s o).
  { intros o H1 H2. unfold r, trap_to_m. rewrite Hok. cbv zeta.
    destruct has_tcontrol; autorewrite with trap_steps; unfold epc_write; by rewrite !reg_set. }
  assert (Hst : forall i, 0 <= i < 64 -> Z.testbit (reg r MSTATUS) i = entry_bit LM (trap_has_gva t) s i).
  { intros i Hi. unfold r, trap_to_m. rewrite Hok. cbv zeta.
    set (s1 := set_reg MTINST _ _).
    transitivity (Z.testbit (mstatus_read (log_mstatush
       (push_m_status t (if extension_enabled s EXT_SMDBLTRP
          then set_field (mstatus_read s) MSTATUS_MDT 1 else mstatus_read s) s)
       (mstatus_write (push_m_status t (if extension_enabled s EXT_SMDBLTRP
          then set_field (mstatus_read s) MSTATUS_MDT 1 else mstatus_read s) s) (with_elp false s1)))) i).
    { destruct has_tcontrol; by autorewrite with trap_steps. }
    rewrite log_mstatush_same by lia. apply entry_status_m; [done|done| |lia].
    unfold mstatus_read, s1. by autorewrite with trap_steps. }
  eapply entered_intro; [exact Hcore|exact Hmore| |exact Hst|by rewrite !Hreg].
  intros o [Ho | [-> | [-> | ->]]]; [|by rewrite Hreg..].
  rewrite Hreg by (intros ->; apply Ho; repeat constructor).
  by rewrite !decide_False by (intros ->; apply Ho; repeat constructor).
Qed.

(** ** The supervisor stack *)

Lemma entry_status_s dte set_dt old st s i : const_ext EXT_S = true -> (set_dt = true -> dte = true) ->
  0 <= i < 64 ->
  st = push_s_status (old &! sdt_mask sstatus_read_mask dte) s ->
  Z.testbit (s_status_next dte old (if set_dt then set_field st MSTATUS_SDT 1 else st)) i =
  if i =? 1 then false
  else if i =? 5 then Z.testbit old 1
  else if i =? 8 then Z.odd (prv s)
  else if i =? 23 then if const_ext EXT_ZICFILP then elp s else Z.testbit old i
  else if i =? 24 then (const_ext EXT_SSDBLTRP && set_dt) || Z.testbit old i
  else Z.testbit old i.
Proof using.
  intros HS Hdt Hi ->. set (rd := old &! _). set (v := if set_dt then _ else _).
  assert (Hrd : forall j, 0 <= j < 64 -> Z.testbit (sdt_mask sstatus_write_mask dte) j = true ->
    Z.testbit rd j = Z.testbit old j).
  { intros j Hj Hm. unfold rd. rewrite sdt_mask_testbit in Hm by lia. apply andb_prop in Hm as [Hm Hd].
    by rewrite Z.land_spec, sdt_mask_testbit, sstatus_read_mask_testbit, Hd, andb_true_r by (done || lia). }
  assert (Hv : forall j, 0 <= j < 64 -> Z.testbit v j =
    if (j =? 24) && set_dt then true else Z.testbit (push_s_status rd s) j).
  { intros j Hj. unfold v. destruct set_dt; [|by rewrite andb_false_r].
    rewrite set_SDT, andb_true_r by lia. done. }
  assert (Hmask : forall j, 0 <= j < 64 -> j = 1 \/ j = 5 \/ j = 8 ->
    Z.testbit (sdt_mask sstatus_write_mask dte) j = true).
  { intros j Hj Hj'. rewrite sdt_mask_testbit, sstatus_write_mask_testbit, HS by lia.
    replace ((j =? 1) || (j =? 5) || (j =? 8)) with true by lia. replace (j =? 24) with false by lia.
    by rewrite orb_true_r. }
  rewrite s_status_next_testbit by lia. cbv beta zeta. rewrite !Hv, !push_s_bits by lia. eval_bits.
  destruct (Z.eqb_spec i 1) as [->|]; [by rewrite (Hmask 1) by lia|].
  destruct (Z.eqb_spec i 5) as [->|].
  { rewrite (Hmask 5) by lia. eval_bits. apply Hrd; [lia|by apply Hmask; lia]. }
  destruct (Z.eqb_spec i 8) as [->|]; [by rewrite (Hmask 8) by lia; eval_bits|].
  destruct (Z.eqb_spec i 23) as [->|].
  { rewrite sdt_mask_testbit, sstatus_write_mask_testbit by lia. eval_bits. done. }
  destruct (Z.eqb_spec i 24) as [->|].
  - destruct (Z.testbit (sdt_mask sstatus_write_mask dte) 24) eqn:Em.
    + pose proof (Hrd 24 ltac:(lia) Em) as Hr. revert Em.
      rewrite sdt_mask_testbit, sstatus_write_mask_testbit by lia. eval_bits. intros [Ed _]%andb_prop.
      rewrite Ed, Hr. by destruct set_dt.
    + revert Em. rewrite sdt_mask_testbit, sstatus_write_mask_testbit by lia. eval_bits. intros Em.
      destruct set_dt; [rewrite Hdt in Em by done|]; [|by rewrite andb_false_r].
      by rewrite andb_true_r in Em; rewrite Em.
  - cbn [andb]. destruct (Z.testbit (sdt_mask sstatus_write_mask dte) i) eqn:Em; [|done].
    by apply Hrd.
Qed.

Lemma legalize_S {V} (s : state V) : extension_enabled s EXT_S = true -> extension_enabled s EXT_U = true ->
  legalize_privilege s PRV_S = PRV_S.
Proof using. unfold legalize_privilege. by intros -> ->. Qed.
Lemma ext_core s s' : core s' = core s -> extension_enabled s' = extension_enabled s.
Proof using. intros E. by injection E. Qed.

(** A supervisor write keeps the machine's fields of [mstatus]. *)
Lemma sstatus_machine_bits dte v old i : 0 <= i < 64 ->
  i = 3 \/ i = 11 \/ i = 12 \/ 25 <= i -> Z.testbit (s_status_next dte old v) i = Z.testbit old i.
Proof using.
  intros Hi Hc. rewrite s_status_next_testbit by lia. cbv beta zeta.
  replace (i =? 1) with false by lia. rewrite sdt_mask_testbit, sstatus_write_mask_testbit by lia.
  repeat match goal with |- context [i =? ?k] => replace (i =? k) with false by lia end.
  by rewrite !andb_false_r.
Qed.

Lemma nonvirtual_sstatus_write_bit v s i : const_ext EXT_S = true ->
  legalize_privilege s (get_field (mstatus_read s) MSTATUS_MPP) = get_field (mstatus_read s) MSTATUS_MPP ->
  (Z.testbit (mstatus_read s) 42 = true -> Z.testbit (mstatus_read s) 3 = false) ->
  0 <= i < 64 -> i <> sd_pos ->
  Z.testbit (mstatus_read (nonvirtual_sstatus_write v s)) i =
  Z.testbit (s_status_next (z2b (menvcfg s &! MENVCFG_DTE)) (mstatus_read s) v) i.
Proof using.
  intros HS Hlegal Hmdt Hi Hsd. rewrite nonvirtual_sstatus_write_eq, mstatus_write_bit by olia.
  replace (i =? sd_pos) with false by olia. set (w := s_status_next _ _ _).
  assert (Hm : forall j, 0 <= j < 64 -> j = 3 \/ j = 11 \/ j = 12 \/ 25 <= j ->
    Z.testbit w j = Z.testbit (mstatus_read s) j) by (intros; by apply sstatus_machine_bits).
  rewrite mstatus_next_testbit by olia.
  assert (Hmpp : get_field w MSTATUS_MPP = get_field (mstatus_read s) MSTATUS_MPP)
    by (rewrite !get_MPP, !Hm by olia; done).
  rewrite Hmpp, Hlegal, <- Hmpp.
  destruct (Z.eqb_spec i 3) as [->|].
  - rewrite !Hm by olia. destruct (Z.testbit (mstatus_read s) 42) eqn:E.
    + rewrite Hmdt by done. by destruct (extension_enabled s EXT_SMDBLTRP).
    + by destruct (extension_enabled s EXT_SMDBLTRP); rewrite andb_true_r.
  - destruct ((i =? 11) || (i =? 12)) eqn:E.
    + rewrite get_MPP. assert (i = 11 \/ i = 12) as [-> | ->] by lia.
      * change (11 - 11) with 0. by destruct (Z.testbit w 11), (Z.testbit w 12).
      * change (12 - 11) with 1. by destruct (Z.testbit w 11), (Z.testbit w 12).
    + destruct (Z.testbit (mstatus_write_mask s) i) eqn:Em; [done|].
      revert Em. rewrite mstatus_write_mask_testbit by olia. intros Em.
      unfold w. rewrite s_status_next_testbit by olia. cbv beta zeta.
      assert (Es : Z.testbit sstatus_write_mask i = false) by (destruct (Z.testbit sstatus_write_mask i); done).
      rewrite (sdt_mask_testbit _ _ i), Es by olia. cbn [andb].
      destruct (Z.eqb_spec i 1) as [->|]; [|done].
      revert Es. rewrite sstatus_write_mask_testbit, HS by olia. by eval_bits.
Qed.

Lemma nonvirtual_sstatus_write_dirty v s :
  Z.testbit (mstatus_read (nonvirtual_sstatus_write v s)) sd_pos =
  dirty (mstatus_read (nonvirtual_sstatus_write v s)).
Proof using.
  rewrite nonvirtual_sstatus_write_eq, mstatus_write_dirty.
  pose proof sd_pos_range. by rewrite mstatus_write_bit, Z.eqb_refl by lia.
Qed.

Lemma core_nonvirtual v s : core (nonvirtual_sstatus_write v s) = core s.
Proof using. apply core_mstatus_write. Qed.
Lemma more_nonvirtual v s : more (nonvirtual_sstatus_write v s) = more s.
Proof using. apply more_mstatus_write. Qed.
Lemma reg_nonvirtual v s o : o <> MSTATUS -> reg (nonvirtual_sstatus_write v s) o = reg s o.
Proof using. apply reg_mstatus_write. Qed.
#[local] Hint Rewrite @core_nonvirtual @more_nonvirtual : trap_steps.
#[local] Hint Rewrite @reg_nonvirtual using congruence : trap_steps.

(** The bits a trap to HS-mode leaves in [hstatus] ([HUPMM] apart). *)
Lemma hstatus_write_bit v s k : 0 <= k < 64 -> k <> 48 -> k <> 49 ->
  Z.testbit (reg (hstatus_write v s) HSTATUS) k =
  if (k =? 22) || (k =? 21) || (impl_mmu && (k =? 20)) || (k =? 9) || (k =? 8) || (k =? 7) || (k =? 6)
  then Z.testbit v k else Z.testbit (reg s HSTATUS) k.
Proof using.
  intros Hk H48 H49. unfold hstatus_write. rewrite reg_set_eq, masked_testbit by lia.
  change HSTATUS_HUPMM with (Z.shiftl (Z.ones 2) 48). rewrite !(set_field_testbit 48 2) by lia.
  replace ((48 <=? k) && (k <? 48 + 2)) with false by lia.
  rewrite !Z.lor_spec, !opt_testbit.
  change HSTATUS_VTSR with (2 ^ 22). change HSTATUS_VTW with (2 ^ 21). change HSTATUS_VTVM with (2 ^ 20).
  change HSTATUS_HU with (2 ^ 9). change HSTATUS_SPVP with (2 ^ 8). change HSTATUS_SPV with (2 ^ 7).
  change HSTATUS_GVA with (2 ^ 6). change (Z.shiftl (Z.ones 2) 48) with (2 ^ 48 |! 2 ^ 49).
  rewrite !Z.lor_spec, !Z.pow2_bits_eqb by lia. repeat rewrite (Z.eqb_sym _ k).
  replace (k =? 48) with false by lia. replace (k =? 49) with false by lia.
  cbn [orb]. by rewrite andb_false_r, orb_false_r.
Qed.

Lemma trap_to_hs_entered t epc bit interrupt s : wf_hart s -> const_ext EXT_S = true ->
  entered LHS interrupt bit
    (TrapInfo (trap_cause t) (trap_tval t) (trap_tval2 t) (trap_tinst t) (trap_has_gva t)) epc s
    (trap_to_hs t epc bit interrupt s).
Proof using.
  intros Hwf HS. set (r := trap_to_hs t epc bit interrupt s).
  assert (HSe : extension_enabled s EXT_S = true) by (rewrite (fixed s Hwf); [done|fixed_member]).
  assert (HUe : extension_enabled s EXT_U = true)
    by (rewrite (fixed s Hwf); [by apply (wf_s_u s Hwf)|fixed_member]).
  set (pc := entry_pc LHS interrupt bit s).
  set (s1 := set_reg HTINST (trap_tinst t) (set_reg HTVAL (trap_tval2 t) (set_reg STVAL (trap_tval t)
     (epc_write SEPC epc (set_reg SCAUSE (trap_cause t) (with_spc pc s)))))).
  set (st := push_s_status (nonvirtual_sstatus_read s) s).
  set (s2 := nonvirtual_sstatus_write
     (if z2b (menvcfg s &! MENVCFG_DTE) then set_field st MSTATUS_SDT 1 else st) (with_elp false s1)).
  assert (E1 : reg s1 MSTATUS = reg s MSTATUS) by (unfold s1; by autorewrite with trap_steps).
  assert (Er : r = set_privilege PRV_S false
     (if extension_enabled s2 EXT_H then hstatus_write
        (set_field (set_field (if virt s then set_field (reg s2 HSTATUS) HSTATUS_SPVP (prv s2) else reg s2 HSTATUS)
           HSTATUS_SPV (b2z (virt s))) HSTATUS_GVA (b2z (trap_has_gva t))) s2 else s2)).
  { unfold r, trap_to_hs. cbv zeta. rewrite bit0_z2b.
    change (handler (reg s STVEC) _) with pc. fold s1.
    replace (nonvirtual_sstatus_read s1) with (nonvirtual_sstatus_read s)
      by (unfold nonvirtual_sstatus_read, mstatus_read; by rewrite E1). done. }
  assert (C2 : core s2 = with_elp false (with_spc pc (core s)))
    by (unfold s2, s1; by autorewrite with trap_steps).
  assert (Hcore : core r = set_prv PRV_S false (with_elp false (with_spc pc (core s)))).
  { rewrite Er. destruct (extension_enabled s2 EXT_H); autorewrite with trap_steps;
      rewrite C2, legalize_S; done. }
  assert (Hmore : more r = with_prev (prv s) (virt s) (negb (PRV_S =? prv s)) (negb (eqb false (virt s))) (more s)).
  { rewrite Er. destruct (extension_enabled s2 EXT_H); autorewrite with trap_steps; cbv zeta;
      autorewrite with trap_steps; rewrite C2, legalize_S by done; unfold s2, s1; by autorewrite with trap_steps. }
  assert (Hreg : forall o, o <> MSTATUS -> o <> HSTATUS -> reg r o =
     if decide (o = HTINST) then trap_tinst t else if decide (o = HTVAL) then trap_tval2 t
     else if decide (o = STVAL) then trap_tval t else if decide (o = SEPC) then epc &! ~! 1
     else if decide (o = SCAUSE) then trap_cause t else reg s o).
  { intros o H1 H2. rewrite Er. destruct (extension_enabled s2 EXT_H); autorewrite with trap_steps;
      unfold s2, s1, epc_write; autorewrite with trap_steps; by rewrite !reg_set. }
  assert (Hr2 : reg r MSTATUS = mstatus_read s2).
  { rewrite Er. destruct (extension_enabled s2 EXT_H); by autorewrite with trap_steps. }
  assert (Hbits : forall i, 0 <= i < 64 -> i <> sd_pos ->
    Z.testbit (reg r MSTATUS) i = entry_bit LHS (trap_has_gva t) s i).
  { intros i Hi Hsd. rewrite Hr2. unfold s2.
    assert (E2 : mstatus_read (with_elp false s1) = mstatus_read s) by (unfold mstatus_read; rewrite reg_with_elp; exact E1).
    clearbody s2. rewrite nonvirtual_sstatus_write_bit;
      [|exact HS|rewrite E2; exact (wf_mpp s Hwf)|rewrite E2; exact (wf_mdt s Hwf)|exact Hi|exact Hsd].
    rewrite E2.
    change (menvcfg (with_elp false s1)) with (menvcfg s).
    rewrite (entry_status_s _ _ _ st s) by done.
    unfold entry_bit, dte_of. cbn [status_of level_virt eqb orb]. by rewrite andb_true_r, Z.bit0_odd. }
  assert (Hst : forall i, 0 <= i < 64 -> Z.testbit (reg r MSTATUS) i = entry_bit LHS (trap_has_gva t) s i).
  { intros i Hi. destruct (Z.eq_dec i sd_pos) as [->|]; [|by apply Hbits].
    rewrite Hr2. unfold s2. rewrite nonvirtual_sstatus_write_dirty. fold s2. rewrite <- Hr2.
    transitivity (Z.testbit (mstatus_read s) sd_pos).
    - rewrite wf_sd by done. apply dirty_same. intros j Hj H11 H12. pose proof sd_pos_range.
      rewrite Hbits by lia. unfold entry_bit.
      repeat match goal with |- context [j =? ?k] => replace (j =? k) with false by lia end. done.
    - unfold entry_bit. pose proof sd_pos_range.
      repeat match goal with |- context [sd_pos =? ?k] => replace (sd_pos =? k) with false by lia end. done. }
  eapply entered_intro; [exact Hcore|exact Hmore| |exact Hst|].
  - intros o [Ho | [-> | [-> | ->]]]; [|by rewrite Hreg..].
    rewrite Hreg by (intros ->; apply Ho; repeat constructor).
    by rewrite !decide_False by (intros ->; apply Ho; repeat constructor).
  - split; [by rewrite Hreg|]. split; [by rewrite Hreg|]. intros k Hk H48 H49. rewrite Er.
    assert (E2 : reg s2 HSTATUS = reg s HSTATUS) by (unfold s2, s1; by autorewrite with trap_steps).
    assert (P2 : prv s2 = prv s) by (change (prv (core s2) = prv s); by rewrite C2).
    assert (X2 : extension_enabled s2 = extension_enabled s)
      by (change (extension_enabled (core s2) = extension_enabled s); by rewrite C2).
    rewrite X2. destruct (extension_enabled s EXT_H); autorewrite with trap_steps; cbn [negb]; [|by rewrite E2].
    rewrite hstatus_write_bit by done. rewrite P2, E2.
    change HSTATUS_GVA with (2 ^ 6). change HSTATUS_SPV with (2 ^ 7). change HSTATUS_SPVP with (2 ^ 8).
    rewrite !flag_set by lia.
    assert (Hif : Z.testbit (if virt s then set_field (reg s HSTATUS) (2 ^ 8) (prv s) else reg s HSTATUS) k =
      if (k =? 8) && virt s then Z.odd (prv s) else Z.testbit (reg s HSTATUS) k).
    { destruct (virt s); [rewrite flag_set, andb_true_r by lia|rewrite andb_false_r]; done. }
    rewrite Hif, !odd_b2z.
    destruct (Z.eqb_spec k 6) as [->|]; [by rewrite !orb_true_r|].
    destruct (Z.eqb_spec k 7) as [->|]; [by rewrite !orb_true_r|].
    destruct (Z.eqb_spec k 8) as [->|]; [by rewrite !orb_true_r|]. cbn [andb].
    by destruct (_ || _).
Qed.

Lemma trap_to_vs_entered t epc bit (interrupt : bool) s : wf_hart s -> const_ext EXT_S = true -> virt s = true ->
  let code := if interrupt then u64 (bit - 1) else bit in
  entered LVS interrupt code
    (TrapInfo (code |! (if interrupt then interrupt_bit else 0)) (trap_tval t) 0 0 (trap_has_gva t)) epc s
    (trap_to_vs t epc bit interrupt s).
Proof using.
  intros Hwf HS Hv code. set (r := trap_to_vs t epc bit interrupt s).
  assert (HSe : extension_enabled s EXT_S = true) by (rewrite (fixed s Hwf); [done|fixed_member]).
  assert (HUe : extension_enabled s EXT_U = true)
    by (rewrite (fixed s Hwf); [by apply (wf_s_u s Hwf)|fixed_member]).
  set (pc := entry_pc LVS interrupt code s).
  set (s1 := set_reg VSTVAL (trap_tval t) (epc_write VSEPC epc
     (set_reg VSCAUSE (code |! (if interrupt then interrupt_bit else 0)) (with_spc pc s)))).
  set (st := push_s_status (vsstatus_read s) s).
  set (set_dt := z2b (menvcfg s &! MENVCFG_DTE) && z2b (henvcfg s &! HENVCFG_DTE)).
  assert (E1 : reg s1 VSSTATUS = reg s VSSTATUS) by (unfold s1; by autorewrite with trap_steps).
  set (s2 := vsstatus_write (if set_dt then set_field st MSTATUS_SDT 1 else st) (with_elp false s1)).
  assert (Er : r = set_privilege PRV_S true s2).
  { unfold r, trap_to_vs. cbv zeta. rewrite bit0_z2b. fold code.
    change (handler (reg s VSTVEC) _) with pc. fold s1. unfold sstatus_read, sstatus_write.
    change (virt s1) with (virt s). change (virt (with_elp false s1)) with (virt s). rewrite Hv.
    replace (vsstatus_read s1) with (vsstatus_read s) by (unfold vsstatus_read; by rewrite E1). done. }
  assert (C2 : core s2 = with_elp false (with_spc pc (core s)))
    by (unfold s2, s1; by autorewrite with trap_steps).
  assert (Hcore : core r = set_prv PRV_S true (with_elp false (with_spc pc (core s)))).
  { rewrite Er. autorewrite with trap_steps. rewrite C2, legalize_S; done. }
  assert (Hmore : more r = with_prev (prv s) (virt s) (negb (PRV_S =? prv s)) (negb (eqb true (virt s))) (more s)).
  { rewrite Er. autorewrite with trap_steps. cbv zeta. rewrite C2, legalize_S by done.
    unfold s2, s1. by autorewrite with trap_steps. }
  assert (Hreg : forall o, o <> VSSTATUS -> reg r o =
     if decide (o = VSTVAL) then trap_tval t else if decide (o = VSEPC) then epc &! ~! 1
     else if decide (o = VSCAUSE) then code |! (if interrupt then interrupt_bit else 0) else reg s o).
  { intros o H1. rewrite Er. autorewrite with trap_steps. unfold s2, s1, epc_write.
    autorewrite with trap_steps. by rewrite !reg_set. }
  assert (Hr2 : reg r VSSTATUS = adjust_sd (s_status_next (z2b (henvcfg s &! HENVCFG_DTE)) (reg s VSSTATUS)
      (if set_dt then set_field st MSTATUS_SDT 1 else st))).
  { rewrite Er, reg_set_privilege. unfold s2. rewrite vsstatus_write_reg, reg_with_elp, E1. done. }
  assert (Hnext : forall i, 0 <= i < 64 ->
    Z.testbit (s_status_next (z2b (henvcfg s &! HENVCFG_DTE)) (reg s VSSTATUS)
      (if set_dt then set_field st MSTATUS_SDT 1 else st)) i = entry_bit LVS (trap_has_gva t) s i).
  { intros i Hi. rewrite (entry_status_s _ _ _ st s); [|done| |done|done].
    - unfold entry_bit, dte_of. cbn [status_of level_virt eqb orb]. by rewrite Z.bit0_odd.
    - unfold set_dt. by intros [_ ?]%andb_prop. }
  eapply entered_intro; [exact Hcore|exact Hmore| | |exact I].
  - intros o [Ho | [-> | [-> | ->]]]; [|by rewrite Hreg..].
    rewrite Hreg by (intros ->; apply Ho; repeat constructor).
    by rewrite !decide_False by (intros ->; apply Ho; repeat constructor).
  - intros i Hi. cbn [status_of ti_gva]. rewrite Hr2, adjust_sd_testbit by lia.
    destruct (Z.eqb_spec i sd_pos) as [->|]; [|by apply Hnext].
    transitivity (Z.testbit (reg s VSSTATUS) sd_pos).
    + rewrite (wf_vs_sd s Hwf). apply dirty_same. intros j Hj H11 H12. rewrite Hnext by lia. unfold entry_bit.
      repeat match goal with |- context [j =? ?k] => replace (j =? k) with false by lia end. done.
    + unfold entry_bit. pose proof sd_pos_range.
      repeat match goal with |- context [sd_pos =? ?k] => replace (sd_pos =? k) with false by lia end. done.
Qed.

(** ** Where a trap goes *)

Definition is_interrupt (cause : Z) : bool := Z.testbit cause (max_xlen - 1).
Definition code_of (cause : Z) : Z := if is_interrupt cause then cause - 2 ^ (max_xlen - 1) else cause.

Definition delegated_to_s s (interrupt : bool) (code : Z) : bool :=
  (prv s <=? PRV_S) && (code <? max_xlen) &&
  Z.testbit (if interrupt then mideleg_read s else reg s MEDELEG) code.
Definition delegated_to_vs s (interrupt : bool) (code : Z) : bool :=
  delegated_to_s s interrupt code && virt s &&
  Z.testbit (if interrupt then reg s HIDELEG else reg s HEDELEG) code.

(** The level, and whether the trap is an unexpected one taken to M instead. *)
Definition destination s (interrupt : bool) (code : Z) : level * bool :=
  if delegated_to_s s interrupt code then
    if Z.testbit (sstatus_read s) 24 then (LM, true)
    else if delegated_to_vs s interrupt code then (LVS, false) else (LHS, false)
  else (LM, false).

(** With Smdbltrp a trap to M-mode under [MDT], or with NMIs disabled, is fatal. *)
Definition critical s (l : level) : bool :=
  bool_decide (l = LM) && const_ext EXT_SMDBLTRP && (Z.testbit (mstatus_read s) 42 || negb (nmie s)).

Definition info_of (t : trap) (l : level) (interrupt dbl : bool) (code : Z) : trap_info :=
  match l with
  | LM => TrapInfo (if dbl then CAUSE_DOUBLE_TRAP else trap_cause t) (trap_tval t)
            (if dbl then trap_cause t else trap_tval2 t) (trap_tinst t) (trap_has_gva t)
  | LHS => TrapInfo (trap_cause t) (trap_tval t) (trap_tval2 t) (trap_tinst t) (trap_has_gva t)
  | LVS => TrapInfo (code |! (if interrupt then interrupt_bit else 0)) (trap_tval t) 0 0 (trap_has_gva t)
  end.

Lemma interrupt_bit_pow s : wf_hart s -> interrupt_bit = 2 ^ (max_xlen - 1).
Proof using. intros Hwf. unfold interrupt_bit. destruct (wf_xlen s Hwf) as [-> | ->]; reflexivity. Qed.
Lemma shift_bit x b : 0 <= b -> z2b ((x >>! b) &! 1) = Z.testbit x b.
Proof using. intros Hb. by rewrite bit0_z2b, Z.shiftr_spec, Z.add_0_l by lia. Qed.
Lemma clear_interrupt s cause : wf_hart s -> 0 <= cause < 2 ^ max_xlen -> is_interrupt cause = true ->
  cause &! ~! interrupt_bit = cause - 2 ^ (max_xlen - 1) /\ 0 <= cause - 2 ^ (max_xlen - 1).
Proof using.
  intros Hwf Hc Hi. rewrite (interrupt_bit_pow s Hwf). unfold is_interrupt in Hi.
  assert (Hx : max_xlen = 32 \/ max_xlen = 64) by apply (wf_xlen s Hwf).
  assert (E : cause = (cause &! ~! 2 ^ (max_xlen - 1)) + 2 ^ (max_xlen - 1)).
  { rewrite <- disjoint_lor_add.
    - apply Z.bits_inj'. intros i Hi'. destruct (Z.lt_ge_cases i 64).
      + rewrite Z.lor_spec, clear_testbit, Z.pow2_bits_eqb, (Z.eqb_sym _ i) by lia.
        destruct (Z.eqb_spec i (max_xlen - 1)) as [->|]; [by rewrite Hi, orb_true_r|].
        by rewrite andb_true_r, orb_false_r.
      + assert (2 ^ max_xlen <= 2 ^ 64) by (apply Z.pow_le_mono_r; lia).
        rewrite Z.lor_spec, Z.land_spec, Z.pow2_bits_eqb, (testbit_high 64 cause) by lia.
        by replace (max_xlen - 1 =? i) with false by lia.
    - apply Z.bits_inj'. intros i Hi'. rewrite Z.land_spec, Z.pow2_bits_eqb, Z.bits_0 by lia.
      destruct (Z.eqb_spec (max_xlen - 1) i) as [<-|]; [|by rewrite andb_false_r].
      rewrite clear_testbit by lia. by rewrite Z.eqb_refl, andb_false_r. }
  assert (0 <= cause &! ~! 2 ^ (max_xlen - 1)) by (apply Z.land_nonneg; lia). lia.
Qed.

(** The [vsdeleg] and [hsdeleg] the code computes are the delegation of the specification. *)
Lemma delegation_spec s interrupt code : 0 <= code ->
  let low := prv s <=? PRV_S in
  let vsdeleg := if virt s && low
    then (if interrupt : bool then hideleg_read s else reg s MEDELEG &! reg s HEDELEG) else 0 in
  let hsdeleg := if low then (if interrupt then mideleg_read s else reg s MEDELEG) else 0 in
  low && (code <? max_xlen) && z2b ((vsdeleg >>! code) &! 1) = delegated_to_vs s interrupt code /\
  low && (code <? max_xlen) && z2b ((hsdeleg >>! code) &! 1) = delegated_to_s s interrupt code.
Proof using.
  intros Hc. cbv zeta. rewrite !shift_bit by done. unfold delegated_to_vs, delegated_to_s, hideleg_read.
  destruct (prv s <=? PRV_S), (code <? max_xlen), (virt s), interrupt; cbn [andb];
    rewrite ?Z.bits_0, ?Z.land_spec, ?andb_false_r, ?andb_true_r; auto using andb_comm.
Qed.

Lemma delegated_has_s s interrupt code : wf_hart s -> delegated_to_s s interrupt code = true ->
  const_ext EXT_S = true.
Proof using.
  intros Hwf Hd. destruct (const_ext EXT_S) eqn:HS; [done|]. destruct (wf_deleg s Hwf HS) as [Em Ei].
  revert Hd. unfold delegated_to_s, mideleg_read. rewrite Em, Ei.
  destruct (extension_enabled s EXT_H) eqn:EH; [by rewrite (wf_h_s s Hwf EH) in HS|].
  by destruct interrupt; rewrite Z.bits_0, andb_false_r.
Qed.

(** What [take_trap] does, on every path. *)
Definition trap_outcome (t : trap) (epc : Z) s s' : Prop :=
  let interrupt := is_interrupt (trap_cause t) in
  let code := code_of (trap_cause t) in
  let '(l, dbl) := destination s interrupt code in
  let code' := if interrupt && bool_decide (l = LVS) then u64 (code - 1) else code in
  if debug_mode s then
    s' = with_spc (if trap_cause t =? CAUSE_BREAKPOINT then DEBUG_ROM_ENTRY else DEBUG_ROM_TVEC) s
  else if critical s l then s' = update (with_critical_error true) s
  else entered l interrupt code' (info_of t l interrupt dbl code') epc s s'.

Lemma trap_to_m_outcome t epc code (interrupt dbl : bool) s : wf_hart s ->
  if critical s LM then trap_to_m t epc code interrupt dbl s = update (with_critical_error true) s
  else entered LM interrupt code (info_of t LM interrupt dbl code) epc s (trap_to_m t epc code interrupt dbl s).
Proof using.
  intros Hwf. unfold critical. rewrite bool_decide_true by done. cbn [andb].
  assert (E : z2b (get_field (mstatus_read s) MSTATUS_MDT) = Z.testbit (mstatus_read s) 42)
    by by rewrite get_MDT, z2b_b2z.
  destruct (const_ext EXT_SMDBLTRP && _) eqn:Hc.
  - unfold trap_to_m. cbv zeta. rewrite (fixed s Hwf EXT_SMDBLTRP) by fixed_member. by rewrite E, Hc.
  - apply trap_to_m_entered; [done|]. by rewrite E.
Qed.

Lemma take_trap_outcome t epc s : wf_hart s -> 0 <= trap_cause t < 2 ^ max_xlen ->
  trap_outcome t epc s (take_trap t epc s).
Proof using.
  intros Hwf Hc. unfold trap_outcome, take_trap, delegation.
  assert (Hx : max_xlen = 32 \/ max_xlen = 64) by apply (wf_xlen s Hwf).
  assert (Ei : z2b (trap_cause t &! interrupt_bit) = is_interrupt (trap_cause t)).
  { rewrite (interrupt_bit_pow s Hwf). apply land_flag. lia. }
  assert (Ec : (if is_interrupt (trap_cause t) then trap_cause t &! ~! interrupt_bit else trap_cause t) =
               code_of (trap_cause t) /\ 0 <= code_of (trap_cause t)).
  { unfold code_of. destruct (is_interrupt (trap_cause t)) eqn:E; [|split; [done|lia]].
    by apply (clear_interrupt s). }
  destruct Ec as [Ec Hcode]. cbv zeta. rewrite Ei, Ec.
  set (interrupt := is_interrupt (trap_cause t)) in *. set (code := code_of (trap_cause t)) in *.
  destruct (delegation_spec s interrupt code Hcode) as [Hvs Hhs]. cbv zeta in Hvs, Hhs.
  set (vsdeleg := if virt s && (prv s <=? PRV_S) then _ else 0) in *.
  set (hsdeleg := if prv s <=? PRV_S then _ else 0) in *.
  rewrite get_SDT, z2b_b2z.
  assert (Hor : (prv s <=? PRV_S) && (code <? max_xlen) &&
     (z2b ((vsdeleg >>! code) &! 1) || z2b ((hsdeleg >>! code) &! 1)) = delegated_to_s s interrupt code).
  { rewrite andb_orb_distrib_r, Hvs, Hhs. unfold delegated_to_vs.
    destruct (delegated_to_s s interrupt code); [apply orb_true_r|done]. }
  rewrite Hor. destruct (debug_mode s); [by destruct (destination _ _ _)|].
  unfold destination. destruct (delegated_to_s s interrupt code) eqn:Ed; cbn [andb].
  - pose proof (delegated_has_s s interrupt code Hwf Ed) as HS.
    destruct (Z.testbit (sstatus_read s) 24); cbn [andb].
    + rewrite Z.shiftr_0_l, Z.land_0_l, bool_decide_false, andb_false_r by done.
      change (z2b 0) with false. rewrite !andb_false_r. by apply trap_to_m_outcome.
    + rewrite Hvs, Hhs. destruct (delegated_to_vs s interrupt code) eqn:Ev.
      * unfold critical. rewrite bool_decide_false by done. cbn [andb].
        assert (Hv : virt s = true) by (unfold delegated_to_vs in Ev; by destruct (virt s); rewrite ?andb_false_r in Ev).
        rewrite bool_decide_true, andb_true_r by done.
        exact (trap_to_vs_entered t epc code interrupt s Hwf HS Hv).
      * unfold critical. rewrite !bool_decide_false, andb_false_r by done. cbn [andb].
        exact (trap_to_hs_entered t epc code interrupt s Hwf HS).
  - rewrite Hvs, Hhs. unfold delegated_to_vs. rewrite Ed. cbn [andb].
    rewrite bool_decide_false, andb_false_r by done. by apply trap_to_m_outcome.
Qed.
End spec.
