(* ===== verification/TrapProps.v ===== *)
(** * Properties of traps: the hart stays well-formed, interrupts, returns

    [wf_hart] is an invariant of every trap, return, debug entry and CSR write;
    [take_interrupt] picks the pending interrupt the architecture asks for; a
    return undoes the trap it returns from. *)

From Stdlib Require Import ZifyBool.
From stdpp Require Import sets functions.
From S2P Require Import Prelude Arith Decode Hart Mmu Csr Status Trap TrapSpec.
Local Open Scope cint_scope.

Section invariant.
Context {W : Type} `{csr_world W} {C : hart_cfg}.
Implicit Type s : state W.

Lemma dcsr_of_more s s' : more s' = more s -> dcsr_more (csrs_val s') = dcsr_more (csrs_val s).
Proof using. intros E. exact (f_equal dcsr_more E). Qed.

(** What is left to show of a step that keeps privilege, extensions and [dcsr]. *)
Lemma wf_intro s s' : wf_hart s -> core s' = core s -> more s' = more s ->
  reg s' MEDELEG = reg s MEDELEG -> reg s' MIDELEG = reg s MIDELEG -> reg s' MNSTATUS = reg s MNSTATUS ->
  (let m := mstatus_read s' in
   legalize_privilege s (get_field m MSTATUS_MPP) = get_field m MSTATUS_MPP /\
   (Z.testbit m 42 = true -> Z.testbit m 3 = false) /\
   (Z.testbit m 39 = true -> extension_enabled s EXT_H = true) /\
   Z.testbit m sd_pos = dirty m) ->
  Z.testbit (reg s' VSSTATUS) sd_pos = dirty (reg s' VSSTATUS) -> wf_hart s'.
Proof using.
  intros [] Hc Hm Em Ei En (M1 & M2 & M3 & M4) Hvs.
  assert (Ex : extension_enabled s' = extension_enabled s) by by apply ext_core.
  assert (Ep : prv s' = prv s) by exact (f_equal prv Hc).
  assert (Ev : virt s' = virt s) by exact (f_equal virt Hc).
  assert (El : forall p, legalize_privilege s' p = legalize_privilege s p) by (intros p; by apply legalize_ext).
  pose proof (dcsr_of_more _ _ Hm) as Ed.
  split; rewrite ?Ex, ?Ep, ?Ev, ?El, ?Em, ?Ei, ?En, ?Ed; assumption.
Qed.

(** A write to registers well-formedness does not look at. *)
Lemma wf_upd os s s' : wf_hart s -> upd os s s' ->
  forallb (fun o => negb (bool_decide (o ∈ [MSTATUS; VSSTATUS; MNSTATUS; MEDELEG; MIDELEG]))) os = true ->
  wf_hart s'.
Proof using.
  intros Hwf [Hc Hr Hm] Hos.
  assert (Hs : forall o, o ∈ [MSTATUS; VSSTATUS; MNSTATUS; MEDELEG; MIDELEG] -> reg s' o = reg s o).
  { intros o Ho. apply Hr. intros Hin. rewrite forallb_forall in Hos.
    specialize (Hos o (proj1 (list_elem_of_In _ _) Hin)). rewrite bool_decide_true in Hos by done. done. }
  apply (wf_intro s); try assumption; try (apply Hs; repeat constructor).
  - unfold mstatus_read. rewrite Hs by repeat constructor. cbv zeta.
    split_and!; [apply (wf_mpp s Hwf)|apply (wf_mdt s Hwf)|apply (wf_mpv s Hwf)|apply (wf_sd s Hwf)].
  - rewrite Hs by repeat constructor. apply (wf_vs_sd s Hwf).
Qed.

Lemma wf_mstatus_write v s : wf_hart s -> wf_hart (mstatus_write v s).
Proof using.
  intros Hwf. destruct (upd_mstatus_write v s) as [Hc Hr Hm]. pose proof sd_pos_range as Hsd.
  assert (Hbit : forall i, 0 <= i < 64 -> i <> sd_pos ->
    Z.testbit (mstatus_read (mstatus_write v s)) i = Z.testbit (mstatus_next v s) i).
  { intros i Hi Hne. rewrite mstatus_write_bit by done. by replace (i =? sd_pos) with false by lia. }
  apply (wf_intro s); try assumption; try (apply reg_mstatus_write; discriminate).
  - cbv zeta. split_and!.
    + rewrite mstatus_write_mpp. apply legalize_legal, get_MPP_range.
    + rewrite !Hbit, !mstatus_next_testbit by olia. eval_bits.
      rewrite mstatus_write_mask_testbit, sstatus_write_mask_testbit by olia. eval_bits.
      destruct (extension_enabled s EXT_SMDBLTRP); intros ->; apply andb_false_r.
    + rewrite Hbit, mstatus_next_testbit by olia. eval_bits.
      rewrite mstatus_write_mask_testbit, sstatus_write_mask_testbit by olia. eval_bits.
      destruct (extension_enabled s EXT_H) eqn:E; [done|]. intros Hb. pose proof (wf_mpv s Hwf Hb). congruence.
    + rewrite mstatus_write_dirty, mstatus_write_bit by lia. by rewrite Z.eqb_refl.
  - rewrite reg_mstatus_write by discriminate. apply (wf_vs_sd s Hwf).
Qed.

Lemma wf_vsstatus_write v s : wf_hart s -> wf_hart (vsstatus_write v s).
Proof using.
  intros Hwf. destruct (upd_vsstatus_write v s) as [Hc Hr Hm]. pose proof sd_pos_range as Hsd.
  apply (wf_intro s); try assumption; try (apply reg_vsstatus_write; discriminate).
  - unfold mstatus_read. rewrite reg_vsstatus_write by discriminate. cbv zeta.
    split_and!; [apply (wf_mpp s Hwf)|apply (wf_mdt s Hwf)|apply (wf_mpv s Hwf)|apply (wf_sd s Hwf)].
  - rewrite vsstatus_write_reg, adjust_sd_testbit, Z.eqb_refl by lia. apply dirty_same.
    intros j Hj H11 H12. rewrite adjust_sd_testbit by lia. by replace (j =? sd_pos) with false by lia.
Qed.

(** A step that changes neither registers, privilege nor extensions. *)
Lemma wf_same s s' : wf_hart s -> prv s' = prv s -> virt s' = virt s ->
  extension_enabled s' = extension_enabled s -> (forall o, reg s' o = reg s o) ->
  dcsr_more (csrs_val s') = dcsr_more (csrs_val s) -> wf_hart s'.
Proof using.
  intros [] Ep Ev Ex Er Ed.
  assert (El : forall p, legalize_privilege s' p = legalize_privilege s p) by (intros p; by apply legalize_ext).
  assert (Em : mstatus_read s' = mstatus_read s) by apply Er.
  split; rewrite ?Ex, ?Ep, ?Ev, ?El, ?Em, ?Er, ?Ed; assumption.
Qed.

Lemma reg_update f s o : (forall c, val (f c) = val c) -> reg (update f s) o = reg s o.
Proof using. intros Hf. unfold reg, update, csrs_val. cbn. by rewrite csrs_of_set, Hf. Qed.

Lemma wf_update f s : wf_hart s -> (forall c, val (f c) = val c) ->
  (forall c, dcsr_v (dcsr_more (f c)) = true -> dcsr_v (dcsr_more c) = true \/ extension_enabled s EXT_H = true) ->
  (forall c, 0 <= dcsr_prv (dcsr_more c) <= 3 -> 0 <= dcsr_prv (dcsr_more (f c)) <= 3) ->
  wf_hart (update f s).
Proof using.
  intros [] Hf Hv Hp.
  assert (El : forall p, legalize_privilege (update f s) p = legalize_privilege s p) by (intros p; by apply legalize_ext).
  assert (Er : forall o, reg (update f s) o = reg s o) by (intros; by apply reg_update).
  assert (Em : mstatus_read (update f s) = mstatus_read s) by apply Er.
  assert (Ec : csrs_val (update f s) = f (csrs_val s)) by (unfold csrs_val, update; cbn; by rewrite csrs_of_set).
  split; rewrite ?El, ?Em, ?Er, ?Ec; try assumption.
  destruct wf_dcsr as [D1 D2]. split; [|by apply Hp]. intros E. by destruct (Hv _ E) as [E'|E']; [apply D1|].
Qed.

Lemma legalize_idem s p : 0 <= p <= 3 -> legalize_privilege s (legalize_privilege s p) = legalize_privilege s p.
Proof using. apply legalize_legal. Qed.

(** [set_privilege] legalises whatever mode it is given. *)
Lemma wf_set_privilege p v s : wf_hart s -> 0 <= p <= 3 ->
  (v = true -> extension_enabled s EXT_H = true) -> wf_hart (set_privilege p v s).
Proof using.
  intros Hwf Hp Hv. destruct (legalize_legal s p Hp) as [Hl Hi]. destruct Hwf.
  set (r := set_privilege p v s).
  assert (Hc : core r = set_prv (legalize_privilege s p) (v && negb (legalize_privilege s p =? PRV_M)) (core s))
    by exact (core_set_privilege p v s).
  assert (Er : forall o, reg r o = reg s o) by (intros; apply reg_set_privilege).
  assert (El : forall p, legalize_privilege r p = legalize_privilege s p) by (intros q; by apply legalize_ext).
  assert (Em : mstatus_read r = mstatus_read s) by apply Er.
  assert (Ep : prv r = legalize_privilege s p) by exact (f_equal prv Hc).
  assert (Ev : virt r = v && negb (legalize_privilege s p =? PRV_M)) by exact (f_equal virt Hc).
  assert (Ed : dcsr_more (csrs_val r) = dcsr_more (csrs_val s)).
  { unfold r. pose proof (f_equal dcsr_more (more_set_privilege p v s)) as E. exact E. }
  split; rewrite ?Ep, ?Ev, ?El, ?Em, ?Er, ?Ed; try assumption.
  intros [E1 E2]%andb_prop. split; [|by apply Hv].
  by apply negb_true_iff, Z.eqb_neq in E2.
Qed.

Lemma wf_mnstatus_write v s : wf_hart s -> wf_hart (mnstatus_write v s).
Proof using.
  intros Hwf. assert (Hu : upd [MNSTATUS] s (mnstatus_write v s)) by apply upd_set.
  destruct Hu as [Hc Hr Hm].
  assert (Eo : forall o, o <> MNSTATUS -> reg (mnstatus_write v s) o = reg s o)
    by (intros; by apply reg_set_ne).
  destruct Hwf.
  assert (Ex : extension_enabled (mnstatus_write v s) = extension_enabled s) by by apply ext_core.
  assert (El : forall p, legalize_privilege (mnstatus_write v s) p = legalize_privilege s p)
    by (intros p; by apply legalize_ext).
  assert (Em : mstatus_read (mnstatus_write v s) = mstatus_read s) by by apply Eo.
  pose proof (dcsr_of_more _ _ Hm) as Ed.
  split; rewrite ?El, ?Em, ?Ed, ?(Eo VSSTATUS), ?(Eo MEDELEG), ?(Eo MIDELEG) by discriminate; try assumption.
  unfold mnstatus_write. rewrite reg_set_eq, masked_testbit by olia.
  rewrite !Z.lor_spec, opt_testbit, Z.land_spec. eval_bits.
  destruct (extension_enabled s EXT_H) eqn:E; [done|]. intros Hb. pose proof (wf_mnpv Hb). congruence.
Qed.

Lemma wf_deleg_write o v s : wf_hart s -> const_ext EXT_S = true -> o = MEDELEG \/ o = MIDELEG ->
  wf_hart (set_reg o v s).
Proof using.
  intros [] HS Ho. assert (Hm : more (set_reg o v s) = more s) by apply more_set_reg.
  assert (Eo : forall o', o' <> MEDELEG -> o' <> MIDELEG -> reg (set_reg o v s) o' = reg s o').
  { intros o' H1 H2. apply reg_set_ne. by destruct Ho as [-> | ->]. }
  assert (El : forall p, legalize_privilege (set_reg o v s) p = legalize_privilege s p)
    by (intros p; by apply legalize_ext).
  assert (Em : mstatus_read (set_reg o v s) = mstatus_read s) by by apply Eo.
  pose proof (dcsr_of_more _ _ Hm) as Ed.
  split; rewrite ?El, ?Em, ?Ed, ?(Eo VSSTATUS), ?(Eo MNSTATUS) by discriminate; try assumption.
  intros HS'. congruence.
Qed.

(** *** Steps *)

Lemma wf_with_spc x s : wf_hart s -> wf_hart (with_spc x s).
Proof using. intros Hwf. by apply (wf_same s). Qed.
Lemma hart_wf_with_npc x s : wf_hart s -> wf_hart (with_npc x s).
Proof using. intros Hwf. by apply (wf_same s). Qed.
Lemma wf_with_elp x s : wf_hart s -> wf_hart (with_elp x s).
Proof using. intros Hwf. by apply (wf_same s). Qed.
Lemma wf_set_debug_mode x s : wf_hart s -> wf_hart (set_debug_mode x s).
Proof using. intros Hwf. by apply (wf_same s). Qed.
Lemma wf_flush s : wf_hart s -> wf_hart (flush_tlb s).
Proof using. intros Hwf. by apply (wf_upd [] s); [|apply upd_flush|]. Qed.
Lemma wf_set_reg o v s : wf_hart s ->
  negb (bool_decide (o ∈ [MSTATUS; VSSTATUS; MNSTATUS; MEDELEG; MIDELEG])) = true -> wf_hart (set_reg o v s).
Proof using. intros Hwf Ho. apply (wf_upd [o] s); [done|apply upd_set|]. cbn. by rewrite Ho. Qed.
Lemma wf_epc_write o v s : wf_hart s ->
  negb (bool_decide (o ∈ [MSTATUS; VSSTATUS; MNSTATUS; MEDELEG; MIDELEG])) = true -> wf_hart (epc_write o v s).
Proof using. apply wf_set_reg. Qed.
Lemma wf_hstatus_write v s : wf_hart s -> wf_hart (hstatus_write v s).
Proof using. intros Hwf. by apply (wf_upd [HSTATUS] s); [|apply upd_hstatus_write|]. Qed.
Lemma wf_tcontrol_write v s : wf_hart s -> wf_hart (tcontrol_write v s).
Proof using. intros Hwf. by apply wf_set_reg. Qed.
Lemma wf_log_mstatush v s : wf_hart s -> wf_hart (log_mstatush v s).
Proof using. intros Hwf. unfold log_mstatush. case_match; [by apply wf_mstatus_write|done]. Qed.
Lemma wf_if (c : bool) s1 s2 : wf_hart s1 -> wf_hart s2 -> wf_hart (if c then s1 else s2).
Proof using. by destruct c. Qed.
Lemma wf_nonvirtual v s : wf_hart s -> wf_hart (nonvirtual_sstatus_write v s).
Proof using. apply wf_mstatus_write. Qed.
Lemma wf_sstatus_write v s : wf_hart s -> wf_hart (sstatus_write v s).
Proof using. intros Hwf. unfold sstatus_write. apply wf_if; [by apply wf_vsstatus_write|by apply wf_nonvirtual]. Qed.
Lemma wf_clear_vs_sdt c s : wf_hart s -> wf_hart (clear_vs_sdt c s).
Proof using. intros Hwf. apply wf_if; [by apply wf_vsstatus_write|done]. Qed.
Lemma wf_restore_elp v p e s : wf_hart s -> wf_hart (restore_elp v p e s).
Proof using. intros Hwf. apply wf_if; [by apply wf_with_elp|done]. Qed.
Lemma wf_critical_error s : wf_hart s -> wf_hart (update (with_critical_error true) s).
Proof using. intros Hwf. apply wf_update; auto. Qed.

Lemma core_sstatus_write v s : core (sstatus_write v s) = core s.
Proof using. unfold sstatus_write. destruct (virt s); [apply core_vsstatus_write|apply core_nonvirtual]. Qed.

Ltac wf_steps := repeat first
  [ assumption
  | apply wf_with_spc | apply hart_wf_with_npc | apply wf_with_elp | apply wf_set_debug_mode | apply wf_flush
  | apply wf_critical_error | apply wf_clear_vs_sdt | apply wf_restore_elp | apply wf_log_mstatush
  | apply wf_mstatus_write | apply wf_vsstatus_write | apply wf_nonvirtual | apply wf_sstatus_write
  | apply wf_hstatus_write | apply wf_tcontrol_write | apply wf_mnstatus_write
  | apply wf_set_reg; [|reflexivity] | apply wf_epc_write; [|reflexivity]
  | apply wf_set_privilege; [|unfold PRV_S, PRV_M; lia|first [discriminate|assumption|idtac]]
  | apply wf_if ].

Lemma wf_trap_to_vs t epc bit i s : wf_hart s -> virt s = true -> wf_hart (trap_to_vs t epc bit i s).
Proof using.
  intros Hwf Hv. unfold trap_to_vs. cbv zeta. wf_steps. intros _.
  rewrite (ext_core _ _ (core_sstatus_write _ _)). apply (wf_virt s Hwf Hv).
Qed.
Lemma wf_trap_to_hs t epc bit i s : wf_hart s -> wf_hart (trap_to_hs t epc bit i s).
Proof using. intros Hwf. unfold trap_to_hs. cbv zeta. wf_steps. Qed.
Lemma wf_trap_to_m t epc bit i d s : wf_hart s -> wf_hart (trap_to_m t epc bit i d s).
Proof using. intros Hwf. unfold trap_to_m. cbv zeta. wf_steps. Qed.

Lemma wf_take_trap t epc s : wf_hart s -> wf_hart (take_trap t epc s).
Proof using.
  intros Hwf. unfold take_trap. destruct (debug_mode s); [by apply wf_with_spc|]. cbv zeta.
  destruct (delegation (trap_cause t) s) as [[dbl vsdeleg] hsdeleg] eqn:Ed.
  destruct ((prv s <=? PRV_S) && _ && z2b ((vsdeleg >>! _) &! 1)) eqn:Ev.
  - apply wf_trap_to_vs; [done|]. apply andb_prop in Ev as [_ Ev]. revert Ed Ev. unfold delegation. cbv zeta.
    destruct (virt s); [done|]. cbn [andb].
    destruct (_ && z2b (get_field _ _)); intros [= _ <- _]; by rewrite Z.shiftr_0_l.
  - apply wf_if; [by apply wf_trap_to_hs|by apply wf_trap_to_m].
Qed.

Lemma wf_enter_debug_mode c x s : wf_hart s -> wf_hart (enter_debug_mode c x s).
Proof using.
  intros Hwf. unfold enter_debug_mode. cbv zeta. apply wf_update; [|auto..].
  apply wf_with_spc, wf_epc_write; [|reflexivity]. apply wf_set_privilege; [|unfold PRV_M; lia|discriminate].
  apply wf_with_elp. apply wf_update; [by apply wf_set_debug_mode|done| |].
  - intros c0 E. right. by apply (wf_virt s Hwf).
  - intros c0 _. change (0 <= prv s <= 3). destruct (wf_prv s Hwf) as [-> | [-> | ->]]; unfold PRV_U, PRV_S, PRV_M; lia.
Qed.

(** No step changes the extensions. *)
Lemma ext_if (c : bool) s1 s2 :
  extension_enabled (if c then s1 else s2) = if c then extension_enabled s1 else extension_enabled s2.
Proof using. by destruct c. Qed.
Lemma if_same {A} (c : bool) (a : A) : (if c then a else a) = a.
Proof using. by destruct c. Qed.
Lemma ext_vsstatus_write v s : extension_enabled (vsstatus_write v s) = extension_enabled s.
Proof using. apply ext_core, core_vsstatus_write. Qed.
Lemma ext_hstatus_write v s : extension_enabled (hstatus_write v s) = extension_enabled s.
Proof using. apply ext_core, core_hstatus_write. Qed.
Lemma ext_sstatus_write v s : extension_enabled (sstatus_write v s) = extension_enabled s.
Proof using. apply ext_core, core_sstatus_write. Qed.
Lemma ext_log_mstatush v s : extension_enabled (log_mstatush v s) = extension_enabled s.
Proof using. apply ext_core, core_log_mstatush. Qed.
Lemma ext_tcontrol_write v s : extension_enabled (tcontrol_write v s) = extension_enabled s.
Proof using. done. Qed.
Lemma ext_with_elp x s : extension_enabled (with_elp x s) = extension_enabled s.
Proof using. done. Qed.
Lemma ext_mnstatus_write v s : extension_enabled (mnstatus_write v s) = extension_enabled s.
Proof using. done. Qed.
Lemma ext_set_privilege p v s : extension_enabled (set_privilege p v s) = extension_enabled s.
Proof using. done. Qed.
Lemma ext_clear_vs_sdt c s : extension_enabled (clear_vs_sdt c s) = extension_enabled s.
Proof using. unfold clear_vs_sdt. by rewrite ext_if, ext_vsstatus_write, if_same. Qed.
Lemma ext_restore_elp v p e s : extension_enabled (restore_elp v p e s) = extension_enabled s.
Proof using. unfold restore_elp. by rewrite ext_if, ext_with_elp, if_same. Qed.
Create Rewrite HintDb ext.
#[local] Hint Rewrite ext_if @if_same @ext_mstatus_write ext_vsstatus_write ext_hstatus_write ext_sstatus_write
  ext_log_mstatush ext_tcontrol_write ext_with_elp ext_mnstatus_write ext_set_privilege ext_clear_vs_sdt
  ext_restore_elp : ext.

(** *** Instructions: a body keeps the invariant whether it returns or throws *)
Section instructions.
Context {E : env}.
Definition keeps {A} (m : M W A) : Prop := forall s, wf_hart s -> wf_hart (snd (m s)).

Lemma keeps_bind {A B} (m : M W A) (k : A -> M W B) : keeps m -> (forall a, keeps (k a)) -> keeps (m ≫= k).
Proof using.
  intros Hm Hk s Hs. specialize (Hm s Hs). unfold mbind, M_bind.
  destruct (m s) as [[t|a] s']; [done|]. by apply Hk.
Qed.
Lemma keeps_ret {A} (a : A) : keeps (stdpp.base.mret a).
Proof using. by intros s Hs. Qed.
Lemma keeps_throw {A} t : keeps (throw t : M W A).
Proof using. by intros s Hs. Qed.
Lemma keeps_gets {A} (f : state W -> A) : keeps (gets f).
Proof using. by intros s Hs. Qed.
Lemma keeps_modify f : (forall s, wf_hart s -> wf_hart (f s)) -> keeps (modify f).
Proof using. intros Hf s Hs. by apply Hf. Qed.
Lemma keeps_if {A} (c : bool) (m1 m2 : M W A) : keeps m1 -> keeps m2 -> keeps (if c then m1 else m2).
Proof using. by destruct c. Qed.
Lemma keeps_set_pc_and_serialize x : keeps (set_pc_and_serialize x).
Proof using. intros s Hs. unfold set_pc_and_serialize. cbn. by apply wf_with_spc, hart_wf_with_npc. Qed.
Lemma keeps_require c : keeps (require c).
Proof using. apply keeps_if; [apply keeps_ret|apply keeps_throw]. Qed.
Lemma keeps_require_extension e : keeps (require_extension e).
Proof using. apply keeps_bind; [apply keeps_gets|intros; apply keeps_require]. Qed.
Lemma keeps_require_privilege p : keeps (require_privilege p).
Proof using. apply keeps_bind; [apply keeps_gets|intros; apply keeps_require]. Qed.
Lemma keeps_require_novirt : keeps require_novirt.
Proof using. apply keeps_bind; [apply keeps_gets|intros; apply keeps_if; [apply keeps_throw|apply keeps_ret]]. Qed.

Ltac keep_steps := repeat first
  [ apply keeps_require_extension | apply keeps_require_privilege | apply keeps_require_novirt
  | apply keeps_require | apply keeps_set_pc_and_serialize | apply keeps_gets | apply keeps_ret
  | apply keeps_bind; [|intros ?] | apply keeps_if ].

Lemma get_SPP_range r : 0 <= get_field r MSTATUS_SPP <= 3.
Proof using. rewrite get_SPP. destruct (Z.testbit r 8); cbn; lia. Qed.
Lemma get_MNPP_range r : 0 <= get_field r MNSTATUS_MNPP <= 3.
Proof using. apply get_MPP_range. Qed.

Lemma keeps_mret : keeps mret.
Proof using.
  unfold mret. keep_steps. apply keeps_modify. intros s Hwf. cbv zeta.
  apply wf_set_privilege; [wf_steps|apply get_MPP_range|]. rewrite get_MPV, z2b_b2z. intros Hv.
  autorewrite with ext. by apply (wf_mpv s Hwf).
Qed.

Lemma keeps_mnret : keeps mnret.
Proof using.
  unfold mnret. keep_steps. apply keeps_modify. intros s Hwf. cbv zeta.
  apply wf_set_privilege; [wf_steps|apply get_MNPP_range|]. rewrite get_MNPV, z2b_b2z. intros Hv.
  autorewrite with ext. by apply (wf_mnpv s Hwf).
Qed.

Lemma keeps_sret : keeps sret.
Proof using.
  unfold sret. keep_steps. apply keeps_modify. intros s Hwf. cbv zeta.
  apply wf_set_privilege; [wf_steps|apply get_SPP_range|]. intros Hv. autorewrite with ext.
  destruct (virt s) eqn:Ev; [by apply (wf_virt s Hwf)|]. by destruct (extension_enabled s EXT_H).
Qed.

Lemma keeps_dret : keeps dret.
Proof using.
  unfold dret. keep_steps. apply keeps_modify. intros s Hwf. cbv zeta.
  destruct (wf_dcsr s Hwf) as [D1 D2].
  apply wf_if; [apply wf_update; [|by auto..]|]; wf_steps; try done; intros Hd;
    autorewrite with ext; by apply D1.
Qed.
End instructions.

(** *** The steps of a hart that touch its privilege state *)

(** [WRITE o] is an instruction's write to a register that well-formedness does
    not constrain; delegation registers exist only with S-mode. *)
Inductive hart_step s : state W -> Prop :=
  | step_trap t epc : hart_step s (take_trap t epc s)
  | step_enter_debug cause ext : hart_step s (enter_debug_mode cause ext s)
  | step_interrupt pending : hart_step s (snd (take_interrupt pending s))
  | step_mret (E : env) : hart_step s (snd (mret s))
  | step_sret (E : env) : hart_step s (snd (sret s))
  | step_mnret (E : env) : hart_step s (snd (mnret s))
  | step_dret (E : env) : hart_step s (snd (dret s))
  | step_mstatus v : hart_step s (mstatus_write v s)
  | step_mstatush v : hart_step s (mstatush_write v s)
  | step_sstatus v : hart_step s (sstatus_write v s)
  | step_vsstatus v : hart_step s (vsstatus_write v s)
  | step_mnstatus v : hart_step s (mnstatus_write v s)
  | step_hstatus v : hart_step s (hstatus_write v s)
  | step_epc o v : o ∈ [MEPC; SEPC; VSEPC; MNEPC; DPC] -> hart_step s (epc_write o v s)
  | step_tvec o v : o ∈ [MTVEC; STVEC; VSTVEC] -> hart_step s (tvec_write o v s)
  | step_mip v : hart_step s (mip_write v s)
  | step_mie v : hart_step s (mie_write v s)
  | step_sip v : hart_step s (sip_write v s)
  | step_sie v : hart_step s (sie_write v s)
  | step_hvip v : hart_step s (hvip_write v s)
  | step_mideleg v : const_ext EXT_S = true -> hart_step s (mideleg_write v s)
  | step_medeleg v : const_ext EXT_S = true -> hart_step s (medeleg_write v s)
  | step_hideleg v : hart_step s (hideleg_write v s)
  | step_hedeleg v : hart_step s (hedeleg_write v s)
  | step_time v : hart_step s (time_sync v s)
  | step_stimecmp o m v : o ∈ [STIMECMP; VSTIMECMP] -> hart_step s (stimecmp_write o m v s)
  | step_execute p' x : hart_step s (with_npc x (with_spc p' s)).

Lemma wf_masked_write o m v s : wf_hart s ->
  negb (bool_decide (o ∈ [MSTATUS; VSSTATUS; MNSTATUS; MEDELEG; MIDELEG])) = true -> wf_hart (masked_write o m v s).
Proof using. apply wf_set_reg. Qed.

Lemma wf_take_interrupt pending s : wf_hart s -> wf_hart (snd (take_interrupt pending s)).
Proof using.
  intros Hwf. unfold take_interrupt. destruct (pending =? 0); [done|]. cbv zeta.
  assert (wf_hart (update (with_in_wfi false) s)) by (apply wf_update; auto).
  by repeat case_match.
Qed.

Lemma hart_step_wf s s' : wf_hart s -> hart_step s s' -> wf_hart s'.
Proof using.
  intros Hwf Hs. destruct Hs;
    try (by first [apply wf_take_trap | apply wf_enter_debug_mode | apply wf_take_interrupt | apply keeps_mret
      | apply keeps_sret | apply keeps_mnret | apply keeps_dret | apply wf_mstatus_write | apply wf_sstatus_write
      | apply wf_vsstatus_write | apply wf_mnstatus_write | apply wf_hstatus_write | apply wf_masked_write]).
  all: try (by repeat match goal with H : _ ∈ _ |- _ => apply list_elem_of_In in H; cbn in H end;
    intuition (subst; apply wf_set_reg; done)).
  - apply wf_set_reg; [|done]. by apply wf_masked_write.
  - apply wf_deleg_write; auto.
  - apply wf_deleg_write; auto.
  - unfold time_sync. cbv zeta. apply wf_if; [apply wf_masked_write; [|done]|]; by apply wf_set_reg.
  - unfold stimecmp_write. cbv zeta. apply list_elem_of_In in H0. cbn in H0.
    destruct H0 as [<-|[<-|[]]]; apply wf_set_reg; try done; by apply wf_masked_write.
  - by apply hart_wf_with_npc, wf_with_spc.
Qed.
End invariant.
