(* ===== verification/Interrupt.v ===== *)
(** * Interrupts: which one is taken, and where

    The specification of [processor_t::take_interrupt]: the levels M, HS and VS
    are considered in this order, an interrupt belongs to the level the
    delegation registers give it, and within a level interrupts are ranked. *)

From Stdlib Require Import ZifyBool.
From stdpp Require Import sets functions.
From S2P Require Import Prelude Arith Decode Hart Mmu Csr Status Trap TrapSpec.
Local Open Scope cint_scope.

(** The rank of an interrupt number, the smaller the earlier: numbers from 12 up
    come first, the lowest number first, then MEI, MSI, MTI, SEI, SSI, STI, VSEI,
    VSSI, VSTI. *)
Definition standard_order : list Z := [11; 3; 7; 9; 1; 5; 10; 2; 6].
Fixpoint position (l : list Z) (i : Z) : Z :=
  match l with [] => 0 | j :: l => if i =? j then 0 else 1 + position l i end.
Definition irq_rank (i : Z) : Z := if 12 <=? i then i - 64 else position standard_order i.

Definition level_rank (l : level) : Z := match l with LM => 0 | LHS => 1 | LVS => 2 end.

Section interrupts.
Context {W : Type} `{csr_world W} {C : hart_cfg}.
Implicit Type s : state W.

(** Interrupt [i] belongs to the level and the level accepts interrupts now. *)
Definition enabled_at (l : level) s (i : Z) : bool :=
  let sie := Z.testbit (sstatus_read s) 1 in
  match l with
  | LM => negb (Z.testbit (mideleg_read s) i) &&
          ((prv s <? PRV_M) || ((prv s =? PRV_M) && Z.testbit (mstatus_read s) 3))
  | LHS => Z.testbit (mideleg_read s) i && negb (Z.testbit (hideleg_read s) i) &&
           (virt s || (prv s <? PRV_S) || ((prv s =? PRV_S) && sie))
  | LVS => virt s && Z.testbit (hideleg_read s) i &&
           ((prv s <? PRV_S) || ((prv s =? PRV_S) && sie))
  end.

Lemma all_if_testbit b i : 0 <= i < 64 -> Z.testbit (all_if b) i = b.
Proof using.
  intros Hi. destruct b; [|by rewrite Z.bits_0]. unfold all_if. cbn [Z.b2z].
  change (u64 (- (1))) with (Z.ones 64). apply Z.ones_spec_low. lia.
Qed.

(** A 64-bit set is empty when it has no element. *)
Lemma empty_bits e : 0 <= e < 2 ^ 64 -> (forall i, 0 <= i < 64 -> Z.testbit e i = false) -> e = 0.
Proof using.
  intros He Hb. apply Z.bits_inj'. intros i Hi. rewrite Z.bits_0.
  destruct (Z.lt_ge_cases i 64); [by apply Hb|by apply (testbit_high 64)].
Qed.

(** [enabled_interrupts] is the set of one level, empty only if all levels' sets are. *)
Lemma enabled_interrupts_spec pending s : 0 <= pending < 2 ^ 64 ->
  let e := enabled_interrupts pending s in
  0 <= e < 2 ^ 64 /\
  exists l, (forall i, 0 <= i < 64 -> Z.testbit e i = Z.testbit pending i && enabled_at l s i) /\
    (forall l' i, 0 <= i < 64 -> level_rank l' < level_rank l -> Z.testbit pending i && enabled_at l' s i = false) /\
    (e = 0 -> forall l' i, 0 <= i < 64 -> Z.testbit pending i && enabled_at l' s i = false).
Proof using.
  intros Hp. cbv zeta. unfold enabled_interrupts. rewrite get_MIE, get_SIE, !z2b_b2z.
  set (bm := (prv s <? PRV_M) || _). set (bh := virt s || _ || _). set (bv := (prv s <? PRV_S) || _).
  set (em := pending &! ~! mideleg_read s &! all_if bm).
  set (eh := pending &! (mideleg_read s &! ~! hideleg_read s) &! all_if bh).
  set (ev := pending &! hideleg_read s &! all_if bv).
  assert (Hm : forall i, 0 <= i < 64 -> Z.testbit em i = Z.testbit pending i && enabled_at LM s i).
  { intros i Hi. unfold em. rewrite !Z.land_spec, all_if_testbit, wrap_testbit, Z.lnot_spec by lia.
    replace (i <? 64) with true by lia. cbn [andb enabled_at]. fold bm. by rewrite andb_assoc. }
  assert (Hh : forall i, 0 <= i < 64 -> Z.testbit eh i = Z.testbit pending i && enabled_at LHS s i).
  { intros i Hi. unfold eh. rewrite !Z.land_spec, all_if_testbit, wrap_testbit, Z.lnot_spec by lia.
    replace (i <? 64) with true by lia. cbn [andb enabled_at]. fold bh. by rewrite !andb_assoc. }
  assert (Hv : forall i, 0 <= i < 64 -> virt s = true -> Z.testbit ev i = Z.testbit pending i && enabled_at LVS s i).
  { intros i Hi Hvirt. unfold ev. rewrite !Z.land_spec, all_if_testbit by lia.
    cbn [enabled_at]. fold bv. by rewrite Hvirt, andb_assoc. }
  assert (Hr : forall x, 0 <= (pending &! x) < 2 ^ 64) by (intros x; rewrite Z.land_comm; apply land_range; lia).
  assert (Rm : 0 <= em < 2 ^ 64) by (unfold em; rewrite <- Z.land_assoc; apply Hr).
  assert (Rh : 0 <= eh < 2 ^ 64) by (unfold eh; rewrite <- Z.land_assoc; apply Hr).
  assert (Rv : 0 <= ev < 2 ^ 64) by (unfold ev; rewrite <- Z.land_assoc; apply Hr).
  destruct (Z.eqb_spec em 0) as [Em|Em]; cbn [negb].
  2: { split; [done|]. exists LM. split_and!; [done|intros [] i Hi Hl; cbn in Hl; lia|done]. }
  assert (Hm0 : forall i, 0 <= i < 64 -> Z.testbit pending i && enabled_at LM s i = false)
    by (intros i Hi; by rewrite <- Hm, Em, Z.bits_0).
  destruct (Z.eqb_spec eh 0) as [Eh|Eh].
  2: { rewrite andb_false_r. split; [done|]. exists LHS.
       split_and!; [done|intros [] i Hi Hl; cbn in Hl; try lia; by apply Hm0|done]. }
  assert (Hh0 : forall i, 0 <= i < 64 -> Z.testbit pending i && enabled_at LHS s i = false)
    by (intros i Hi; by rewrite <- Hh, Eh, Z.bits_0).
  rewrite andb_true_r. destruct (virt s) eqn:Hvirt.
  - split; [done|]. exists LVS. split_and!; [by auto|intros [] i Hi Hl; cbn in Hl; try lia; auto|].
    intros Ev [] i Hi; [by apply Hm0|by apply Hh0|]. by rewrite <- Hv, Ev, Z.bits_0.
  - split; [done|]. exists LHS. split_and!; [done|intros [] i Hi Hl; cbn in Hl; try lia; by apply Hm0|].
    intros _ [] i Hi; [by apply Hm0|by apply Hh0|]. cbn [enabled_at].
    rewrite Hvirt. cbn [andb]. apply andb_false_r.
Qed.

(** The choice within a level. *)
Definition first_ok (e : Z) : bool :=
  match highest_priority e with
  | Some m =>
    let i := ctz m in let r := irq_rank i in
    Z.testbit e i && (0 <=? i) && (i <? 12) &&
    forallb (fun j => negb (Z.testbit e j) || (r <=? irq_rank j)) (seqZ 0 12)
  | None => false
  end.
Lemma standard_first : forallb (fun e =>
  (e =? 0) || Z.testbit e 0 || Z.testbit e 4 || Z.testbit e 8 || first_ok e) (seqZ 0 4096) = true.
Proof using. vm_compute. reflexivity. Qed.

Lemma highest_priority_spec e : 0 < e < 2 ^ 64 ->
  Z.testbit e 0 = false -> Z.testbit e 4 = false -> Z.testbit e 8 = false ->
  exists m, highest_priority e = Some m /\ 0 <= ctz m < 64 /\ Z.testbit e (ctz m) = true /\
    forall j, 0 <= j < 64 -> Z.testbit e j = true -> irq_rank (ctz m) <= irq_rank j.
Proof using.
  intros He H0 H4 H8. destruct (Z.lt_ge_cases e 4096) as [Hlt|Hge].
  - assert (Hok : first_ok e = true).
    { pose proof standard_first as Hall. rewrite forallb_forall in Hall.
      specialize (Hall e). rewrite H0, H4, H8, !orb_false_r in Hall.
      replace (e =? 0) with false in Hall by lia. apply Hall, list_elem_of_In, elem_of_seqZ. lia. }
    unfold first_ok in Hok. destruct (highest_priority e) as [m|] eqn:Em; [|done]. exists m.
    apply andb_prop in Hok as [[[H1 H2]%andb_prop H3]%andb_prop Hj]. split_and!; [done|lia|lia|done|].
    intros j Hj' Hb. rewrite forallb_forall in Hj. specialize (Hj j).
    destruct (Z.lt_ge_cases j 12).
    + rewrite Hb in Hj. cbn [negb orb] in Hj. apply Z.leb_le, Hj, list_elem_of_In, elem_of_seqZ. lia.
    + rewrite (testbit_high 12 e) in Hb by lia. done.
  - assert (Hs : 0 < e >>! 12 < 2 ^ 52).
    { rewrite Z.shiftr_div_pow2 by lia. change (2 ^ 12) with 4096. split.
      - apply Z.div_str_pos. lia.
      - apply Z.div_lt_upper_bound; lia. }
    unfold highest_priority. change (IRQ_M_EXT + 1) with 12. unfold z2b.
    replace (e >>! 12 =? 0) with false by lia. cbn [negb].
    set (m := e >>! 12 <<! 12).
    assert (Hm : forall j, 0 <= j < 64 -> Z.testbit m j = (12 <=? j) && Z.testbit e j).
    { intros j Hj. unfold m. rewrite wrap_testbit, Z.shiftl_spec by lia. replace (j <? 64) with true by lia.
      destruct (Z.leb_spec 12 j); cbn [andb]; [|by rewrite Z.testbit_neg_r by lia].
      rewrite Z.shiftr_spec by lia. f_equal. lia. }
    assert (Em : m = (e >>! 12) * 4096).
    { unfold m. rewrite wrap_small; rewrite Z.shiftl_mul_pow2 by lia; change (2 ^ 12) with 4096; lia. }
    destruct (ctz_zeros m) as (Hc & Hz & Hb); [lia|]. exists m.
    pose proof Hb as Hb'. rewrite Hm in Hb' by lia. apply andb_prop in Hb' as [Hge' Hbe].
    split_and!; [done|lia|lia|done|]. intros j Hj Hbj. unfold irq_rank.
    rewrite Hge'. destruct (Z.leb_spec 12 j).
    + destruct (Z.lt_ge_cases j (ctz m)); [|lia].
      assert (Hbm : Z.testbit m j = true) by (rewrite Hm by lia; by replace (12 <=? j) with true by lia).
      rewrite <- (Z.mod_pow2_bits_low m (ctz m) j), Hz, Z.bits_0 in Hbm by lia. done.
    + assert (0 <= position standard_order j) by (cbn; repeat case_match; lia). lia.
Qed.

(** The numbers of the user-level interrupts, which do not exist. *)
Definition no_user_interrupts (pending : Z) : Prop :=
  Z.testbit pending 0 = false /\ Z.testbit pending 4 = false /\ Z.testbit pending 8 = false.

(** [i] at level [l] is the interrupt to take: pending, of the highest level that
    has an interrupt to take, and first of its level. *)
Definition chosen (pending : Z) s (l : level) (i : Z) : Prop :=
  0 <= i < 64 /\ Z.testbit pending i = true /\ enabled_at l s i = true /\
  (forall l' j, 0 <= j < 64 -> Z.testbit pending j = true -> enabled_at l' s j = true ->
     level_rank l <= level_rank l' /\ (l' = l -> irq_rank i <= irq_rank j)).

Lemma regs_in_wfi s o : reg (update (with_in_wfi false) s) o = reg s o.
Proof using. unfold reg, update, csrs_val. cbn. by rewrite csrs_of_set. Qed.
Lemma wfi_same s : let s' := update (with_in_wfi false) s in
  mideleg_read s' = mideleg_read s /\ hideleg_read s' = hideleg_read s /\
  mstatus_read s' = mstatus_read s /\ sstatus_read s' = sstatus_read s /\ nmie s' = nmie s.
Proof using.
  unfold mideleg_read, hideleg_read, mideleg_read, mstatus_read, sstatus_read, nonvirtual_sstatus_read,
    vsstatus_read, mstatus_read, nmie, mnstatus.
  rewrite !regs_in_wfi. done.
Qed.

Lemma take_interrupt_chosen pending s : 0 <= pending < 2 ^ 64 -> no_user_interrupts pending ->
  match fst (take_interrupt pending s) with
  | inr _ => debug_mode s = true \/ nmie s = false \/
             forall l i, 0 <= i < 64 -> Z.testbit pending i && enabled_at l s i = false
  | inl t => debug_mode s = false /\ nmie s = true /\
             exists l i, chosen pending s l i /\ t = plain_trap ((1 <<! (max_xlen - 1)) |! i)
  end.
Proof using.
  intros Hp (U0 & U4 & U8). unfold take_interrupt.
  destruct (Z.eqb_spec pending 0) as [->|Hne].
  { right. right. intros l i Hi. by rewrite Z.bits_0. }
  cbv zeta. set (s' := update _ s). destruct (wfi_same s) as (E1 & E2 & E3 & E4 & E5). fold s' in E1, E2, E3, E4, E5.
  assert (Ee : enabled_interrupts pending s' = enabled_interrupts pending s)
    by (unfold enabled_interrupts; by rewrite E1, E2, E3, E4).
  rewrite Ee, E5. change (debug_mode s') with (debug_mode s).
  destruct (debug_mode s); [by left|]. destruct (nmie s); [|by right; left]. cbn [negb andb].
  destruct (enabled_interrupts_spec pending s Hp) as (Hr & l & Hl & Hhigh & H0).
  set (e := enabled_interrupts pending s) in *. unfold z2b.
  destruct (Z.eqb_spec e 0) as [He|He]; cbn [negb fst]; [right; right; by apply H0|].
  destruct (highest_priority_spec e) as (m & -> & Hc & Hb & Hmin); try lia;
    try (rewrite Hl by lia; by rewrite ?U0, ?U4, ?U8).
  cbn [fst throw]. split_and!; [done|done|]. exists l, (ctz m). split; [|done].
  rewrite Hl in Hb by lia. apply andb_prop in Hb as [Hb1 Hb2]. split_and!; [lia|lia|done|done|].
  intros l' j Hj Hbj Hej. split.
  - destruct (Z.lt_ge_cases (level_rank l') (level_rank l)) as [Hlt|]; [|lia].
    specialize (Hhigh l' j Hj Hlt). by rewrite Hbj, Hej in Hhigh.
  - intros ->. apply Hmin; [done|]. by rewrite Hl, Hbj, Hej by lia.
Qed.

(** The level that [take_interrupt] chose for is the one the trap enters. *)
Lemma chosen_destination pending s l i : wf_hart s -> i < max_xlen - 1 -> chosen pending s l i ->
  is_interrupt ((1 <<! (max_xlen - 1)) |! i) = true /\ code_of ((1 <<! (max_xlen - 1)) |! i) = i /\
  destination s true i = if Z.testbit (sstatus_read s) 24 && negb (bool_decide (l = LM)) then (LM, true) else (l, false).
Proof using.
  intros Hwf Hi (Hir & _ & Hen & _).
  assert (Hx : max_xlen = 32 \/ max_xlen = 64) by apply (wf_xlen s Hwf).
  assert (Hor : (1 <<! (max_xlen - 1)) |! i = 2 ^ (max_xlen - 1) + i).
  { rewrite <- (interrupt_bit_pow s Hwf). unfold interrupt_bit. apply disjoint_lor_add.
    fold interrupt_bit. rewrite (interrupt_bit_pow s Hwf). apply Z.bits_inj'. intros j Hj.
    rewrite Z.land_spec, Z.pow2_bits_eqb, Z.bits_0 by lia.
    destruct (Z.eqb_spec (max_xlen - 1) j) as [<-|]; [|done].
    apply (testbit_high 6); [split; [lia|change (2 ^ 6) with 64; lia]|lia]. }
  rewrite Hor.
  assert (Hint : is_interrupt (2 ^ (max_xlen - 1) + i) = true).
  { unfold is_interrupt. rewrite Z.add_comm, <- (Z.mul_1_l (2 ^ _)). apply Z.testbit_true; [lia|].
    rewrite Z.div_add, Z.div_small by (destruct Hx as [-> | ->]; cbn; lia). done. }
  split; [done|]. split; [unfold code_of; rewrite Hint; lia|].
  unfold destination, delegated_to_vs, delegated_to_s.
  replace (i <? max_xlen) with true by lia. rewrite andb_true_r.
  assert (Hhi : hideleg_read s = reg s HIDELEG &! mideleg_read s) by done.
  destruct l; cbn [enabled_at] in Hen.
  - rewrite bool_decide_true, andb_false_r by done. apply andb_prop in Hen as [Hen _].
    apply negb_true_iff in Hen. by rewrite Hen, andb_false_r.
  - rewrite bool_decide_false, andb_true_r by done.
    apply andb_prop in Hen as [[H1 H2]%andb_prop H3]. rewrite H1.
    assert (Hs : (prv s <=? PRV_S) = true).
    { destruct (virt s) eqn:Ev; cbn [orb] in H3.
      - destruct (wf_virt s Hwf Ev) as [Hne _]. destruct (wf_prv s Hwf) as [E | [E | E]]; rewrite E in *; done.
      - destruct (wf_prv s Hwf) as [E | [E | E]]; rewrite E in *; try done. }
    rewrite Hs. cbn [andb]. rewrite Hhi, Z.land_spec, H1, andb_true_r in H2. apply negb_true_iff in H2.
    by rewrite H2, andb_false_r.
  - rewrite bool_decide_false, andb_true_r by done.
    apply andb_prop in Hen as [[H1 H2]%andb_prop H3]. rewrite Hhi, Z.land_spec in H2.
    apply andb_prop in H2 as [H2 H4]. rewrite H4, H1, H2.
    assert (Hs : (prv s <=? PRV_S) = true).
    { destruct (wf_virt s Hwf H1) as [Hne _]. destruct (wf_prv s Hwf) as [E | [E | E]]; rewrite E in *; done. }
    by rewrite Hs.
Qed.
End interrupts.
