(* ===== verification/XRet.v ===== *)
(** * Returns from traps

    [mret] and [sret] undo the trap that entered M-, HS- or VS-mode: the program
    counter, the privilege mode, the landing-pad state and every bit of the status
    register come back, except for the fields the architecture resets. *)

From Stdlib Require Import ZifyBool.
From stdpp Require Import sets functions.
From S2P Require Import Prelude Arith Decode Hart Mmu Csr Status Trap TrapSpec TrapProps.
Local Open Scope cint_scope.

Section xret.
Context {W : Type} `{csr_world W} {C : hart_cfg} {E : env}.
Implicit Type s h r : state W.

(** A handler that is about to return: in the mode of its level, with the status
    and exception registers as the trap left them; anything else may have changed. *)
Record at_return (l : level) s r h : Prop := {
  ret_prv : prv h = level_prv l;
  ret_virt : virt h = level_virt l;
  ret_ext : extension_enabled h = extension_enabled s;
  ret_env : menvcfg h = menvcfg s /\ senvcfg h = senvcfg s /\ henvcfg h = henvcfg s /\ mseccfg h = mseccfg s;
  ret_regs o : o ∈ [MSTATUS; VSSTATUS; MNSTATUS; HSTATUS; MEPC; SEPC; VSEPC] -> reg h o = reg r o
}.

Definition return_state (pc : Z) h : state W :=
  with_spc (pc &! pc_alignment_mask h) (with_npc PC_SERIALIZE_AFTER h).

(** *** [mret] *)

Definition pop_m_status (st : Z) s : Z :=
  let prev_prv := get_field st MSTATUS_MPP in
  let prev_virt := z2b (get_field st MSTATUS_MPV) in
  let st := if negb (prev_prv =? PRV_M) then set_field st MSTATUS_MPRV 0 else st in
  let st := set_field st MSTATUS_MIE (get_field st MSTATUS_MPIE) in
  let st := set_field st MSTATUS_MPIE 1 in
  let st := set_field st MSTATUS_MPP (if extension_enabled s EXT_U then PRV_U else PRV_M) in
  let st := set_field st MSTATUS_MPV 0 in
  let st := set_field st MSTATUS_MPELP 0 in
  let st := set_field st MSTATUS_MDT 0 in
  if (prev_prv =? PRV_U) || prev_virt then set_field st MSTATUS_SDT 0 else st.

Lemma pop_m_bits st s k : 0 <= k < 64 ->
  let pp := get_field st MSTATUS_MPP in
  Z.testbit (pop_m_status st s) k =
  if k =? 24 then negb ((pp =? PRV_U) || Z.testbit st 39) && Z.testbit st 24
  else if (k =? 42) || (k =? 41) || (k =? 39) then false
  else if (k =? 11) || (k =? 12) then negb (extension_enabled s EXT_U)
  else if k =? 7 then true else if k =? 3 then Z.testbit st 7
  else if k =? 17 then (pp =? PRV_M) && Z.testbit st 17 else Z.testbit st k.
Proof using.
  intros Hk. cbv zeta. unfold pop_m_status. cbv zeta. rewrite get_MPV, z2b_b2z.
  set (pp := get_field st MSTATUS_MPP). set (st1 := if negb (pp =? PRV_M) then _ else st).
  assert (H1 : forall j, 0 <= j < 64 -> Z.testbit st1 j =
     if j =? 17 then (pp =? PRV_M) && Z.testbit st 17 else Z.testbit st j).
  { intros j Hj. unfold st1. destruct (pp =? PRV_M); cbn [negb andb].
    - by destruct (Z.eqb_spec j 17) as [->|].
    - rewrite set_MPRV by lia. done. }
  set (st2 := set_field (set_field _ MSTATUS_MPELP 0) MSTATUS_MDT 0).
  assert (H2 : forall j, 0 <= j < 64 -> Z.testbit st2 j =
     if (j =? 42) || (j =? 41) || (j =? 39) then false
     else if (j =? 11) || (j =? 12) then negb (extension_enabled s EXT_U)
     else if j =? 7 then true else if j =? 3 then Z.testbit st 7
     else if j =? 17 then (pp =? PRV_M) && Z.testbit st 17 else Z.testbit st j).
  { intros j Hj. unfold st2. autorewrite with status. rewrite !H1 by lia. eval_bits.
    destruct (j =? 42); [done|]. destruct (j =? 41); [done|]. destruct (j =? 39); [done|].
    cbn [orb]. destruct ((j =? 11) || (j =? 12)) eqn:Ej; [|done].
    assert (j = 11 \/ j = 12) as [-> | ->] by lia; by destruct (extension_enabled s EXT_U). }
  destruct ((pp =? PRV_U) || Z.testbit st 39).
  - rewrite set_SDT, H2 by lia. by destruct (Z.eqb_spec k 24) as [->|].
  - rewrite H2 by lia. destruct (Z.eqb_spec k 24) as [->|]; [by eval_bits|done].
Qed.

Lemma mret_run h : prv h = PRV_M ->
  let st := mstatus_read h in
  let prev_prv := get_field st MSTATUS_MPP in
  let prev_virt := Z.testbit st 39 in
  let s := return_state (epc_read MEPC h) h in
  let s := restore_elp prev_virt prev_prv (b2z (Z.testbit st 41)) s in
  let s := clear_vs_sdt (prev_virt && (prev_prv =? PRV_U)) s in
  let s := log_mstatush (pop_m_status st h) (mstatus_write (pop_m_status st h) s) in
  let s := if has_tcontrol
           then tcontrol_write (if z2b (reg s TCONTROL &! CSR_TCONTROL_MPTE)
                                then CSR_TCONTROL_MPTE |! CSR_TCONTROL_MTE else 0) s
           else s in
  mret h = (inr tt, set_privilege prev_prv prev_virt s).
Proof using.
  intros Hp. unfold mret, require_privilege, require, set_pc_and_serialize, modify.
  unfold mbind, M_bind, gets. rewrite Hp. change (PRV_M <=? PRV_M) with true. cbv iota.
  unfold stdpp.base.mret, M_ret. cbv beta zeta.
  fold (return_state (epc_read MEPC h) h). set (s0 := return_state _ h).
  change (mstatus_read s0) with (mstatus_read h).
  change (extension_enabled s0 EXT_U) with (extension_enabled h EXT_U).
  assert (He : forall p : bool, get_field (set_field (set_field (set_field (set_field
    (if p then set_field (mstatus_read h) MSTATUS_MPRV 0 else mstatus_read h) MSTATUS_MIE
     (get_field (if p then set_field (mstatus_read h) MSTATUS_MPRV 0 else mstatus_read h) MSTATUS_MPIE))
      MSTATUS_MPIE 1) MSTATUS_MPP (if extension_enabled h EXT_U then PRV_U else PRV_M)) MSTATUS_MPV 0) MSTATUS_MPELP
     = b2z (Z.testbit (mstatus_read h) 41)).
  { intros p. rewrite get_MPELP. autorewrite with status. eval_bits. destruct p; [|done].
    autorewrite with status. by eval_bits. }
  rewrite He. unfold pop_m_status. rewrite !get_MPV, z2b_b2z. reflexivity.
Qed.

(** The hart after the return to the code the trap interrupted. *)
Record returned (epc : Z) s h (f : state W) : Prop := {
  rtd_pc : spc f = epc &! ~! 1 &! pc_alignment_mask s &! pc_alignment_mask s;
  rtd_npc : npc f = PC_SERIALIZE_AFTER;
  rtd_prv : prv f = prv s;
  rtd_virt : virt f = virt s;
  rtd_elp : elp f = if ZICFILP_xLPE s (virt s) (prv s) then elp s else elp h;
  rtd_xpr : XPR f = XPR h
}.

(** What [mret] leaves in bit [k] of [mstatus], in terms of [mstatus] before the trap. *)
Definition mret_bit (gva : bool) s (k : Z) : bool :=
  let old := Z.testbit (mstatus_read s) k in
  if k =? 7 then true
  else if (k =? 11) || (k =? 12) then negb (const_ext EXT_U)
  else if k =? 17 then (prv s =? PRV_M) && old
  else if k =? 24 then old && negb (const_ext EXT_SSDBLTRP && ((prv s =? PRV_U) || virt s))
  else if k =? 38 then if extension_enabled s EXT_H then gva else old
  else if k =? 39 then false
  else if k =? 41 then negb (const_ext EXT_ZICFILP) && old
  else old.

Lemma xlpe_same {V V'} (s : state V) (s' : state V') v p : extension_enabled s' = extension_enabled s ->
  menvcfg s' = menvcfg s -> senvcfg s' = senvcfg s -> henvcfg s' = henvcfg s -> mseccfg s' = mseccfg s ->
  ZICFILP_xLPE s' v p = ZICFILP_xLPE s v p.
Proof using. unfold ZICFILP_xLPE. by intros -> -> -> -> ->. Qed.
Lemma xlpe_zicfilp s v p : wf_hart s -> ZICFILP_xLPE s v p = true -> const_ext EXT_ZICFILP = true.
Proof using.
  intros Hwf. unfold ZICFILP_xLPE. rewrite (fixed s Hwf EXT_ZICFILP) by fixed_member.
  by destruct (const_ext EXT_ZICFILP).
Qed.

Lemma prv_legal_not_M s : wf_hart s -> prv s <> PRV_M -> const_ext EXT_U = true.
Proof using.
  intros Hwf Hne. pose proof (wf_prv_legal s Hwf) as Hl. unfold legalize_privilege in Hl.
  rewrite (fixed s Hwf EXT_U) in Hl by fixed_member. destruct (const_ext EXT_U); [done|]. cbn [negb] in Hl. congruence.
Qed.

(** The status an M-mode trap leaves, as [mret] reads it. *)
Section mret_status.
Context (gva : bool) (s h : state W) (Hwf : wf_hart s) (Hcrit : critical s LM = false).
Context (Hext : extension_enabled h = extension_enabled s).
Context (Hst : forall k, 0 <= k < 64 -> Z.testbit (mstatus_read h) k = entry_bit LM gva s k).

Lemma entered_mpp : get_field (mstatus_read h) MSTATUS_MPP = prv s.
Proof using Hwf Hst.
  rewrite get_MPP, !Hst by olia. unfold entry_bit. eval_bits. change (11 - 11) with 0. change (12 - 11) with 1.
  apply prv_bits, wf_prv, Hwf.
Qed.
Lemma entered_mpv : Z.testbit (mstatus_read h) 39 = virt s.
Proof using Hst. rewrite Hst by olia. unfold entry_bit. by eval_bits. Qed.

Lemma not_critical : const_ext EXT_SMDBLTRP = true -> Z.testbit (mstatus_read s) 42 = false.
Proof using Hcrit.
  intros He. revert Hcrit. unfold critical. rewrite bool_decide_true, He by done. cbn [andb].
  by intros [? _]%orb_false_elim.
Qed.

Lemma mret_status_bit s1 k : 0 <= k < 64 -> extension_enabled s1 = extension_enabled s ->
  mstatus_read s1 = mstatus_read h ->
  Z.testbit (mstatus_read (mstatus_write (pop_m_status (mstatus_read h) h) s1)) k = mret_bit gva s k.
Proof using Hwf Hcrit Hext Hst.
  intros Hk Hx1 Hm1. set (v := pop_m_status (mstatus_read h) h).
  assert (Hold : forall j, 0 <= j < 64 -> j <> 3 -> j <> 7 -> j <> 11 -> j <> 12 -> j <> 38 -> j <> 39 -> j <> 41 ->
    j <> 42 -> Z.testbit (mstatus_read h) j = Z.testbit (mstatus_read s) j).
  { intros j Hj H3 H7 H11 H12 H38 H39 H41 H42. rewrite Hst by lia. unfold entry_bit.
    repeat match goal with |- context [j =? ?n] => replace (j =? n) with false by olia end. done. }
  assert (Hu : extension_enabled h EXT_U = const_ext EXT_U)
    by (rewrite Hext; apply (fixed s Hwf); fixed_member).
  assert (Hv : forall j, 0 <= j < 64 -> Z.testbit v j =
    if j =? 24 then negb ((prv s =? PRV_U) || virt s) && Z.testbit (mstatus_read s) 24
    else if (j =? 42) || (j =? 41) || (j =? 39) then false
    else if (j =? 11) || (j =? 12) then negb (const_ext EXT_U)
    else if j =? 7 then true else if j =? 3 then Z.testbit (mstatus_read s) 3
    else if j =? 17 then (prv s =? PRV_M) && Z.testbit (mstatus_read s) 17
    else Z.testbit (mstatus_read h) j).
  { intros j Hj. unfold v. rewrite pop_m_bits, entered_mpp, entered_mpv, Hu by olia.
    rewrite (Hold 24), (Hold 17) by olia. rewrite (Hst 7) by olia. done. }
  assert (Hvm : get_field v MSTATUS_MPP = if const_ext EXT_U then PRV_U else PRV_M).
  { rewrite get_MPP, !Hv by olia. eval_bits. by destruct (const_ext EXT_U). }
  destruct (mask_m_bits s s1 Hwf Hx1) as (M7 & M38 & M39 & M41 & M42 & M17 & M24).
  assert (Hnext : forall j, 0 <= j < 64 -> Z.testbit (mstatus_next v s1) j = mret_bit gva s j).
  { intros j Hj. rewrite mstatus_next_testbit, Hvm, Hx1, Hm1, (fixed s Hwf EXT_SMDBLTRP) by (olia || fixed_member).
    unfold mret_bit. destruct (Z.eqb_spec j 3) as [->|].
    { rewrite !Hv by olia. eval_bits. destruct (const_ext EXT_SMDBLTRP) eqn:He; [apply andb_true_r|].
      rewrite (Hst 42) by olia. unfold entry_bit. eval_bits. rewrite He. cbn [orb status_of].
      fold (mstatus_read s). destruct (Z.testbit (mstatus_read s) 42) eqn:E42; [|apply andb_true_r].
      by rewrite (wf_mdt s Hwf E42). }
    destruct ((j =? 11) || (j =? 12)) eqn:Ej.
    { assert (Hj' : j = 11 \/ j = 12) by (clear - Ej; lia). replace (j =? 7) with false by olia.
      unfold legalize_privilege. rewrite Hx1, (fixed s Hwf EXT_U) by fixed_member.
      destruct Hj' as [-> | ->]; by destruct (const_ext EXT_U). }
    apply orb_false_elim in Ej as [?%Z.eqb_neq ?%Z.eqb_neq].
    destruct (Z.eqb_spec j 7) as [->|]; [rewrite M7, Hv by olia; by eval_bits|].
    destruct (Z.eqb_spec j 17) as [->|].
    { rewrite M17, Hv, Hold by olia. eval_bits. destruct (const_ext EXT_U) eqn:HU; [done|].
      destruct (Z.eqb_spec (prv s) PRV_M) as [|Hne]; [done|]. by rewrite (prv_legal_not_M s Hwf Hne) in HU. }
    destruct (Z.eqb_spec j 24) as [->|].
    { rewrite M24, Hv, Hold by olia. eval_bits. destruct (const_ext EXT_SSDBLTRP); [apply andb_comm|].
      by rewrite andb_true_r. }
    destruct (Z.eqb_spec j 38) as [->|].
    { rewrite M38, Hv, Hst by olia. unfold entry_bit. eval_bits. by destruct (extension_enabled s EXT_H). }
    destruct (Z.eqb_spec j 39) as [->|].
    { rewrite M39, Hv, entered_mpv by olia. eval_bits. destruct (extension_enabled s EXT_H) eqn:HH; [done|].
      destruct (virt s) eqn:Ev; [|done]. destruct (wf_virt s Hwf Ev). congruence. }
    destruct (Z.eqb_spec j 41) as [->|].
    { rewrite M41, Hv, Hst by olia. unfold entry_bit. eval_bits. by destruct (const_ext EXT_ZICFILP). }
    destruct (Z.eqb_spec j 42) as [->|].
    { rewrite M42, Hv, Hst by olia. unfold entry_bit. eval_bits.
      destruct (const_ext EXT_SMDBLTRP) eqn:He; [by rewrite not_critical|done]. }
    rewrite Hv, Hold by olia.
    repeat match goal with |- context [j =? ?n] => replace (j =? n) with false by olia end.
    cbn [orb]. by destruct (Z.testbit (mstatus_write_mask s1) j). }
  rewrite mstatus_write_bit by olia. destruct (Z.eqb_spec k sd_pos) as [->|]; [|by apply Hnext].
  transitivity (Z.testbit (mstatus_read s) sd_pos); pose proof sd_pos_range as Hsd.
  - rewrite (wf_sd s Hwf). apply dirty_same. intros j Hj H11 H12. rewrite Hnext by olia. unfold mret_bit.
    repeat match goal with |- context [j =? ?n] => replace (j =? n) with false by olia end. done.
  - unfold mret_bit. repeat match goal with |- context [sd_pos =? ?n] => replace (sd_pos =? n) with false by olia end. done.
Qed.
End mret_status.

Lemma core_clear_vs_sdt c s : core (clear_vs_sdt c s) = core s.
Proof using. destruct c; [apply core_vsstatus_write|done]. Qed.
Lemma core_restore_elp v p e s :
  core (restore_elp v p e s) = if ZICFILP_xLPE (core s) v p then with_elp (z2b e) (core s) else core s.
Proof using. unfold restore_elp. by change (ZICFILP_xLPE (core s) v p) with (ZICFILP_xLPE s v p); destruct (ZICFILP_xLPE s v p). Qed.
Lemma reg_clear_vs_sdt c s o : o <> VSSTATUS -> reg (clear_vs_sdt c s) o = reg s o.
Proof using. intros Ho. destruct c; [by apply reg_vsstatus_write|done]. Qed.
Lemma reg_restore_elp v p e s o : reg (restore_elp v p e s) o = reg s o.
Proof using. unfold restore_elp. by destruct (ZICFILP_xLPE s v p). Qed.

Lemma align_same s h : extension_enabled h = extension_enabled s -> pc_alignment_mask h = pc_alignment_mask s.
Proof using. unfold pc_alignment_mask. by intros ->. Qed.

Lemma core_set_privilege_back s s' : wf_hart s -> extension_enabled s' = extension_enabled s ->
  core (set_privilege (prv s) (virt s) s') = set_prv (prv s) (virt s) (core s').
Proof using.
  intros Hwf Hx. rewrite core_set_privilege.
  assert (Hl : legalize_privilege (core s') (prv s) = prv s).
  { rewrite <- (wf_prv_legal s Hwf) at 2. by apply (legalize_ext (core s) (core s')). }
  rewrite Hl. destruct (virt s) eqn:Ev; [|done].
  destruct (wf_virt s Hwf) as [Hne _]; [done|]. by apply Z.eqb_neq in Hne as ->.
Qed.

Lemma returned_intro o epc s h f : extension_enabled h = extension_enabled s ->
  reg h o = epc &! ~! 1 ->
  core f = set_prv (prv s) (virt s) (let c := core (return_state (epc_read o h) h) in
    if ZICFILP_xLPE s (virt s) (prv s) then with_elp (elp s) c else c) ->
  returned epc s h f.
Proof using.
  intros Hx Ho Hc. cbv zeta in Hc. set (s0 := return_state (epc_read o h) h) in *.
  assert (Hpc : spc s0 = epc &! ~! 1 &! pc_alignment_mask s &! pc_alignment_mask s).
  { unfold s0, return_state, epc_read. cbn. by rewrite (align_same s h Hx), Ho. }
  split; [change (spc (core f) = epc &! ~! 1 &! pc_alignment_mask s &! pc_alignment_mask s)
    |change (npc (core f) = PC_SERIALIZE_AFTER)|change (prv (core f) = prv s)|change (virt (core f) = virt s)
    |change (elp (core f) = if ZICFILP_xLPE s (virt s) (prv s) then elp s else elp h)
    |change (XPR (core f) = XPR h)]; rewrite Hc; destruct (ZICFILP_xLPE s (virt s) (prv s)); done.
Qed.

Lemma mret_returned interrupt code i epc s r h : wf_hart s -> critical s LM = false ->
  entered LM interrupt code i epc s r -> at_return LM s r h ->
  fst (mret h) = inr tt /\ returned epc s h (snd (mret h)) /\
  (forall k, 0 <= k < 64 ->
     Z.testbit (mstatus_read (snd (mret h))) k = mret_bit (ti_gva i) s k) /\
  (virt s && (prv s =? PRV_U) = false -> reg (snd (mret h)) VSSTATUS = reg s VSSTATUS).
Proof using.
  intros Hwf Hcrit Hent [Hp Hv Hx (E1 & E2 & E3 & E4) Hr].
  assert (Hst : forall k, 0 <= k < 64 -> Z.testbit (mstatus_read h) k = entry_bit LM (ti_gva i) s k).
  { intros k Hk. unfold mstatus_read. rewrite Hr by fixed_member. exact (ent_status _ _ _ _ _ _ _ Hent k Hk). }
  rewrite (mret_run h Hp). cbv zeta. cbn [fst snd]. split; [done|].
  rewrite (entered_mpp _ s h Hwf Hst), (entered_mpv _ s h Hst).
  set (s0 := return_state (epc_read MEPC h) h). set (v := pop_m_status (mstatus_read h) h).
  set (s1 := clear_vs_sdt _ _).
  assert (X1 : extension_enabled s1 = extension_enabled s).
  { unfold s1. rewrite (ext_core _ _ (core_clear_vs_sdt _ _)). unfold restore_elp. by destruct (ZICFILP_xLPE s0 _ _). }
  assert (M1 : mstatus_read s1 = mstatus_read h).
  { unfold s1, mstatus_read. rewrite reg_clear_vs_sdt, reg_restore_elp by done. done. }
  set (s2 := if has_tcontrol then _ else _).
  assert (C2 : core s2 = core s1).
  { unfold s2. destruct has_tcontrol; rewrite ?core_tcontrol_write, core_log_mstatush, core_mstatus_write; done. }
  assert (R2 : reg s2 MSTATUS = reg (log_mstatush v (mstatus_write v s1)) MSTATUS).
  { unfold s2. destruct has_tcontrol; [by rewrite reg_tcontrol_write|done]. }
  assert (Hxl : ZICFILP_xLPE (core s0) (virt s) (prv s) = ZICFILP_xLPE s (virt s) (prv s)) by by apply xlpe_same.
  assert (Hcore : core (set_privilege (prv s) (virt s) s2) = set_prv (prv s) (virt s)
     (if ZICFILP_xLPE s (virt s) (prv s) then with_elp (elp s) (core s0) else core s0)).
  { rewrite core_set_privilege_back, C2 by (done || by rewrite (ext_core _ _ C2)). unfold s1. rewrite core_clear_vs_sdt, core_restore_elp, Hxl.
    destruct (ZICFILP_xLPE s (virt s) (prv s)) eqn:Exl; [|done].
    rewrite z2b_b2z, Hst by lia. unfold entry_bit. eval_bits. by rewrite (xlpe_zicfilp _ _ _ Hwf Exl). }
  split_and!.
  - apply (returned_intro MEPC); [done| |exact Hcore].
    rewrite Hr by fixed_member. exact (ent_epc _ _ _ _ _ _ _ Hent).
  - intros k Hk. unfold mstatus_read. rewrite reg_set_privilege, R2. fold (mstatus_read (log_mstatush v (mstatus_write v s1))).
    rewrite log_mstatush_same by lia. by apply mret_status_bit.
  - intros Hn. rewrite reg_set_privilege. unfold s2.
    assert (Ev : reg (log_mstatush v (mstatus_write v s1)) VSSTATUS = reg s VSSTATUS).
    { rewrite reg_log_mstatush, reg_mstatus_write by done. unfold s1. rewrite Hn. cbn [clear_vs_sdt].
      unfold clear_vs_sdt. rewrite reg_restore_elp. change (reg s0 VSSTATUS) with (reg h VSSTATUS).
      rewrite Hr by fixed_member. apply (ent_other _ _ _ _ _ _ _ Hent). cbn. intros Hin.
      apply list_elem_of_In in Hin. cbn in Hin. intuition discriminate. }
    destruct has_tcontrol; [by rewrite reg_tcontrol_write|done].
Qed.

(** *** [sret] *)

Definition pop_s_status (st : Z) : Z :=
  let st := set_field st MSTATUS_SIE (get_field st MSTATUS_SPIE) in
  let st := set_field st MSTATUS_SPIE 1 in
  let st := set_field st MSTATUS_SPP PRV_U in
  let st := set_field st SSTATUS_SPELP 0 in
  set_field st SSTATUS_SDT 0.

Lemma pop_s_bits st k : 0 <= k < 64 ->
  Z.testbit (pop_s_status st) k =
  if (k =? 24) || (k =? 23) || (k =? 8) then false else if k =? 5 then true
  else if k =? 1 then Z.testbit st 5 else Z.testbit st k.
Proof using.
  intros Hk. unfold pop_s_status. cbv zeta. autorewrite with status.
  destruct (k =? 24); [done|]. destruct (k =? 23); [done|]. by destruct (k =? 8).
Qed.

(** What [sret] leaves in bit [k] of the status register, in terms of the register
    before the trap. *)
Definition sret_bit (old : Z) (k : Z) : bool :=
  if k =? 5 then true
  else if k =? 8 then false
  else if k =? 23 then negb (const_ext EXT_ZICFILP) && Z.testbit old k
  else Z.testbit old k.

Lemma s_return_bits dte old cur rd k : const_ext EXT_S = true -> 0 <= k < 64 ->
  (forall j, 0 <= j < 64 -> Z.testbit (sdt_mask sstatus_write_mask dte) j = true ->
    Z.testbit rd j = Z.testbit cur j) ->
  Z.testbit old 24 = false ->
  (forall j, 0 <= j < 64 -> j <> sd_pos -> j <> 17 -> Z.testbit cur j =
     if j =? 1 then false else if j =? 5 then Z.testbit old 1 else if j =? 8 then Z.testbit cur 8
     else if j =? 23 then if const_ext EXT_ZICFILP then Z.testbit cur 23 else Z.testbit old j
     else if j =? 24 then (const_ext EXT_SSDBLTRP && dte && Z.testbit cur 24) || Z.testbit old j
     else Z.testbit old j) ->
  k <> sd_pos -> k <> 17 ->
  Z.testbit (s_status_next dte cur (pop_s_status rd)) k = sret_bit old k.
Proof using.
  intros HS Hk Hrd H24 Hcur Hsd H17.
  assert (Hmask : forall j, 0 <= j < 64 -> j = 1 \/ j = 5 \/ j = 8 ->
    Z.testbit (sdt_mask sstatus_write_mask dte) j = true).
  { intros j Hj Hj'. rewrite sdt_mask_testbit, sstatus_write_mask_testbit, HS by lia.
    replace ((j =? 1) || (j =? 5) || (j =? 8)) with true by lia. replace (j =? 24) with false by lia.
    by rewrite orb_true_r. }
  assert (M24 : Z.testbit (sdt_mask sstatus_write_mask dte) 24 = const_ext EXT_SSDBLTRP && dte).
  { rewrite sdt_mask_testbit, sstatus_write_mask_testbit by lia. by eval_bits. }
  assert (M23 : Z.testbit (sdt_mask sstatus_write_mask dte) 23 = const_ext EXT_ZICFILP).
  { rewrite sdt_mask_testbit, sstatus_write_mask_testbit by lia. by eval_bits. }
  pose proof sd_pos_range as Hsp.
  assert (N24 : (if const_ext EXT_SSDBLTRP && dte then false else Z.testbit cur 24) = false).
  { destruct (const_ext EXT_SSDBLTRP && dte) eqn:Ed; [done|].
    rewrite Hcur, H24 by lia. done. }
  rewrite s_status_next_testbit by olia. cbv beta zeta. rewrite !pop_s_bits, M24 by olia. eval_bits. rewrite N24.
  unfold sret_bit. destruct (Z.eqb_spec k 1) as [->|].
  { rewrite (Hmask 1) by olia. eval_bits. rewrite Hrd, Hcur by (olia || (apply Hmask; olia)). by eval_bits. }
  destruct (Z.eqb_spec k 5) as [->|]; [by rewrite (Hmask 5) by olia; eval_bits|].
  destruct (Z.eqb_spec k 8) as [->|]; [by rewrite (Hmask 8) by olia; eval_bits|].
  destruct (Z.eqb_spec k 23) as [->|].
  { rewrite M23, Hcur by olia. eval_bits. by destruct (const_ext EXT_ZICFILP). }
  destruct (Z.eqb_spec k 24) as [->|]; [rewrite M24; eval_bits; by rewrite N24, H24|].
  cbn [orb]. destruct (Z.testbit (sdt_mask sstatus_write_mask dte) k) eqn:Em; [rewrite Hrd by done|];
    rewrite Hcur by olia;
    repeat match goal with |- context [k =? ?n] => replace (k =? n) with false by olia end; done.
Qed.

Lemma sret_run_hs h : prv h = PRV_S -> virt h = false -> extension_enabled h EXT_S = true ->
  Z.testbit (mstatus_read h) 22 = false ->
  let st := nonvirtual_sstatus_read h in
  let prev_prv := b2z (Z.testbit st 8) in
  let prev_virt := extension_enabled h EXT_H && Z.testbit (reg h HSTATUS) 7 in
  let s := return_state (epc_read SEPC h) h in
  let s := if extension_enabled h EXT_H then hstatus_write (set_field (reg h HSTATUS) HSTATUS_SPV 0) s else s in
  let s := mstatus_write (set_field (mstatus_read s) MSTATUS_MPRV 0) s in
  let s := restore_elp prev_virt prev_prv (b2z (Z.testbit st 23)) s in
  let s := clear_vs_sdt (prev_virt && (prev_prv =? PRV_U)) s in
  sret h = (inr tt, set_privilege prev_prv prev_virt (nonvirtual_sstatus_write (pop_s_status st) s)).
Proof using.
  intros Hp Hv HS Htsr. cbv zeta.
  assert (Hq : z2b (get_field (mstatus_read h) MSTATUS_TSR) = false).
  { change MSTATUS_TSR with (2 ^ 22). by rewrite flag_get, z2b_b2z by lia. }
  unfold sret, require_extension, require_privilege, require, ext_enabled, set_pc_and_serialize, modify.
  unfold mbind, M_bind, gets, stdpp.base.mret, M_ret. cbv beta iota.
  rewrite HS. cbv beta iota. rewrite Hv. cbv beta iota. rewrite Hq, Hp.
  change (PRV_S <=? PRV_S) with true. cbv iota beta.
  unfold sepc_read. rewrite Hv. fold (return_state (epc_read SEPC h) h).
  set (s0 := return_state _ h).
  assert (Es : sstatus_read s0 = nonvirtual_sstatus_read h).
  { unfold sstatus_read. change (virt s0) with (virt h). by rewrite Hv. }
  rewrite Es. change (virt s0) with (virt h). rewrite Hv. cbn [negb andb].
  change (extension_enabled s0 EXT_H) with (extension_enabled h EXT_H).
  set (st := nonvirtual_sstatus_read h). cbv beta zeta. rewrite get_SPP, get_SPV, z2b_b2z.
  set (pp := b2z (Z.testbit st 8)).
  assert (Epv : (if extension_enabled h EXT_H then Z.testbit (reg h HSTATUS) 7 else false) =
     extension_enabled h EXT_H && Z.testbit (reg h HSTATUS) 7) by by destruct (extension_enabled h EXT_H).
  rewrite Epv. set (pv := _ && Z.testbit (reg h HSTATUS) 7).
  set (s1 := if extension_enabled h EXT_H then _ else s0).
  assert (C1 : core s1 = core s0).
  { unfold s1. destruct (extension_enabled h EXT_H); [apply core_hstatus_write|done]. }
  set (s2 := mstatus_write _ s1).
  assert (He : get_field (set_field (set_field (set_field st MSTATUS_SIE (get_field st MSTATUS_SPIE)) MSTATUS_SPIE 1)
                 MSTATUS_SPP PRV_U) SSTATUS_SPELP = b2z (Z.testbit st 23)).
  { rewrite get_SPELP. autorewrite with status. by eval_bits. }
  rewrite He. set (s3 := restore_elp pv pp _ s2).
  assert (C3 : prv s3 = PRV_S /\ virt s3 = false).
  { change (prv s3) with (prv (core s3)). change (virt s3) with (virt (core s3)).
    unfold s3, s2. rewrite core_restore_elp, core_mstatus_write, C1.
    change (core s0) with (with_spc (epc_read SEPC h &! pc_alignment_mask h) (with_npc PC_SERIALIZE_AFTER (core h))).
    destruct (ZICFILP_xLPE _ pv pp); cbn; by rewrite ?Hp, ?Hv. }
  destruct C3 as [P3 V3]. rewrite P3. change (PRV_S =? PRV_M) with false. cbv iota.
  rewrite P3, V3. change (PRV_S =? PRV_S) with true. cbn [negb andb]. cbv iota.
  unfold sstatus_write. change (virt (clear_vs_sdt (pv && (pp =? PRV_U)) s3)) with (virt (core (clear_vs_sdt (pv && (pp =? PRV_U)) s3))).
  rewrite core_clear_vs_sdt. change (virt (core s3)) with (virt s3). by rewrite V3.
Qed.

Lemma sret_run_vs h : prv h = PRV_S -> virt h = true -> extension_enabled h EXT_S = true ->
  Z.testbit (reg h HSTATUS) 22 = false ->
  let st := vsstatus_read h in
  let prev_prv := b2z (Z.testbit st 8) in
  let s := return_state (epc_read VSEPC h) h in
  let s := restore_elp true prev_prv (b2z (Z.testbit st 23)) s in
  sret h = (inr tt, set_privilege prev_prv true (vsstatus_write (pop_s_status st) s)).
Proof using.
  intros Hp Hv HS Hvtsr. cbv zeta.
  assert (Hq : z2b (get_field (reg h HSTATUS) HSTATUS_VTSR) = false).
  { change HSTATUS_VTSR with (2 ^ 22). by rewrite flag_get, z2b_b2z by lia. }
  unfold sret, require_extension, require_privilege, require, ext_enabled, set_pc_and_serialize, modify.
  unfold mbind, M_bind, gets, stdpp.base.mret, M_ret. cbv beta iota.
  rewrite HS. cbv beta iota. rewrite Hv. cbv beta iota. rewrite Hq, Hp.
  change (PRV_S =? PRV_U) with false. cbn [orb]. cbv iota beta.
  unfold sepc_read. rewrite Hv. fold (return_state (epc_read VSEPC h) h).
  set (s0 := return_state _ h).
  assert (Es : sstatus_read s0 = vsstatus_read h).
  { unfold sstatus_read. change (virt s0) with (virt h). by rewrite Hv. }
  rewrite Es. change (virt s0) with (virt h). rewrite Hv. cbn [negb andb].
  set (st := vsstatus_read h). cbv beta zeta. rewrite get_SPP. set (pp := b2z (Z.testbit st 8)).
  assert (He : get_field (set_field (set_field (set_field st MSTATUS_SIE (get_field st MSTATUS_SPIE)) MSTATUS_SPIE 1)
                 MSTATUS_SPP PRV_U) SSTATUS_SPELP = b2z (Z.testbit st 23)).
  { rewrite get_SPELP. autorewrite with status. by eval_bits. }
  rewrite He. set (s3 := restore_elp true pp _ s0).
  assert (C3 : prv s3 = PRV_S /\ virt s3 = true).
  { change (prv s3) with (prv (core s3)). change (virt s3) with (virt (core s3)).
    unfold s3. rewrite core_restore_elp.
    change (core s0) with (with_spc (epc_read VSEPC h &! pc_alignment_mask h) (with_npc PC_SERIALIZE_AFTER (core h))).
    destruct (ZICFILP_xLPE _ true pp); cbn; by rewrite ?Hp, ?Hv. }
  destruct C3 as [P3 V3]. rewrite P3. change (PRV_S =? PRV_M) with false. cbv iota.
  rewrite P3, V3. change (PRV_S =? PRV_S) with true. cbn [negb andb]. cbv iota. cbn [clear_vs_sdt].
  unfold sstatus_write, clear_vs_sdt. by rewrite V3.
Qed.

(** Reading a supervisor status gives the bits a write can change. *)
Lemma status_read_writable dte st j : 0 <= j < 64 -> Z.testbit (sdt_mask sstatus_write_mask dte) j = true ->
  Z.testbit (st &! sdt_mask sstatus_read_mask dte) j = Z.testbit st j.
Proof using.
  intros Hj Hm. rewrite sdt_mask_testbit in Hm by lia. apply andb_prop in Hm as [Hm Hd].
  by rewrite Z.land_spec, sdt_mask_testbit, sstatus_read_mask_testbit, Hd, andb_true_r by (done || lia).
Qed.

Lemma status_read_SPP dte st : const_ext EXT_S = true ->
  Z.testbit (st &! sdt_mask sstatus_read_mask dte) 8 = Z.testbit st 8.
Proof using.
  intros HS. apply status_read_writable; [lia|]. rewrite sdt_mask_testbit, sstatus_write_mask_testbit, HS by lia.
  by eval_bits.
Qed.
Lemma status_read_SPELP dte st : const_ext EXT_ZICFILP = true ->
  Z.testbit (st &! sdt_mask sstatus_read_mask dte) 23 = Z.testbit st 23.
Proof using.
  intros HS. apply status_read_writable; [lia|]. rewrite sdt_mask_testbit, sstatus_write_mask_testbit, HS by lia.
  by eval_bits.
Qed.
(** Neither [SD] nor [MPRV] is writable through a supervisor status. *)
Lemma not_writable dte j : 0 <= j < 64 -> Z.testbit (sdt_mask sstatus_write_mask dte) j = true ->
  j <> sd_pos /\ j <> 17.
Proof using.
  intros Hj Hm. pose proof sd_pos_range as Hsd.
  rewrite sdt_mask_testbit, sstatus_write_mask_testbit in Hm by lia.
  split; intros Hj'; assert (Hc : j = 63 \/ j = 31 \/ j = 17) by lia;
    destruct Hc as [-> | [-> | ->]]; cbn in Hm; rewrite ?andb_false_r in Hm; done.
Qed.

Lemma clear_mprv_bits s j : wf_hart s -> 0 <= j < 64 -> j <> sd_pos ->
  Z.testbit (mstatus_read (mstatus_write (set_field (mstatus_read s) MSTATUS_MPRV 0) s)) j =
  if (j =? 17) && const_ext EXT_U then false else Z.testbit (mstatus_read s) j.
Proof using.
  intros Hwf Hj Hsd. rewrite mstatus_write_bit by olia. replace (j =? sd_pos) with false by olia.
  rewrite mstatus_next_testbit by olia. set (v := set_field _ _ 0).
  assert (Hv : forall i, 0 <= i < 64 -> Z.testbit v i = if i =? 17 then false else Z.testbit (mstatus_read s) i)
    by (intros i Hi; by apply set_MPRV).
  assert (Hm : get_field v MSTATUS_MPP = get_field (mstatus_read s) MSTATUS_MPP)
    by (rewrite !get_MPP, !Hv by olia; done).
  rewrite Hm, (wf_mpp s Hwf), get_MPP, !Hv by olia. eval_bits.
  destruct (Z.eqb_spec j 3) as [->|].
  { eval_bits. destruct (Z.testbit (mstatus_read s) 42) eqn:E42.
    - rewrite (wf_mdt s Hwf) by done. by destruct (extension_enabled s EXT_SMDBLTRP).
    - by destruct (extension_enabled s EXT_SMDBLTRP); rewrite andb_true_r. }
  destruct ((j =? 11) || (j =? 12)) eqn:Ej.
  { assert (Hj' : j = 11 \/ j = 12) by (clear - Ej; lia).
    destruct Hj' as [-> | ->]; eval_bits; change (11 - 11) with 0; change (12 - 11) with 1;
      by destruct (Z.testbit (mstatus_read s) 11), (Z.testbit (mstatus_read s) 12). }
  destruct (Z.eqb_spec j 17) as [->|].
  - destruct (mask_m_bits s s Hwf eq_refl) as (_ & _ & _ & _ & _ & M17 & _). rewrite M17. by destruct (const_ext EXT_U).
  - by destruct (Z.testbit (mstatus_write_mask s) j).
Qed.

Lemma sret_returned_hs interrupt code i epc s r h : wf_hart s -> const_ext EXT_S = true -> prv s <> PRV_M ->
  Z.testbit (mstatus_read s) 24 = false ->
  entered LHS interrupt code i epc s r -> at_return LHS s r h -> wf_hart h ->
  Z.testbit (mstatus_read h) 22 = false ->
  fst (sret h) = inr tt /\ returned epc s h (snd (sret h)) /\
  (forall k, 0 <= k < 64 -> Z.testbit (mstatus_read (snd (sret h))) k =
     if k =? 17 then false else sret_bit (mstatus_read s) k).
Proof using.
  intros Hwf HS Hne H24 Hent [Hp Hv Hx (E1 & E2 & E3 & E4) Hr] Hwfh Htsr. cbn [level_prv level_virt] in Hp, Hv.
  assert (Hst : forall k, 0 <= k < 64 -> Z.testbit (mstatus_read h) k = entry_bit LHS (ti_gva i) s k).
  { intros k Hk. unfold mstatus_read. rewrite Hr by fixed_member. exact (ent_status _ _ _ _ _ _ _ Hent k Hk). }
  assert (HSh : extension_enabled h EXT_S = true) by (rewrite (fixed h Hwfh); [done|fixed_member]).
  rewrite (sret_run_hs h Hp Hv HSh Htsr). cbv zeta. cbn [fst snd].
  set (dte := z2b (menvcfg h &! MENVCFG_DTE)).
  assert (Hrd : nonvirtual_sstatus_read h = mstatus_read h &! sdt_mask sstatus_read_mask dte) by done.
  assert (H8 : Z.testbit (nonvirtual_sstatus_read h) 8 = Z.testbit (prv s) 0).
  { rewrite Hrd, status_read_SPP, Hst by (exact HS || lia). unfold entry_bit. by eval_bits. }
  assert (Hpp : b2z (Z.testbit (nonvirtual_sstatus_read h) 8) = prv s).
  { rewrite H8. destruct (wf_prv s Hwf) as [-> | [-> | E0]]; done. }
  assert (Hpv : extension_enabled h EXT_H && Z.testbit (reg h HSTATUS) 7 = virt s).
  { destruct (ent_extra _ _ _ _ _ _ _ Hent) as (_ & _ & Hh). rewrite Hr, Hh, Hx by (lia || fixed_member). eval_bits.
    destruct (extension_enabled s EXT_H) eqn:HH; cbn [negb andb]; [done|].
    destruct (virt s) eqn:Ev; [|done]. destruct (wf_virt s Hwf Ev). congruence. }
  rewrite Hpp, Hpv. set (s0 := return_state _ h). set (s1 := if extension_enabled h EXT_H then _ else s0).
  set (s2 := mstatus_write _ s1). set (s3 := restore_elp _ _ _ s2). set (s4 := clear_vs_sdt _ s3).
  assert (W1 : wf_hart s1).
  { unfold s1. apply wf_if; [apply wf_hstatus_write|]; by apply wf_with_spc, hart_wf_with_npc. }
  assert (W4 : wf_hart s4) by (unfold s4, s3, s2; by apply wf_clear_vs_sdt, wf_restore_elp, wf_mstatus_write).
  assert (C1 : core s1 = core s0) by (unfold s1; destruct (extension_enabled h EXT_H); [apply core_hstatus_write|done]).
  assert (M1 : mstatus_read s1 = mstatus_read h).
  { unfold s1. destruct (extension_enabled h EXT_H); [|done]. unfold mstatus_read. by rewrite reg_hstatus_write. }
  assert (M4 : mstatus_read s4 = mstatus_read s2).
  { unfold mstatus_read, s4, s3. rewrite reg_clear_vs_sdt by done. apply reg_restore_elp. }
  assert (HU : const_ext EXT_U = true) by by apply (wf_s_u s Hwf).
  assert (Hcur : forall j, 0 <= j < 64 -> j <> sd_pos -> Z.testbit (mstatus_read s4) j =
     if j =? 17 then false else entry_bit LHS (ti_gva i) s j).
  { intros j Hj Hsd. rewrite M4. unfold s2. rewrite clear_mprv_bits, HU, M1, Hst by (done || lia).
    by rewrite andb_true_r. }
  assert (Hxl : ZICFILP_xLPE (core s0) (virt s) (prv s) = ZICFILP_xLPE s (virt s) (prv s)) by by apply xlpe_same.
  assert (C4 : core s4 = if ZICFILP_xLPE s (virt s) (prv s) then with_elp (elp s) (core s0) else core s0).
  { unfold s4, s3, s2. rewrite core_clear_vs_sdt, core_restore_elp, core_mstatus_write, C1, Hxl.
    destruct (ZICFILP_xLPE s (virt s) (prv s)) eqn:Exl; [|done]. pose proof (xlpe_zicfilp _ _ _ Hwf Exl) as Hz.
    rewrite z2b_b2z, Hrd, status_read_SPELP, Hst by (exact Hz || olia).
    unfold entry_bit. eval_bits. by rewrite Hz. }
  assert (X4 : extension_enabled s4 = extension_enabled s).
  { change (extension_enabled (core s4) = extension_enabled s). rewrite C4.
    by destruct (ZICFILP_xLPE s (virt s) (prv s)). }
  assert (D4 : z2b (menvcfg s4 &! MENVCFG_DTE) = dte).
  { change (menvcfg s4) with (menvcfg (core s4)). rewrite C4. by destruct (ZICFILP_xLPE s (virt s) (prv s)). }
  set (s5 := nonvirtual_sstatus_write _ s4).
  assert (C5 : core s5 = core s4) by apply core_nonvirtual.
  split; [done|]. split.
  - apply (returned_intro SEPC); [done| |].
    + rewrite Hr by fixed_member. exact (ent_epc _ _ _ _ _ _ _ Hent).
    + rewrite core_set_privilege_back, C5, C4 by (done || by rewrite (ext_core _ _ C5)). done.
  - assert (Hbits : forall k, 0 <= k < 64 -> k <> sd_pos -> Z.testbit (mstatus_read s5) k =
      if k =? 17 then false else sret_bit (mstatus_read s) k).
    { intros k Hk Hsd. unfold s5. rewrite nonvirtual_sstatus_write_bit;
        [|exact HS|exact (wf_mpp s4 W4)|exact (wf_mdt s4 W4)|exact Hk|exact Hsd]. rewrite D4.
      destruct (Z.eqb_spec k 17) as [->|].
      - rewrite s_status_next_testbit by olia. cbv beta zeta. eval_bits.
        rewrite sdt_mask_testbit, sstatus_write_mask_testbit, Hcur by olia. by eval_bits.
      - apply s_return_bits; try assumption.
        + intros j Hj Hm. destruct (not_writable _ _ Hj Hm) as [Hj1 Hj2].
          rewrite Hrd, status_read_writable, Hcur, Hst by assumption. apply Z.eqb_neq in Hj2 as ->. done.
        + intros j Hj Hj1 Hj2.
          rewrite (Hcur j), (Hcur 8), (Hcur 23), (Hcur 24) by (pose proof sd_pos_range; olia). apply Z.eqb_neq in Hj2 as ->. eval_bits. unfold entry_bit. eval_bits.
          destruct (Z.eqb_spec j 1) as [|]; [done|]. destruct (Z.eqb_spec j 5) as [|]; [done|].
          destruct (Z.eqb_spec j 8) as [->|]; [done|]. destruct (Z.eqb_spec j 23) as [->|]; [by destruct (const_ext EXT_ZICFILP)|].
          destruct (Z.eqb_spec j 24) as [->|]; [|done]. unfold dte_of, dte. cbn [level_virt eqb orb].
          rewrite E1, andb_true_r. by destruct (const_ext EXT_SSDBLTRP && z2b (menvcfg s &! MENVCFG_DTE)). }
    intros k Hk. unfold mstatus_read at 1. rewrite reg_set_privilege. fold (mstatus_read s5).
    destruct (Z.eq_dec k sd_pos) as [->|]; [|by apply Hbits]. pose proof sd_pos_range as Hsd.
    unfold s5. rewrite nonvirtual_sstatus_write_dirty. fold s5.
    transitivity (Z.testbit (mstatus_read s) sd_pos).
    + rewrite (wf_sd s Hwf). apply dirty_same. intros j Hj H11 H12. rewrite Hbits by olia. unfold sret_bit.
      repeat match goal with |- context [j =? ?n] => replace (j =? n) with false by olia end. done.
    + unfold sret_bit. repeat match goal with |- context [sd_pos =? ?n] => replace (sd_pos =? n) with false by olia end. done.
Qed.

Lemma sret_returned_vs interrupt code i epc s r h : wf_hart s -> const_ext EXT_S = true -> virt s = true ->
  Z.testbit (reg s VSSTATUS) 24 = false ->
  entered LVS interrupt code i epc s r -> at_return LVS s r h -> wf_hart h ->
  Z.testbit (reg s HSTATUS) 22 = false ->
  fst (sret h) = inr tt /\ returned epc s h (snd (sret h)) /\
  (forall k, 0 <= k < 64 -> Z.testbit (reg (snd (sret h)) VSSTATUS) k = sret_bit (reg s VSSTATUS) k) /\
  mstatus_read (snd (sret h)) = mstatus_read s.
Proof using.
  intros Hwf HS Hvs H24 Hent [Hp Hv Hx (E1 & E2 & E3 & E4) Hr] Hwfh Hvtsr. cbn [level_prv level_virt] in Hp, Hv.
  assert (Hst : forall k, 0 <= k < 64 -> Z.testbit (reg h VSSTATUS) k = entry_bit LVS (ti_gva i) s k).
  { intros k Hk. rewrite Hr by fixed_member. exact (ent_status _ _ _ _ _ _ _ Hent k Hk). }
  assert (HSh : extension_enabled h EXT_S = true) by (rewrite (fixed h Hwfh); [done|fixed_member]).
  assert (Hoth : forall o, o ∈ [MSTATUS; HSTATUS] -> reg h o = reg s o).
  { intros o Ho. apply list_elem_of_In in Ho. cbn in Ho. destruct Ho as [<- | [<- | []]]; rewrite Hr by fixed_member;
      apply (ent_other _ _ _ _ _ _ _ Hent); cbn; intros Hin; apply list_elem_of_In in Hin; cbn in Hin; intuition discriminate. }
  assert (Hvh : Z.testbit (reg h HSTATUS) 22 = false) by by rewrite Hoth by fixed_member.
  rewrite (sret_run_vs h Hp Hv HSh Hvh). cbv zeta. cbn [fst snd].
  set (dte := z2b (henvcfg h &! HENVCFG_DTE)).
  assert (Hrd : vsstatus_read h = reg h VSSTATUS &! sdt_mask sstatus_read_mask dte) by done.
  assert (Hpp : b2z (Z.testbit (vsstatus_read h) 8) = prv s).
  { rewrite Hrd, status_read_SPP, Hst by (exact HS || lia). unfold entry_bit. eval_bits.
    destruct (wf_virt s Hwf Hvs) as [Hne _]. destruct (wf_prv s Hwf) as [-> | [-> | E0]]; done. }
  rewrite Hpp. set (s0 := return_state _ h). set (s3 := restore_elp _ _ _ s0).
  assert (Hxl : ZICFILP_xLPE (core s0) true (prv s) = ZICFILP_xLPE s (virt s) (prv s)) by (rewrite Hvs; by apply xlpe_same).
  assert (C3 : core s3 = if ZICFILP_xLPE s (virt s) (prv s) then with_elp (elp s) (core s0) else core s0).
  { unfold s3. rewrite core_restore_elp, Hxl.
    destruct (ZICFILP_xLPE s (virt s) (prv s)) eqn:Exl; [|done]. pose proof (xlpe_zicfilp _ _ _ Hwf Exl) as Hz.
    rewrite z2b_b2z, Hrd, status_read_SPELP, Hst by (exact Hz || olia).
    unfold entry_bit. eval_bits. by rewrite Hz. }
  assert (X3 : extension_enabled s3 = extension_enabled s).
  { change (extension_enabled (core s3) = extension_enabled s). rewrite C3.
    by destruct (ZICFILP_xLPE s (virt s) (prv s)). }
  assert (D3 : z2b (henvcfg s3 &! HENVCFG_DTE) = dte).
  { change (henvcfg s3) with (henvcfg (core s3)). rewrite C3. by destruct (ZICFILP_xLPE s (virt s) (prv s)). }
  assert (R3 : forall o, reg s3 o = reg h o) by (intros o; unfold s3; by rewrite reg_restore_elp).
  set (s5 := vsstatus_write _ s3).
  assert (C5 : core s5 = core s3) by apply core_vsstatus_write.
  split; [done|]. split; [|split].
  - apply (returned_intro VSEPC); [done| |].
    + rewrite Hr by fixed_member. exact (ent_epc _ _ _ _ _ _ _ Hent).
    + rewrite <- Hvs at 1. rewrite core_set_privilege_back, C5, C3 by (done || by rewrite (ext_core _ _ C5)). done.
  - assert (Hnext : forall k, 0 <= k < 64 -> k <> sd_pos -> k <> 17 ->
      Z.testbit (s_status_next dte (reg h VSSTATUS) (pop_s_status (vsstatus_read h))) k = sret_bit (reg s VSSTATUS) k).
    { intros k Hk Hsd Hk17. apply s_return_bits; try assumption.
      + intros j Hj Hm. rewrite Hrd. by apply status_read_writable.
      + intros j Hj Hj1 Hj2. rewrite (Hst j), (Hst 8), (Hst 23), (Hst 24) by olia. unfold entry_bit. cbn [status_of]. eval_bits.
        destruct (Z.eqb_spec j 1) as [|]; [done|]. destruct (Z.eqb_spec j 5) as [|]; [done|].
        destruct (Z.eqb_spec j 8) as [->|]; [done|]. destruct (Z.eqb_spec j 23) as [->|]; [by destruct (const_ext EXT_ZICFILP)|].
        destruct (Z.eqb_spec j 24) as [->|]; [|done]. unfold dte_of, dte. cbn [level_virt eqb orb status_of].
        rewrite E3. destruct (const_ext EXT_SSDBLTRP), (z2b (menvcfg s &! MENVCFG_DTE)), (z2b (henvcfg s &! HENVCFG_DTE)); cbn [andb orb]; by rewrite ?orb_diag. }
    intros k Hk. rewrite reg_set_privilege. unfold s5. rewrite vsstatus_write_reg, adjust_sd_testbit, D3, R3 by olia.
    pose proof sd_pos_range as Hsp. destruct (Z.eqb_spec k sd_pos) as [->|Hsd].
    + transitivity (Z.testbit (reg s VSSTATUS) sd_pos).
      * rewrite (wf_vs_sd s Hwf). apply dirty_same. intros j Hj H11 H12. rewrite Hnext by olia. unfold sret_bit.
        repeat match goal with |- context [j =? ?n] => replace (j =? n) with false by olia end. done.
      * unfold sret_bit. repeat match goal with |- context [sd_pos =? ?n] => replace (sd_pos =? n) with false by olia end. done.
    + destruct (Z.eq_dec k 17) as [->|]; [|by apply Hnext].
      rewrite s_status_next_testbit by olia. cbv beta zeta. eval_bits.
      rewrite sdt_mask_testbit, sstatus_write_mask_testbit, Hst by olia. by eval_bits.
  - unfold mstatus_read. rewrite reg_set_privilege. unfold s5. rewrite reg_vsstatus_write, R3 by done.
    apply Hoth. fixed_member.
Qed.
End xret.
