(* ===== verification/HartProps.v ===== *)
(** * The properties of traps, interrupts and returns

    The theorems about [take_trap], [take_interrupt] and [xRET] that the lemmas of
    [TrapSpec.v], [TrapProps.v], [Interrupt.v] and [XRet.v] add up to, on every hart in a
    well-formed state, and examples on a concrete RV64 hart. *)

From Stdlib Require Import ZifyBool.
From stdpp Require Import sets functions relations.
From S2P Require Import Prelude Arith Decode Hart Mmu Csr Status Trap TrapSpec TrapProps Interrupt XRet.
Local Open Scope cint_scope.

Section properties.
Context {W : Type} `{csr_world W} {C : hart_cfg}.
Implicit Type s h : state W.

Lemma destination_delegated s (interrupt : bool) code : wf_hart s -> 0 <= code ->
  fst (destination s interrupt code) <> LM -> const_ext EXT_S = true /\ prv s <> PRV_M.
Proof using.
  intros Hwf Hc. unfold destination, delegated_to_s. destruct (prv s <=? PRV_S) eqn:Hp; [|done]. cbn [andb].
  intros Hd. split; [|intros Hm; rewrite Hm in Hp; discriminate].
  destruct (const_ext EXT_S) eqn:HS; [done|]. destruct (wf_deleg s Hwf HS) as [E1 E2].
  unfold mideleg_read in Hd.
  destruct (extension_enabled s EXT_H) eqn:EH; [pose proof (wf_h_s s Hwf EH); congruence|].
  destruct interrupt; rewrite ?E1, ?E2, ?Z.bits_0, ?andb_false_r in Hd; done.
Qed.

Lemma destination_virt s (interrupt : bool) code :
  fst (destination s interrupt code) = LVS -> virt s = true.
Proof using.
  unfold destination, delegated_to_vs. destruct (delegated_to_s s interrupt code), (virt s); cbn [andb];
    repeat case_match; done.
Qed.

Lemma testbit_below x n i : 0 <= x < 2 ^ n -> Z.testbit x i = true -> 0 <= n -> i < n.
Proof using.
  intros Hx Hi Hn. destruct (Z.lt_ge_cases i n) as [|Hge]; [done|].
  rewrite (testbit_high n) in Hi by lia. done.
Qed.
Lemma interrupt_cause_range i : max_xlen = 32 \/ max_xlen = 64 -> 0 <= i < max_xlen ->
  0 <= ((1 <<! (max_xlen - 1)) |! i) < 2 ^ max_xlen.
Proof using.
  intros Hx Hi. apply lor_range; [lia| |].
  - destruct Hx as [-> | ->]; vm_compute; intuition discriminate.
  - destruct Hx as [Hx | Hx]; rewrite Hx in *; cbn; lia.
Qed.

Lemma destination_awake s i : destination (update (with_in_wfi false) s) true i = destination s true i.
Proof using.
  unfold destination, delegated_to_vs, delegated_to_s. rewrite !regs_in_wfi.
  destruct (wfi_same s) as (-> & _ & _ & -> & _). done.
Qed.

Lemma critical_awake s l : critical (update (with_in_wfi false) s) l = critical s l.
Proof using. unfold critical. by destruct (wfi_same s) as (_ & _ & -> & _ & ->). Qed.

(** The level a trap of [s] enters. *)
Definition trap_level (t : trap) s : level :=
  fst (destination s (is_interrupt (trap_cause t)) (code_of (trap_cause t))).

Lemma trap_entered t epc s : wf_hart s -> 0 <= trap_cause t < 2 ^ max_xlen -> debug_mode s = false ->
  critical s (trap_level t s) = false ->
  exists interrupt code i, ti_gva i = trap_has_gva t /\ entered (trap_level t s) interrupt code i epc s (take_trap t epc s).
Proof using.
  intros Hwf Hc Hd Hcr. pose proof (take_trap_outcome t epc s Hwf Hc) as Ho. unfold trap_outcome in Ho. cbv zeta in Ho.
  unfold trap_level in *. destruct (destination _ _ _) as [l dbl]. rewrite Hd in Ho. cbn [fst] in Hcr |- *.
  rewrite Hcr in Ho. do 3 eexists. split; [|exact Ho]. by destruct l.
Qed.
Lemma code_of_nonneg s c : wf_hart s -> 0 <= c < 2 ^ max_xlen -> 0 <= code_of c.
Proof using.
  intros Hwf Hc. unfold code_of. destruct (is_interrupt c) eqn:E; [|lia]. by apply (clear_interrupt s).
Qed.

(** Bit [k] of the level's status register after the return. *)
Definition return_bit (l : level) (gva : bool) s (k : Z) : bool :=
  match l with
  | LM => mret_bit gva s k
  | LHS => if k =? 17 then false else sret_bit (mstatus_read s) k
  | LVS => sret_bit (reg s VSSTATUS) k
  end.
Definition xret (E : env) (l : level) : M W unit := match l with LM => mret | _ => sret end.

(** C2: a trap outside debug mode, whose cause fits the register, enters exactly the level that
    privilege and delegation select; a trap into a level whose double-trap bit is set
    goes to M-mode as a double trap, or is a critical error; entering sets pc, privilege, the trap
    registers and each bit of the status register as specified and nothing else. *)
Theorem take_trap_exact t epc s : wf_hart s -> 0 <= trap_cause t < 2 ^ max_xlen ->
  trap_outcome t epc s (take_trap t epc s).
Proof. exact (take_trap_outcome t epc s). Qed.


(** C4: [mret] and [sret] undo the trap: a handler of the level the trap entered that returns
    with the status and exception registers the trap left comes back to the interrupted pc, privilege,
    virtualization and landing-pad state, and each bit of the level's status register is
    the one before the trap, but for the fields that an xRET resets. *)
Theorem xret_returns (E : env) t epc s h : wf_hart s -> wf_hart h -> 0 <= trap_cause t < 2 ^ max_xlen ->
  debug_mode s = false ->
  let l := trap_level t s in
  let f := snd (xret E l h) in
  critical s l = false -> at_return l s (take_trap t epc s) h ->
  (l <> LM -> Z.testbit (reg s (status_of l)) 24 = false /\
              Z.testbit (reg h (match l with LVS => HSTATUS | _ => MSTATUS end)) 22 = false) ->
  fst (xret E l h) = inr tt /\ returned epc s h f /\
  forall k, 0 <= k < 64 -> Z.testbit (reg f (status_of l)) k = return_bit l (trap_has_gva t) s k.
Proof.
  intros Hwf Hwfh Hc Hd l f Hcr Hat Hl.
  destruct (trap_entered t epc s Hwf Hc Hd Hcr) as (interrupt & code & i & Hg & Hent). fold l in Hent.
  assert (Hdel : l <> LM -> const_ext EXT_S = true /\ prv s <> PRV_M)
    by (apply destination_delegated; [done|by apply (code_of_nonneg s)]).
  assert (Hvirt : l = LVS -> virt s = true) by apply destination_virt.
  unfold f. clear f. rewrite <- Hg. destruct l.
  - destruct (mret_returned interrupt code i epc s _ h Hwf Hcr Hent Hat) as (H1 & H2 & H3 & _). done.
  - destruct Hdel as [HS Hne]; [done|]. destruct Hl as [H24 H22]; [done|].
    exact (sret_returned_hs interrupt code i epc s _ h Hwf HS Hne H24 Hent Hat Hwfh H22).
  - destruct Hdel as [HS _]; [done|]. destruct Hl as [H24 H22]; [done|]. cbn [status_of] in H24.
    assert (H22' : Z.testbit (reg s HSTATUS) 22 = false).
    { rewrite <- (ent_other _ _ _ _ _ _ _ Hent HSTATUS), <- (ret_regs _ _ _ _ Hat); [done|fixed_member|].
      intros Hin. apply list_elem_of_In in Hin. cbn in Hin. intuition discriminate. }
    destruct (sret_returned_vs interrupt code i epc s _ h Hwf HS (Hvirt eq_refl) H24 Hent Hat Hwfh H22')
      as (H1 & H2 & H3 & _). done.
Qed.

End properties.

(** ** A concrete hart *)

(** The registers alone, without an MMU. *)
#[program] Definition bare : csr_world csr_file := {|
  csrs_of w := w; set_csrs c _ := c; mmu_flush_tlb w := w; mmu_flush_icache w := w
|}.
Solve Obligations with done.
#[local] Existing Instance bare.

Definition demo_extensions (e : extension) : bool :=
  match e with EXT_S | EXT_U | EXT_H | EXT_ZCA | EXT_SMDBLTRP | EXT_SSDBLTRP | EXT_SSTC => true | _ => false end.
#[local] Instance demo_cfg : hart_cfg := HartCfg 64 demo_extensions true false false.
#[local] Instance demo_env : env := Env 64 false 0 0x80000000.

Definition demo_hart (p : Z) (v : bool) (f : csr_obj -> Z) : state csr_file :=
  State (replicate 32 0) 0 0x80000000 p v false false (DcsrBits false false false false false)
    (MENVCFG_DTE |! MENVCFG_STCE) 0 HENVCFG_STCE 0 demo_extensions
    (CsrFile f (DcsrRest 0 false false false 0 0 false false) 0 false false false STEP_NONE false false).

(** User code under an operating system that handles its calls, with interrupts enabled. *)
Definition user_hart : state csr_file := demo_hart PRV_U false (fun o =>
  match o with
  | MSTATUS => 0x2 | MEDELEG => 0x100 | MIDELEG => MIP_STIP | STVEC => 0x1001 | MTVEC => 0x2000
  | _ => 0
  end).
Definition user_call : trap := plain_trap CAUSE_USER_ECALL.

Lemma user_hart_wf : wf_hart user_hart.
Proof.
  split; try (by vm_compute); try (by intros; vm_compute); try (by vm_compute; auto); by constructor.
Qed.

Lemma take_trap_exact_witness : wf_hart user_hart /\ 0 <= trap_cause user_call < 2 ^ max_xlen /\
  entered LHS false 8 (TrapInfo 8 0 0 0 false) 0x80000000 user_hart (take_trap user_call 0x80000000 user_hart).
Proof.
  split; [exact user_hart_wf|]. split; [vm_compute; intuition discriminate|].
  assert (Hc : 0 <= trap_cause user_call < 2 ^ max_xlen) by (vm_compute; intuition discriminate).
  exact (take_trap_exact user_call 0x80000000 user_hart user_hart_wf Hc).
Defined.


Lemma xret_returns_witness :
  let h := take_trap user_call 0x80000000 user_hart in
  wf_hart user_hart /\ wf_hart h /\ trap_level user_call user_hart = LHS /\ at_return LHS user_hart h h /\
  fst (sret h) = inr tt /\ returned 0x80000000 user_hart h (snd (sret h)).
Proof.
  intros h. assert (Hh : wf_hart h) by (by apply wf_take_trap, user_hart_wf).
  assert (Hr : at_return LHS user_hart h h) by by split.
  split; [exact user_hart_wf|]. split; [exact Hh|]. split; [reflexivity|]. split; [exact Hr|].
  destruct (xret_returns demo_env user_call 0x80000000 user_hart h) as (H1 & H2 & _);
    [exact user_hart_wf|exact Hh|vm_compute; intuition discriminate|reflexivity|reflexivity|exact Hr
    |by intros _; vm_compute|by split].
Defined.


(** An enabled counter-overflow interrupt comes before an external one. *)
Example overflow_before_external :
  fst (take_interrupt (MIP_MEIP |! MIP_LCOFIP) user_hart) = inl (plain_trap (2 ^ 63 + 13)).
Proof. vm_compute. reflexivity. Qed.

(** An [sret] of M-mode code to U-mode leaves the double-trap bit of [mstatus] set. *)
Example sret_from_machine_keeps_SDT :
  let f := snd (sret (demo_hart PRV_M false (fun o => match o with MSTATUS => MSTATUS_SDT | SEPC => 0x4000 | _ => 0 end))) in
  prv f = PRV_U /\ mstatus_read f = MSTATUS_SDT |! MSTATUS_SPIE.
Proof. vm_compute. split; reflexivity. Qed.

(** A write to [stimecmp] clears a pending timer interrupt of the guest, until time is next synchronised. *)
Example stimecmp_clears_guest_timer :
  let s := demo_hart PRV_S false (fun o => match o with MIP => MIP_VSTIP | TIME => 100 | VSTIMECMP => 50 | _ => 0 end) in
  let s1 := stimecmp_write STIMECMP MIP_STIP 1000 s in
  reg s1 MIP = 0 /\ reg (time_sync 100 s1) MIP = MIP_VSTIP.
Proof. vm_compute. split; reflexivity. Qed.
